(* ===== verification/_CoqProject ===== *)
-Q . S2P
Prelude.v
Memory.v
Layout.v
Protocol.v
Stripe.v
File.v
Viewer.v
Bus.v
BusOps.v
BusConcurrent.v
Dial.v
Control.v
Queue.v
Wakeup.v
Attach.v
Conn.v
Copy.v
Message.v
Node.v
Session.v
Serve.v
Delivery.v
Fairness.v
Hub.v
Cleanup.v
Ledger.v
System.v
Pipeline.v
Connect.v
Examples.v
Service.v
