(* ===== verification/Prelude.v ===== *)
(** * MMFG: verification of the Go implementation

    MMFG is a shared-memory message fabric.  A _hub_ process owns memory
    chunks (memfds) and hands out 4 KiB blocks of them; a _node_ process maps
    the same chunks.  A request is a _stripe_, a header block and data blocks.
    To have it processed the hub registers the stripe in a slot of the control
    stripe, pushes the slot on the node's queue and rings the node's eventfd;
    the node opens the stripe from its header, runs a handler on it and
    answers through the response queue.  Descriptors travel over a Unix
    socket, the data never does.

    ** Files

    Each file models a part of the source; a file requires those it calls.

    - [Prelude]: the outcome of Go code (return, panic, not yet returned),
      errors as values, machine integers, indexing, tactics.
    - [Memory]: the bytes behind the chunks, one store for all processes, and
      Go slices as references into it; stores that agree everywhere are equal
      for the setoid rewriting of the loads and stores.
    - [Layout]: go/shm/layout.go.  [Protocol]: go/shm/protocol.go and the types
      of go/shm/stripe.go.  [Stripe]: the accessors of go/shm/stripe.go, which
      [File] shows to implement a byte file.  [Viewer]: [View] and the viewer
      methods of the same file.
    - [Bus]: go/shm/bus.go run one call at a time; [BusOps]: any sequence of
      its calls; [BusConcurrent]: [AllocBlocks] and [FreeBlock] as interleaved
      atomic steps; [Dial]: [tryAppendChunk] with its callback
      [AppendedChunkBroacast] against [Dial] of go/hub/hub.go, lock by lock.
    - [Control]: go/shm/control.go run one call at a time; [Queue]: [Push] and
      [Pop] as interleaved atomic steps; [Wakeup]: these together with the
      eventfd (go/sync/eventfd.go) and the event loops.
    - [Attach]: the loop by which hub and node open a stripe from its header.
      [Conn]: the connection of go/hub/conn.go; [Copy]: its [WriteTo].
    - [Message]: go/sync/message.go, the creation and attachment of chunks
      (go/shm/chunk.go) and the handshake of go/node/node.go; [Node]: the rest
      of go/node/node.go; [Session]: [HandleConn] with
      internal/netutil/netutil.go and the closing of chunks and eventfds;
      [Serve]: the accept loop and all the connections of a node as
      interleaved steps.
    - [Delivery]: [Next] and [Close] of many connections, the dispatch loop and
      the expansion goroutines of go/hub/hub.go as interleaved steps over the
      waiter table, the channels and their pool, with the handlers of the
      nodes; [Fairness]: their infinite executions and what must happen in
      them.
    - [Hub]: go/hub/hub.go with [Request], [Next] and [Close] of
      go/hub/conn.go; [Cleanup]: what the watchdog reclaims; [Ledger]: the hub
      with all its open connections; [System]: one exchange of hub and node;
      [Pipeline]: a connection handed from node to node.
    - [Connect]: the whole of [Dial] composed with the node's end of the
      socket.  [Examples]: the two programs under examples/ run against each
      other.  [Service]: the hub, its connections and its nodes under any
      sequence of calls, against a table of byte strings as specification.

    ** Modelling

    A definition has the name of the function it translates, prefixed
    ([conn_Read], [node_Read]) where several types have a method of that name;
    loops are functions of their own.  State is passed explicitly: the store,
    the bus, the hub, the node, the connection.  A returned Go error is a value
    of [goerror]; a panic is [Panic]; a loop modelled with fuel that has not
    ended is [Diverge], and theorems state that the code returns, never only
    what holds if it does.  Concurrent code is a step function per program
    counter, and a theorem about it speaks of every reachable state, or, for
    liveness, of every infinite execution in which the processes are treated
    fairly.  What lies
    outside the repository (system calls, sockets, the handler, an
    [io.Writer]) is an argument; what the code relies on is a class:
    [ChunkSource] (new chunks are fresh memory), [EventFd] with [EventFdLaws],
    [Sink] (a writer that accepts).  Between components the promises are
    [RegMem] with [RegLaws] (the control region is a set of independent
    registers, against which the queue is proved and which [Control]
    discharges) and [ChunkView] (a chunk lookup that agrees with the bus, for
    hub and node alike).

    ** Theorems

    - Data: a stripe refines a byte file, writes are read back, a view is a
      window of the data and its methods compute on that window, a connection
      returns what was written to it across growth, [WriteTo] terminates and
      drains it.
    - Allocation: blocks are handed out once, under any interleaving; failures
      restore the bitmap; enough free blocks suffice; calls of the bus with
      arguments that make sense return and leave it well formed; stripes are
      built, grown and freed exactly.
    - Control region: the layout is disjoint and in bounds, initialisation and
      registry round trips, slots and node ids are taken and returned exactly.
    - Queues: bounded FIFO, sequentially and under any interleaving; a waiting
      consumer waits for a producer at its store; no wake-up is lost.
    - Hub and node: a new hub is ready, a handshake agrees at both ends, every
      chunk is announced once and in order to each node of the table, a session
      releases each descriptor that reaches it and each mapping exactly once, a
      slot is processed on the registered stripe, an expansion is granted or
      refused without side effects, what a node that goes held in slots 1 to
      4095 is taken back; the ledger of blocks, slots and tokens balances after
      any sequence of requests, writes and closes; connections are isolated; an
      exchange returns what the handler left, and a chain of exchanges the
      composition of what the handlers compute.
    - Concurrency of the hub, for handlers that return once an expansion was
      refused to them: each response finds its connection and only that one,
      the dispatch loop never blocks on a channel, and under fair scheduling a
      waiting [Next] returns.  The descriptors and mappings of a node that
      serves one hub after another are accounted for.
    - End to end: [Dial] leaves hub and node connected, the example programs
      run from [NewHub] to [Close] with everything given back, and the whole
      service refines a table of byte strings, chunks appended and announced
      on the way included.
    - Limits of the code, proved as such: the queue at the wrap of its 32-bit
      counters, sequences beyond a header block, a node's write beyond its
      blocks, the deadlock of [Dial] with [tryAppendChunk], the ids a failing
      [Dial] keeps, what overlapping sessions of a node leave open, the
      descriptors of a message whose control data does not parse, what a node
      holds in slot 4096, a failed broadcast and a second [Dial] under the same
      name, after which a node misses chunks, and the late response of a
      handler that panics after a refusal, which stops the dispatch loop.

    ** Bounds and fuel

    - [read_loop] and [write_loop] run once per block and once more;
      [alloc_loop] once per chunk that can be added and once more
      ([MaxChunks + 1]); [Push] spins 75 times on a full queue, as the source
      does, so 76 rounds are enough when nothing else runs; [copy_loop]
      once per buffer and twice more.  The loops that wait for another process
      ([pop_wait], [pushResponse], [pushToNode]) have their fuel as an
      argument; run alone on a queue with room or an entry they need one unit,
      and a waiting consumer is shown to wait for one producer's next step.
    - The queue theorems speak of fewer than 2^32 commands per queue; at the
      wrap the queue overwrites an entry, which is proved too.
    - Theorems about headers take stripes of at most 1022 blocks, which is what
      a header block can describe in the worst case (two entries per block);
      beyond the header entries are cut off.  A connection's data stays
      within 1021 blocks of data for the same reason.

    ** Not modelled

    The binding of a socket in [Listen] and the blocking read of [watchdog],
    which are system calls without logic; [Procyield], an assembly pause
    without effect on memory; logging and the texts of errors.  The interleaved
    model of the delivery is for nodes that stay connected.  Fairness is an
    hypothesis on the scheduler: weak for the hub and the connections, strong
    for the handlers, which poll a full queue and must end.  Memory is sequentially consistent: Go's
    atomics are, and plain accesses to a stripe are ordered by the queues.  The
    Rust port is a program of its own. *)
From stdpp Require Import base tactics list numbers option gmap.
From Stdlib Require Import ZArith Lia.
#[local] Open Scope Z_scope.

(** ** Outcomes of Go code

    A Go function either returns, panics (index out of range, nil
    dereference, negative make), or, for a loop modelled with fuel, has not
    returned yet.  Errors that the source *returns* are ordinary values of
    type [option goerror]; [None] is Go's [nil] error. *)
Inductive outcome (A : Type) : Type :=
| Ret (a : A)
| Panic
| Diverge.
Arguments Ret {A} _.
Arguments Panic {A}.
Arguments Diverge {A}.

#[export] Instance outcome_ret : MRet outcome := fun A a => Ret a.
#[export] Instance outcome_bind : MBind outcome := fun A B f o =>
  match o with
  | Ret a => f a
  | Panic => Panic
  | Diverge => Diverge
  end.
#[export] Instance outcome_fmap : FMap outcome := fun A B f o =>
  match o with
  | Ret a => Ret (f a)
  | Panic => Panic
  | Diverge => Diverge
  end.

(** As an equation, for goals where reducing a bind would also run the
    computation that follows it. *)
Lemma bind_ret {A B} (a : A) (f : A -> outcome B) : (x ← Ret a; f x) = f a.
Proof. reflexivity. Qed.

(** A sequence returns only if its first part does. *)
Lemma bind_ret_inv {A B} (o : outcome A) (f : A -> outcome B) b :
  (x ← o; f x) = Ret b -> exists a, o = Ret a /\ f a = Ret b.
Proof. destruct o as [a| |]; [by exists a|discriminate..]. Qed.

(** The errors returned by the modelled code, one constructor per message. *)
Inductive goerror : Type :=
| ErrNegativeOffset        (* "negative offset" *)
| ErrEOF                   (* io.EOF *)
| ErrCapacity              (* "stripe capacity exceeded" *)
| ErrOutOfBounds           (* "out of bounds" *)
| ErrAlloc                 (* "failed to allocate %d blocks" *)
| ErrSys                   (* an error returned by a system call *)
| ErrNilChunk              (* "firstChunk cannot be nil" *)
| ErrNilCallback           (* "onChunkAppended cannot be nil" *)
| ErrChunkNotFound         (* "chunk %d not found" *)
| ErrNoSlots               (* "no slots available" *)
| ErrMaxNodes              (* "max nodes reached" *)
| ErrNodeNotFound          (* "target node not found" *)
| ErrNodeClosed            (* "node closed" *)
| ErrNodeDisconnected      (* "node disconnected while request queue full" *)
| ErrTimeout               (* "timed out waiting for previous owner ..." *)
| ErrNotOwner              (* "Node %d requested expand ... is not the owner" *)
| ErrNoRequest             (* "no active request" *)
| ErrLimit                 (* "stripe block count limit reached ..." *)
| ErrPushExpand            (* "failed to push expand request" *)
| ErrExpand                (* "failed to expand stripe" *)
| ErrShortHeader           (* "short header: got %d bytes, want 7" *)
| ErrBadHeader             (* "Invalid handshake header: %s" *)
| ErrVersion               (* "Unsupported version: %d" *)
| ErrNodeID                (* "invalid nodeID %d" *)
| ErrFds                   (* "expected at least 3 fds, got %d" *)
| ErrShortWrite            (* io.ErrShortWrite *)
| ErrInvalidWrite.         (* "invalid write result", of io.Copy *)

#[export] Instance goerror_eq_dec : EqDecision goerror.
Proof. solve_decision. Defined.

(** ** Machine integers

    A [w]-bit integer is a [Z]; conversions wrap explicitly.  [int] and
    [int64] are 64 bits wide on both supported targets (amd64, arm64). *)
Definition u8 (z : Z) : Z := z mod 256.
Definition u16 (z : Z) : Z := z mod 65536.
Definition u32 (z : Z) : Z := z mod 4294967296.
Definition u64 (z : Z) : Z := z mod 18446744073709551616.
Definition i16 (z : Z) : Z := (z + 32768) mod 65536 - 32768.
Definition i64 (z : Z) : Z :=
  (z + 9223372036854775808) mod 18446744073709551616 - 9223372036854775808.

(** Go's [^x] on a signed integer. *)
Definition go_not (z : Z) : Z := -1 - z.

(** Indexing a Go slice or array of values: out of range panics. *)
Definition go_index {A} (l : list A) (i : Z) : outcome A :=
  if decide (0 <= i) then
    match l !! Z.to_nat i with
    | Some a => Ret a
    | None => Panic
    end
  else Panic.

(** [make([]T, 0, n)] and [make([]T, n)] panic on a negative size. *)
Definition go_make_check (n : Z) : outcome unit :=
  if decide (n < 0) then Panic else Ret tt.

(** ** Lemmas on widths *)
Create HintDb mmfg.
Create Rewrite HintDb mmfg.

Lemma u8_small z : 0 <= z < 256 -> u8 z = z.
Proof. intros H. unfold u8. apply Z.mod_small, H. Qed.

Lemma u16_small z : 0 <= z < 65536 -> u16 z = z.
Proof. intros H. unfold u16. apply Z.mod_small, H. Qed.

Lemma u32_small z : 0 <= z < 4294967296 -> u32 z = z.
Proof. intros H. unfold u32. apply Z.mod_small, H. Qed.

Lemma u64_small z : 0 <= z < 18446744073709551616 -> u64 z = z.
Proof. intros H. unfold u64. apply Z.mod_small, H. Qed.

Lemma i64_small z :
  -9223372036854775808 <= z < 9223372036854775808 -> i64 z = z.
Proof. intros H. unfold i64. rewrite Z.mod_small; lia. Qed.

Lemma i16_small z : -32768 <= z < 32768 -> i16 z = z.
Proof. intros H. unfold i16. rewrite Z.mod_small; lia. Qed.

Lemma u8_range z : 0 <= u8 z < 256.
Proof. unfold u8. apply Z.mod_pos_bound. lia. Qed.

Lemma u16_range z : 0 <= u16 z < 65536.
Proof. unfold u16. apply Z.mod_pos_bound. lia. Qed.

Lemma u32_range z : 0 <= u32 z < 4294967296.
Proof. unfold u32. apply Z.mod_pos_bound. lia. Qed.

Lemma i16_range z : -32768 <= i16 z < 32768.
Proof.
  unfold i16. pose proof (Z.mod_pos_bound (z + 32768) 65536). lia.
Qed.

(** Reinterpreting an [int16] as [uint16] and back loses nothing. *)
Lemma i16_u16 z : i16 (u16 z) = i16 z.
Proof.
  unfold i16, u16. rewrite Zplus_mod_idemp_l. reflexivity.
Qed.

Lemma go_not_invol z : go_not (go_not z) = z.
Proof. unfold go_not. lia. Qed.

#[export] Hint Rewrite go_not_invol i16_u16 : mmfg.

(** ** Lists indexed by [Z] *)
Lemma go_index_Ret {A} (l : list A) i a :
  go_index l i = Ret a <-> 0 <= i /\ l !! Z.to_nat i = Some a.
Proof.
  unfold go_index. case_decide; [|naive_solver].
  destruct (l !! Z.to_nat i); naive_solver.
Qed.

Lemma go_index_lookup {A} (l : list A) i a :
  0 <= i -> l !! Z.to_nat i = Some a -> go_index l i = Ret a.
Proof. intros ??. by apply go_index_Ret. Qed.

Lemma go_index_neg {A} (l : list A) i : i < 0 -> go_index l i = Panic.
Proof. intros ?. unfold go_index. by rewrite decide_False by lia. Qed.

Lemma go_index_in_range {A} (l : list A) i :
  0 <= i < Z.of_nat (length l) -> exists a, go_index l i = Ret a.
Proof.
  intros H. destruct (lookup_lt_is_Some_2 l (Z.to_nat i)) as [a Ha]; [lia|].
  exists a. apply go_index_lookup; [lia|done].
Qed.

Lemma lookup_drop_take {A} (l : list A) n k i :
  (i < k)%nat -> take k (drop n l) !! i = l !! (n + i)%nat.
Proof. intros H. by rewrite lookup_take_lt, lookup_drop. Qed.

(** ** Automation

    [inv_outcome] closes or uses equations between outcomes. *)
Ltac inv_outcome :=
  repeat match goal with
  | H : Ret _ = Ret _ |- _ => injection H as H; subst
  | H : Ret _ = Panic |- _ => discriminate H
  | H : Ret _ = Diverge |- _ => discriminate H
  | H : Panic = Ret _ |- _ => discriminate H
  | H : Diverge = Ret _ |- _ => discriminate H
  end.

(** Reduce a bind whose first computation is known. *)
Ltac go_bind := cbn [mbind outcome_bind mret outcome_ret fmap outcome_fmap].

Ltac split_ands := repeat match goal with |- _ /\ _ => split end.

(** Case analysis on the scrutinee of the first conditional or match of the
    goal, keeping its equation. *)
Ltac case_goal :=
  match goal with
  | |- context [ match ?e with _ => _ end ] =>
      lazymatch e with
      | context [ match _ with _ => _ end ] => fail
      | _ => destruct e eqn:?
      end
  end.

(** Division by a positive constant: expose quotient and remainder. *)
Ltac divmod := Z.div_mod_to_equations; nia.
