(* ===== verification/Memory.v ===== *)
(** * Shared memory

    The memory behind the memfd chunks.  Every process maps the same pages
    (MAP_SHARED), so there is one store for hub and nodes.  A byte is
    addressed by the chunk it lies in and its offset there, flattened to
    [chunk * ChunkSize + offset].  A fresh memfd reads as zeros, hence the
    default value of [load].  A Go slice over mapped memory is a reference
    (base address and length) into the store, so slices alias exactly as
    they do in the program. *)
From stdpp Require Import base tactics list numbers option gmap.
From Stdlib Require Import ZArith Lia.
From S2P Require Import Prelude.
#[local] Open Scope Z_scope.

Abbreviation mem := (gmap Z Z).

Definition load (m : mem) (a : Z) : Z := default 0 (m !! a).
Definition store (m : mem) (a v : Z) : mem := <[a := v]> m.

Fixpoint load_bytes (m : mem) (a : Z) (n : nat) : list Z :=
  match n with
  | O => []
  | S n' => load m a :: load_bytes m (a + 1) n'
  end.

Fixpoint store_bytes (m : mem) (a : Z) (bs : list Z) : mem :=
  match bs with
  | [] => m
  | b :: bs' => store_bytes (store m a b) (a + 1) bs'
  end.

(** Little-endian integers: [binary.LittleEndian] and the native atomics of
    amd64 and arm64. *)
Fixpoint le_bytes (n : nat) (z : Z) : list Z :=
  match n with
  | O => []
  | S n' => z mod 256 :: le_bytes n' (z / 256)
  end.

Fixpoint le_val (bs : list Z) : Z :=
  match bs with
  | [] => 0
  | b :: bs' => b + 256 * le_val bs'
  end.

Definition load_le (m : mem) (a : Z) (n : nat) : Z := le_val (load_bytes m a n).
Definition store_le (m : mem) (a : Z) (n : nat) (v : Z) : mem :=
  store_bytes m a (le_bytes n v).

(** Go's [[]byte] over mapped memory. *)
Record slice : Type := Slice { sl_base : Z; sl_len : Z }.

Definition nil_slice : slice := Slice 0 0.

#[export] Instance slice_eq_dec : EqDecision slice.
Proof. solve_decision. Defined.

(** [s[i]] and [s[i] = v]. *)
Definition slice_get (m : mem) (s : slice) (i : Z) : outcome Z :=
  if decide (0 <= i < sl_len s) then Ret (load m (sl_base s + i)) else Panic.

Definition slice_set (m : mem) (s : slice) (i v : Z) : outcome mem :=
  if decide (0 <= i < sl_len s) then Ret (store m (sl_base s + i) v) else Panic.

(** [s[lo:hi]] *)
Definition slice_sub (s : slice) (lo hi : Z) : outcome slice :=
  if decide (0 <= lo <= hi /\ hi <= sl_len s)
  then Ret (Slice (sl_base s + lo) (hi - lo)) else Panic.

Definition slice_bytes (m : mem) (s : slice) : list Z :=
  load_bytes m (sl_base s) (Z.to_nat (sl_len s)).

(** Two stores are equivalent when every byte reads the same. *)
Definition mem_equiv (m1 m2 : mem) : Prop := forall a, load m1 a = load m2 a.
Infix "≡ₘ" := mem_equiv (at level 70).

(** [m1] and [m2] agree outside the set of addresses [P]. *)
Definition mem_frame (P : Z -> Prop) (m1 m2 : mem) : Prop :=
  forall a, ~ P a -> load m2 a = load m1 a.

(** Frames compose. *)
Lemma mem_frame_refl P m : mem_frame P m m.
Proof. by intros a Ha. Qed.

Lemma mem_frame_trans P m1 m2 m3 :
  mem_frame P m1 m2 -> mem_frame P m2 m3 -> mem_frame P m1 m3.
Proof. intros H1 H2 a Ha. by rewrite H2, H1. Qed.

Lemma mem_frame_mono (P Q : Z -> Prop) m1 m2 :
  (forall a, P a -> Q a) -> mem_frame P m1 m2 -> mem_frame Q m1 m2.
Proof. intros HPQ H a Ha. apply H. auto. Qed.

(** ** Lemmas *)
#[export] Instance mem_equiv_equivalence : Equivalence mem_equiv.
Proof.
  split.
  - by intros m a.
  - by intros m1 m2 H a.
  - intros m1 m2 m3 H1 H2 a. by rewrite H1, H2.
Qed.

#[export] Instance load_proper : Proper (mem_equiv ==> eq ==> eq) load.
Proof. intros m1 m2 H a ? <-. apply H. Qed.

Lemma load_store m a v x :
  load (store m a v) x = if decide (a = x) then v else load m x.
Proof.
  unfold load, store. rewrite lookup_insert. by case_decide.
Qed.

#[export] Instance store_proper :
  Proper (mem_equiv ==> eq ==> eq ==> mem_equiv) store.
Proof.
  intros m1 m2 H a ? <- v ? <- x. rewrite !load_store. by rewrite H.
Qed.

#[export] Instance load_bytes_proper :
  Proper (mem_equiv ==> eq ==> eq ==> eq) load_bytes.
Proof.
  intros m1 m2 H a ? <- n ? <-. revert a.
  induction n as [|n IH]; intros a; simpl; [done|]. by rewrite H, IH.
Qed.

#[export] Instance store_bytes_proper :
  Proper (mem_equiv ==> eq ==> eq ==> mem_equiv) store_bytes.
Proof.
  intros m1 m2 H a ? <- bs ? <-. revert m1 m2 H a.
  induction bs as [|b bs IH]; intros m1 m2 H a; simpl; [done|].
  apply IH. by rewrite H.
Qed.

#[export] Instance load_le_proper :
  Proper (mem_equiv ==> eq ==> eq ==> eq) load_le.
Proof. intros m1 m2 H a ? <- n ? <-. unfold load_le. by rewrite H. Qed.

#[export] Instance store_le_proper :
  Proper (mem_equiv ==> eq ==> eq ==> eq ==> mem_equiv) store_le.
Proof. intros m1 m2 H a ? <- n ? <- v ? <-. unfold store_le. by rewrite H. Qed.

Lemma length_load_bytes m a n : length (load_bytes m a n) = n.
Proof. revert a. induction n; intros a; simpl; auto. Qed.

Lemma length_le_bytes n z : length (le_bytes n z) = n.
Proof. revert z. induction n; intros z; simpl; auto. Qed.

Lemma length_slice_bytes m s :
  length (slice_bytes m s) = Z.to_nat (sl_len s).
Proof. apply length_load_bytes. Qed.

Lemma lookup_load_bytes m a n i :
  (i < n)%nat -> load_bytes m a n !! i = Some (load m (a + Z.of_nat i)).
Proof.
  revert a i. induction n as [|n IH]; intros a [|i] Hi; simpl; try lia.
  - by rewrite Z.add_0_r.
  - rewrite IH by lia. do 2 f_equal. lia.
Qed.

Lemma load_store_bytes m a bs x :
  load (store_bytes m a bs) x =
  if decide (a <= x < a + Z.of_nat (length bs))
  then default 0 (bs !! Z.to_nat (x - a)) else load m x.
Proof.
  revert m a. induction bs as [|b bs IH]; intros m a; simpl.
  - rewrite decide_False by lia. done.
  - rewrite IH, load_store.
    destruct (decide (a = x)) as [->|Hne].
    + rewrite decide_False by lia. rewrite decide_True by lia.
      by rewrite Z.sub_diag.
    + destruct (decide (a + 1 <= x < a + 1 + Z.of_nat (length bs))).
      * rewrite decide_True by lia.
        replace (Z.to_nat (x - a)) with (S (Z.to_nat (x - (a + 1)))) by lia.
        done.
      * rewrite decide_False by lia. done.
Qed.

Lemma load_store_bytes_out m a bs x :
  x < a \/ a + Z.of_nat (length bs) <= x ->
  load (store_bytes m a bs) x = load m x.
Proof. intros H. rewrite load_store_bytes, decide_False by lia. done. Qed.

Lemma load_store_bytes_in m a bs x :
  a <= x < a + Z.of_nat (length bs) ->
  load (store_bytes m a bs) x = default 0 (bs !! Z.to_nat (x - a)).
Proof. intros H. by rewrite load_store_bytes, decide_True by lia. Qed.

Lemma load_bytes_ext m1 m2 a n :
  (forall x, a <= x < a + Z.of_nat n -> load m1 x = load m2 x) ->
  load_bytes m1 a n = load_bytes m2 a n.
Proof.
  revert a. induction n as [|n IH]; intros a H; simpl; [done|].
  rewrite H by lia. f_equal. apply IH. intros x Hx. apply H. lia.
Qed.

Lemma load_store_bytes_same m a bs :
  load_bytes (store_bytes m a bs) a (length bs) = bs.
Proof.
  apply list_eq. intros i.
  destruct (decide (i < length bs)%nat).
  - rewrite lookup_load_bytes by done.
    rewrite load_store_bytes_in by lia.
    replace (Z.to_nat (a + Z.of_nat i - a)) with i by lia.
    destruct (lookup_lt_is_Some_2 bs i) as [b ->]; done.
  - rewrite !lookup_ge_None_2; rewrite ?length_load_bytes; [done|lia|lia].
Qed.

Lemma le_val_bytes n z : 0 <= z < 256 ^ Z.of_nat n -> le_val (le_bytes n z) = z.
Proof.
  revert z. induction n as [|n IH]; intros z Hz; simpl.
  - change (256 ^ Z.of_nat 0) with 1 in Hz. lia.
  - rewrite Nat2Z.inj_succ, Z.pow_succ_r in Hz by lia.
    rewrite IH by (split; [apply Z.div_pos; lia|apply Z.div_lt_upper_bound; lia]).
    pose proof (Z.div_mod z 256). lia.
Qed.

Lemma le_bytes_mod n z k :
  (n <= k)%nat -> le_bytes n (z mod 256 ^ Z.of_nat k) = le_bytes n z.
Proof.
  revert z k. induction n as [|n IH]; intros z [|k] Hk; simpl; try lia; [done|done|].
  rewrite Nat2Z.inj_succ, Z.pow_succ_r by lia.
  assert (0 < 256 ^ Z.of_nat k) by (apply Z.pow_pos_nonneg; lia).
  rewrite Z.rem_mul_r by lia. f_equal.
  - rewrite Z.mul_comm, Z_mod_plus_full, Z.mod_mod; lia.
  - rewrite Z.mul_comm, Z.div_add by lia.
    rewrite (Z.div_small (z mod 256)) by (apply Z.mod_pos_bound; lia).
    apply IH. lia.
Qed.

Lemma le_bytes_range n z : Forall (fun b => 0 <= b < 256) (le_bytes n z).
Proof.
  revert z. induction n; intros z; simpl; constructor; auto.
  apply Z.mod_pos_bound. lia.
Qed.

Lemma load_store_le_same m a n v :
  0 <= v < 256 ^ Z.of_nat n -> load_le (store_le m a n v) a n = v.
Proof.
  intros H. unfold load_le, store_le.
  rewrite <- (length_le_bytes n v) at 2.
  rewrite load_store_bytes_same. by apply le_val_bytes.
Qed.

Lemma load_le_ext m1 m2 a n :
  (forall x, a <= x < a + Z.of_nat n -> load m1 x = load m2 x) ->
  load_le m1 a n = load_le m2 a n.
Proof. intros H. unfold load_le. by rewrite (load_bytes_ext m1 m2). Qed.

Lemma load_store_le_out m a n v x :
  x < a \/ a + Z.of_nat n <= x -> load (store_le m a n v) x = load m x.
Proof.
  intros H. apply load_store_bytes_out. by rewrite length_le_bytes.
Qed.

(** Disjoint stores do not disturb a load. *)
Lemma load_le_store_le_disj m a n v b k :
  b + Z.of_nat k <= a \/ a + Z.of_nat n <= b ->
  load_le (store_le m a n v) b k = load_le m b k.
Proof.
  intros H. apply load_le_ext. intros x Hx.
  apply load_store_le_out. lia.
Qed.

Lemma load_le_store_bytes_disj m a bs b k :
  b + Z.of_nat k <= a \/ a + Z.of_nat (length bs) <= b ->
  load_le (store_bytes m a bs) b k = load_le m b k.
Proof.
  intros H. apply load_le_ext. intros x Hx.
  apply load_store_bytes_out. lia.
Qed.

Lemma le_val_range bs :
  Forall (fun b => 0 <= b < 256) bs -> 0 <= le_val bs < 256 ^ Z.of_nat (length bs).
Proof.
  induction 1 as [|b bs Hb Hbs IH]; simpl length.
  - simpl. lia.
  - cbn [le_val]. rewrite Nat2Z.inj_succ, Z.pow_succ_r by lia. lia.
Qed.

Lemma store_bytes_app m a b1 b2 :
  store_bytes m a (b1 ++ b2) =
  store_bytes (store_bytes m a b1) (a + Z.of_nat (length b1)) b2.
Proof.
  revert m a. induction b1 as [|b b1 IH]; intros m a.
  - simpl. by rewrite Z.add_0_r.
  - cbn [app length store_bytes]. rewrite IH. f_equal. lia.
Qed.

Lemma load_bytes_app m a n k :
  load_bytes m a (n + k) = load_bytes m a n ++ load_bytes m (a + Z.of_nat n) k.
Proof.
  revert a. induction n as [|n IH]; intros a.
  - simpl. by rewrite Z.add_0_r.
  - cbn [Nat.add load_bytes app]. rewrite IH. do 3 f_equal. lia.
Qed.

(** A load inside a stored segment reads the segment. *)
Lemma load_store_bytes_mid m a b1 b2 b3 :
  load_bytes (store_bytes m a (b1 ++ b2 ++ b3)) (a + Z.of_nat (length b1))
    (length b2) = b2.
Proof.
  pose proof (load_store_bytes_same m a (b1 ++ b2 ++ b3)) as H.
  rewrite !length_app, !load_bytes_app in H.
  apply app_inj_1 in H as [_ H]; [|by rewrite length_load_bytes].
  by apply app_inj_1 in H as [H _]; [|by rewrite length_load_bytes].
Qed.

Lemma load_le_mid m a b1 b2 b3 n :
  length b2 = n ->
  load_le (store_bytes m a (b1 ++ b2 ++ b3)) (a + Z.of_nat (length b1)) n =
  le_val b2.
Proof. intros <-. unfold load_le. by rewrite load_store_bytes_mid. Qed.

#[export] Hint Rewrite length_load_bytes length_le_bytes length_slice_bytes : mmfg.

#[global] Arguments le_bytes : simpl never.
#[global] Arguments le_val : simpl never.
#[global] Arguments load_bytes : simpl never.
#[global] Arguments store_bytes : simpl never.
