(* ===== verification/Layout.v ===== *)
(** * Layout of the control region

    The constants and offset functions of go/shm/layout.go, and the proof
    that the control stripe is laid out without overlap: the words of the 64
    queues and of the 4096 registry slots are pairwise disjoint, stay inside
    the stripe, clear of the header block, and never cross a block. *)
From stdpp Require Import base tactics list numbers option gmap.
From Stdlib Require Import ZArith Lia.
From S2P Require Import Prelude Memory.
#[local] Open Scope Z_scope.

(** ** Constants *)
Definition ChunkSize : Z := 4 * 1024 * 1024.
Definition BlockSize : Z := 4 * 1024.
Definition BlocksPerChunk : Z := 1024.
Definition MaxNodes : Z := 64.
Definition MaxChunks : Z := 64.
Definition QueueSize : Z := 510.
Definition MaxTotalSlots : Z := 4096.
Definition ControlStripeSize : Z := 256 * BlockSize.
Definition StripeDataSizeLimit : Z := 512 * BlockSize.

Definition OFF_RESP_QUEUE : Z := 4096.
Definition RESP_QUEUE_SIZE : Z := 4096.
Definition OFF_STRIPE_REGISTRY : Z := 524288.

Definition Q_OFF_HEAD : Z := 0.
Definition Q_OFF_TAIL : Z := 4.
Definition Q_OFF_ENTRIES : Z := 16.
Definition Q_READY_BIT : Z := 2147483648. (* 0x80000000 *)

Definition CMD_PROCESS : Z := 1.
Definition CMD_RELEASE : Z := 2.
Definition CMD_REQUEST_EXPAND : Z := 3.
Definition CMD_EXPAND_READY : Z := 4.
Definition CMD_EXPAND_ERROR : Z := 5.

Definition STRIPE_ENTRY_SIZE : Z := 16.
Definition STRIPE_OFF_STATUS : Z := 0.
Definition STRIPE_OFF_HEADER : Z := 4.
Definition STRIPE_OFF_OWNER : Z := 8.

Definition StripeStatusIdle : Z := 0.
Definition StripeStatusBusy : Z := 1.
Definition StripeStatusReady : Z := 2.
Definition StripeStatusDone : Z := 3.

Definition HEADER_DATA_LEN_OFF : Z := 0.
Definition HEADER_BLK_CNT_OFF : Z := 4.
Definition HEADER_SEQ_LEN_OFF : Z := 6.
Definition HEADER_SEQ_START_OFF : Z := 8.

(** ** Offset functions *)
Definition GetNodeReqQueueOffset (nodeID : Z) : Z :=
  u64 (OFF_RESP_QUEUE + nodeID * RESP_QUEUE_SIZE).

(** [slotID] is a [uint32]: [slotID-1] wraps before it is widened. *)
Definition GetStripeEntryOffset (slotID : Z) : Z :=
  u64 (OFF_STRIPE_REGISTRY + u32 (slotID - 1) * STRIPE_ENTRY_SIZE).

(** ** The words of the control region *)
Inductive field : Type :=
| QHead (node : Z)
| QTail (node : Z)
| QEntry (node i : Z)
| SStatus (slot : Z)
| SHeader (slot : Z)
| SOwner (slot : Z).

#[export] Instance field_eq_dec : EqDecision field.
Proof. solve_decision. Defined.

(** Offset in the control stripe, as the code computes it. *)
Definition field_off (f : field) : Z :=
  match f with
  | QHead q => GetNodeReqQueueOffset q + Q_OFF_HEAD
  | QTail q => GetNodeReqQueueOffset q + Q_OFF_TAIL
  | QEntry q i => GetNodeReqQueueOffset q + Q_OFF_ENTRIES + i * 8
  | SStatus s => GetStripeEntryOffset s + STRIPE_OFF_STATUS
  | SHeader s => GetStripeEntryOffset s + STRIPE_OFF_HEADER
  | SOwner s => GetStripeEntryOffset s + STRIPE_OFF_OWNER
  end.

Definition field_len (f : field) : Z :=
  match f with
  | QEntry _ _ => 8
  | _ => 4
  end.

(** Queue 0 is the hub's response queue; nodes have ids 1 to 63.  Slots are
    numbered from 1. *)
Definition field_ok (f : field) : Prop :=
  match f with
  | QHead q | QTail q => 0 <= q < MaxNodes
  | QEntry q i => 0 <= q < MaxNodes /\ 0 <= i < QueueSize
  | SStatus s | SHeader s | SOwner s => 1 <= s <= MaxTotalSlots
  end.

#[export] Instance field_ok_dec f : Decision (field_ok f).
Proof. destruct f; simpl; apply _. Defined.

(** Constants that [lia] should see through. *)
Ltac unfold_layout :=
  unfold ControlStripeSize, StripeDataSizeLimit in *;
  unfold ChunkSize, BlockSize, BlocksPerChunk, MaxNodes, MaxChunks, QueueSize,
    MaxTotalSlots, OFF_RESP_QUEUE,
    RESP_QUEUE_SIZE, OFF_STRIPE_REGISTRY, Q_OFF_HEAD, Q_OFF_TAIL,
    Q_OFF_ENTRIES, STRIPE_ENTRY_SIZE, STRIPE_OFF_STATUS, STRIPE_OFF_HEADER,
    STRIPE_OFF_OWNER, HEADER_DATA_LEN_OFF, HEADER_BLK_CNT_OFF,
    HEADER_SEQ_LEN_OFF, HEADER_SEQ_START_OFF in *;
  change (4 * 1024) with 4096 in *.

(** ** Theorems *)
Lemma queue_offset_closed q :
  0 <= q < MaxNodes -> GetNodeReqQueueOffset q = 4096 + q * 4096.
Proof.
  unfold GetNodeReqQueueOffset. unfold_layout. intros H. apply u64_small. lia.
Qed.

Lemma entry_offset_closed s :
  1 <= s <= MaxTotalSlots -> GetStripeEntryOffset s = 524288 + (s - 1) * 16.
Proof.
  unfold GetStripeEntryOffset. unfold_layout. intros H.
  rewrite u32_small by lia. apply u64_small. lia.
Qed.

(** The closed form of a valid field's offset. *)
Lemma field_off_closed f :
  field_ok f ->
  field_off f =
  match f with
  | QHead q => 4096 + q * 4096
  | QTail q => 4096 + q * 4096 + 4
  | QEntry q i => 4096 + q * 4096 + 16 + i * 8
  | SStatus s => 524288 + (s - 1) * 16
  | SHeader s => 524288 + (s - 1) * 16 + 4
  | SOwner s => 524288 + (s - 1) * 16 + 8
  end.
Proof.
  destruct f; simpl; intros H; rewrite ?queue_offset_closed, ?entry_offset_closed
    by tauto; unfold_layout; lia.
Qed.

Ltac field_arith :=
  repeat match goal with
  | H : field_ok ?f |- _ =>
      lazymatch goal with
      | _ : field_off f = _ |- _ => fail
      | _ => pose proof (field_off_closed f H)
      end
  end;
  simpl field_ok in *; simpl field_len in *; unfold_layout.

(** A valid field lies inside one block of the control stripe, past the
    header block. *)
Lemma field_in_block f :
  field_ok f ->
  BlockSize <= field_off f /\
  field_off f mod BlockSize + field_len f <= BlockSize /\
  field_off f / BlockSize < ControlStripeSize / BlockSize.
Proof.
  intros H. destruct f; field_arith; repeat match goal with
    H : _ = _ |- _ => rewrite H; clear H end; Z.div_mod_to_equations; lia.
Qed.

(** Distinct valid fields occupy disjoint byte ranges. *)
Lemma field_disjoint f g :
  field_ok f -> field_ok g -> f <> g ->
  field_off f + field_len f <= field_off g \/
  field_off g + field_len g <= field_off f.
Proof.
  intros Hf Hg Hne.
  destruct f, g; field_arith; repeat match goal with
    H : field_off _ = _ |- _ => rewrite H; clear H end;
  repeat match goal with
  | H : ?c ?x <> ?c ?y |- _ => assert (x <> y) by congruence; clear H
  | H : ?c ?x ?i <> ?c ?y ?j |- _ =>
      assert (x <> y \/ (x = y /\ i <> j))
        by (destruct (decide (x = y)); [right; split; congruence|left; done]);
      clear H
  end; lia.
Qed.

(** Slot 0 wraps to an offset far outside the control stripe. *)
Lemma slot0_offset : GetStripeEntryOffset 0 = 524288 + 4294967295 * 16.
Proof. reflexivity. Qed.

(** C33: The control region is laid out soundly.  Every word the control code
    touches (head, tail and entries of the 64 queues, status, header and
    owner of the slots 1 to 4096) lies past the header block, inside one
    block of the 256-block stripe, aligned to its size, and distinct words
    never share a byte. *)
Theorem layout_sound f g :
  field_ok f -> field_ok g ->
  BlockSize <= field_off f /\
  field_off f + field_len f <= ControlStripeSize /\
  field_off f mod BlockSize + field_len f <= BlockSize /\
  field_off f mod field_len f = 0 /\
  (f <> g -> field_off f + field_len f <= field_off g \/
             field_off g + field_len g <= field_off f).
Proof.
  intros Hf Hg. destruct (field_in_block f Hf) as (H1 & H2 & H3).
  split_and!; [done| |done| |by apply field_disjoint].
  - change (ControlStripeSize / BlockSize) with 256 in H3.
    unfold_layout. Z.div_mod_to_equations. lia.
  - destruct f; field_arith; match goal with
      H : _ = _ |- _ => rewrite H; clear H end; Z.div_mod_to_equations; lia.
Qed.

Lemma layout_sound_witness :
  BlockSize <= field_off (QEntry 63 509) /\
  field_off (QEntry 63 509) + field_len (QEntry 63 509) <= ControlStripeSize /\
  field_off (QEntry 63 509) mod BlockSize + field_len (QEntry 63 509) <= BlockSize /\
  field_off (QEntry 63 509) mod field_len (QEntry 63 509) = 0 /\
  (QEntry 63 509 <> SStatus 4096 ->
     field_off (QEntry 63 509) + field_len (QEntry 63 509) <= field_off (SStatus 4096) \/
     field_off (SStatus 4096) + field_len (SStatus 4096) <= field_off (QEntry 63 509)).
Proof.
  apply (layout_sound (QEntry 63 509) (SStatus 4096)); simpl; unfold_layout; lia.
Defined.
