(* ===== verification/Protocol.v ===== *)
(** * Header blocks and block addresses

    The data types shared by the shm package ([Block] and [Stripe] of
    stripe.go) and go/shm/protocol.go: writing and parsing a stripe's header
    block, and the numbering of blocks. *)
From stdpp Require Import base tactics list numbers option gmap.
From Stdlib Require Import ZArith Lia.
From S2P Require Import Prelude Memory Layout.
#[local] Open Scope Z_scope.

Record Block : Type := mkBlock {
  ChunkID : Z;    (* int16, [^index] of the chunk: always negative *)
  BlockIdx : Z;   (* int16 *)
  BlkData : slice;
}.

Record Stripe : Type := mkStripe {
  Sequence : list Z;      (* []int16: chunk ids (negative) and block indices *)
  BlockCount : Z;         (* int *)
  Blocks : list slice;    (* [][]byte, Blocks[0] is the header block *)
  DataLen : Z;            (* uint32 *)
}.

Definition with_DataLen (s : Stripe) (n : Z) : Stripe :=
  mkStripe (Sequence s) (BlockCount s) (Blocks s) n.

(** [binary.LittleEndian.PutUintN(b[off:], v)] and its inverse, with the
    bounds check of the standard library. *)
Definition put_le (m : mem) (b : slice) (off : Z) (n : nat) (v : Z) : outcome mem :=
  if decide (0 <= off /\ off + Z.of_nat n <= sl_len b)
  then Ret (store_le m (sl_base b + off) n v) else Panic.

Definition get_le (m : mem) (b : slice) (off : Z) (n : nat) : outcome Z :=
  if decide (0 <= off /\ off + Z.of_nat n <= sl_len b)
  then Ret (load_le m (sl_base b + off) n) else Panic.

(** The loop over [stripe.Sequence]; [i] is the loop index. *)
Fixpoint put_sequence (m : mem) (headerData : slice) (i : Z) (seq : list Z)
  : outcome mem :=
  match seq with
  | [] => Ret m
  | val :: seq' =>
      let off := HEADER_SEQ_START_OFF + i * 2 in
      if decide (off + 2 > sl_len headerData) then Ret m
      else
        m' ← put_le m headerData off 2 (u16 val);
        put_sequence m' headerData (i + 1) seq'
  end.

Definition UpdateStripeHeader (m : mem) (stripe : Stripe) : outcome mem :=
  headerData ← go_index (Blocks stripe) 0;
  m1 ← put_le m headerData HEADER_DATA_LEN_OFF 4 (DataLen stripe);
  m2 ← put_le m1 headerData HEADER_BLK_CNT_OFF 2 (u16 (BlockCount stripe));
  m3 ← put_le m2 headerData HEADER_SEQ_LEN_OFF 2
         (u16 (Z.of_nat (length (Sequence stripe))));
  put_sequence m3 headerData 0 (Sequence stripe).

(** The loop of [DecodeHeader]: entries past the end of the block keep the
    zero of [make]. *)
Fixpoint get_sequence (m : mem) (headerData : slice) (i : Z) (n : nat)
  : outcome (list Z) :=
  match n with
  | O => Ret []
  | S n' =>
      let off := HEADER_SEQ_START_OFF + i * 2 in
      if decide (off + 2 > sl_len headerData) then Ret (replicate n 0)
      else
        v ← get_le m headerData off 2;
        rest ← get_sequence m headerData (i + 1) n';
        Ret (i16 v :: rest)
  end.

Definition DecodeHeader (m : mem) (headerData : slice)
  : outcome (Z * Z * list Z) :=
  dataLen ← get_le m headerData HEADER_DATA_LEN_OFF 4;
  blkCnt ← get_le m headerData HEADER_BLK_CNT_OFF 2;
  seqLen ← get_le m headerData HEADER_SEQ_LEN_OFF 2;
  seq ← get_sequence m headerData 0 (Z.to_nat seqLen);
  Ret (dataLen, blkCnt, seq).

Definition GetBlockAddress (chunkID blockIdx : Z) : Z :=
  let readCID := go_not chunkID in
  readCID * BlocksPerChunk + blockIdx.

Definition ParseBlockAddress (address : Z) : Z * Z :=
  (go_not (i16 (address / BlocksPerChunk)), i16 (address mod BlocksPerChunk)).

(** ** Specification vocabulary *)

(** Number of sequence entries that fit in a header block. *)
Definition max_seq : nat := 2044.

(** The sequence entries as the header stores them. *)
Fixpoint seq_bytes (seq : list Z) : list Z :=
  match seq with
  | [] => []
  | v :: seq' => le_bytes 2 (u16 v) ++ seq_bytes seq'
  end.

(** The bytes [UpdateStripeHeader] writes at the start of the header block. *)
Definition header_bytes (s : Stripe) : list Z :=
  le_bytes 4 (DataLen s) ++ le_bytes 2 (u16 (BlockCount s)) ++
  le_bytes 2 (u16 (Z.of_nat (length (Sequence s)))) ++
  seq_bytes (take max_seq (Sequence s)).

Definition is_int16 (z : Z) : Prop := -32768 <= z < 32768.

(** ** Lemmas *)
Lemma max_seq_Z : Z.of_nat max_seq = 2044.
Proof. reflexivity. Qed.

#[global] Opaque max_seq.

Lemma put_le_ok m b off n v :
  0 <= off -> off + Z.of_nat n <= sl_len b ->
  put_le m b off n v = Ret (store_le m (sl_base b + off) n v).
Proof. intros. unfold put_le. by rewrite decide_True by done. Qed.

Lemma get_le_ok m b off n :
  0 <= off -> off + Z.of_nat n <= sl_len b ->
  get_le m b off n = Ret (load_le m (sl_base b + off) n).
Proof. intros. unfold get_le. by rewrite decide_True by done. Qed.

Lemma seq_bytes_cons v seq :
  seq_bytes (v :: seq) = le_bytes 2 (u16 v) ++ seq_bytes seq.
Proof. done. Qed.

#[global] Arguments seq_bytes : simpl never.

Lemma length_seq_bytes (seq : list Z) :
  length (seq_bytes seq) = (2 * length seq)%nat.
Proof. induction seq as [|v seq IH]; [done|].
  rewrite seq_bytes_cons, length_app, length_le_bytes, IH. simpl. lia. Qed.

Lemma length_header_bytes s :
  (length (header_bytes s) <= 4096)%nat.
Proof.
  unfold header_bytes. rewrite !length_app, length_seq_bytes, length_take.
  rewrite !length_le_bytes. pose proof max_seq_Z. lia.
Qed.

(** The entry loop writes the entries that fit, contiguously. *)
Lemma put_sequence_spec m hd i seq :
  sl_len hd = BlockSize -> 0 <= i <= Z.of_nat max_seq ->
  put_sequence m hd i seq =
  Ret (store_bytes m (sl_base hd + (8 + i * 2))
         (seq_bytes (take (max_seq - Z.to_nat i) seq))).
Proof.
  intros Hlen. revert m i. induction seq as [|v seq IH]; intros m i Hi; simpl.
  - by rewrite take_nil.
  - pose proof max_seq_Z. rewrite Hlen in *. unfold_layout.
    destruct (decide (8 + i * 2 + 2 > 4096)).
    + replace (max_seq - Z.to_nat i)%nat with 0%nat by lia. done.
    + rewrite put_le_ok by lia. go_bind.
      rewrite IH by lia.
      replace (max_seq - Z.to_nat i)%nat with (S (max_seq - Z.to_nat (i + 1))) by lia.
      cbn [take]. rewrite seq_bytes_cons, store_bytes_app, length_le_bytes.
      f_equal. unfold store_le. f_equal. lia.
Qed.

Lemma UpdateStripeHeader_bytes m s hd :
  Blocks s !! 0%nat = Some hd -> sl_len hd = BlockSize ->
  UpdateStripeHeader m s = Ret (store_bytes m (sl_base hd) (header_bytes s)).
Proof.
  intros Hhd Hlen. unfold UpdateStripeHeader.
  rewrite (go_index_lookup _ 0 hd) by done. go_bind.
  repeat (rewrite put_le_ok by (rewrite ?Hlen; unfold_layout; lia); go_bind).
  rewrite (put_sequence_spec _ hd 0) by (unfold_layout; pose proof max_seq_Z; lia).
  rewrite Nat.sub_0_r. unfold header_bytes, store_le.
  rewrite !store_bytes_app, !length_le_bytes.
  rewrite <- !Z.add_assoc. unfold_layout. rewrite !Z.add_0_r. done.
Qed.

(** Reading back the sequence entries stored behind a prefix [pre]. *)
Lemma get_sequence_spec m hd pre i seq (n : nat) :
  sl_len hd = BlockSize ->
  Forall is_int16 seq ->
  Z.of_nat (length pre) = 8 + i * 2 -> 0 <= i ->
  (length seq <= n)%nat ->
  (i + Z.of_nat (length seq) = Z.of_nat max_seq \/ length seq = n) ->
  i + Z.of_nat (length seq) <= Z.of_nat max_seq ->
  get_sequence
    (store_bytes m (sl_base hd) (pre ++ seq_bytes seq))
    hd i n = Ret (seq ++ replicate (n - length seq) 0).
Proof.
  intros Hlen Hseq. revert pre i n.
  induction Hseq as [|v seq Hv Hseq IH]; intros pre i n Hpre Hi Hn Hfull Hfit.
  - simpl in *. destruct n as [|n]; simpl; [done|].
    rewrite Hlen. unfold_layout. pose proof max_seq_Z.
    rewrite decide_True by lia. done.
  - destruct n as [|n]; simpl length in *; [lia|]. simpl get_sequence.
    pose proof max_seq_Z. rewrite Hlen. unfold_layout.
    rewrite decide_False by lia. rewrite get_le_ok by lia. go_bind.
    rewrite seq_bytes_cons, <- Hpre.
    rewrite load_le_mid by done.
    rewrite le_val_bytes by (pose proof (u16_range v); simpl; lia).
    rewrite (app_assoc pre).
    rewrite IH; [|rewrite length_app; simpl; lia|lia|lia|lia|lia].
    go_bind. rewrite i16_u16, i16_small by apply Hv.
    replace (S n - S (length seq))%nat with (n - length seq)%nat by lia. done.
Qed.

(** Parsing a header block laid out as [UpdateStripeHeader] does. *)
Lemma decode_layout m hd dl bc kept (n : nat) :
  sl_len hd = BlockSize ->
  0 <= dl < 4294967296 -> 0 <= bc < 65536 -> Z.of_nat n < 65536 ->
  Forall is_int16 kept -> (length kept <= n)%nat -> (length kept <= max_seq)%nat ->
  (length kept = max_seq \/ length kept = n) ->
  DecodeHeader (store_bytes m (sl_base hd)
    (le_bytes 4 dl ++ le_bytes 2 bc ++ le_bytes 2 (Z.of_nat n) ++ seq_bytes kept)) hd =
  Ret (dl, bc, kept ++ replicate (n - length kept) 0).
Proof.
  intros Hlen HD HB HS Hi16 Hn Hmax Hfull. unfold DecodeHeader.
  repeat (rewrite get_le_ok by (rewrite ?Hlen; unfold_layout; lia); go_bind).
  remember (le_bytes 4 dl) as B4 eqn:H4.
  remember (le_bytes 2 bc) as B2 eqn:H2.
  remember (le_bytes 2 (Z.of_nat n)) as BL eqn:HL.
  assert (length B4 = 4%nat /\ length B2 = 2%nat /\ length BL = 2%nat) as (L4 & L2 & LL)
    by (subst; split_and!; apply length_le_bytes).
  assert (le_val B4 = dl /\ le_val B2 = bc /\ le_val BL = Z.of_nat n) as (V4 & V2 & VL)
    by (subst; rewrite !le_val_bytes by (simpl; lia); done).
  pose proof (load_le_mid m (sl_base hd) [] B4 (B2 ++ BL ++ seq_bytes kept) 4 L4) as E4.
  pose proof (load_le_mid m (sl_base hd) B4 B2 (BL ++ seq_bytes kept) 2 L2) as E2.
  pose proof (load_le_mid m (sl_base hd) (B4 ++ B2) BL (seq_bytes kept) 2 LL) as EL.
  rewrite length_app, <- app_assoc in EL. simpl in E4, E2, EL.
  rewrite L4 in E2. rewrite L4, L2 in EL. unfold_layout.
  change (Z.of_nat 0) with 0 in E4. change (Z.of_nat 4) with 4 in E2.
  change (Z.of_nat (4 + 2)) with 6 in EL.
  rewrite E4, E2, EL, V4, V2, VL, Nat2Z.id.
  replace (B4 ++ _) with ((B4 ++ B2 ++ BL) ++ seq_bytes kept)
    by (by rewrite <- !app_assoc).
  rewrite get_sequence_spec; [done| done | done | | lia..].
  by rewrite !length_app, L4, L2, LL.
Qed.

(** What [DecodeHeader] returns after [UpdateStripeHeader]: the sequence is
    cut to the entries that fit in the block and padded with zeros. *)
Lemma decode_update m s hd :
  Blocks s !! 0%nat = Some hd -> sl_len hd = BlockSize ->
  0 <= DataLen s < 4294967296 -> 0 <= BlockCount s < 65536 ->
  Z.of_nat (length (Sequence s)) < 65536 -> Forall is_int16 (Sequence s) ->
  (m' ← UpdateStripeHeader m s; DecodeHeader m' hd) =
  Ret (DataLen s, BlockCount s,
       take max_seq (Sequence s) ++
       replicate (length (Sequence s) - max_seq) 0).
Proof.
  intros Hhd Hlen HD HB HS Hi16.
  rewrite (UpdateStripeHeader_bytes m s hd) by done. go_bind.
  unfold header_bytes. rewrite !u16_small by lia.
  rewrite decode_layout; rewrite ?length_take; [ | done | lia | lia | lia | by apply Forall_take | lia..].
  do 4 f_equal. lia.
Qed.

Lemma GetBlockAddress_Parse a :
  0 <= a < 32768 * 1024 ->
  let '(c, b) := ParseBlockAddress a in GetBlockAddress c b = a.
Proof.
  intros H. unfold ParseBlockAddress, GetBlockAddress. unfold_layout.
  assert (0 <= a / 1024 < 32768) by (Z.div_mod_to_equations; lia).
  pose proof (Z.mod_pos_bound a 1024).
  rewrite go_not_invol, !i16_small by lia.
  pose proof (Z.div_mod a 1024). lia.
Qed.

Lemma Parse_GetBlockAddress c b :
  -32768 <= c < 0 -> 0 <= b < BlocksPerChunk ->
  ParseBlockAddress (GetBlockAddress c b) = (c, b).
Proof.
  intros Hc Hb. unfold ParseBlockAddress, GetBlockAddress, go_not. unfold_layout.
  rewrite Z.div_add_l by lia.
  rewrite (Z.add_comm (_ * 1024)), Z_mod_plus_full.
  rewrite Z.div_small, Z.mod_small, !i16_small by lia. f_equal. lia.
Qed.

(** A successful header update touches only the header block. *)
Lemma UpdateStripeHeader_frame m m' s hd :
  Blocks s !! 0%nat = Some hd -> sl_len hd = BlockSize ->
  UpdateStripeHeader m s = Ret m' ->
  mem_frame (fun a => sl_base hd <= a < sl_base hd + BlockSize) m m'.
Proof.
  intros Hhd Hlen H. rewrite (UpdateStripeHeader_bytes m s hd) in H by done.
  inv_outcome. intros a Ha. apply load_store_bytes_out.
  pose proof (length_header_bytes s). unfold_layout. lia.
Qed.

(** ** Properties *)

(** C29: a stripe whose sequence fits in its header block (at most 2044
    entries) survives the trip through shared memory: parsing the header that
    [UpdateStripeHeader] wrote gives back the data length, the block count
    and the sequence, and nothing outside the header block has changed. *)
Theorem header_roundtrip m s hd :
  Blocks s !! 0%nat = Some hd -> sl_len hd = BlockSize ->
  0 <= DataLen s < 4294967296 -> 0 <= BlockCount s < 65536 ->
  (length (Sequence s) <= max_seq)%nat -> Forall is_int16 (Sequence s) ->
  exists m', UpdateStripeHeader m s = Ret m' /\
    DecodeHeader m' hd = Ret (DataLen s, BlockCount s, Sequence s) /\
    mem_frame (fun a => sl_base hd <= a < sl_base hd + BlockSize) m m'.
Proof.
  intros Hhd Hlen HD HB HS Hi. pose proof max_seq_Z.
  pose proof (decode_update m s hd Hhd Hlen HD HB ltac:(lia) Hi) as E.
  pose proof (UpdateStripeHeader_bytes m s hd Hhd Hlen) as EU.
  eexists. split; [exact EU|]. rewrite EU in E. go_bind. split.
  - cbn [mbind outcome_bind] in E. rewrite E, take_ge by done.
    replace (_ - _)%nat with 0%nat by lia. by rewrite app_nil_r.
  - by apply (UpdateStripeHeader_frame m _ s hd).
Qed.

Lemma header_roundtrip_witness :
  let s := mkStripe [-1; 3; 4; -2; 0] 3 [Slice 12288 4096] 77 in
  exists m', UpdateStripeHeader ∅ s = Ret m' /\
    DecodeHeader m' (Slice 12288 4096) = Ret (77, 3, [-1; 3; 4; -2; 0]).
Proof.
  intros s.
  destruct (header_roundtrip ∅ s (Slice 12288 4096)) as (m' & E & D & _);
    [reflexivity|reflexivity|simpl; lia|simpl; lia| | |exists m'; split; assumption].
  - pose proof max_seq_Z. simpl. lia.
  - repeat constructor; unfold is_int16; lia.
Defined.

(** the header block silently truncates longer sequences.  Past 2044
    entries the parse still returns a sequence of the full length, but every
    entry past the limit reads as 0, which is the index of a block (block 0
    of the last chunk named) the stripe need not own. *)
Theorem header_truncates m s hd :
  Blocks s !! 0%nat = Some hd -> sl_len hd = BlockSize ->
  0 <= DataLen s < 4294967296 -> 0 <= BlockCount s < 65536 ->
  (max_seq < length (Sequence s))%nat -> Z.of_nat (length (Sequence s)) < 65536 ->
  Forall is_int16 (Sequence s) ->
  exists m' seq, UpdateStripeHeader m s = Ret m' /\
    DecodeHeader m' hd = Ret (DataLen s, BlockCount s, seq) /\
    length seq = length (Sequence s) /\
    take max_seq seq = take max_seq (Sequence s) /\
    forall i, (max_seq <= i < length (Sequence s))%nat -> seq !! i = Some 0.
Proof.
  intros Hhd Hlen HD HB HS HS2 Hi.
  pose proof (decode_update m s hd Hhd Hlen HD HB HS2 Hi) as E.
  pose proof (UpdateStripeHeader_bytes m s hd Hhd Hlen) as EU.
  rewrite EU in E. cbn [mbind outcome_bind] in E.
  assert (length (take max_seq (Sequence s)) = max_seq) as Hl
    by (rewrite length_take; lia).
  eexists _, _. split_and!; [exact EU|exact E| | |].
  - rewrite length_app, Hl, length_replicate. lia.
  - rewrite <- Hl at 1. by rewrite take_app_length.
  - intros i Hr. rewrite lookup_app_r, Hl by lia. apply lookup_replicate. lia.
Qed.

Lemma header_truncates_witness :
  let s := mkStripe (replicate (S max_seq) 7) 2045 [Slice 0 4096] 0 in
  exists m' seq, UpdateStripeHeader ∅ s = Ret m' /\
    DecodeHeader m' (Slice 0 4096) = Ret (0, 2045, seq) /\ seq !! max_seq = Some 0.
Proof.
  intros s. assert (length (Sequence s) = S max_seq) as Hl by apply length_replicate.
  pose proof max_seq_Z.
  destruct (header_truncates ∅ s (Slice 0 4096)) as (m' & seq & E & D & _ & _ & Hz);
    [reflexivity|reflexivity|simpl; lia|simpl; lia|rewrite Hl; lia|rewrite Hl; lia| |].
  - apply Forall_replicate. unfold is_int16. lia.
  - exists m', seq. split; [exact E|]. split; [exact D|]. apply Hz. rewrite Hl. lia.
Defined.

(** [GetBlockAddress] and [ParseBlockAddress] are inverse bijections
    between the (negative) chunk ids with block indices and the global block
    numbers, for all chunks an int16 can name. *)
Theorem block_address_bijection :
  (forall a, 0 <= a < 32768 * BlocksPerChunk ->
     let '(c, i) := ParseBlockAddress a in
     -32768 <= c < 0 /\ 0 <= i < BlocksPerChunk /\ GetBlockAddress c i = a) /\
  (forall c i, -32768 <= c < 0 -> 0 <= i < BlocksPerChunk ->
     0 <= GetBlockAddress c i < 32768 * BlocksPerChunk /\
     ParseBlockAddress (GetBlockAddress c i) = (c, i)).
Proof.
  split.
  - intros a Ha. pose proof (GetBlockAddress_Parse a Ha) as E.
    unfold ParseBlockAddress in *. split_and!; [| | | |exact E];
      unfold go_not; unfold_layout;
      assert (0 <= a / 1024 < 32768 /\ 0 <= a mod 1024 < 1024)
        by (Z.div_mod_to_equations; lia);
      rewrite !i16_small by lia; lia.
  - intros c i Hc Hi. split; [|by apply Parse_GetBlockAddress].
    unfold GetBlockAddress, go_not. unfold_layout. lia.
Qed.
