(* ===== verification/Stripe.v ===== *)
(** * Stripes: byte-addressed access across blocks

    The accessors of go/shm/stripe.go on [Stripe]: pointers into the control
    stripe, and reads and writes at a data offset, which skip the header
    block and run across block boundaries.  The specification views a stripe
    as one contiguous area of [data_cap] bytes of which the first [DataLen]
    are valid. *)
From stdpp Require Import base tactics list numbers option gmap.
From Stdlib Require Import ZArith Lia.
From S2P Require Import Prelude Memory Layout Protocol.
#[local] Open Scope Z_scope.

(** ** Operations *)

(** [nil] is [None].  The address taken past a short block panics. *)
Definition GetPointer (s : Stripe) (offset : Z) : outcome (option Z) :=
  let bIdx := offset / BlockSize in
  if decide (bIdx >= Z.of_nat (length (Blocks s))) then Ret None
  else
    let innerOff := offset mod BlockSize in
    b ← go_index (Blocks s) bIdx;
    if decide (0 <= innerOff < sl_len b)
    then Ret (Some (sl_base b + innerOff)) else Panic.

(** The header's length word and the cached field change together. *)
Definition updateDataLen (m : mem) (s : Stripe) (newLen : Z)
  : outcome (mem * Stripe) :=
  b ← go_index (Blocks s) 0;
  if decide (0 <= HEADER_DATA_LEN_OFF < sl_len b)
  then Ret (store_le m (sl_base b + HEADER_DATA_LEN_OFF) 4 newLen,
            with_DataLen s newLen)
  else Panic.

Definition Truncate (m : mem) (s : Stripe) (newLen : Z) : outcome (mem * Stripe) :=
  if decide (newLen > DataLen s) then Ret (m, s)
  else updateDataLen m s newLen.

(** [copy(p[n:n+k], src)] for a source of [k] bytes. *)
Definition copy_into (p : list Z) (n : Z) (bs : list Z) : outcome (list Z) :=
  if decide (0 <= n /\ n + Z.of_nat (length bs) <= Z.of_nat (length p))
  then Ret (take (Z.to_nat n) p ++ bs ++
            drop (Z.to_nat (n + Z.of_nat (length bs))) p)
  else Panic.

(** The loop of [ReadAt]; each round leaves the current block, so one unit
    of fuel per block and one for the exit test are enough. *)
Fixpoint read_loop (fuel : nat) (m : mem) (s : Stripe) (p : list Z)
  (n off remaining : Z) : outcome (Z * option goerror * list Z) :=
  match fuel with
  | O => Diverge
  | S fuel' =>
      if decide (remaining > 0) then
        let bIdx := Z.quot off BlockSize in
        if decide (bIdx >= Z.of_nat (length (Blocks s)))
        then Ret (n, Some ErrEOF, p)
        else
          let innerOff := Z.rem off BlockSize in
          let avail := BlockSize - innerOff in
          let copyLen := if decide (avail > remaining) then remaining else avail in
          b ← go_index (Blocks s) bIdx;
          src ← slice_sub b innerOff (innerOff + copyLen);
          p' ← copy_into p n (slice_bytes m src);
          read_loop fuel' m s p' (n + copyLen) (off + copyLen) (remaining - copyLen)
      else Ret (n, None, p)
  end.

(** Returns the count, the error and the caller's buffer. *)
Definition ReadAt (m : mem) (s : Stripe) (p : list Z) (off : Z)
  : outcome (Z * option goerror * list Z) :=
  if decide (off < 0) then Ret (0, Some ErrNegativeOffset, p)
  else if decide (off >= DataLen s) then Ret (0, Some ErrEOF, p)
  else
    let remaining := Z.of_nat (length p) in
    let remaining := if decide (off + remaining > DataLen s)
                     then DataLen s - off else remaining in
    read_loop (length (Blocks s) + 1) m s p 0 (off + BlockSize) remaining.

Definition ReadByteAt (m : mem) (s : Stripe) (off : Z)
  : outcome (Z * option goerror) :=
  if decide (off < 0 \/ off >= DataLen s) then
    if decide (off < 0) then Ret (0, Some ErrNegativeOffset)
    else Ret (0, Some ErrEOF)
  else
    let off := off + BlockSize in
    let bIdx := Z.quot off BlockSize in
    if decide (bIdx >= Z.of_nat (length (Blocks s))) then Ret (0, Some ErrEOF)
    else
      let innerOff := Z.rem off BlockSize in
      b ← go_index (Blocks s) bIdx;
      v ← slice_get m b innerOff;
      Ret (v, None).

(** The loop of [WriteAt]: returns the store, [n], [off] and the error. *)
Fixpoint write_loop (fuel : nat) (m : mem) (s : Stripe) (p : list Z)
  (n off remaining : Z) : outcome (mem * Z * Z * option goerror) :=
  match fuel with
  | O => Diverge
  | S fuel' =>
      if decide (remaining > 0) then
        let bIdx := Z.quot off BlockSize in
        if decide (bIdx >= Z.of_nat (length (Blocks s)))
        then Ret (m, n, off, Some ErrCapacity)
        else
          let innerOff := Z.rem off BlockSize in
          let avail := BlockSize - innerOff in
          let copyLen := if decide (avail > remaining) then remaining else avail in
          b ← go_index (Blocks s) bIdx;
          dst ← slice_sub b innerOff (innerOff + copyLen);
          let src := take (Z.to_nat copyLen) (drop (Z.to_nat n) p) in
          write_loop fuel' (store_bytes m (sl_base dst) src) s p
            (n + copyLen) (off + copyLen) (remaining - copyLen)
      else Ret (m, n, off, None)
  end.

(** [off += BlockSize] wraps for offsets near the end of int64.  The
    deferred function runs with the final values of [n] and [off]. *)
Definition WriteAt (m : mem) (s : Stripe) (p : list Z) (off : Z)
  : outcome (mem * Stripe * (Z * option goerror)) :=
  if decide (off < 0) then Ret (m, s, (0, Some ErrNegativeOffset))
  else
    r ← write_loop (length (Blocks s) + 1) m s p 0 (i64 (off + BlockSize))
          (Z.of_nat (length p));
    let '(m', n, off', err) := r in
    if decide (n > 0) then
      let newEnd := u32 (off' - BlockSize) in
      if decide (newEnd > DataLen s) then
        ms ← updateDataLen m' s newEnd;
        Ret (ms.1, ms.2, (n, err))
      else Ret (m', s, (n, err))
    else Ret (m', s, (n, err)).

Definition WriteByteAt (m : mem) (s : Stripe) (b off : Z)
  : outcome (mem * Stripe * option goerror) :=
  if decide (off < 0) then Ret (m, s, Some ErrNegativeOffset)
  else
    let off := i64 (off + BlockSize) in
    let bIdxInt := Z.quot off BlockSize in
    if decide (bIdxInt >= Z.of_nat (length (Blocks s)))
    then Ret (m, s, Some ErrCapacity)
    else
      let innerOff := Z.rem off BlockSize in
      blk ← go_index (Blocks s) bIdxInt;
      m' ← slice_set m blk innerOff b;
      let newEnd := u32 (off - BlockSize + 1) in
      if decide (newEnd > DataLen s) then
        ms ← updateDataLen m' s newEnd;
        Ret (ms.1, ms.2, None)
      else Ret (m', s, None).

(** ** Specification vocabulary *)

(** Bytes of user data the blocks can hold (the header block holds none). *)
Definition data_cap (s : Stripe) : Z := (Z.of_nat (length (Blocks s)) - 1) * BlockSize.

(** Address and value of data byte [i]. *)
Definition data_addr (s : Stripe) (i : Z) : Z :=
  match Blocks s !! Z.to_nat (i / BlockSize + 1) with
  | Some b => sl_base b + i mod BlockSize
  | None => 0
  end.

Definition data_byte (m : mem) (s : Stripe) (i : Z) : Z := load m (data_addr s i).

(** [n] data bytes from offset [i]. *)
Definition data_bytes (m : mem) (s : Stripe) (i n : Z) : list Z :=
  data_byte m s <$> seqZ i n.

(** The valid data of a stripe: what an [io.ReaderAt] exposes. *)
Definition stripe_data (m : mem) (s : Stripe) : list Z := data_bytes m s 0 (DataLen s).

(** Blocks are whole, non-overlapping and small enough for a uint32 length. *)
Record blocks_wf (bs : list slice) : Prop := {
  bwf_len : Forall (fun b => sl_len b = BlockSize) bs;
  bwf_disj : forall i j b c, bs !! i = Some b -> bs !! j = Some c -> i <> j ->
    sl_base b + BlockSize <= sl_base c \/ sl_base c + BlockSize <= sl_base b;
  bwf_pos : (0 < length bs)%nat;
  bwf_cap : Z.of_nat (length bs) * BlockSize < 4294967296;
}.

Record stripe_wf (s : Stripe) : Prop := {
  swf_blocks : blocks_wf (Blocks s);
  swf_len : 0 <= DataLen s <= data_cap s;
}.

(** The length word of the header block agrees with the cached field. *)
Definition header_synced (m : mem) (s : Stripe) : Prop :=
  exists b, Blocks s !! 0%nat = Some b /\ load_le m (sl_base b) 4 = DataLen s.

(** Every byte the stripe can hold, valid or not. *)
Definition stripe_area (m : mem) (s : Stripe) : list Z :=
  data_bytes m s 0 (data_cap s).

(** The bytes of the stripe's blocks, header included. *)
Definition in_blocks (s : Stripe) (a : Z) : Prop :=
  Exists (fun b => sl_base b <= a < sl_base b + sl_len b) (Blocks s).

(** How many of [remaining] bytes fit from position [pos] on. *)
Definition fit (s : Stripe) (pos remaining : Z) : Z :=
  Z.min remaining (Z.max 0 (data_cap s - pos)).

(** [m'] is [m] with the first [w] bytes of [src] written at data position
    [pos], and nothing else changed. *)
Definition data_written (m m' : mem) (s : Stripe) (pos w : Z) (src : list Z) : Prop :=
  (forall i, pos <= i < pos + w ->
     data_byte m' s i = default 0 (src !! Z.to_nat (i - pos))) /\
  (forall a, (forall i, pos <= i < pos + w -> a <> data_addr s i) ->
     load m' a = load m a).

(** ** Addressing lemmas *)
Section addressing.
Context (s : Stripe) (Hwf : blocks_wf (Blocks s)).

Lemma data_block i :
  0 <= i < data_cap s ->
  exists b, Blocks s !! Z.to_nat (i / BlockSize + 1) = Some b /\
    sl_len b = BlockSize /\ data_addr s i = sl_base b + i mod BlockSize.
Proof using Hwf.
  unfold data_cap. intros Hi.
  destruct (lookup_lt_is_Some_2 (Blocks s) (Z.to_nat (i / BlockSize + 1))) as [b Hb].
  { unfold_layout. Z.div_mod_to_equations. lia. }
  exists b. split_and!; [done| |].
  - pose proof (bwf_len _ Hwf) as Hl. rewrite Forall_lookup in Hl. by eapply Hl.
  - unfold data_addr. by rewrite Hb.
Qed.

Lemma header_block :
  exists b, Blocks s !! 0%nat = Some b /\ sl_len b = BlockSize.
Proof using Hwf.
  destruct (lookup_lt_is_Some_2 (Blocks s) 0 (bwf_pos _ Hwf)) as [b Hb].
  exists b. split; [done|].
  pose proof (bwf_len _ Hwf) as Hl. rewrite Forall_lookup in Hl. by eapply Hl.
Qed.

Lemma data_addr_inj i j :
  0 <= i < data_cap s -> 0 <= j < data_cap s ->
  data_addr s i = data_addr s j -> i = j.
Proof using Hwf.
  intros Hi Hj Heq.
  destruct (data_block i Hi) as (b & Hb & Lb & Ab).
  destruct (data_block j Hj) as (c & Hc & Lc & Ac).
  destruct (decide (i / BlockSize = j / BlockSize)) as [E|E].
  - rewrite E in Hb. simplify_eq. unfold_layout. Z.div_mod_to_equations. lia.
  - pose proof (bwf_disj _ Hwf _ _ _ _ Hb Hc) as Hd.
    unfold_layout. Z.div_mod_to_equations. lia.
Qed.

(** No data byte lies in the header block. *)
Lemma data_addr_not_header b i :
  Blocks s !! 0%nat = Some b -> 0 <= i < data_cap s ->
  data_addr s i < sl_base b \/ sl_base b + BlockSize <= data_addr s i.
Proof using Hwf.
  intros Hb Hi. destruct (data_block i Hi) as (c & Hc & Lc & Ac).
  pose proof (bwf_disj _ Hwf _ _ _ _ Hb Hc) as Hd.
  unfold_layout. Z.div_mod_to_equations. lia.
Qed.

(** Inside one block consecutive data bytes have consecutive addresses. *)
Lemma data_addr_run i j :
  0 <= i < data_cap s -> 0 <= j -> i mod BlockSize + j < BlockSize ->
  data_addr s (i + j) = data_addr s i + j.
Proof using Hwf.
  intros Hi Hj Hr. destruct (data_block i Hi) as (b & Hb & Lb & Ab).
  assert ((i + j) / BlockSize = i / BlockSize) as E
    by (unfold_layout; Z.div_mod_to_equations; lia).
  assert ((i + j) mod BlockSize = i mod BlockSize + j) as E'
    by (unfold_layout; Z.div_mod_to_equations; lia).
  rewrite Ab. unfold data_addr. rewrite E, Hb, E'. lia.
Qed.

Lemma data_bytes_run m i c :
  0 <= i < data_cap s -> 0 <= c -> i mod BlockSize + c <= BlockSize ->
  data_bytes m s i c = load_bytes m (data_addr s i) (Z.to_nat c).
Proof using Hwf.
  intros Hi Hc Hr. apply list_eq. intros k. unfold data_bytes.
  rewrite list_lookup_fmap.
  destruct (decide (Z.of_nat k < c)).
  - rewrite lookup_seqZ_lt, lookup_load_bytes by lia. simpl.
    unfold data_byte. rewrite data_addr_run by lia. done.
  - rewrite lookup_seqZ_ge, lookup_ge_None_2 by (rewrite ?length_load_bytes; lia).
    done.
Qed.

(** The slice a loop round works on, at logical position [pos]. *)
Lemma round_block pos c :
  0 <= pos < data_cap s -> 0 <= c -> pos mod BlockSize + c <= BlockSize ->
  exists b, go_index (Blocks s) (Z.quot (pos + BlockSize) BlockSize) = Ret b /\
    slice_sub b (Z.rem (pos + BlockSize) BlockSize)
      (Z.rem (pos + BlockSize) BlockSize + c) = Ret (Slice (data_addr s pos) c).
Proof using Hwf.
  intros Hp Hc Hr. destruct (data_block pos Hp) as (b & Hb & Lb & Ab).
  exists b. rewrite Z.quot_div_nonneg, Z.rem_mod_nonneg by (unfold_layout; lia).
  assert ((pos + BlockSize) / BlockSize = pos / BlockSize + 1) as E
    by (unfold_layout; Z.div_mod_to_equations; lia).
  assert ((pos + BlockSize) mod BlockSize = pos mod BlockSize) as E'
    by (unfold_layout; Z.div_mod_to_equations; lia).
  rewrite E, E'. split.
  - apply go_index_lookup; [unfold_layout; Z.div_mod_to_equations; lia|done].
  - unfold slice_sub. rewrite decide_True, Ab.
    + do 2 f_equal. lia.
    + rewrite Lb. unfold_layout. Z.div_mod_to_equations. lia.
Qed.

Lemma data_bytes_app m i a b :
  0 <= a -> 0 <= b ->
  data_bytes m s i (a + b) = data_bytes m s i a ++ data_bytes m s (i + a) b.
Proof using Type.
  intros Ha Hb. unfold data_bytes. by rewrite seqZ_app, fmap_app.
Qed.

Lemma length_data_bytes m i n : length (data_bytes m s i n) = Z.to_nat n.
Proof using Type. unfold data_bytes. by rewrite length_fmap, length_seqZ. Qed.

Lemma lookup_data_bytes m i n k :
  Z.of_nat k < n -> data_bytes m s i n !! k = Some (data_byte m s (i + Z.of_nat k)).
Proof using Type.
  intros H. unfold data_bytes. by rewrite list_lookup_fmap, lookup_seqZ_lt.
Qed.
End addressing.

(** ** Correctness of the loops *)
Lemma copy_into_app (p1 p2 bs : list Z) n :
  Z.of_nat (length p1) = n -> (length bs <= length p2)%nat ->
  copy_into (p1 ++ p2) n bs = Ret (p1 ++ bs ++ drop (length bs) p2).
Proof.
  intros Hn Hl. unfold copy_into. rewrite decide_True by (rewrite length_app; lia).
  f_equal. replace (Z.to_nat n) with (length p1) by lia.
  rewrite take_app_length. do 2 f_equal.
  replace (Z.to_nat _) with (length p1 + length bs)%nat by lia.
  by rewrite drop_app_add.
Qed.

(** [p1] is the part of the buffer already filled, [p2] the rest. *)
Lemma read_loop_spec m s (Hwf : blocks_wf (Blocks s)) fuel p1 p2 pos remaining :
  0 <= pos -> 0 <= remaining -> pos + remaining <= data_cap s ->
  remaining <= Z.of_nat (length p2) ->
  (1 <= fuel)%nat ->
  (0 < remaining -> Z.of_nat (length (Blocks s)) < Z.of_nat fuel + pos / BlockSize + 1) ->
  read_loop fuel m s (p1 ++ p2) (Z.of_nat (length p1)) (pos + BlockSize) remaining =
  Ret (Z.of_nat (length p1) + remaining, None,
       p1 ++ data_bytes m s pos remaining ++ drop (Z.to_nat remaining) p2).
Proof.
  revert p1 p2 pos remaining.
  induction fuel as [|fuel IH]; intros p1 p2 pos remaining Hpos Hrem Hcap Hp Hf1 Hf2;
    [lia|].
  cbn [read_loop]. case_decide as Hr.
  2:{ replace remaining with 0 by lia. by rewrite Z.add_0_r. }
  set (c := if decide (_ > remaining) then _ else _).
  rewrite decide_False.
  2:{ rewrite Z.quot_div_nonneg by (unfold_layout; lia). unfold data_cap in Hcap.
      unfold_layout. Z.div_mod_to_equations. lia. }
  assert (c = Z.min remaining (BlockSize - pos mod BlockSize)) as Hc.
  { unfold c. rewrite Z.rem_mod_nonneg by (unfold_layout; lia).
    replace ((pos + BlockSize) mod BlockSize) with (pos mod BlockSize)
      by (unfold_layout; Z.div_mod_to_equations; lia).
    case_decide; lia. }
  clearbody c.
  assert (0 < c <= remaining /\ pos mod BlockSize + c <= BlockSize) as [Hc0 Hcm]
    by (unfold_layout; Z.div_mod_to_equations; lia).
  destruct (round_block s Hwf pos c) as (b & -> & E); [lia..|]. go_bind.
  rewrite E. go_bind. unfold slice_bytes. cbn [sl_base sl_len].
  rewrite <- (data_bytes_run s Hwf m pos c) by lia.
  rewrite copy_into_app by (rewrite ?length_data_bytes; lia). go_bind.
  rewrite length_data_bytes, app_assoc.
  replace (Z.of_nat (length p1) + c)
    with (Z.of_nat (length (p1 ++ data_bytes m s pos c)))
    by (rewrite length_app, length_data_bytes; lia).
  replace (pos + BlockSize + c) with (pos + c + BlockSize) by lia.
  rewrite IH; [|lia|lia|lia|rewrite length_drop; lia| |].
  - f_equal. f_equal; [f_equal; rewrite length_app, length_data_bytes; lia|].
    rewrite <- app_assoc, drop_drop. f_equal.
    replace remaining with (c + (remaining - c)) at 3 by lia.
    rewrite data_bytes_app, <- app_assoc by lia. do 3 f_equal. lia.
  - unfold data_cap in Hcap. unfold_layout. Z.div_mod_to_equations. lia.
  - intros ?. assert ((pos + c) / BlockSize = pos / BlockSize + 1) as ->
      by (unfold_layout; Z.div_mod_to_equations; lia). lia.
Qed.

(** One round of the write loop. *)
Lemma data_written_round m s (Hwf : blocks_wf (Blocks s)) pos c src :
  0 <= pos < data_cap s -> 0 <= c <= Z.of_nat (length src) ->
  pos mod BlockSize + c <= BlockSize -> pos + c <= data_cap s ->
  data_written m (store_bytes m (data_addr s pos) (take (Z.to_nat c) src)) s pos c src.
Proof.
  intros Hp Hc Hr Hcap.
  assert (length (take (Z.to_nat c) src) = Z.to_nat c) as Hl
    by (rewrite length_take; lia).
  assert (forall i, pos <= i < pos + c ->
    data_addr s i = data_addr s pos + (i - pos)) as Hrun.
  { intros i Hi. rewrite <- (data_addr_run s Hwf) by lia. f_equal. lia. }
  split.
  - intros i Hi. unfold data_byte. rewrite (Hrun i Hi).
    rewrite load_store_bytes_in by (rewrite Hl; lia).
    replace (_ - data_addr s pos) with (i - pos) by lia.
    rewrite lookup_take_lt by lia. done.
  - intros a Ha. apply load_store_bytes_out. rewrite Hl.
    destruct (decide (a < data_addr s pos)); [by left|]. right.
    destruct (decide (data_addr s pos + Z.of_nat (Z.to_nat c) <= a)); [lia|].
    exfalso. apply (Ha (pos + (a - data_addr s pos))); [lia|].
    rewrite Hrun by lia. lia.
Qed.

(** Writing a prefix and then the rest is writing the whole. *)
Lemma data_written_trans m m1 m2 s (Hwf : blocks_wf (Blocks s)) pos c w src :
  0 <= pos -> 0 <= c -> 0 <= w -> pos + c + w <= data_cap s ->
  data_written m m1 s pos c src ->
  data_written m1 m2 s (pos + c) w (drop (Z.to_nat c) src) ->
  data_written m m2 s pos (c + w) src.
Proof.
  intros Hp Hc Hw Hcap [A1 B1] [A2 B2]. split.
  - intros i Hi. destruct (decide (i < pos + c)).
    + rewrite <- A1 by lia. unfold data_byte. apply B2. intros j Hj Heq.
      apply (data_addr_inj s Hwf) in Heq; lia.
    + rewrite A2 by lia. rewrite lookup_drop. do 2 f_equal. lia.
  - intros a Ha. rewrite B2 by (intros i Hi; apply Ha; lia).
    apply B1. intros i Hi. apply Ha. lia.
Qed.

Lemma data_written_nil m s pos src : data_written m m s pos 0 src.
Proof. split; [intros; lia|done]. Qed.

Lemma write_loop_spec s (Hwf : blocks_wf (Blocks s)) fuel m p n pos remaining :
  0 <= pos -> 0 <= n -> 0 <= remaining -> n + remaining = Z.of_nat (length p) ->
  (1 <= fuel)%nat ->
  (0 < remaining -> Z.of_nat (length (Blocks s)) < Z.of_nat fuel + pos / BlockSize + 1) ->
  exists m', write_loop fuel m s p n (pos + BlockSize) remaining =
    Ret (m', n + fit s pos remaining, pos + BlockSize + fit s pos remaining,
         if decide (fit s pos remaining < remaining) then Some ErrCapacity else None) /\
    data_written m m' s pos (fit s pos remaining) (drop (Z.to_nat n) p).
Proof.
  revert m n pos remaining.
  induction fuel as [|fuel IH]; intros m n pos remaining Hpos Hn Hrem Hp Hf1 Hf2; [lia|].
  cbn [write_loop]. case_decide as Hr.
  2:{ assert (fit s pos remaining = 0) as Hw by (unfold fit; lia).
      rewrite Hw, decide_False, !Z.add_0_r by lia. eauto using data_written_nil. }
  destruct (decide (data_cap s <= pos)) as [Hfull|Hroom].
  { assert (fit s pos remaining = 0) as Hw by (unfold fit; lia).
    rewrite decide_True, Hw, decide_True, !Z.add_0_r
      by (unfold data_cap in *; rewrite ?Z.quot_div_nonneg by (unfold_layout; lia);
          unfold_layout; Z.div_mod_to_equations; lia).
    eauto using data_written_nil. }
  set (c := if decide (_ > remaining) then _ else _).
  rewrite decide_False.
  2:{ rewrite Z.quot_div_nonneg by (unfold_layout; lia). unfold data_cap in Hroom.
      unfold_layout. Z.div_mod_to_equations. lia. }
  assert (c = Z.min remaining (BlockSize - pos mod BlockSize)) as Hc.
  { unfold c. rewrite Z.rem_mod_nonneg by (unfold_layout; lia).
    replace ((pos + BlockSize) mod BlockSize) with (pos mod BlockSize)
      by (unfold_layout; Z.div_mod_to_equations; lia).
    case_decide; lia. }
  clearbody c.
  assert (0 < c <= remaining /\ pos mod BlockSize + c <= BlockSize /\
          pos + c <= data_cap s) as (Hc0 & Hcm & Hcc).
  { unfold data_cap in *. unfold_layout. Z.div_mod_to_equations. lia. }
  destruct (round_block s Hwf pos c) as (b & -> & E); [lia..|]. go_bind.
  rewrite E. go_bind. cbn [sl_base].
  replace (pos + BlockSize + c) with (pos + c + BlockSize) by lia.
  destruct (IH (store_bytes m (data_addr s pos)
                  (take (Z.to_nat c) (drop (Z.to_nat n) p)))
              (n + c) (pos + c) (remaining - c)) as (m' & -> & Hw);
    [lia|lia|lia|lia| |  |].
  { unfold data_cap in *. unfold_layout. Z.div_mod_to_equations. lia. }
  { intros ?. assert ((pos + c) / BlockSize = pos / BlockSize + 1) as ->
      by (unfold_layout; Z.div_mod_to_equations; lia). lia. }
  assert (fit s pos remaining = c + fit s (pos + c) (remaining - c)) as Hfit
    by (unfold fit; lia).
  exists m'. rewrite Hfit. split.
  - f_equal. f_equal; [f_equal; [f_equal|]; lia|].
    repeat case_decide; (done || lia).
  - eapply data_written_trans; [done|lia|lia|unfold fit; lia|unfold fit; lia| |].
    + apply data_written_round; [done|lia|rewrite length_drop; lia|done|done].
    + rewrite drop_drop.
      replace (Z.to_nat n + Z.to_nat c)%nat with (Z.to_nat (n + c)) by lia. done.
Qed.

(** ** Correctness of the operations *)
Lemma with_DataLen_data_addr s n i : data_addr (with_DataLen s n) i = data_addr s i.
Proof. done. Qed.

Lemma fit_bounds s pos r : 0 <= r -> 0 <= fit s pos r <= r.
Proof. unfold fit. lia. Qed.

Lemma fit_cap s pos r : 0 < fit s pos r -> pos + fit s pos r <= data_cap s.
Proof. unfold fit. lia. Qed.

Lemma updateDataLen_ok m s n (Hwf : blocks_wf (Blocks s)) :
  exists b, Blocks s !! 0%nat = Some b /\ sl_len b = BlockSize /\
    updateDataLen m s n = Ret (store_le m (sl_base b) 4 n, with_DataLen s n).
Proof.
  destruct (header_block s Hwf) as (b & Hb & Lb). exists b. split_and!; [done..|].
  unfold updateDataLen. rewrite (go_index_lookup _ 0 b) by done. go_bind.
  rewrite decide_True by (rewrite Lb; unfold_layout; lia).
  unfold HEADER_DATA_LEN_OFF. by rewrite Z.add_0_r.
Qed.

(** Storing the length word leaves every data byte alone. *)
Lemma data_byte_header_store m s n b i (Hwf : blocks_wf (Blocks s)) :
  Blocks s !! 0%nat = Some b -> 0 <= i < data_cap s ->
  data_byte (store_le m (sl_base b) 4 n) s i = data_byte m s i.
Proof.
  intros Hb Hi. unfold data_byte. apply load_store_le_out.
  pose proof (data_addr_not_header s Hwf b i Hb Hi). unfold_layout. lia.
Qed.

Lemma data_addr_in_blocks s (Hwf : blocks_wf (Blocks s)) i :
  0 <= i < data_cap s -> in_blocks s (data_addr s i).
Proof.
  intros Hi. destruct (data_block s Hwf i Hi) as (b & Hb & Lb & ->).
  apply Exists_exists. exists b. split; [by eapply list_elem_of_lookup_2|].
  rewrite Lb. unfold_layout. Z.div_mod_to_equations. lia.
Qed.

Lemma data_written_area m m' s pos w src :
  0 <= pos -> 0 <= w -> pos + w <= data_cap s -> w <= Z.of_nat (length src) ->
  blocks_wf (Blocks s) ->
  data_written m m' s pos w src ->
  stripe_area m' s =
  take (Z.to_nat pos) (stripe_area m s) ++ take (Z.to_nat w) src ++
  drop (Z.to_nat (pos + w)) (stripe_area m s).
Proof.
  intros Hp Hw Hcap Hl Hwf [HA HB]. unfold stripe_area.
  replace (data_cap s) with (pos + (w + (data_cap s - (pos + w)))) by lia.
  rewrite !data_bytes_app by lia. rewrite !Z.add_0_l.
  assert (forall q : list Z, length q = Z.to_nat pos -> forall r, take (Z.to_nat pos) (q ++ r) = q)
    as Ht by (intros q <- r; apply take_app_length).
  rewrite (Ht (data_bytes m s 0 pos)) by apply length_data_bytes.
  replace (Z.to_nat (pos + w)) with
    (length (data_bytes m s 0 pos) + (length (data_bytes m s pos w) + 0))%nat
    by (rewrite !length_data_bytes; lia).
  rewrite !drop_app_add, drop_0.
  f_equal; [|f_equal].
  1,3: apply list_fmap_ext; intros k i Hk; apply lookup_seqZ in Hk as [-> Hk];
    apply HB; intros j Hj Heq; apply (data_addr_inj s Hwf) in Heq; lia.
  apply list_eq. intros k. destruct (decide (Z.of_nat k < w)).
  - rewrite lookup_data_bytes, lookup_take_lt by lia. rewrite HA by lia.
    replace (Z.to_nat _) with k by lia.
    destruct (lookup_lt_is_Some_2 src k) as [x ->]; [lia|done].
  - rewrite !lookup_ge_None_2; rewrite ?length_take, ?length_data_bytes; (done || lia).
Qed.

Lemma stripe_area_header_store m s n b (Hwf : blocks_wf (Blocks s)) :
  Blocks s !! 0%nat = Some b ->
  stripe_area (store_le m (sl_base b) 4 n) s = stripe_area m s.
Proof.
  intros Hb. apply list_fmap_ext. intros k i Hk. apply lookup_seqZ in Hk as [-> Hk].
  apply data_byte_header_store; [done..|lia].
Qed.

(** What [WriteAt] does, in terms of its loop. *)
Lemma WriteAt_run m s p off :
  blocks_wf (Blocks s) -> 0 <= off -> off + BlockSize < 9223372036854775808 ->
  let w := fit s off (Z.of_nat (length p)) in
  let err := if decide (w < Z.of_nat (length p)) then Some ErrCapacity else None in
  exists m1 b, data_written m m1 s off w p /\ Blocks s !! 0%nat = Some b /\
    WriteAt m s p off =
    Ret (if decide (w > 0 /\ off + w > DataLen s)
         then (store_le m1 (sl_base b) 4 (off + w), with_DataLen s (off + w), (w, err))
         else (m1, s, (w, err))).
Proof.
  intros Hwf Hoff Hbig w err.
  destruct (write_loop_spec s Hwf (length (Blocks s) + 1) m p 0 off
              (Z.of_nat (length p))) as (m1 & E & Hw); [lia..| |].
  { intros _. assert (0 <= off / BlockSize) by (apply Z.div_pos; unfold_layout; lia). lia. }
  fold w in E, Hw. rewrite drop_0 in Hw. fold err in E. rewrite Z.add_0_l in E.
  pose proof (fit_bounds s off (Z.of_nat (length p))) as Hb1. fold w in Hb1.
  pose proof (fit_cap s off (Z.of_nat (length p))) as Hb2. fold w in Hb2.
  assert (data_cap s < 4294967296) as Hcap
    by (pose proof (bwf_cap _ Hwf); unfold data_cap; unfold_layout; lia).
  destruct (updateDataLen_ok m1 s (off + w) Hwf) as (b & Hb & Lb & EU).
  exists m1, b. split_and!; [done..|].
  unfold WriteAt. rewrite decide_False by lia.
  rewrite i64_small, E by (unfold_layout; lia). go_bind.
  clearbody err. case_decide as Hw0; [|by rewrite decide_False by lia].
  replace (off + BlockSize + w - BlockSize) with (off + w) by lia.
  rewrite u32_small by lia.
  case_decide; [|by rewrite decide_False by lia].
  rewrite EU, decide_True by done. done.
Qed.

(** Storing the length word touches the header block only. *)
Lemma header_store_frame m s n b (Hwf : blocks_wf (Blocks s)) :
  Blocks s !! 0%nat = Some b -> mem_frame (in_blocks s) m (store_le m (sl_base b) 4 n).
Proof.
  intros Hb a Ha. rewrite load_store_le_out; [done|].
  destruct (header_block s Hwf) as (b' & Hb' & Lb). simplify_eq.
  destruct (decide (a < sl_base b \/ sl_base b + 4 <= a)) as [|Hc]; [lia|].
  exfalso. apply Ha, Exists_exists. exists b. unfold_layout.
  split; [by eapply list_elem_of_lookup_2|lia].
Qed.

(** The full effect of [WriteAt] on a well-formed stripe. *)
Lemma WriteAt_effect m s p off :
  stripe_wf s -> 0 <= off -> off + BlockSize < 9223372036854775808 ->
  let w := fit s off (Z.of_nat (length p)) in
  exists m' s',
    WriteAt m s p off =
      Ret (m', s', (w, if decide (w < Z.of_nat (length p))
                       then Some ErrCapacity else None)) /\
    s' = with_DataLen s (if decide (w > 0) then Z.max (DataLen s) (off + w)
                         else DataLen s) /\
    stripe_wf s' /\
    stripe_area m' s' =
      take (Z.to_nat off) (stripe_area m s) ++ take (Z.to_nat w) p ++
      drop (Z.to_nat (off + w)) (stripe_area m s) /\
    (header_synced m s -> header_synced m' s') /\
    mem_frame (in_blocks s) m m'.
Proof.
  intros [Hwf Hlen] Hoff Hbig w.
  destruct (WriteAt_run m s p off Hwf Hoff Hbig) as (m1 & b & Hw & Hb & ->).
  fold w in Hw |- *.
  pose proof (fit_bounds s off (Z.of_nat (length p))) as Hb1. fold w in Hb1.
  pose proof (fit_cap s off (Z.of_nat (length p))) as Hb2. fold w in Hb2.
  assert (Hcap : data_cap s < 4294967296)
    by (pose proof (bwf_cap _ Hwf); unfold data_cap; unfold_layout; lia).
  assert (Harea : stripe_area m1 s = take (Z.to_nat off) (stripe_area m s) ++
            take (Z.to_nat w) p ++ drop (Z.to_nat (off + w)) (stripe_area m s)).
  { destruct (decide (w > 0)).
    - apply data_written_area; [lia..|done|done].
    - assert (w = 0) as Hz by lia. rewrite Hz in *.
      rewrite Z.add_0_r, take_0, app_nil_l, take_drop.
      apply list_fmap_ext. intros k i Hk. apply Hw. lia. }
  assert (Hin : forall a, ~ in_blocks s a -> load m1 a = load m a).
  { intros a Ha. apply Hw. intros i Hi ->. apply Ha, data_addr_in_blocks; [done|lia]. }
  assert (Hsync : load_le m1 (sl_base b) 4 = load_le m (sl_base b) 4).
  { apply load_le_ext. intros a Ha. apply Hw. intros i Hi ->.
    pose proof (data_addr_not_header s Hwf b i Hb). unfold_layout. lia. }
  case_decide as Hd.
  - eexists _, _. split_and!; [done| | | | |].
    + f_equal. rewrite decide_True by lia. lia.
    + split; [done|]. cbn [DataLen with_DataLen]. change (data_cap _) with (data_cap s). lia.
    + rewrite <- Harea. exact (stripe_area_header_store m1 s (off + w) b Hwf Hb).
    + intros _. exists b. split; [done|]. apply load_store_le_same. simpl. lia.
    + intros a Ha. rewrite (header_store_frame m1 s (off + w) b Hwf Hb a Ha). by apply Hin.
  - eexists _, _. split_and!; [done| |done|done| |done].
    + destruct s. unfold with_DataLen. simpl in *. f_equal. case_decide; lia.
    + intros (b' & Hb' & Hs). simplify_eq. exists b. split; [done|]. by rewrite Hsync.
Qed.

Lemma ReadAt_effect m s p off :
  stripe_wf s -> 0 <= off < DataLen s ->
  let n := Z.min (Z.of_nat (length p)) (DataLen s - off) in
  ReadAt m s p off = Ret (n, None, data_bytes m s off n ++ drop (Z.to_nat n) p).
Proof.
  intros [Hwf Hlen] Hoff n. unfold ReadAt.
  rewrite !decide_False by lia.
  replace (if decide _ then _ else _) with n by (unfold n; case_decide; lia).
  rewrite (read_loop_spec m s Hwf _ [] p off n); [done|lia..| ].
  intros _. assert (0 <= off / BlockSize) by (apply Z.div_pos; unfold_layout; lia). lia.
Qed.

Lemma stripe_data_area m s :
  stripe_wf s -> stripe_data m s = take (Z.to_nat (DataLen s)) (stripe_area m s).
Proof.
  intros [_ Hlen]. unfold stripe_data, stripe_area.
  replace (data_cap s) with (DataLen s + (data_cap s - DataLen s)) by lia.
  rewrite data_bytes_app by lia.
  rewrite <- (length_data_bytes s m 0 (DataLen s)). by rewrite take_app_length.
Qed.

Lemma data_bytes_sub m s i n :
  0 <= i -> 0 <= n -> i + n <= DataLen s ->
  data_bytes m s i n = take (Z.to_nat n) (drop (Z.to_nat i) (stripe_data m s)).
Proof.
  intros Hi Hn Hle. unfold stripe_data.
  replace (DataLen s) with (i + (n + (DataLen s - i - n))) by lia.
  rewrite !data_bytes_app by lia.
  rewrite <- (length_data_bytes s m 0 i).
  rewrite drop_app_length, Z.add_0_l.
  rewrite <- (length_data_bytes s m i n). by rewrite take_app_length.
Qed.

(** ** Properties *)

(** A three-block stripe whose blocks are not in address order, for the
    witnesses. *)
Definition demo_stripe : Stripe :=
  mkStripe [-1; 0; 2; 1] 3
    [Slice 0 BlockSize; Slice 8192 BlockSize; Slice 4096 BlockSize] 10.

Lemma demo_stripe_wf : stripe_wf demo_stripe.
Proof.
  split; [split|].
  - repeat constructor.
  - intros [|[|[|i]]] [|[|[|j]]] b c Hb Hc Hij; simpl in *; simplify_eq; vm_compute;
      intuition congruence.
  - simpl. lia.
  - reflexivity.
  - vm_compute. intuition congruence.
Qed.

(** [ReadAt] on a well-formed stripe, on every branch: a negative offset
    and an offset at or past the end return the two errors without touching
    the buffer; otherwise it returns without error (and terminates) with the
    [min(len(p), DataLen-off)] bytes of the stripe's data from [off] on,
    reassembled across block boundaries, at the front of the buffer, and the
    rest of the buffer unchanged. *)
Theorem ReadAt_refines m s p off :
  stripe_wf s ->
  ReadAt m s p off =
  Ret (if decide (off < 0) then (0, Some ErrNegativeOffset, p)
       else if decide (off >= DataLen s) then (0, Some ErrEOF, p)
       else
         let n := Z.min (Z.of_nat (length p)) (DataLen s - off) in
         (n, None, take (Z.to_nat n) (drop (Z.to_nat off) (stripe_data m s)) ++
                   drop (Z.to_nat n) p)).
Proof.
  intros Hwf. destruct (decide (off < 0)) as [Hn|Hn].
  { unfold ReadAt. by rewrite decide_True. }
  destruct (decide (off >= DataLen s)) as [He|He].
  { unfold ReadAt. by rewrite decide_False, decide_True. }
  rewrite ReadAt_effect by (done || lia). do 3 f_equal.
  apply data_bytes_sub; lia.
Qed.

Lemma ReadAt_refines_witness :
  stripe_wf demo_stripe /\
  ReadAt (store_bytes ∅ 8192 [7; 8; 9]) demo_stripe [1; 1] 1 = Ret (2, None, [8; 9]).
Proof.
  split; [apply demo_stripe_wf|].
  rewrite (ReadAt_refines _ _ _ _ demo_stripe_wf). vm_compute. reflexivity.
Defined.

(** [WriteAt] on a well-formed stripe writes exactly the bytes that fit
    at data offset [off] (all of them, or a prefix together with the
    capacity error), raises [DataLen] to the end of what it wrote and no
    further, keeps the header block's length word equal to [DataLen], keeps
    the stripe well-formed, and changes no byte outside the stripe's
    blocks. *)
Theorem WriteAt_refines m s p off :
  stripe_wf s -> 0 <= off -> off + BlockSize < 9223372036854775808 ->
  let w := fit s off (Z.of_nat (length p)) in
  exists m' s',
    WriteAt m s p off =
      Ret (m', s', (w, if decide (w < Z.of_nat (length p))
                       then Some ErrCapacity else None)) /\
    s' = with_DataLen s (if decide (w > 0) then Z.max (DataLen s) (off + w)
                         else DataLen s) /\
    stripe_wf s' /\
    stripe_area m' s' =
      take (Z.to_nat off) (stripe_area m s) ++ take (Z.to_nat w) p ++
      drop (Z.to_nat (off + w)) (stripe_area m s) /\
    (header_synced m s -> header_synced m' s') /\
    mem_frame (in_blocks s) m m'.
Proof. apply WriteAt_effect. Qed.

Lemma WriteAt_refines_witness :
  exists m' s', WriteAt ∅ demo_stripe [5; 6] 4095 = Ret (m', s', (2, None)) /\
    DataLen s' = 4097 /\ stripe_wf s'.
Proof.
  destruct (WriteAt_refines ∅ demo_stripe [5; 6] 4095 demo_stripe_wf)
    as (m' & s' & E & Hs & Hwf & _); [lia|vm_compute; reflexivity|].
  exists m', s'. split; [exact E|]. split; [rewrite Hs; reflexivity|exact Hwf].
Defined.

(** C18: what is written within capacity is read back: [WriteAt] of a
    non-empty [p] returns [len(p)] and no error, and [ReadAt] of as many
    bytes at the same offset then returns exactly [p]. *)
Theorem WriteAt_ReadAt_roundtrip m s p buf off :
  stripe_wf s -> 0 <= off -> 0 < Z.of_nat (length p) ->
  off + Z.of_nat (length p) <= data_cap s -> length buf = length p ->
  exists m' s',
    WriteAt m s p off = Ret (m', s', (Z.of_nat (length p), None)) /\
    ReadAt m' s' buf off = Ret (Z.of_nat (length p), None, p).
Proof.
  intros Hwf Hoff Hp Hcap Hbuf.
  assert (data_cap s + BlockSize < 4294967296) as Hbig
    by (pose proof (bwf_cap _ (swf_blocks _ Hwf)); unfold data_cap; unfold_layout; lia).
  assert (fit s off (Z.of_nat (length p)) = Z.of_nat (length p)) as Hfit
    by (unfold fit; lia).
  destruct (WriteAt_effect m s p off Hwf) as (m' & s' & E & Hs & Hwf' & Ha & _);
    [lia..|].
  rewrite Hfit in *. rewrite decide_False in E by lia.
  rewrite decide_True in Hs by lia.
  exists m', s'. split; [done|].
  assert (DataLen s' = Z.max (DataLen s) (off + Z.of_nat (length p))) as HD
    by (by rewrite Hs).
  rewrite ReadAt_effect by (done || lia). rewrite Hbuf, HD.
  replace (Z.min _ _) with (Z.of_nat (length p)) by lia.
  rewrite Nat2Z.id, <- Hbuf, drop_all, app_nil_r. do 2 f_equal.
  rewrite data_bytes_sub by lia. rewrite (stripe_data_area m' s' Hwf').
  rewrite HD, Ha, Hbuf, Nat2Z.id, firstn_all.
  rewrite skipn_firstn_comm, take_take, Nat.min_l by lia.
  rewrite drop_app_ge by (rewrite length_take; lia).
  replace (_ - _)%nat with 0%nat
    by (rewrite length_take; unfold stripe_area; rewrite length_data_bytes; lia).
  by rewrite drop_0, take_app_length.
Qed.

Lemma WriteAt_ReadAt_roundtrip_witness :
  exists m' s', WriteAt ∅ demo_stripe [5; 6; 7] 4095 = Ret (m', s', (3, None)) /\
    ReadAt m' s' [0; 0; 0] 4095 = Ret (3, None, [5; 6; 7]).
Proof.
  apply (WriteAt_ReadAt_roundtrip ∅ demo_stripe [5; 6; 7] [0; 0; 0] 4095);
    [apply demo_stripe_wf|lia|simpl; lia|vm_compute; congruence|reflexivity].
Defined.

(** for the last [BlockSize] offsets of int64 the addition
    [off += BlockSize] wraps, the negative block index passes the capacity
    test, and [WriteAt] of any non-empty buffer panics instead of returning
    the capacity error. *)
Theorem WriteAt_offset_overflow_panics m s p off :
  p <> [] -> 9223372036854775808 - BlockSize <= off < 9223372036854775808 ->
  WriteAt m s p off = Panic.
Proof.
  intros Hp Hoff. unfold WriteAt. rewrite decide_False by (unfold_layout; lia).
  replace (length (Blocks s) + 1)%nat with (S (length (Blocks s))) by lia.
  cbn [write_loop].
  rewrite decide_True by (destruct p; [done|simpl; lia]).
  assert (Z.quot (i64 (off + BlockSize)) BlockSize < 0) as Hq.
  { unfold i64. unfold_layout.
    replace ((off + 4096 + 9223372036854775808) mod 18446744073709551616)
      with (off + 4096 - 9223372036854775808)
      by (Z.div_mod_to_equations; lia).
    apply (Z.le_lt_trans _ (Z.quot (-4096) 4096)); [|reflexivity].
    apply Z.quot_le_mono; lia. }
  rewrite decide_False by lia. by rewrite go_index_neg.
Qed.

Lemma WriteAt_offset_overflow_panics_witness :
  WriteAt ∅ demo_stripe [1] 9223372036854775807 = Panic.
Proof.
  apply WriteAt_offset_overflow_panics; [congruence|vm_compute; intuition congruence].
Defined.

(** A loop round with one byte left. *)
Lemma write_one_round m s b off fuel (Hwf : blocks_wf (Blocks s)) :
  write_loop (S (S fuel)) m s [b] 0 off 1 =
  if decide (Z.quot off BlockSize >= Z.of_nat (length (Blocks s)))
  then Ret (m, 0, off, Some ErrCapacity)
  else
    blk ← go_index (Blocks s) (Z.quot off BlockSize);
    m' ← slice_set m blk (Z.rem off BlockSize) b;
    Ret (m', 1, off + 1, None).
Proof.
  remember (S fuel) as fuel1 eqn:Hf. cbn [write_loop].
  rewrite decide_True by lia. case_decide as Hq; [done|].
  destruct (go_index (Blocks s) (Z.quot off BlockSize)) as [blk| |] eqn:E;
    go_bind; [|done|done].
  apply go_index_Ret in E as [Hq0 Hblk].
  assert (sl_len blk = BlockSize) as Lb.
  { pose proof (bwf_len _ Hwf) as Hl. rewrite Forall_lookup in Hl. by eapply Hl. }
  assert (-BlockSize < Z.rem off BlockSize < BlockSize) as Hrem
    by (unfold_layout; Z.quot_rem_to_equations; lia).
  set (c := if decide (_ > 1) then _ else _).
  assert (c = 1) as -> by (unfold c; unfold_layout; case_decide; lia).
  unfold slice_sub, slice_set. rewrite Lb.
  case_decide as H1; case_decide as H2; try lia; go_bind; [|done].
  subst fuel1. cbn [write_loop]. rewrite decide_False by lia. done.
Qed.

(** [WriteByteAt] behaves exactly as [WriteAt] of a one-byte buffer, for
    every int64 offset: same store, same length update, same error, same
    panic. *)
Theorem WriteByteAt_equiv m s b off :
  blocks_wf (Blocks s) ->
  WriteByteAt m s b off =
  (r ← WriteAt m s [b] off; let '(m', s', (_, e)) := r in Ret (m', s', e)).
Proof.
  intros Hwf. unfold WriteByteAt, WriteAt. case_decide; [done|].
  pose proof (bwf_pos _ Hwf).
  replace (length (Blocks s) + 1)%nat with (S (S (length (Blocks s) - 1))) by lia.
  change (Z.of_nat (length [b])) with 1.
  rewrite write_one_round by done. cbv zeta.
  case_decide; go_bind; [by rewrite decide_False by lia|].
  destruct (go_index (Blocks s) _); go_bind; [|done..].
  destruct (slice_set m _ _ b); go_bind; [|done..].
  rewrite (decide_True (P := 1 > 0)) by lia.
  replace (i64 (off + BlockSize) + 1 - BlockSize)
    with (i64 (off + BlockSize) - BlockSize + 1) by lia.
  case_decide; [|done]. by destruct (updateDataLen _ s _).
Qed.

Lemma WriteByteAt_equiv_witness :
  exists r, WriteByteAt ∅ demo_stripe 9 20 = Ret r /\
  (x ← WriteAt ∅ demo_stripe [9] 20; let '(m', s', (_, e)) := x in Ret (m', s', e)) = Ret r.
Proof.
  destruct (WriteByteAt ∅ demo_stripe 9 20) as [r| |] eqn:E;
    [|vm_compute in E; discriminate..].
  exists r. split; [reflexivity|].
  rewrite <- (WriteByteAt_equiv ∅ demo_stripe 9 20 (swf_blocks _ demo_stripe_wf)).
  exact E.
Defined.

(** [ReadByteAt] returns what [ReadAt] puts in a one-byte buffer, with
    the same error. *)
Theorem ReadByteAt_equiv m s off :
  stripe_wf s ->
  ReadByteAt m s off =
  (r ← ReadAt m s [0] off; let '(_, e, p) := r in Ret (default 0 (head p), e)).
Proof.
  intros Hwf. unfold ReadByteAt.
  destruct (decide (off < 0)).
  { unfold ReadAt. rewrite !decide_True by tauto. done. }
  destruct (decide (off >= DataLen s)).
  { unfold ReadAt. rewrite (decide_True (P := off < 0 \/ _)) by tauto.
    by rewrite decide_False, decide_True by lia. }
  rewrite decide_False by lia. rewrite ReadAt_effect by (done || lia).
  pose proof (swf_len _ Hwf). go_bind.
  replace (Z.min _ _) with 1 by (simpl; lia).
  destruct (round_block s (swf_blocks _ Hwf) off 1) as (b & E1 & E2); [lia|lia|
    unfold_layout; Z.div_mod_to_equations; lia|].
  cbv zeta. rewrite E1. rewrite decide_False.
  2:{ apply go_index_Ret in E1 as [? ?%lookup_lt_Some]. lia. }
  go_bind. unfold slice_sub in E2. case_decide; [|done].
  unfold slice_get. rewrite decide_True by lia. go_bind.
  injection E2 as E2 _. rewrite E2. done.
Qed.

Lemma ReadByteAt_equiv_witness :
  ReadByteAt (store_bytes ∅ 8192 [7; 8]) demo_stripe 1 = Ret (8, None).
Proof.
  rewrite (ReadByteAt_equiv _ _ _ demo_stripe_wf). vm_compute. reflexivity.
Defined.

(** [Truncate] never grows a stripe: the data becomes its first [newLen]
    bytes, the header's length word follows, and the stripe stays
    well-formed. *)
Theorem Truncate_refines m s newLen :
  stripe_wf s -> header_synced m s -> 0 <= newLen ->
  exists m' s', Truncate m s newLen = Ret (m', s') /\ stripe_wf s' /\
    header_synced m' s' /\ DataLen s' = Z.min newLen (DataLen s) /\
    stripe_data m' s' = take (Z.to_nat newLen) (stripe_data m s) /\
    stripe_area m' s' = stripe_area m s /\ Blocks s' = Blocks s /\
    mem_frame (in_blocks s) m m'.
Proof.
  intros Hwf Hsync Hn. unfold Truncate. pose proof (swf_len _ Hwf) as Hlen.
  case_decide as Hd.
  { exists m, s. split_and!; try done; [lia|]. rewrite take_ge; [done|].
    unfold stripe_data. rewrite length_data_bytes. lia. }
  pose proof (swf_blocks _ Hwf) as Hb.
  assert (data_cap s < 4294967296)
    by (pose proof (bwf_cap _ Hb); unfold data_cap; unfold_layout; lia).
  destruct (updateDataLen_ok m s newLen Hb) as (b & Hhd & _ & ->).
  pose proof (stripe_area_header_store m s newLen b Hb Hhd) as Harea.
  assert (stripe_wf (with_DataLen s newLen)) as Hwf'.
  { split; [done|]. cbn [DataLen with_DataLen].
    change (data_cap _) with (data_cap s). lia. }
  eexists _, _. split_and!; [done|done| |cbn; lia| |done|done|].
  - exists b. split; [done|]. apply load_store_le_same. simpl. lia.
  - rewrite !stripe_data_area by done. rewrite take_take. cbn [DataLen with_DataLen].
    rewrite Nat.min_l by lia. f_equal. done.
  - by apply header_store_frame.
Qed.

Lemma Truncate_refines_witness :
  exists m' s', Truncate (store_le ∅ 0 4 10) demo_stripe 4 = Ret (m', s') /\
    DataLen s' = 4 /\ stripe_wf s'.
Proof.
  destruct (Truncate_refines (store_le ∅ 0 4 10) demo_stripe 4 demo_stripe_wf)
    as (m' & s' & E & Hwf & _).
  - exists (Slice 0 BlockSize). split; reflexivity.
  - lia.
  - exists m', s'. split; [exact E|]. split; [|exact Hwf].
    vm_compute in E. injection E as _ <-. reflexivity.
Defined.
