(* ===== verification/File.v ===== *)
(** * A stripe as a file

    The accessors of go/shm/stripe.go together implement a small byte file of
    fixed capacity: this file states that abstract file and shows that every
    sequence of calls on a well-formed stripe refines it. *)
From stdpp Require Import base tactics list numbers option gmap.
From Stdlib Require Import ZArith Lia.
From S2P Require Import Prelude Memory Layout Protocol Stripe.
#[local] Open Scope Z_scope.

(** ** Calls *)
Inductive call : Type :=
| CReadAt (p : list Z) (off : Z)
| CReadByteAt (off : Z)
| CWriteAt (p : list Z) (off : Z)
| CWriteByteAt (b off : Z)
| CTruncate (newLen : Z).

(** The count or byte returned, the error and the caller's buffer. *)
Definition reply : Type := Z * option goerror * list Z.

(** A call on the stripe. *)
Definition run_call (m : mem) (s : Stripe) (c : call) : outcome (mem * Stripe * reply) :=
  match c with
  | CReadAt p off => r ← ReadAt m s p off; Ret (m, s, r)
  | CReadByteAt off => r ← ReadByteAt m s off; Ret (m, s, (r.1, r.2, []))
  | CWriteAt p off =>
      r ← WriteAt m s p off; let '(m', s', (n, e)) := r in Ret (m', s', (n, e, p))
  | CWriteByteAt b off =>
      r ← WriteByteAt m s b off; let '(m', s', e) := r in Ret (m', s', (0, e, []))
  | CTruncate newLen =>
      r ← Truncate m s newLen; Ret (r.1, r.2, (0, None, []))
  end.

Fixpoint run_calls (m : mem) (s : Stripe) (cs : list call)
  : outcome (mem * Stripe * list reply) :=
  match cs with
  | [] => Ret (m, s, [])
  | c :: cs' =>
      r ← run_call m s c;
      let '(m1, s1, a) := r in
      rest ← run_calls m1 s1 cs';
      let '(m2, s2, l) := rest in
      Ret (m2, s2, a :: l)
  end.

(** ** The abstract file *)

(** The bytes the file can hold and how many of them are valid. *)
Record file : Type := mkFile { area : list Z; flen : Z }.

Definition capacity (f : file) : Z := Z.of_nat (length (area f)).

Definition file_read (f : file) (p : list Z) (off : Z) : reply :=
  if decide (off < 0) then (0, Some ErrNegativeOffset, p)
  else if decide (off >= flen f) then (0, Some ErrEOF, p)
  else
    let n := Z.min (Z.of_nat (length p)) (flen f - off) in
    (n, None, take (Z.to_nat n) (drop (Z.to_nat off) (area f)) ++ drop (Z.to_nat n) p).

(** Writes what fits; the file grows to the end of the written part, if any. *)
Definition file_write (f : file) (p : list Z) (off : Z) : file * (Z * option goerror) :=
  if decide (off < 0) then (f, (0, Some ErrNegativeOffset))
  else
    let k := Z.of_nat (length p) in
    let w := Z.min k (Z.max 0 (capacity f - off)) in
    (mkFile (take (Z.to_nat off) (area f) ++ take (Z.to_nat w) p ++
             drop (Z.to_nat (off + w)) (area f))
            (if decide (w > 0) then Z.max (flen f) (off + w) else flen f),
     (w, if decide (w < k) then Some ErrCapacity else None)).

Definition file_call (f : file) (c : call) : file * reply :=
  match c with
  | CReadAt p off => (f, file_read f p off)
  | CReadByteAt off =>
      let '(_, e, p) := file_read f [0] off in (f, (default 0 (head p), e, []))
  | CWriteAt p off => let '(f', (n, e)) := file_write f p off in (f', (n, e, p))
  | CWriteByteAt b off => let '(f', (_, e)) := file_write f [b] off in (f', (0, e, []))
  | CTruncate newLen => (mkFile (area f) (Z.min newLen (flen f)), (0, None, []))
  end.

Fixpoint file_calls (f : file) (cs : list call) : file * list reply :=
  match cs with
  | [] => (f, [])
  | c :: cs' =>
      let '(f1, a) := file_call f c in
      let '(f2, l) := file_calls f1 cs' in (f2, a :: l)
  end.

(** The file a stripe implements. *)
Definition file_of (m : mem) (s : Stripe) : file := mkFile (stripe_area m s) (DataLen s).

(** The invariant of a stripe in use. *)
Definition stripe_inv (m : mem) (s : Stripe) : Prop := stripe_wf s /\ header_synced m s.

(** Offsets more than a block below the end of int64; lengths are unsigned. *)
Definition call_ok (c : call) : Prop :=
  match c with
  | CWriteAt _ off | CWriteByteAt _ off => off + BlockSize < 9223372036854775808
  | CTruncate newLen => 0 <= newLen
  | CReadAt _ _ | CReadByteAt _ => True
  end.

(** ** Lemmas *)
Lemma file_of_capacity m s : stripe_wf s -> capacity (file_of m s) = data_cap s.
Proof.
  intros Hwf. unfold capacity. cbn [area file_of]. unfold stripe_area. rewrite length_data_bytes.
  pose proof (swf_len _ Hwf). lia.
Qed.

Lemma ReadAt_file m s p off : stripe_wf s -> ReadAt m s p off = Ret (file_read (file_of m s) p off).
Proof.
  intros Hwf. unfold file_read. cbn [flen area file_of].
  case_decide as H1; [unfold ReadAt; by rewrite decide_True|].
  case_decide as H2; [unfold ReadAt; by rewrite decide_False, decide_True|].
  rewrite ReadAt_effect by (done || lia). set (n := Z.min _ _).
  pose proof (swf_len _ Hwf). rewrite data_bytes_sub, stripe_data_area by (done || lia).
  do 3 f_equal. rewrite skipn_firstn_comm, take_take. f_equal. lia.
Qed.

Lemma WriteAt_file m s p off :
  stripe_inv m s -> off + BlockSize < 9223372036854775808 ->
  exists m' s' r, WriteAt m s p off = Ret (m', s', r) /\
    file_write (file_of m s) p off = (file_of m' s', r) /\
    stripe_inv m' s' /\ Blocks s' = Blocks s /\ mem_frame (in_blocks s) m m'.
Proof.
  intros [Hwf Hsync] Hoff. unfold file_write. rewrite file_of_capacity by done.
  cbn [flen area file_of]. case_decide as H1.
  { unfold WriteAt. rewrite decide_True by done. by exists m, s, (0, Some ErrNegativeOffset). }
  destruct (WriteAt_effect m s p off Hwf ltac:(lia) Hoff)
    as (m' & s' & E & Hs' & Hwf' & Harea & Hsync' & Hframe).
  exists m', s'. eexists. split; [exact E|]. unfold fit in *. cbv zeta. rewrite <- Harea.
  split; [|split; [split; auto|split; [by subst s'|done]]].
  unfold file_of. assert (DataLen s' = _) as -> by (rewrite Hs'; reflexivity). done.
Qed.

(** One call keeps the invariant, writes only the stripe's own blocks and
    answers as the file does. *)
Lemma run_call_file m s c :
  stripe_inv m s -> call_ok c ->
  exists m' s' a, run_call m s c = Ret (m', s', a) /\
    file_call (file_of m s) c = (file_of m' s', a) /\
    stripe_inv m' s' /\ Blocks s' = Blocks s /\ mem_frame (in_blocks s) m m'.
Proof.
  intros Hi Hc. pose proof Hi as [Hwf Hsync].
  destruct c as [p off|off|p off|b off|newLen]; cbn [run_call file_call call_ok] in *.
  - rewrite ReadAt_file by done. go_bind. by do 3 eexists.
  - rewrite ReadByteAt_equiv, ReadAt_file by done. go_bind.
    destruct (file_read _ _ _) as [[? ?] ?]. go_bind. by do 3 eexists.
  - destruct (WriteAt_file m s p off Hi Hc) as (m' & s' & [n e] & -> & -> & Hr). go_bind.
    by do 3 eexists.
  - rewrite WriteByteAt_equiv by apply Hwf.
    destruct (WriteAt_file m s [b] off Hi Hc) as (m' & s' & [n e] & -> & -> & Hr). go_bind.
    by do 3 eexists.
  - destruct (Truncate_refines m s newLen Hwf Hsync Hc)
      as (m' & s' & -> & Hwf' & Hs' & Hl & _ & Ha & Hb & Hf). go_bind.
    exists m', s'. eexists. split; [done|]. split; [|done].
    unfold file_of. cbn [area flen]. by rewrite Ha, Hl.
Qed.

(** ** Theorems *)

(** C9: A stripe is a file.  Every sequence of [ReadAt], [ReadByteAt], [WriteAt],
    [WriteByteAt] and [Truncate] calls on a well-formed stripe returns,
    answers exactly as the abstract file of the stripe's capacity does (short
    writes, [io.EOF] and negative offsets included), keeps the stripe
    well-formed and its header in step, and writes nothing outside the
    stripe's blocks. *)
Theorem stripe_refines_file cs m s :
  stripe_inv m s -> Forall call_ok cs ->
  exists m' s' l, run_calls m s cs = Ret (m', s', l) /\
    file_calls (file_of m s) cs = (file_of m' s', l) /\
    stripe_inv m' s' /\ Blocks s' = Blocks s /\ mem_frame (in_blocks s) m m'.
Proof.
  intros Hi Hcs. revert m s Hi. induction Hcs as [|c cs Hc _ IH]; intros m s Hi.
  { exists m, s, []. by split_and!. }
  cbn [run_calls file_calls].
  destruct (run_call_file m s c Hi Hc) as (m1 & s1 & a & -> & -> & Hi1 & Hb1 & Hf1). go_bind.
  destruct (IH m1 s1 Hi1) as (m2 & s2 & l & -> & -> & Hi2 & Hb2 & Hf2). go_bind.
  exists m2, s2, (a :: l). split_and!; [done|done|done|congruence|].
  eapply mem_frame_trans; [exact Hf1|]. unfold in_blocks in *. by rewrite <- Hb1.
Qed.

Lemma stripe_refines_file_witness :
  exists m' s' l,
    run_calls (store_le ∅ 0 4 10) demo_stripe
      [CWriteAt [1; 2; 3] 4095; CTruncate 4097; CReadAt [0; 0; 0; 0] 4094; CReadByteAt 5000] =
      Ret (m', s', l) /\
    (file_calls (file_of (store_le ∅ 0 4 10) demo_stripe)
      [CWriteAt [1; 2; 3] 4095; CTruncate 4097; CReadAt [0; 0; 0; 0] 4094;
       CReadByteAt 5000]).2 = l.
Proof.
  destruct (stripe_refines_file
      [CWriteAt [1; 2; 3] 4095; CTruncate 4097; CReadAt [0; 0; 0; 0] 4094; CReadByteAt 5000]
      (store_le ∅ 0 4 10) demo_stripe) as (m' & s' & l & E & Hf & _).
  - split; [exact demo_stripe_wf|]. exists (Slice 0 BlockSize). split; reflexivity.
  - repeat constructor; unfold call_ok; unfold_layout; lia.
  - exists m', s', l. split; [exact E|]. rewrite Hf. reflexivity.
Defined.
