(* ===== verification/Viewer.v ===== *)
(** * Viewers: zero-copy windows over a stripe

    [Viewer] and [Stripe.View] of go/shm/stripe.go.  A viewer lists the
    slices of the stripe's blocks that cover a window of its data, with the
    prefix sums of their lengths.  Its methods are specified against the flat
    byte string the segments stand for. *)
From stdpp Require Import base tactics list numbers option gmap.
From Stdlib Require Import ZArith Lia.
From S2P Require Import Prelude Memory Layout Protocol Stripe.
#[local] Open Scope Z_scope.

Record Viewer : Type := mkViewer {
  Segments : list slice;
  offsets : list Z;
  Length : Z;
}.

(** ** Operations *)

(** [slices.BinarySearch]: the least index whose element is not below the
    target. *)
Fixpoint binsearch_loop (fuel : nat) (x : list Z) (target i j : Z) : outcome Z :=
  match fuel with
  | O => Diverge
  | S fuel' =>
      if decide (i < j) then
        let h := Z.shiftr (i + j) 1 in
        xh ← go_index x h;
        if decide (xh < target) then binsearch_loop fuel' x target (h + 1) j
        else binsearch_loop fuel' x target i h
      else Ret i
  end.

Definition BinarySearch (x : list Z) (target : Z) : outcome Z :=
  binsearch_loop (length x + 1) x target 0 (Z.of_nat (length x)).

Definition findSegment (v : Viewer) (offset : Z) : outcome (Z * Z) :=
  idx ← BinarySearch (offsets v) offset;
  back ← (if decide (idx > 0) then
            if decide (idx = Z.of_nat (length (offsets v))) then Ret true
            else o ← go_index (offsets v) idx; Ret (bool_decide (o > offset))
          else Ret false);
  let idx := if back : bool then idx - 1 else idx in
  o ← go_index (offsets v) idx;
  Ret (idx, offset - o).

Definition ByteAt (m : mem) (v : Viewer) (offset : Z) : outcome (Z * option goerror) :=
  if decide (offset < 0 \/ offset >= Length v) then Ret (0, Some ErrOutOfBounds)
  else
    p ← findSegment v offset;
    seg ← go_index (Segments v) p.1;
    b ← slice_get m seg p.2;
    Ret (b, None).

Definition SetByteAt (m : mem) (v : Viewer) (offset val : Z)
  : outcome (mem * option goerror) :=
  if decide (offset < 0 \/ offset >= Length v) then Ret (m, Some ErrOutOfBounds)
  else
    p ← findSegment v offset;
    seg ← go_index (Segments v) p.1;
    m' ← slice_set m seg p.2 val;
    Ret (m', None).

(** The closure of [Iterator]: its captured variables are [segIdx] and
    [innerIdx]. *)
Fixpoint iter_loop (fuel : nat) (m : mem) (v : Viewer) (segIdx innerIdx : Z)
  : outcome (Z * bool * (Z * Z)) :=
  match fuel with
  | O => Diverge
  | S fuel' =>
      if decide (segIdx < Z.of_nat (length (Segments v))) then
        seg ← go_index (Segments v) segIdx;
        if decide (innerIdx < sl_len seg) then
          b ← slice_get m seg innerIdx;
          Ret (b, true, (segIdx, innerIdx + 1))
        else iter_loop fuel' m v (segIdx + 1) 0
      else Ret (0, false, (segIdx, innerIdx))
  end.

Definition Iterator_next (m : mem) (v : Viewer) (st : Z * Z)
  : outcome (Z * bool * (Z * Z)) :=
  iter_loop (length (Segments v) + 1) m v st.1 st.2.

(** The bytes a caller sees by calling the closure until it returns false. *)
Fixpoint Iterator_drain (fuel : nat) (m : mem) (v : Viewer) (st : Z * Z)
  : outcome (list Z) :=
  match fuel with
  | O => Diverge
  | S fuel' =>
      r ← Iterator_next m v st;
      let '(b, ok, st') := r in
      if ok : bool then rest ← Iterator_drain fuel' m v st'; Ret (b :: rest)
      else Ret []
  end.

Fixpoint compare_loop (m : mem) (offs : list Z) (data : list Z) (i : Z)
  (segs : list slice) : outcome bool :=
  match segs with
  | [] => Ret true
  | seg :: segs' =>
      start ← go_index offs i;
      if decide (0 <= start /\ 0 <= sl_len seg /\
                 start + sl_len seg <= Z.of_nat (length data)) then
        if decide (slice_bytes m seg =
                   take (Z.to_nat (sl_len seg)) (drop (Z.to_nat start) data))
        then compare_loop m offs data (i + 1) segs'
        else Ret false
      else Panic
  end.

Definition Compare (m : mem) (v : Viewer) (data : list Z) : outcome bool :=
  if decide (Z.of_nat (length data) <> Length v) then Ret false
  else compare_loop m (offsets v) data 0 (Segments v).

(** [bytes.IndexByte] *)
Fixpoint IndexByte (b : list Z) (c : Z) : Z :=
  match b with
  | [] => -1
  | x :: b' =>
      if decide (x = c) then 0
      else let r := IndexByte b' c in if decide (r = -1) then -1 else r + 1
  end.

Fixpoint matchAcrossSegments (m : mem) (v : Viewer) (currSegIdx currOff : Z)
  (target : list Z) : outcome bool :=
  match target with
  | [] => Ret true
  | t :: target' =>
      seg ← go_index (Segments v) currSegIdx;
      let across := bool_decide (currOff >= sl_len seg) in
      let '(si, co) := if across then (currSegIdx + 1, 0) else (currSegIdx, currOff) in
      if across && bool_decide (si >= Z.of_nat (length (Segments v)))
      then Ret false
      else
        seg' ← go_index (Segments v) si;
        b ← slice_get m seg' co;
        if decide (b <> t) then Ret false
        else matchAcrossSegments m v si (co + 1) target'
  end.

(** The inner loop of [Index] over one segment: [Some pos] is the position
    of a match inside the segment's range. *)
Fixpoint index_in_segment (fuel : nat) (m : mem) (v : Viewer) (i : Z) (seg : slice)
  (target : list Z) (firstByte startIdx : Z) : outcome (option Z) :=
  match fuel with
  | O => Diverge
  | S fuel' =>
      if decide (startIdx < sl_len seg) then
        let matchPos := IndexByte (drop (Z.to_nat startIdx) (slice_bytes m seg)) firstByte in
        if decide (matchPos = -1) then Ret None
        else
          let absMatchPos := startIdx + matchPos in
          let targetLen := Z.of_nat (length target) in
          hit ← (if decide (absMatchPos + targetLen <= sl_len seg)
                 then Ret (bool_decide
                        (take (length target)
                           (drop (Z.to_nat absMatchPos) (slice_bytes m seg)) = target))
                 else matchAcrossSegments m v i absMatchPos target);
          if hit : bool then Ret (Some absMatchPos)
          else index_in_segment fuel' m v i seg target firstByte (absMatchPos + 1)
      else Ret None
  end.

Fixpoint index_loop (m : mem) (v : Viewer) (i : Z) (segs : list slice)
  (target : list Z) (firstByte : Z) : outcome Z :=
  match segs with
  | [] => Ret (-1)
  | seg :: segs' =>
      currentOff ← go_index (offsets v) i;
      r ← index_in_segment (S (Z.to_nat (sl_len seg))) m v i seg target firstByte 0;
      match r with
      | Some pos => Ret (currentOff + pos)
      | None => index_loop m v (i + 1) segs' target firstByte
      end
  end.

Definition Index (m : mem) (v : Viewer) (s : list Z) : outcome Z :=
  match s with
  | [] => Ret 0
  | firstByte :: _ => index_loop m v 0 (Segments v) s firstByte
  end.

(** The segment loop of [View]. *)
Fixpoint view_loop (fuel : nat) (s : Stripe) (off endOff : Z) : outcome (list slice) :=
  match fuel with
  | O => Diverge
  | S fuel' =>
      if decide (off < endOff) then
        let bIdx := Z.quot off BlockSize in
        if decide (bIdx >= Z.of_nat (length (Blocks s))) then Ret []
        else
          let innerOff := Z.rem off BlockSize in
          let avail := BlockSize - innerOff in
          let copyLen := if decide (off + avail > endOff) then endOff - off else avail in
          b ← go_index (Blocks s) bIdx;
          seg ← slice_sub b innerOff (innerOff + copyLen);
          rest ← view_loop fuel' s (off + copyLen) endOff;
          Ret (seg :: rest)
      else Ret []
  end.

(** [viewer.offsets[i] = curr; curr += len(seg)] *)
Fixpoint seg_offsets (curr : Z) (segs : list slice) : list Z :=
  match segs with
  | [] => []
  | seg :: segs' => curr :: seg_offsets (curr + sl_len seg) segs'
  end.

(** [call] may write through the viewer, so it returns the store too. *)
Definition View (m : mem) (s : Stripe) (offset len : Z)
  (call : mem -> Viewer -> outcome (mem * option goerror))
  : outcome (mem * option goerror) :=
  if decide (offset < 0) then Ret (m, Some ErrNegativeOffset)
  else if decide (offset >= DataLen s) then Ret (m, Some ErrEOF)
  else
    let n := Z.min (u32 (offset + len)) (DataLen s) in
    let actualLen := n - offset in
    if decide (actualLen <= 0) then Ret (m, Some ErrEOF)
    else
      segments ← view_loop (length (Blocks s) + 1) s (offset + BlockSize) (n + BlockSize);
      call m (mkViewer segments (seg_offsets 0 segments) actualLen).

(** ** Specification vocabulary *)

(** The byte string a viewer stands for. *)
Fixpoint seg_bytes (m : mem) (segs : list slice) : list Z :=
  match segs with
  | [] => []
  | seg :: segs' => slice_bytes m seg ++ seg_bytes m segs'
  end.

Definition view_bytes (m : mem) (v : Viewer) : list Z := seg_bytes m (Segments v).

Fixpoint seg_total (segs : list slice) : Z :=
  match segs with
  | [] => 0
  | seg :: segs' => sl_len seg + seg_total segs'
  end.

Definition slice_disjoint (a b : slice) : Prop :=
  sl_base a + sl_len a <= sl_base b \/ sl_base b + sl_len b <= sl_base a.

(** What [View] establishes of the viewers it builds. *)
Record viewer_wf (v : Viewer) : Prop := {
  vwf_pos : Forall (fun g => 0 < sl_len g) (Segments v);
  vwf_offsets : offsets v = seg_offsets 0 (Segments v);
  vwf_length : Length v = seg_total (Segments v);
  vwf_disj : forall i j a b, Segments v !! i = Some a -> Segments v !! j = Some b ->
    i <> j -> slice_disjoint a b;
}.

(** Reference search: the first position of [t] in [data], or -1. *)
Fixpoint find_sub (t data : list Z) (i : Z) : Z :=
  if decide (take (length t) data = t) then i
  else match data with
       | [] => -1
       | _ :: data' => find_sub t data' (i + 1)
       end.

(** [segs] covers the data positions from [pos] to [end] with runs that each
    stay inside one block. *)
Inductive runs (s : Stripe) : Z -> Z -> list slice -> Prop :=
| runs_nil pos : runs s pos pos []
| runs_cons pos c end_ segs :
    0 <= pos -> 0 < c -> pos mod BlockSize + c <= BlockSize -> pos + c <= end_ ->
    runs s (pos + c) end_ segs ->
    runs s pos end_ (Slice (data_addr s pos) c :: segs).

(** [t] occurs in [data] at position [i]. *)
Definition occurs_at (t data : list Z) (i : Z) : Prop :=
  take (length t) (drop (Z.to_nat i) data) = t.

#[export] Instance occurs_at_dec t data i : Decision (occurs_at t data i).
Proof. unfold occurs_at. apply _. Defined.
#[export] Typeclasses Opaque occurs_at.

(** The bytes not yet produced in iterator state [(si, ii)]. *)
Definition iter_rest (m : mem) (v : Viewer) (si ii : Z) : list Z :=
  match Segments v !! Z.to_nat si with
  | Some g => drop (Z.to_nat ii) (slice_bytes m g) ++
              seg_bytes m (drop (S (Z.to_nat si)) (Segments v))
  | None => []
  end.

(** ** Lemmas on segments *)
Lemma seg_total_nonneg segs :
  Forall (fun g => 0 < sl_len g) segs -> 0 <= seg_total segs.
Proof. induction 1; simpl; lia. Qed.

Lemma length_seg_bytes m segs :
  Forall (fun g => 0 < sl_len g) segs ->
  Z.of_nat (length (seg_bytes m segs)) = seg_total segs.
Proof.
  induction 1 as [|g segs Hg Hs IH]; simpl; [done|].
  rewrite length_app, length_slice_bytes. lia.
Qed.

Lemma length_seg_offsets c segs : length (seg_offsets c segs) = length segs.
Proof. revert c. induction segs; intros c; simpl; auto. Qed.

Lemma lookup_seg_offsets c (segs : list slice) i :
  seg_offsets c segs !! i =
  (fun _ => c + seg_total (take i segs)) <$> segs !! i.
Proof.
  revert c i. induction segs as [|g segs IH]; intros c [|i]; simpl; try done.
  - by rewrite Z.add_0_r.
  - rewrite IH. destruct (segs !! i); simpl; [f_equal; lia|done].
Qed.

Lemma seg_total_app a b : seg_total (a ++ b) = seg_total a + seg_total b.
Proof. induction a; simpl; lia. Qed.

Lemma seg_bytes_app m a b : seg_bytes m (a ++ b) = seg_bytes m a ++ seg_bytes m b.
Proof. induction a as [|g a IH]; simpl; [done|]. by rewrite IH, app_assoc. Qed.

(** Splitting a segment list at index [i]. *)
Lemma seg_split (segs : list slice) i g :
  segs !! i = Some g -> segs = take i segs ++ g :: drop (S i) segs.
Proof. intros H. symmetry. by apply take_drop_middle. Qed.

Lemma seg_bytes_split m (segs : list slice) i g :
  segs !! i = Some g ->
  seg_bytes m segs =
  seg_bytes m (take i segs) ++ slice_bytes m g ++ seg_bytes m (drop (S i) segs).
Proof.
  intros H. rewrite (seg_split segs i g H) at 1. by rewrite seg_bytes_app.
Qed.

Lemma seg_total_take_S (segs : list slice) i g :
  segs !! i = Some g -> seg_total (take (S i) segs) = seg_total (take i segs) + sl_len g.
Proof.
  intros H. rewrite (take_S_r _ _ _ H), seg_total_app. simpl. lia.
Qed.

(** The byte at offset [o] of segment [i]. *)
Lemma lookup_seg_bytes m (segs : list slice) i g o :
  Forall (fun g => 0 < sl_len g) segs ->
  segs !! i = Some g -> 0 <= o < sl_len g ->
  seg_bytes m segs !! Z.to_nat (seg_total (take i segs) + o) =
  Some (load m (sl_base g + o)).
Proof.
  intros Hpos Hg Ho.
  assert (Forall (fun g => 0 < sl_len g) (take i segs)) as Hp by by apply Forall_take.
  rewrite (seg_bytes_split m _ _ _ Hg).
  pose proof (length_seg_bytes m _ Hp). pose proof (seg_total_nonneg _ Hp).
  rewrite lookup_app_r, lookup_app_l by (rewrite ?length_slice_bytes; lia).
  unfold slice_bytes. rewrite lookup_load_bytes by lia.
  do 3 f_equal. lia.
Qed.

(** ** Binary search and [findSegment] *)
Lemma binsearch_spec (x : list Z) target fuel i j :
  0 <= i <= j -> j <= Z.of_nat (length x) -> j - i < Z.of_nat fuel ->
  (forall k y, x !! k = Some y -> Z.of_nat k < i -> y < target) ->
  (forall k y, x !! k = Some y -> j <= Z.of_nat k -> target <= y) ->
  (forall a b y z, (a <= b)%nat -> x !! a = Some y -> x !! b = Some z -> y <= z) ->
  exists r, binsearch_loop fuel x target i j = Ret r /\ 0 <= r <= Z.of_nat (length x) /\
    (forall k y, x !! k = Some y -> Z.of_nat k < r -> y < target) /\
    (forall k y, x !! k = Some y -> r <= Z.of_nat k -> target <= y).
Proof.
  revert i j. induction fuel as [|fuel IH]; intros i j Hij Hj Hf Hlo Hhi Hsort; [lia|].
  cbn [binsearch_loop]. case_decide as Hlt.
  2:{ exists i. split_and!; try done; try lia. replace i with j by lia. done. }
  cbv zeta. rewrite Z.shiftr_div_pow2, Z.pow_1_r by lia.
  assert (i <= (i + j) / 2 < j) as Hh by (Z.div_mod_to_equations; lia).
  set (h := (i + j) / 2) in *. clearbody h.
  destruct (lookup_lt_is_Some_2 x (Z.to_nat h)) as [xh Hxh]; [lia|].
  rewrite (go_index_lookup x h xh) by (done || lia). go_bind.
  case_decide as Hc.
  - apply IH; [lia|lia|lia| |done|done].
    intros k y Hk Hkh. assert (y <= xh); [|lia].
    eapply Hsort; [|exact Hk|exact Hxh]. lia.
  - apply IH; [lia|lia|lia|done| |done].
    intros k y Hk Hkh. assert (xh <= y); [|lia].
    eapply Hsort; [|exact Hxh|exact Hk]. lia.
Qed.

Lemma seg_total_take_mono segs a b :
  Forall (fun g => 0 < sl_len g) segs -> (a <= b)%nat ->
  seg_total (take a segs) <= seg_total (take b segs).
Proof.
  intros Hpos Hab. replace b with (a + (b - a))%nat by lia.
  rewrite <- take_take_drop, seg_total_app.
  pose proof (seg_total_nonneg (take (b - a) (drop a segs))
                (Forall_take _ _ _ (Forall_drop _ _ _ Hpos))). lia.
Qed.

Lemma findSegment_spec v offset :
  viewer_wf v -> 0 <= offset < Length v ->
  exists i g o, findSegment v offset = Ret (Z.of_nat i, o) /\
    Segments v !! i = Some g /\ 0 <= o < sl_len g /\
    offset = seg_total (take i (Segments v)) + o.
Proof.
  intros [Hpos Hoffs Hlen _] Ho. unfold findSegment, BinarySearch. rewrite Hoffs.
  set (segs := Segments v) in *.
  destruct (binsearch_spec (seg_offsets 0 segs) offset
              (length (seg_offsets 0 segs) + 1) 0 (Z.of_nat (length (seg_offsets 0 segs))))
    as (r & -> & Hr & Hlo & Hhi); [lia|lia|lia|lia| | |].
  { intros k y Hk Hge. apply lookup_lt_Some in Hk. lia. }
  { intros a b y z Hab Ha Hb. rewrite lookup_seg_offsets in Ha, Hb.
    destruct (segs !! a), (segs !! b); simplify_eq/=.
    pose proof (seg_total_take_mono segs a b Hpos Hab). lia. }
  go_bind. rewrite length_seg_offsets in *.
  assert (forall k g, segs !! k = Some g ->
    seg_offsets 0 segs !! k = Some (seg_total (take k segs))) as Hoff.
  { intros k g Hk. rewrite lookup_seg_offsets, Hk. simpl. by rewrite Z.add_0_l. }
  assert (forall k, (k < length segs)%nat ->
    go_index (seg_offsets 0 segs) (Z.of_nat k) = Ret (seg_total (take k segs))) as Hgo.
  { intros k Hk. destruct (lookup_lt_is_Some_2 segs k Hk) as [g Hg].
    apply go_index_lookup; [lia|]. rewrite Nat2Z.id. eauto. }
  (* stepping back from [r] lands in the segment that holds [offset] *)
  assert (0 < r -> offset < seg_total (take (Z.to_nat r) segs) ->
    exists i g o,
      (o ← go_index (seg_offsets 0 segs) (r - 1); Ret (r - 1, offset - o)) =
        Ret (Z.of_nat i, o) /\
      segs !! i = Some g /\ 0 <= o < sl_len g /\ offset = seg_total (take i segs) + o)
    as Hback.
  { intros H0 Hup. set (k := (Z.to_nat r - 1)%nat).
    destruct (lookup_lt_is_Some_2 segs k) as [g Hg]; [unfold k; lia|].
    pose proof (Hlo k _ (Hoff _ _ Hg) ltac:(unfold k; lia)) as Hl.
    replace (Z.to_nat r) with (S k) in Hup by (unfold k; lia).
    rewrite (seg_total_take_S _ _ _ Hg) in Hup.
    exists k, g, (offset - seg_total (take k segs)).
    replace (r - 1) with (Z.of_nat k) by (unfold k; lia).
    rewrite Hgo by (by eapply lookup_lt_Some). split_and!; (done || lia). }
  destruct (decide (r = Z.of_nat (length segs))) as [Hend|Hend].
  { rewrite Hlen in Ho. destruct segs as [|g0 gs] eqn:Es; [simpl in Ho; lia|].
    rewrite <- Es in *. rewrite decide_True by (rewrite Hend, Es; simpl; lia).
    go_bind. apply Hback; [rewrite Hend, Es; simpl; lia|].
    rewrite take_ge by lia. lia. }
  destruct (lookup_lt_is_Some_2 segs (Z.to_nat r)) as [g Hg]; [lia|].
  pose proof (Hhi _ _ (Hoff _ _ Hg) ltac:(lia)) as Hge.
  pose proof (Hgo (Z.to_nat r) ltac:(lia)) as Hgr. rewrite Z2Nat.id in Hgr by lia.
  destruct (decide (seg_total (take (Z.to_nat r) segs) = offset)) as [E|E].
  - exists (Z.to_nat r), g, 0.
    assert (0 < sl_len g) by (rewrite Forall_lookup in Hpos; eauto).
    assert ((if decide (r > 0) then
             o ← go_index (seg_offsets 0 segs) r; Ret (bool_decide (o > offset))
           else Ret false) = Ret false) as ->.
    { case_decide; [|done]. rewrite Hgr. go_bind. by rewrite bool_decide_eq_false_2 by lia. }
    go_bind. rewrite Hgr. go_bind. rewrite Z2Nat.id by lia. split_and!; (done || lia || f_equal; f_equal; lia).
  - assert (0 < r) as Hr0.
    { destruct (decide (r = 0)) as [->|]; [simpl in *; lia|lia]. }
    rewrite decide_True by lia. rewrite Hgr. go_bind.
    rewrite bool_decide_eq_true_2 by lia. apply Hback; lia.
Qed.

(** ** [Iterator] *)
Lemma slice_bytes_drop m g o :
  0 <= o < sl_len g ->
  drop (Z.to_nat o) (slice_bytes m g) =
  load m (sl_base g + o) :: drop (Z.to_nat (o + 1)) (slice_bytes m g).
Proof.
  intros Ho. replace (Z.to_nat (o + 1)) with (S (Z.to_nat o)) by lia.
  apply drop_S. unfold slice_bytes. rewrite lookup_load_bytes by lia.
  do 3 f_equal. lia.
Qed.

Lemma slice_bytes_drop_end m g o :
  sl_len g <= o -> drop (Z.to_nat o) (slice_bytes m g) = [].
Proof. intros H. apply drop_ge. rewrite length_slice_bytes. lia. Qed.

Lemma iter_rest_next m v si :
  0 <= si -> iter_rest m v si 0 = seg_bytes m (drop (Z.to_nat si) (Segments v)).
Proof.
  intros H. unfold iter_rest. destruct (Segments v !! Z.to_nat si) as [g|] eqn:E.
  - rewrite (drop_S _ _ _ E). by rewrite drop_0.
  - apply lookup_ge_None in E. by rewrite drop_ge.
Qed.

Lemma iter_loop_spec m v fuel si ii :
  0 <= si -> 0 <= ii -> (1 <= fuel)%nat ->
  Z.of_nat (length (Segments v)) - si < Z.of_nat fuel ->
  exists st', 0 <= st'.1 /\ 0 <= st'.2 /\
    iter_loop fuel m v si ii =
    Ret (match iter_rest m v si ii with
         | [] => (0, false, st')
         | b :: _ => (b, true, st')
         end) /\
    iter_rest m v st'.1 st'.2 = tail (iter_rest m v si ii).
Proof.
  revert si ii. induction fuel as [|fuel IH]; intros si ii Hs Hi Hf1 Hf; [lia|].
  cbn [iter_loop]. case_decide as Hlt.
  - destruct (lookup_lt_is_Some_2 (Segments v) (Z.to_nat si)) as [g Hg]; [lia|].
    rewrite (go_index_lookup _ si g) by done. go_bind.
    assert (iter_rest m v si ii = drop (Z.to_nat ii) (slice_bytes m g) ++
              seg_bytes m (drop (S (Z.to_nat si)) (Segments v))) as Hr
      by (unfold iter_rest; by rewrite Hg).
    case_decide as Hin.
    + unfold slice_get. rewrite decide_True by lia. go_bind.
      exists (si, ii + 1). rewrite Hr, slice_bytes_drop by lia. simpl.
      split_and!; [lia|lia|done|]. unfold iter_rest. by rewrite Hg.
    + destruct (IH (si + 1) 0) as (st' & ? & ? & E & E'); [lia..|].
      exists st'. rewrite Hr, slice_bytes_drop_end by lia. simpl.
      rewrite iter_rest_next in E, E' by lia.
      replace (Z.to_nat (si + 1)) with (S (Z.to_nat si)) in E, E' by lia.
      done.
  - exists (si, ii). cbn [fst snd]. assert (iter_rest m v si ii = []) as ->.
    { unfold iter_rest. by rewrite lookup_ge_None_2 by lia. }
    done.
Qed.

Lemma Iterator_drain_spec m v fuel si ii :
  0 <= si -> 0 <= ii -> (length (iter_rest m v si ii) < fuel)%nat ->
  Iterator_drain fuel m v (si, ii) = Ret (iter_rest m v si ii).
Proof.
  revert si ii. induction fuel as [|fuel IH]; intros si ii Hs Hi Hf; [lia|].
  cbn [Iterator_drain]. unfold Iterator_next. cbn [fst snd].
  destruct (iter_loop_spec m v (length (Segments v) + 1) si ii)
    as ([si' ii'] & ? & ? & -> & E); [lia..|]. go_bind. simpl in E.
  destruct (iter_rest m v si ii) as [|b rest] eqn:Hr; [done|].
  rewrite IH; rewrite ?E; simpl in *; (done || lia).
Qed.

(** ** [Compare] *)
Lemma compare_loop_spec m offs data segs i pre :
  Forall (fun g => 0 < sl_len g) segs ->
  drop i offs = seg_offsets (Z.of_nat (length pre)) segs ->
  Z.of_nat (length pre) + seg_total segs = Z.of_nat (length data) ->
  take (length pre) data = pre ->
  compare_loop m offs data (Z.of_nat i) segs =
  Ret (bool_decide (data = pre ++ seg_bytes m segs)).
Proof.
  intros Hpos. revert i pre.
  induction Hpos as [|g segs Hg Hpos IH]; intros i pre Hoff Hlen Hpre; simpl.
  - f_equal. symmetry. apply bool_decide_eq_true_2. simpl in Hlen.
    rewrite app_nil_r, <- Hpre. by rewrite take_ge by lia.
  - simpl in Hlen, Hoff. pose proof (seg_total_nonneg _ Hpos).
    assert (offs !! i = Some (Z.of_nat (length pre))) as Hi.
    { rewrite <- (Nat.add_0_r i), <- lookup_drop, Hoff. done. }
    rewrite (go_index_lookup _ _ (Z.of_nat (length pre))) by (rewrite ?Nat2Z.id; done || lia).
    go_bind. rewrite decide_True by lia.
    rewrite Nat2Z.id. set (k := Z.to_nat (sl_len g)).
    assert (length (slice_bytes m g) = k) as Hk by apply length_slice_bytes.
    case_decide as Hseg.
    + replace (Z.of_nat i + 1) with (Z.of_nat (S i)) by lia.
      rewrite (IH (S i) (pre ++ slice_bytes m g)).
      * f_equal. by rewrite <- app_assoc.
      * rewrite (drop_S _ _ _ Hi) in Hoff. injection Hoff as Hoff.
        rewrite length_app, Hk, Hoff. f_equal. unfold k. lia.
      * rewrite length_app, Hk. unfold k. lia.
      * rewrite length_app, Hk, <- take_take_drop, Hpre, <- Hseg. done.
    + f_equal. symmetry. apply bool_decide_eq_false_2. intros ->. apply Hseg.
      rewrite drop_app_length, <- Hk. by rewrite take_app_length.
Qed.

(** ** [Index] *)
Lemma IndexByte_spec b c :
  (IndexByte b c = -1 /\ forall k, b !! k <> Some c) \/
  (exists k, IndexByte b c = Z.of_nat k /\ b !! k = Some c /\
     forall j, (j < k)%nat -> b !! j <> Some c).
Proof.
  induction b as [|x b IH]; simpl.
  - left. split; [done|]. intros k. by rewrite lookup_nil.
  - case_decide as Hx; [subst|].
    + right. exists 0%nat. split_and!; [done..|lia].
    + destruct IH as [[-> Hno]|(k & -> & Hk & Hlt)].
      * left. split; [done|]. intros [|k]; simpl; [congruence|apply Hno].
      * right. exists (S k). rewrite decide_False by lia. split_and!; [lia|done|].
        intros [|j] Hj; simpl; [congruence|apply Hlt; lia].
Qed.

Lemma occurs_head t0 t data i :
  occurs_at (t0 :: t) data i -> data !! Z.to_nat i = Some t0.
Proof.
  unfold occurs_at. intros H.
  assert (take (length (t0 :: t)) (drop (Z.to_nat i) data) !! 0%nat = Some t0) as E
    by (by rewrite H).
  rewrite lookup_take_lt, lookup_drop, Nat.add_0_r in E by (simpl; lia). done.
Qed.

Lemma find_sub_first t data k i :
  occurs_at t data (Z.of_nat k) -> (k <= length data)%nat ->
  (forall j, (j < k)%nat -> ~ occurs_at t data (Z.of_nat j)) ->
  find_sub t data i = i + Z.of_nat k.
Proof.
  revert data i. induction k as [|k IH]; intros data i Hocc Hk Hno.
  - unfold occurs_at in Hocc. simpl in Hocc. rewrite drop_0 in Hocc.
    destruct data; cbn [find_sub]; rewrite decide_True by done; lia.
  - destruct data as [|x data]; [simpl in Hk; lia|].
    cbn [find_sub]. rewrite decide_False.
    2:{ intros E. apply (Hno 0%nat); [lia|]. unfold occurs_at. by rewrite drop_0. }
    rewrite IH; [lia| | simpl in Hk; lia|].
    + unfold occurs_at in *. rewrite Nat2Z.id in *. done.
    + intros j Hj Hoc. apply (Hno (S j)); [lia|].
      unfold occurs_at in *. rewrite Nat2Z.id in *. done.
Qed.

Lemma find_sub_none t data i :
  (forall j, (j <= length data)%nat -> ~ occurs_at t data (Z.of_nat j)) ->
  find_sub t data i = -1.
Proof.
  revert i. induction data as [|x data IH]; intros i Hno; cbn [find_sub].
  - rewrite decide_False; [done|]. intros E. apply (Hno 0%nat); [simpl; lia|].
    unfold occurs_at. by rewrite drop_0.
  - rewrite decide_False.
    2:{ intros E. apply (Hno 0%nat); [lia|]. unfold occurs_at. by rewrite drop_0. }
    apply IH. intros j Hj Hoc. apply (Hno (S j)); [simpl; lia|].
    unfold occurs_at in *. rewrite Nat2Z.id in *. done.
Qed.

(** Matching from segment [cs] at offset [co] compares with the bytes that
    start there. *)
Lemma matchAcross_spec m v t (cs : nat) g co :
  viewer_wf v -> Segments v !! cs = Some g -> 0 <= co <= sl_len g ->
  matchAcrossSegments m v (Z.of_nat cs) co t =
  Ret (bool_decide (take (length t)
         (drop (Z.to_nat co) (seg_bytes m (drop cs (Segments v)))) = t)).
Proof.
  intros Hwf. revert cs g co. induction t as [|t0 t IH]; intros cs g co Hg Hco.
  { done. }
  cbn [matchAcrossSegments].
  rewrite (go_index_lookup _ _ g) by (rewrite ?Nat2Z.id; done || lia). go_bind.
  pose proof (vwf_pos _ Hwf) as Hpos. rewrite Forall_lookup in Hpos.
  rewrite (drop_S _ _ _ Hg). cbn [seg_bytes].
  (* the step inside segment [k] at offset [o] *)
  assert (forall k h o, Segments v !! k = Some h -> 0 <= o < sl_len h ->
    (seg' ← go_index (Segments v) (Z.of_nat k);
     b ← slice_get m seg' o;
     if decide (b <> t0) then Ret false
     else matchAcrossSegments m v (Z.of_nat k) (o + 1) t) =
    Ret (bool_decide (take (length (t0 :: t)) (drop (Z.to_nat o) (slice_bytes m h) ++
           seg_bytes m (drop (S k) (Segments v))) = t0 :: t))) as Hstep.
  { intros k h o Hh Ho.
    rewrite (go_index_lookup _ _ h) by (rewrite ?Nat2Z.id; done || lia). go_bind.
    unfold slice_get. rewrite decide_True by lia. go_bind.
    rewrite (slice_bytes_drop m h o Ho). cbn [length app take].
    case_decide as Hb; [by rewrite bool_decide_eq_false_2 by congruence|].
    rewrite Hb.
    rewrite (IH k h (o + 1) Hh) by lia. f_equal.
    rewrite (drop_S _ _ _ Hh). cbn [seg_bytes].
    apply bool_decide_ext.
    rewrite (drop_app_le _ _ (Z.to_nat (o + 1))) by (rewrite length_slice_bytes; lia).
    split; congruence. }
  destruct (decide (co >= sl_len g)) as [Hge|Hlt].
  - rewrite bool_decide_eq_true_2 by lia. cbn [andb].
    assert (co = sl_len g) as -> by lia.
    rewrite <- (length_slice_bytes m g), drop_app_length.
    case_bool_decide as Hend.
    + rewrite (drop_ge (Segments v)) by lia. cbn [seg_bytes take length].
      by rewrite bool_decide_eq_false_2 by done.
    + destruct (lookup_lt_is_Some_2 (Segments v) (S cs)) as [h Hh]; [lia|].
      replace (Z.of_nat cs + 1) with (Z.of_nat (S cs)) by lia.
      rewrite (Hstep _ _ _ Hh) by (pose proof (Hpos _ _ Hh); lia).
      rewrite drop_0, (drop_S _ _ _ Hh). done.
  - rewrite bool_decide_eq_false_2 by lia. cbn [andb].
    rewrite (Hstep _ _ _ Hg) by lia.
    rewrite (drop_app_le _ _ (Z.to_nat co)) by (rewrite length_slice_bytes; lia). done.
Qed.

Section index.
Context (m : mem) (v : Viewer) (Hwf : viewer_wf v).
Context (t0 : Z) (t' : list Z).
#[local] Abbreviation t := (t0 :: t').

(** The search inside one segment finds the first occurrence that starts in
    it, also when the occurrence runs into later segments. *)
Lemma index_in_segment_spec (i : nat) g fuel start :
  Segments v !! i = Some g -> 0 <= start -> (1 <= fuel)%nat ->
  sl_len g - start < Z.of_nat fuel ->
  exists r, index_in_segment fuel m v (Z.of_nat i) g t t0 start = Ret r /\
  match r with
  | Some pos =>
      start <= pos < sl_len g /\
      occurs_at t (seg_bytes m (drop i (Segments v))) pos /\
      forall j, start <= j < pos -> ~ occurs_at t (seg_bytes m (drop i (Segments v))) j
  | None =>
      forall j, start <= j < sl_len g -> ~ occurs_at t (seg_bytes m (drop i (Segments v))) j
  end.
Proof using Hwf.
  intros Hg. set (X := seg_bytes m (drop i (Segments v))).
  assert (X = slice_bytes m g ++ seg_bytes m (drop (S i) (Segments v))) as HX
    by (unfold X; by rewrite (drop_S _ _ _ Hg)).
  pose proof (length_slice_bytes m g) as Hlg.
  assert (forall j, 0 <= j < sl_len g -> X !! Z.to_nat j = slice_bytes m g !! Z.to_nat j)
    as HXj by (intros j Hj; rewrite HX, lookup_app_l by lia; done).
  revert start. induction fuel as [|fuel IH]; intros start Hs Hf1 Hf; [lia|].
  cbn [index_in_segment]. case_decide as Hlt.
  2:{ exists None. split; [done|]. intros j Hj. lia. }
  cbv zeta.
  destruct (IndexByte_spec (drop (Z.to_nat start) (slice_bytes m g)) t0)
    as [[-> Hno]|(k & -> & Hk & Hmin)].
  { rewrite decide_True by done. exists None. split; [done|].
    intros j Hj Hocc. apply occurs_head in Hocc. rewrite HXj in Hocc by lia.
    apply (Hno (Z.to_nat (j - start))). rewrite lookup_drop.
    replace (Z.to_nat start + Z.to_nat (j - start))%nat with (Z.to_nat j) by lia. done. }
  rewrite decide_False by lia.
  rewrite lookup_drop in Hk. pose proof (lookup_lt_Some _ _ _ Hk) as Hkl.
  set (pos := start + Z.of_nat k).
  assert (start <= pos < sl_len g) as Hpos by (unfold pos; lia).
  assert (forall j, start <= j < pos -> ~ occurs_at t X j) as Hbefore.
  { intros j Hj Hocc. apply occurs_head in Hocc. rewrite HXj in Hocc by lia.
    apply (Hmin (Z.to_nat (j - start))); [unfold pos in Hj; lia|]. rewrite lookup_drop.
    replace (Z.to_nat start + Z.to_nat (j - start))%nat with (Z.to_nat j) by lia. done. }
  assert ((if decide (pos + Z.of_nat (length t) <= sl_len g)
           then Ret (bool_decide (take (length t)
                  (drop (Z.to_nat pos) (slice_bytes m g)) = t))
           else matchAcrossSegments m v (Z.of_nat i) pos t) =
          Ret (bool_decide (occurs_at t X pos))) as ->.
  { case_decide as Hin.
    - f_equal. apply bool_decide_ext. unfold occurs_at. rewrite HX.
      rewrite (drop_app_le _ _ (Z.to_nat pos)), take_app_le by (rewrite ?length_drop; lia). done.
    - rewrite (matchAcross_spec m v t i g pos Hwf Hg) by lia. done. }
  go_bind. case_bool_decide as Hocc.
  - exists (Some pos). done.
  - destruct (IH (pos + 1)) as (r & -> & Hr); [lia..|]. exists r. split; [done|].
    assert (forall j, start <= j < pos + 1 -> ~ occurs_at t X j) as Hb2.
    { intros j Hj. destruct (decide (j = pos)) as [->|]; [done|]. apply Hbefore. lia. }
    destruct r as [q|].
    + destruct Hr as (Hq & Ho & Hn). split_and!; [lia|lia|done|].
      intros j Hj. destruct (decide (j < pos + 1)); [apply Hb2|apply Hn]; lia.
    + intros j Hj. destruct (decide (j < pos + 1)); [apply Hb2|apply Hr]; lia.
Qed.

(** Occurrences in the whole string and in a suffix. *)
Lemma occurs_shift pre X j :
  0 <= j -> occurs_at t (pre ++ X) (Z.of_nat (length pre) + j) <-> occurs_at t X j.
Proof using Type.
  intros Hj. unfold occurs_at.
  replace (Z.to_nat _) with (length pre + Z.to_nat j)%nat by lia.
  by rewrite drop_app_add.
Qed.

Lemma index_loop_spec (i : nat) segs :
  drop i (Segments v) = segs ->
  (forall j, (Z.of_nat j < seg_total (take i (Segments v))) ->
     ~ occurs_at t (view_bytes m v) (Z.of_nat j)) ->
  index_loop m v (Z.of_nat i) segs t t0 = Ret (find_sub t (view_bytes m v) 0).
Proof using Hwf.
  revert i. induction segs as [|g segs IH]; intros i Hd Hno.
  - cbn [index_loop]. rewrite find_sub_none; [done|]. intros j Hj Hocc.
    assert (take i (Segments v) = Segments v) as Ht.
    { rewrite <- (take_drop i (Segments v)) at 2. by rewrite Hd, app_nil_r. }
    rewrite Ht in Hno.
    pose proof (length_seg_bytes m _ (vwf_pos _ Hwf)) as Hl. fold (view_bytes m v) in Hl.
    apply (Hno j); [|done].
    pose proof (lookup_lt_Some _ _ _ (occurs_head _ _ _ _ Hocc)). lia.
  - assert (Segments v !! i = Some g) as Hg.
    { rewrite <- (Nat.add_0_r i), <- lookup_drop, Hd. done. }
    assert (drop (S i) (Segments v) = segs) as Hd'.
    { rewrite (drop_S _ _ _ Hg) in Hd. by injection Hd. }
    assert (Forall (fun g => 0 < sl_len g) (take i (Segments v))) as Hp
      by (apply Forall_take, Hwf).
    set (off := seg_total (take i (Segments v))) in *.
    pose proof (length_seg_bytes m _ Hp) as Hlp. fold off in Hlp.
    assert (view_bytes m v = seg_bytes m (take i (Segments v)) ++
              seg_bytes m (drop i (Segments v))) as Hv.
    { unfold view_bytes. by rewrite <- seg_bytes_app, take_drop. }
    assert (0 < sl_len g) as Hg0.
    { pose proof (vwf_pos _ Hwf) as H. rewrite Forall_lookup in H. eauto. }
    cbn [index_loop]. rewrite (vwf_offsets _ Hwf).
    rewrite (go_index_lookup _ _ off).
    2:{ lia. }
    2:{ rewrite Nat2Z.id, lookup_seg_offsets, Hg. simpl. by rewrite Z.add_0_l. }
    go_bind.
    destruct (index_in_segment_spec i g (S (Z.to_nat (sl_len g))) 0 Hg)
      as (r & -> & Hr); [lia..|]. go_bind.
    destruct r as [pos|].
    + destruct Hr as (Hpos & Hocc & Hmin).
      rewrite (find_sub_first _ _ (Z.to_nat (off + pos))).
      * f_equal. lia.
      * rewrite Hv. replace (Z.of_nat (Z.to_nat (off + pos))) with
          (Z.of_nat (length (seg_bytes m (take i (Segments v)))) + pos) by lia.
        apply occurs_shift; [lia|done].
      * rewrite Hv, length_app, (drop_S _ _ _ Hg). cbn [seg_bytes].
        rewrite length_app, length_slice_bytes. lia.
      * intros j Hj Hoc. destruct (decide (Z.of_nat j < off)) as [|Hge]; [by eapply Hno|].
        rewrite Hv in Hoc. apply (Hmin (Z.of_nat j - off)); [lia|].
        apply (occurs_shift (seg_bytes m (take i (Segments v)))); [lia|].
        replace (_ + _) with (Z.of_nat j) by lia. done.
    + replace (Z.of_nat i + 1) with (Z.of_nat (S i)) by lia.
      apply IH; [done|]. intros j Hj Hoc. rewrite (seg_total_take_S _ _ _ Hg) in Hj.
      destruct (decide (Z.of_nat j < off)) as [|Hge]; [by eapply Hno|].
      rewrite Hv in Hoc. apply (Hr (Z.of_nat j - off)); [lia|].
      apply (occurs_shift (seg_bytes m (take i (Segments v)))); [lia|].
      replace (_ + _) with (Z.of_nat j) by lia. done.
Qed.
End index.

(** ** Writing one byte through a segment *)
Lemma seg_bytes_store_other m g o val segs :
  0 <= o < sl_len g -> (forall h, h ∈ segs -> slice_disjoint g h) ->
  seg_bytes (store m (sl_base g + o) val) segs = seg_bytes m segs.
Proof.
  intros Ho. induction segs as [|h segs IH]; intros Hall; simpl; [done|].
  rewrite IH by (intros; apply Hall; by constructor). f_equal.
  apply load_bytes_ext. intros x Hx. rewrite load_store, decide_False; [done|].
  destruct (Hall h) as [Hd|Hd]; [by constructor|lia|lia].
Qed.

Lemma slice_bytes_store m g o val :
  0 <= o < sl_len g ->
  slice_bytes (store m (sl_base g + o) val) g =
  <[Z.to_nat o := val]> (slice_bytes m g).
Proof.
  intros Ho. apply list_eq. intros k. unfold slice_bytes.
  destruct (decide (k < Z.to_nat (sl_len g))%nat) as [Hk|Hk].
  2:{ rewrite !lookup_ge_None_2; rewrite ?length_insert, ?length_load_bytes; (done || lia). }
  rewrite lookup_load_bytes, load_store by done.
  destruct (decide (k = Z.to_nat o)) as [->|Hne].
  - rewrite decide_True by lia.
    by rewrite list_lookup_insert_eq by (rewrite length_load_bytes; lia).
  - rewrite decide_False by lia. rewrite list_lookup_insert_ne by done.
    by rewrite lookup_load_bytes.
Qed.

(** ** [View] *)
Lemma view_loop_spec s (Hwf : blocks_wf (Blocks s)) fuel pos end_ :
  0 <= pos <= end_ -> end_ <= data_cap s -> (1 <= fuel)%nat ->
  (pos < end_ -> Z.of_nat (length (Blocks s)) < Z.of_nat fuel + pos / BlockSize + 1) ->
  exists segs, view_loop fuel s (pos + BlockSize) (end_ + BlockSize) = Ret segs /\
    runs s pos end_ segs.
Proof.
  revert pos. induction fuel as [|fuel IH]; intros pos Hpos Hend Hf1 Hf2; [lia|].
  cbn [view_loop]. case_decide as Hlt.
  2:{ exists []. split; [done|]. replace end_ with pos by lia. constructor. }
  set (c := if decide (_ > end_ + BlockSize) then _ else _).
  rewrite decide_False.
  2:{ rewrite Z.quot_div_nonneg by (unfold_layout; lia). unfold data_cap in Hend.
      unfold_layout. Z.div_mod_to_equations. lia. }
  assert (c = Z.min (end_ - pos) (BlockSize - pos mod BlockSize)) as Hc.
  { unfold c. rewrite Z.rem_mod_nonneg by (unfold_layout; lia).
    replace ((pos + BlockSize) mod BlockSize) with (pos mod BlockSize)
      by (unfold_layout; Z.div_mod_to_equations; lia).
    case_decide; lia. }
  clearbody c.
  assert (0 < c <= end_ - pos /\ pos mod BlockSize + c <= BlockSize) as [Hc0 Hcm]
    by (unfold_layout; Z.div_mod_to_equations; lia).
  destruct (round_block s Hwf pos c) as (b & -> & E); [lia..|]. go_bind.
  rewrite E. go_bind.
  replace (pos + BlockSize + c) with (pos + c + BlockSize) by lia.
  destruct (IH (pos + c)) as (segs & -> & Hr); [lia|lia| | |].
  { unfold data_cap in Hend. unfold_layout. Z.div_mod_to_equations. lia. }
  { intros ?. assert ((pos + c) / BlockSize = pos / BlockSize + 1) as ->
      by (unfold_layout; Z.div_mod_to_equations; lia). lia. }
  exists (Slice (data_addr s pos) c :: segs). split; [done|].
  constructor; (done || lia).
Qed.

Lemma runs_pos s pos end_ segs :
  runs s pos end_ segs -> Forall (fun g => 0 < sl_len g) segs.
Proof. induction 1; constructor; done. Qed.

Lemma runs_total s pos end_ segs : runs s pos end_ segs -> seg_total segs = end_ - pos.
Proof. induction 1; simpl; lia. Qed.

Lemma runs_bytes m s (Hwf : blocks_wf (Blocks s)) pos end_ segs :
  runs s pos end_ segs -> end_ <= data_cap s ->
  seg_bytes m segs = data_bytes m s pos (end_ - pos).
Proof.
  intros Hr. induction Hr as [pos|pos c end_ segs Hp Hc Hm He Hr IH]; intros Hcap.
  { rewrite Z.sub_diag. done. }
  cbn [seg_bytes]. rewrite IH by done. unfold slice_bytes. cbn [sl_base sl_len].
  rewrite <- (data_bytes_run s Hwf) by lia. rewrite <- data_bytes_app by lia.
  f_equal. lia.
Qed.

(** A run that starts at or after position [q] shares no byte with a run
    before [q]. *)
Lemma runs_disjoint_from s (Hwf : blocks_wf (Blocks s)) pos end_ segs p0 c0 :
  runs s pos end_ segs -> end_ <= data_cap s ->
  0 <= p0 -> 0 < c0 -> p0 mod BlockSize + c0 <= BlockSize -> p0 + c0 <= pos ->
  Forall (slice_disjoint (Slice (data_addr s p0) c0)) segs.
Proof.
  intros Hr Hcap Hp0 Hc0 Hm0 Hle. revert Hle.
  induction Hr as [|pos c end_ segs Hp Hc Hm He Hr IH]; intros Hle; constructor.
  2:{ apply IH; lia. }
  unfold slice_disjoint. cbn [sl_base sl_len].
  destruct (decide (data_addr s p0 + c0 <= data_addr s pos)); [by left|].
  destruct (decide (data_addr s pos + c <= data_addr s p0)); [by right|]. exfalso.
  set (x := Z.max (data_addr s p0) (data_addr s pos)).
  pose proof (data_addr_run s Hwf p0 (x - data_addr s p0)) as E1.
  pose proof (data_addr_run s Hwf pos (x - data_addr s pos)) as E2.
  assert (p0 + (x - data_addr s p0) = pos + (x - data_addr s pos)); [|lia].
  apply (data_addr_inj s Hwf); lia.
Qed.

Lemma runs_pairwise s (Hwf : blocks_wf (Blocks s)) pos end_ segs :
  runs s pos end_ segs -> end_ <= data_cap s ->
  forall i j a b, segs !! i = Some a -> segs !! j = Some b -> i <> j ->
  slice_disjoint a b.
Proof.
  intros Hr Hcap. induction Hr as [|pos c end_ segs Hp Hc Hm He Hr IH].
  { intros i j a b H. by rewrite lookup_nil in H. }
  pose proof (runs_disjoint_from s Hwf _ _ _ pos c Hr Hcap Hp Hc Hm) as Hd.
  rewrite Forall_lookup in Hd.
  intros [|i] [|j] a b Ha Hb Hij; simpl in *; simplify_eq.
  - eapply Hd; [lia|done].
  - assert (slice_disjoint (Slice (data_addr s pos) c) a) by (eapply Hd; [lia|done]).
    unfold slice_disjoint in *. simpl in *. tauto.
  - apply (IH Hcap i j); congruence.
Qed.

(** The viewer a run of segments makes. *)
Lemma runs_viewer_wf s (Hwf : blocks_wf (Blocks s)) pos end_ segs :
  runs s pos end_ segs -> end_ <= data_cap s ->
  viewer_wf (mkViewer segs (seg_offsets 0 segs) (end_ - pos)).
Proof.
  intros Hr Hcap. split; cbn [Segments offsets Length].
  - by eapply runs_pos.
  - done.
  - symmetry. by eapply runs_total.
  - by eapply runs_pairwise.
Qed.

(** The viewer [View] hands to its callback, for a window ending at [n]. *)
Lemma View_run m s offset len call :
  stripe_wf s -> 0 <= offset < DataLen s ->
  let n := Z.min (u32 (offset + len)) (DataLen s) in
  offset < n ->
  exists v, View m s offset len call = call m v /\ viewer_wf v /\
    Length v = n - offset /\
    forall m', view_bytes m' v = data_bytes m' s offset (n - offset).
Proof.
  intros [Hwf Hlen] Hoff n Hn. unfold View.
  rewrite (decide_False (P := offset < 0)) by lia.
  rewrite (decide_False (P := offset >= DataLen s)) by lia.
  cbv zeta. fold n. rewrite (decide_False (P := n - offset <= 0)) by lia.
  destruct (view_loop_spec s Hwf (length (Blocks s) + 1) offset n)
    as (segs & -> & Hr); [lia|lia|lia| |].
  { intros _. assert (0 <= offset / BlockSize) by (apply Z.div_pos; unfold_layout; lia). lia. }
  go_bind. eexists. split; [done|].
  split; [by eapply runs_viewer_wf; [done|done|lia]|]. split; [done|].
  intros m'. unfold view_bytes. cbn [Segments].
  by apply (runs_bytes m' s Hwf _ _ _ Hr); lia.
Qed.

(** ** Properties *)

(** A viewer over two segments, [7;8;9] and [8;9;5], for the witnesses. *)
Definition demo_mem : mem := store_bytes (store_bytes ∅ 100 [7; 8; 9]) 200 [8; 9; 5].
Definition demo_viewer : Viewer := mkViewer [Slice 100 3; Slice 200 3] [0; 3] 6.

Lemma demo_viewer_wf : viewer_wf demo_viewer.
Proof.
  split; simpl.
  - repeat constructor.
  - done.
  - done.
  - intros [|[|i]] [|[|j]] a b Ha Hb Hij; simplify_eq/=; unfold slice_disjoint; simpl;
      (lia || done).
Qed.

(** C32: [View] on a well-formed stripe: a negative offset and an offset past
    the end are the two errors; a positive length (below the uint32 limit)
    calls the callback once, with a well-formed viewer that shows exactly the
    window of the stripe's data, clipped to [DataLen], now and under any
    later contents of the memory (the segments alias the blocks). *)
Theorem View_window m s offset len call :
  stripe_wf s -> 0 < len -> offset + len < 4294967296 ->
  if decide (offset < 0) then View m s offset len call = Ret (m, Some ErrNegativeOffset)
  else if decide (offset >= DataLen s) then View m s offset len call = Ret (m, Some ErrEOF)
  else exists v, View m s offset len call = call m v /\ viewer_wf v /\
    Length v = Z.min len (DataLen s - offset) /\
    forall m', view_bytes m' v =
      take (Z.to_nat len) (drop (Z.to_nat offset) (stripe_data m' s)).
Proof.
  intros Hwf Hl Hbig. case_decide as H1.
  { unfold View. by rewrite decide_True. }
  case_decide as H2.
  { unfold View. by rewrite decide_False, decide_True. }
  destruct (View_run m s offset len call Hwf) as (v & E & Hv & HL & Hb);
    [lia|rewrite u32_small by lia; lia|].
  rewrite u32_small in HL, Hb by lia.
  exists v. split_and!; [done|done|lia|]. intros m'. rewrite Hb.
  rewrite data_bytes_sub by lia.
  destruct (decide (offset + len <= DataLen s)) as [Hle|Hgt].
  - do 2 f_equal. lia.
  - rewrite !take_ge; [done| |]; unfold stripe_data;
      rewrite length_drop, length_data_bytes; lia.
Qed.

Lemma View_window_witness :
  exists v, View ∅ demo_stripe 2 100 (fun m v => Ret (m, None)) = Ret (∅, None) /\
    viewer_wf v /\ Length v = 8.
Proof.
  pose proof (View_window ∅ demo_stripe 2 100 (fun m v => Ret (m, None)) demo_stripe_wf
    ltac:(lia) ltac:(lia)) as H.
  vm_compute decide in H. destruct H as (v & E & Hv & HL & _).
  exists v. split; [exact E|]. split; [exact Hv|]. rewrite HL. reflexivity.
Defined.

(** a negative [length] is not rejected.  [offset+length] is converted to
    uint32, so a sum below zero becomes a huge end position, and the callback
    receives all the data from [offset] to the end. *)
Theorem View_negative_length m s offset len call :
  stripe_wf s -> 0 <= offset < DataLen s ->
  -4294967296 + DataLen s <= offset + len < 0 ->
  exists v, View m s offset len call = call m v /\ viewer_wf v /\
    Length v = DataLen s - offset /\
    view_bytes m v = drop (Z.to_nat offset) (stripe_data m s).
Proof.
  intros Hwf Hoff Hneg.
  assert (u32 (offset + len) = offset + len + 4294967296) as Hu
    by (unfold u32; Z.div_mod_to_equations; lia).
  destruct (View_run m s offset len call Hwf) as (v & E & Hv & HL & Hb); [lia|lia|].
  exists v. split_and!; [done|done|lia|]. rewrite Hb, data_bytes_sub by lia.
  apply take_ge. unfold stripe_data. rewrite length_drop, length_data_bytes. lia.
Qed.

Lemma View_negative_length_witness :
  exists v, View ∅ demo_stripe 2 (-5) (fun m v => Ret (m, None)) = Ret (∅, None) /\
    Length v = 8.
Proof.
  destruct (View_negative_length ∅ demo_stripe 2 (-5) (fun m v => Ret (m, None))
    demo_stripe_wf ltac:(simpl; lia) ltac:(simpl; lia)) as (v & E & _ & HL & _).
  exists v. split; [exact E|]. rewrite HL. reflexivity.
Defined.

(** [ByteAt] on a well-formed viewer never panics: inside the window it
    returns that byte of the window (the binary search finds the right
    segment), outside it returns the out-of-bounds error. *)
Theorem ByteAt_correct m v offset :
  viewer_wf v ->
  ByteAt m v offset =
  Ret (if decide (0 <= offset < Length v)
       then (default 0 (view_bytes m v !! Z.to_nat offset), None)
       else (0, Some ErrOutOfBounds)).
Proof.
  intros Hwf. unfold ByteAt. case_decide as H1.
  { by rewrite decide_False by lia. }
  rewrite (decide_True (P := 0 <= offset < Length v)) by lia.
  destruct (findSegment_spec v offset Hwf) as (i & g & o & -> & Hg & Ho & Hoff); [lia|].
  go_bind. cbn [fst snd].
  rewrite (go_index_lookup _ _ g) by (rewrite ?Nat2Z.id; done || lia). go_bind.
  unfold slice_get. rewrite decide_True by lia. go_bind.
  unfold view_bytes. rewrite Hoff at 1.
  by rewrite (lookup_seg_bytes m _ i g o (vwf_pos _ Hwf)).
Qed.

Lemma ByteAt_correct_witness : ByteAt demo_mem demo_viewer 4 = Ret (9, None).
Proof. rewrite (ByteAt_correct _ _ _ demo_viewer_wf). vm_compute. reflexivity. Defined.

(** [SetByteAt] inside the window replaces that byte of the window and
    no other; outside it returns the error and changes nothing. *)
Theorem SetByteAt_correct m v offset val :
  viewer_wf v ->
  if decide (0 <= offset < Length v) then
    exists m', SetByteAt m v offset val = Ret (m', None) /\
      view_bytes m' v = <[Z.to_nat offset := val]> (view_bytes m v)
  else SetByteAt m v offset val = Ret (m, Some ErrOutOfBounds).
Proof.
  intros Hwf. case_decide as H1.
  2:{ unfold SetByteAt. by rewrite decide_True by lia. }
  destruct (findSegment_spec v offset Hwf) as (i & g & o & E & Hg & Ho & Hoff); [lia|].
  exists (store m (sl_base g + o) val). split.
  { unfold SetByteAt. rewrite decide_False by lia. rewrite E. go_bind. cbn [fst snd].
    rewrite (go_index_lookup _ _ g) by (rewrite ?Nat2Z.id; done || lia). go_bind.
    unfold slice_set. by rewrite decide_True by lia. }
  pose proof (vwf_disj _ Hwf) as Hdisj. pose proof (vwf_pos _ Hwf) as Hpos.
  unfold view_bytes. rewrite !(seg_bytes_split _ _ _ _ Hg).
  assert (forall k h, k <> i -> Segments v !! k = Some h -> slice_disjoint g h) as Hoth
    by (intros k h Hk Hh; by eapply (Hdisj i k)).
  rewrite (seg_bytes_store_other m g o val (drop _ _)); [|done|].
  2:{ intros h (k & Hk)%list_elem_of_lookup_1. rewrite lookup_drop in Hk.
      eapply Hoth; [|exact Hk]; lia. }
  rewrite (seg_bytes_store_other m g o val (take _ _)); [|done|].
  2:{ intros h (k & Hk)%list_elem_of_lookup_1. apply lookup_take_Some in Hk as [Hk ?].
      eapply Hoth; [|exact Hk]; lia. }
  assert (Forall (fun g => 0 < sl_len g) (take i (Segments v))) as Hp by by apply Forall_take.
  pose proof (length_seg_bytes m _ Hp) as Hl. pose proof (seg_total_nonneg _ Hp).
  rewrite insert_app_r_alt by lia. f_equal.
  replace (Z.to_nat offset - _)%nat with (Z.to_nat o) by lia.
  rewrite insert_app_l by (rewrite length_slice_bytes; lia). f_equal.
  by apply slice_bytes_store.
Qed.

Lemma SetByteAt_correct_witness :
  exists m', SetByteAt demo_mem demo_viewer 3 1 = Ret (m', None) /\
    view_bytes m' demo_viewer = [7; 8; 9; 1; 9; 5].
Proof.
  pose proof (SetByteAt_correct demo_mem demo_viewer 3 1 demo_viewer_wf) as H.
  vm_compute decide in H. destruct H as (m' & E & Hb).
  exists m'. split; [exact E|]. rewrite Hb. reflexivity.
Defined.

(** C40: [Compare] on a well-formed viewer decides equality of the argument
    with the window's bytes, without panicking. *)
Theorem Compare_correct m v data :
  viewer_wf v -> Compare m v data = Ret (bool_decide (data = view_bytes m v)).
Proof.
  intros Hwf. unfold Compare.
  pose proof (length_seg_bytes m _ (vwf_pos _ Hwf)) as Hl.
  case_decide as H1.
  - rewrite bool_decide_eq_false_2; [done|]. intros ->. apply H1.
    unfold view_bytes. rewrite Hl. symmetry. apply Hwf.
  - rewrite (vwf_length _ Hwf) in H1.
    apply (compare_loop_spec m _ data (Segments v) 0 []);
      [apply Hwf|rewrite drop_0; apply Hwf|simpl; lia|done].
Qed.

Lemma Compare_correct_witness :
  Compare demo_mem demo_viewer [7; 8; 9; 8; 9; 5] = Ret true.
Proof. rewrite (Compare_correct _ _ _ demo_viewer_wf). vm_compute. reflexivity. Defined.

(** C31: [Index] on a well-formed viewer returns the position of the first
    occurrence of the string in the window, occurrences that straddle segment
    boundaries included, and -1 when there is none; it never panics. *)
Theorem Index_correct m v s :
  viewer_wf v -> Index m v s = Ret (find_sub s (view_bytes m v) 0).
Proof.
  intros Hwf. destruct s as [|t0 t]; cbn [Index].
  - by destruct (view_bytes m v).
  - apply (index_loop_spec m v Hwf t0 t 0); [by rewrite drop_0|].
    intros j Hj. simpl in Hj. lia.
Qed.

Lemma Index_correct_witness : Index demo_mem demo_viewer [9; 8; 9; 5] = Ret 2.
Proof. rewrite (Index_correct _ _ _ demo_viewer_wf). vm_compute. reflexivity. Defined.

(** calling the closure of [Iterator] until it returns false yields the
    window's bytes in order, each once, and stops; this holds for any
    segments, empty ones included. *)
Theorem Iterator_yields_view m v :
  Iterator_drain (S (length (view_bytes m v))) m v (0, 0) = Ret (view_bytes m v).
Proof.
  pose proof (iter_rest_next m v 0 ltac:(lia)) as E. rewrite drop_0 in E.
  fold (view_bytes m v) in E. rewrite <- E. by apply Iterator_drain_spec; [lia|lia|lia].
Qed.
