(* ===== verification/Bus.v ===== *)
(** * The bus: block allocation

    go/shm/bus.go, the hub's resource manager.  The free/used state of every
    4KB block is one bit of a flattened bitmap of uint32 words.  This file
    models the operations run one at a time (the compare-and-swap loops then
    succeed at their first attempt); [BusConcurrent] interleaves them. *)
From stdpp Require Import base tactics list numbers option gmap.
From Stdlib Require Import ZArith Lia.
From S2P Require Import Prelude Memory Layout Protocol Stripe.
#[local] Open Scope Z_scope.

(** A mapped chunk (chunk.go).  [nil] pointers are [None]. *)
Record Chunk : Type := mkChunk { CData : slice; Fd : Z }.

Record Bus : Type := mkBus {
  lastSearchPos : Z;          (* atomic.Uint64 *)
  chunkCount : Z;             (* atomic.Uint32 *)
  bitmap : list Z;            (* []atomic.Uint32 *)
  chunks : list Chunk;
  appended : list Chunk;      (* the calls onChunkAppended received *)
}.

Definition with_bitmap (b : Bus) (bm : list Z) : Bus :=
  mkBus (lastSearchPos b) (chunkCount b) bm (chunks b) (appended b).
Definition with_lastSearchPos (b : Bus) (p : Z) : Bus :=
  mkBus p (chunkCount b) (bitmap b) (chunks b) (appended b).

(** ** Operations *)

Definition NewBus (firstChunk : option Chunk) (hasCallback : bool) : goerror + Bus :=
  match firstChunk with
  | None => inl ErrNilChunk
  | Some c =>
      if hasCallback
      then inr (mkBus 0 1 (replicate (Z.to_nat (BlocksPerChunk / 32)) 0) [c] [])
      else inl ErrNilCallback
  end.

Definition ChunkCount (b : Bus) : Z := chunkCount b.

(** [bits.TrailingZeros32] *)
Fixpoint tz_pos (p : positive) : Z :=
  match p with
  | xO q => 1 + tz_pos q
  | _ => 0
  end.
Definition TrailingZeros32 (x : Z) : Z :=
  match x with
  | Zpos p => tz_pos p
  | _ => 32
  end.

(** The bit-search loop of [AllocBlocks] on one word: [tempWord] holds the
    bits still free, [newVal] the word with the found bits set. *)
Fixpoint find_bits (fuel : nat) (tempWord newVal : Z) (foundBits : list Z)
  (remaining : Z) : outcome (Z * list Z) :=
  match fuel with
  | O => Diverge
  | S fuel' =>
      if decide (tempWord <> 0 /\ Z.of_nat (length foundBits) < remaining) then
        let bitIdx := TrailingZeros32 tempWord in
        find_bits fuel' (Z.land tempWord (u32 (Z.lnot (Z.shiftl 1 bitIdx))))
          (Z.lor newVal (Z.shiftl 1 bitIdx)) (foundBits ++ [bitIdx]) remaining
      else Ret (newVal, foundBits)
  end.

Definition search_word (old remaining : Z) : outcome (Z * list Z) :=
  find_bits 33 (u32 (Z.lnot old)) old [] remaining.

(** The [Block] appended for bit [bitIdx] of word [wordIdx]. *)
Definition claim_block (cs : list Chunk) (wordIdx bitIdx : Z) : outcome Block :=
  let bitPos := wordIdx * 32 + bitIdx in
  let '(cid, bidx) := ParseBlockAddress bitPos in
  let offset := u32 (u32 bidx * BlockSize) in
  c ← go_index cs (go_not cid);
  d ← slice_sub (CData c) offset (offset + BlockSize);
  Ret (mkBlock cid bidx d).

Fixpoint claim_blocks (cs : list Chunk) (wordIdx : Z) (bits : list Z)
  : outcome (list Block) :=
  match bits with
  | [] => Ret []
  | bitIdx :: bits' =>
      blk ← claim_block cs wordIdx bitIdx;
      rest ← claim_blocks cs wordIdx bits';
      Ret (blk :: rest)
  end.

(** The loop over words; [left] words are still to be visited, of [numWords].
    The last component says whether the function returned from inside. *)
Fixpoint scan_words (left : nat) (b : Bus) (numWords startWord : Z)
  (allocated : list Block) (remaining : Z)
  : outcome (Bus * list Block * Z * bool) :=
  match left with
  | O => Ret (b, allocated, remaining, false)
  | S left' =>
      if decide (remaining > 0) then
        let i := numWords - Z.of_nat left in
        let wordIdx := (startWord + i) mod numWords in
        old ← go_index (bitmap b) wordIdx;
        if decide (old = 4294967295)
        then scan_words left' b numWords startWord allocated remaining
        else
          r ← search_word old remaining;
          let '(newVal, foundBits) := r in
          let foundCount := Z.of_nat (length foundBits) in
          if decide (foundCount = 0)
          then scan_words left' b numWords startWord allocated remaining
          else
            let b' := with_bitmap b (<[Z.to_nat wordIdx := newVal]> (bitmap b)) in
            blks ← claim_blocks (chunks b) wordIdx foundBits;
            if decide (remaining - foundCount = 0)
            then Ret (with_lastSearchPos b' ((wordIdx + 1) mod numWords),
                      allocated ++ blks, 0, true)
            else scan_words left' b' numWords startWord
                   (allocated ++ blks) (remaining - foundCount)
      else Ret (b, allocated, remaining, false)
  end.

(** [mk k] is what [NewChunk("mmfg_chunk<k>")] returns, [None] for an error.
    [count] was read before the mutex was taken. *)
Definition tryAppendChunk_locked (mk : Z -> option Chunk) (b : Bus) (count : Z)
  : Bus * option goerror :=
  if decide (count <> ChunkCount b) then (b, None)
  else match mk count with
       | None => (b, Some ErrSys)
       | Some chunk =>
           (mkBus (lastSearchPos b) (u32 (chunkCount b + 1))
              (bitmap b ++ replicate (Z.to_nat (BlocksPerChunk / 32)) 0)
              (chunks b ++ [chunk]) (appended b ++ [chunk]), None)
       end.

Definition tryAppendChunk (mk : Z -> option Chunk) (b : Bus) : Bus * option goerror :=
  let count := ChunkCount b in
  if decide (count >= MaxChunks) then (b, Some ErrAlloc)
  else tryAppendChunk_locked mk b count.

(** A shift by 32 or more (a negative index turned into a [uint]) gives 0. *)
Definition FreeBlock (b : Bus) (chunkID blockIdx : Z) : outcome Bus :=
  let globalBlockIdx := GetBlockAddress chunkID blockIdx in
  let wordIdx := Z.quot globalBlockIdx 32 in
  if decide (wordIdx >= Z.of_nat (length (bitmap b))) then Ret b
  else
    let bitIdx := u64 (Z.rem globalBlockIdx 32) in
    old ← go_index (bitmap b) wordIdx;
    let mosk := u32 (Z.lnot (if decide (bitIdx < 32) then Z.shiftl 1 bitIdx else 0)) in
    Ret (with_bitmap b (<[Z.to_nat wordIdx := Z.land old mosk]> (bitmap b))).

Fixpoint free_blocks (b : Bus) (blks : list Block) : outcome Bus :=
  match blks with
  | [] => Ret b
  | res :: blks' =>
      b' ← FreeBlock b (ChunkID res) (BlockIdx res);
      free_blocks b' blks'
  end.

(** The outer loop: scan, and on a shortfall append a chunk and go round
    again, or give everything back and fail. *)
Fixpoint alloc_loop (fuel : nat) (mk : Z -> option Chunk) (b : Bus)
  (allocated : list Block) (remaining : Z) : outcome (Bus * (goerror + list Block)) :=
  match fuel with
  | O => Diverge
  | S fuel' =>
      let numWords := Z.of_nat (length (bitmap b)) in
      if decide (numWords = 0) then Panic (* integer divide by zero *)
      else
        let startWord := lastSearchPos b mod numWords in
        r ← scan_words (length (bitmap b)) b numWords startWord allocated remaining;
        let '(b1, allocated1, remaining1, returned) := r in
        if returned : bool then Ret (b1, inr allocated1)
        else
          match tryAppendChunk mk b1 with
          | (b2, Some err) =>
              b3 ← free_blocks b2 allocated1;
              Ret (b3, inl err)
          | (b2, None) => alloc_loop fuel' mk b2 allocated1 remaining1
          end
  end.

(** Each round but the last appends a chunk, so [MaxChunks + 1] rounds are
    enough. *)
Definition AllocBlocks (mk : Z -> option Chunk) (b : Bus) (count : Z)
  : outcome (Bus * (goerror + list Block)) :=
  _ ← go_make_check count;
  alloc_loop (Z.to_nat MaxChunks + 1) mk b [] count.

Definition GetBlock (b : Bus) (chunkID blockIdx : Z) : outcome (goerror + Block) :=
  let realCID := go_not chunkID in
  if decide (realCID >= Z.of_nat (length (chunks b))) then Ret (inl ErrChunkNotFound)
  else
    chunk ← go_index (chunks b) realCID;
    let offset := u32 (u32 blockIdx * BlockSize) in
    d ← slice_sub (CData chunk) offset (offset + BlockSize);
    Ret (inr (mkBlock chunkID blockIdx d)).

Definition GetChunk (b : Bus) (id : Z) : option Chunk :=
  let realID := go_not id in
  if decide (realID < 0 \/ realID >= Z.of_nat (length (chunks b))) then None
  else chunks b !! Z.to_nat realID.

(** The sequence of a run of blocks: a chunk id each time it changes (a
    fresh [chunkID] variable is 0, which no block has), then the index. *)
Fixpoint encode_seq (chunkID : Z) (blks : list Block) : list Z :=
  match blks with
  | [] => []
  | blk :: blks' =>
      if decide (ChunkID blk <> chunkID)
      then ChunkID blk :: BlockIdx blk :: encode_seq (ChunkID blk) blks'
      else BlockIdx blk :: encode_seq chunkID blks'
  end.

Definition AllocStripe (mk : Z -> option Chunk) (m : mem) (b : Bus) (blockCount : Z)
  : outcome (mem * Bus * (goerror + Stripe)) :=
  r ← AllocBlocks mk b blockCount;
  match r with
  | (b', inl err) => Ret (m, b', inl err)
  | (b', inr blocks) =>
      let stripe := mkStripe (encode_seq 0 blocks) blockCount (BlkData <$> blocks) 0 in
      m' ← UpdateStripeHeader m stripe;
      Ret (m', b', inr stripe)
  end.

(** The last chunk id of a sequence, 0 if there is none. *)
Definition last_chunk (seq : list Z) : Z :=
  default 0 (head (filter (fun v => v < 0) (reverse seq))).

Definition extend_stripe (s : Stripe) (blocks : list Block) : Stripe :=
  mkStripe (Sequence s ++ encode_seq (last_chunk (Sequence s)) blocks)
    (BlockCount s + Z.of_nat (length blocks))
    (Blocks s ++ (BlkData <$> blocks)) (DataLen s).

Definition AllocBlocksForStripe (mk : Z -> option Chunk) (m : mem) (b : Bus)
  (s : Stripe) (count : Z) : outcome (mem * Bus * Stripe * option goerror) :=
  r ← AllocBlocks mk b count;
  match r with
  | (b', inl err) => Ret (m, b', s, Some err)
  | (b', inr blocks) =>
      let s' := extend_stripe s blocks in
      m' ← UpdateStripeHeader m s';
      Ret (m', b', s', None)
  end.

(** The loop of [FreeStripe] (and of the hub's cleanup). *)
Fixpoint free_seq (b : Bus) (chunkID : Z) (seq : list Z) : outcome Bus :=
  match seq with
  | [] => Ret b
  | id :: seq' =>
      if decide (id < 0) then free_seq b id seq'
      else
        b' ← FreeBlock b chunkID id;
        free_seq b' chunkID seq'
  end.

Definition FreeStripe (b : Bus) (s : Stripe) : outcome Bus :=
  free_seq b 0 (Sequence s).

(** ** Specification vocabulary *)

(** Block [g] (a global block number) is in use. *)
Definition used (b : Bus) (g : Z) : bool :=
  match bitmap b !! Z.to_nat (g / 32) with
  | Some w => Z.testbit w (g mod 32)
  | None => false
  end.

(** The blocks the bus manages. *)
Definition managed (b : Bus) (g : Z) : Prop :=
  0 <= g < BlocksPerChunk * chunkCount b.

Record bus_wf (b : Bus) : Prop := {
  bus_count : 1 <= chunkCount b <= MaxChunks;
  bus_chunks : Z.of_nat (length (chunks b)) = chunkCount b;
  bus_bitmap : Z.of_nat (length (bitmap b)) = 32 * chunkCount b;
  bus_words : Forall (fun w => 0 <= w < 4294967296) (bitmap b);
  bus_data : forall k c, chunks b !! k = Some c ->
    CData c = Slice (Z.of_nat k * ChunkSize) ChunkSize;
}.

(** The system's promise about new chunks: the memory of the [k]-th memfd is
    the [k]-th region of the (flattened) store, fresh and disjoint from the
    others. *)
Class ChunkSource (mk : Z -> option Chunk) : Prop :=
  chunk_source : forall k c, mk k = Some c -> CData c = Slice (k * ChunkSize) ChunkSize.

(** The block value for global number [g]. *)
Definition blk_of (g : Z) : Block :=
  mkBlock (ParseBlockAddress g).1 (ParseBlockAddress g).2
    (Slice (g * BlockSize) BlockSize).

(** [b] is [b0] with the blocks [gs] claimed (and possibly more chunks):
    every claimed block was free in [b0] and is distinct, every other block
    keeps its state. *)
Record claimed (b0 b : Bus) (gs : list Z) : Prop := {
  cl_wf : bus_wf b;
  cl_nodup : NoDup gs;
  cl_free : Forall (fun g => managed b g /\ used b0 g = false) gs;
  cl_used : forall g, 0 <= g -> used b g = used b0 g || bool_decide (g ∈ gs);
  cl_chunks : exists extra, chunks b = chunks b0 ++ extra /\
    appended b = appended b0 ++ extra;
}.

(** [b'] is [b] with the blocks [gs] released. *)
Record released (b b' : Bus) (gs : list Z) : Prop := {
  rel_wf : bus_wf b';
  rel_count : chunkCount b' = chunkCount b;
  rel_chunks : chunks b' = chunks b /\ appended b' = appended b;
  rel_used : forall g, 0 <= g -> used b' g = used b g && negb (bool_decide (g ∈ gs));
}.

(** What a scan from some word on leaves behind. *)
Definition scan_post (b0 b b' : Bus) (gs' : list Z) (total rem' : Z)
  (ret : bool) (visited : Z -> Prop) : Prop :=
  claimed b0 b' gs' /\ chunkCount b' = chunkCount b /\
  Z.of_nat (length gs') + rem' = total /\
  (forall g, 0 <= g -> used b g = true -> used b' g = true) /\
  (if ret then rem' = 0
   else 0 < rem' /\ forall g, 0 <= g -> visited (g / 32) -> used b' g = true).

(** The blocks a sequence denotes, starting from chunk [chunkID]: the parse
    that [FreeStripe], the hub and the nodes all perform. *)
Fixpoint seq_blocks (chunkID : Z) (seq : list Z) : list (Z * Z) :=
  match seq with
  | [] => []
  | id :: seq' =>
      if decide (id < 0) then seq_blocks id seq'
      else (chunkID, id) :: seq_blocks chunkID seq'
  end.

Fixpoint free_pairs (b : Bus) (l : list (Z * Z)) : outcome Bus :=
  match l with
  | [] => Ret b
  | (cid, i) :: l' => b' ← FreeBlock b cid i; free_pairs b' l'
  end.

Definition blk_slice (g : Z) : slice := Slice (g * BlockSize) BlockSize.

(** Stripe [s] is made of the blocks [gs], all in use. *)
Record stripe_backed (b : Bus) (s : Stripe) (gs : list Z) : Prop := {
  sb_nodup : NoDup gs;
  sb_nonempty : gs <> [];
  sb_used : Forall (fun g => managed b g /\ used b g = true) gs;
  sb_seq : seq_blocks 0 (Sequence s) = ParseBlockAddress <$> gs;
  sb_int16 : Forall is_int16 (Sequence s);
  sb_blocks : Blocks s = blk_slice <$> gs;
  sb_count : BlockCount s = Z.of_nat (length gs);
  sb_len : 0 <= DataLen s <= data_cap s;
}.

(** The free blocks of a bus. *)
Definition free_list (b : Bus) : list Z :=
  filter (fun g => used b g = false) (seqZ 0 (BlocksPerChunk * chunkCount b)).

(** ** Bit lemmas *)
Lemma tz_pos_nonneg p : 0 <= tz_pos p.
Proof. induction p; simpl; lia. Qed.

Lemma tz_pos_bit p : Z.testbit (Zpos p) (tz_pos p) = true.
Proof.
  induction p as [p IH|p IH|]; simpl tz_pos; [done| |done].
  rewrite Pos2Z.inj_xO. pose proof (tz_pos_nonneg p).
  rewrite Z.add_1_l, Z.testbit_even_succ by lia. done.
Qed.

Lemma tz_pos_low p i : 0 <= i < tz_pos p -> Z.testbit (Zpos p) i = false.
Proof.
  revert i. induction p as [p IH|p IH|]; intros i Hi; simpl tz_pos in Hi; [lia| |lia].
  rewrite Pos2Z.inj_xO. destruct (decide (i = 0)) as [->|Hne].
  - apply Z.testbit_even_0.
  - replace i with (Z.succ (i - 1)) by lia. rewrite Z.testbit_even_succ by lia.
    apply IH. lia.
Qed.

Lemma testbit_high x i : 0 <= x < 4294967296 -> 32 <= i -> Z.testbit x i = false.
Proof.
  intros Hx Hi. destruct (decide (x = 0)) as [->|]; [apply Z.bits_0|].
  apply Z.bits_above_log2; [lia|].
  assert (Z.log2 x < 32); [|lia]. apply Z.log2_lt_pow2; lia.
Qed.

Lemma testbit_u32 x i : 0 <= i < 32 -> Z.testbit (u32 x) i = Z.testbit x i.
Proof. intros Hi. apply (Z.mod_pow2_bits_low x 32). lia. Qed.

Lemma testbit_u32_high x i : 32 <= i -> Z.testbit (u32 x) i = false.
Proof. intros Hi. apply (Z.mod_pow2_bits_high x 32). lia. Qed.

Lemma testbit_one_shift k i :
  0 <= k -> 0 <= i -> Z.testbit (Z.shiftl 1 k) i = bool_decide (i = k).
Proof.
  intros Hk Hi. rewrite Z.shiftl_1_l, Z.pow2_bits_eqb by lia.
  case_bool_decide; [subst; apply Z.eqb_refl|apply Z.eqb_neq; lia].
Qed.

(** A word whose bits are known below 32 and clear above is a uint32. *)
Lemma uint32_of_bits x :
  (forall i, 32 <= i -> Z.testbit x i = false) -> 0 <= x -> 0 <= x < 4294967296.
Proof.
  intros Hb H0. split; [done|]. destruct (decide (x = 0)) as [->|]; [lia|].
  destruct (decide (x < 4294967296)) as [|Hge]; [done|]. exfalso.
  assert (32 <= Z.log2 x) by (apply Z.log2_le_pow2; lia).
  specialize (Hb (Z.log2 x) ltac:(lia)). rewrite Z.bit_log2 in Hb by lia. done.
Qed.

Lemma TrailingZeros32_spec x :
  0 < x < 4294967296 ->
  0 <= TrailingZeros32 x < 32 /\ Z.testbit x (TrailingZeros32 x) = true /\
  forall i, 0 <= i < TrailingZeros32 x -> Z.testbit x i = false.
Proof.
  intros Hx. destruct x as [|p|p]; [lia| |lia]. cbn [TrailingZeros32].
  pose proof (tz_pos_nonneg p). pose proof (tz_pos_bit p) as Hb.
  split_and!; [lia| |done|apply tz_pos_low].
  destruct (decide (tz_pos p < 32)); [done|].
  rewrite (testbit_high (Zpos p)) in Hb by lia. done.
Qed.

(** The loop keeps [newVal] and [tempWord] complementary, and extends
    [foundBits] with bits that were clear. *)
Lemma find_bits_spec old fuel k tempWord newVal bits remaining :
  0 <= old < 4294967296 ->
  0 <= tempWord < 4294967296 -> 0 <= newVal < 4294967296 ->
  0 <= k <= 32 -> 32 - k < Z.of_nat fuel ->
  (forall i, 0 <= i < k -> Z.testbit tempWord i = false) ->
  (forall i, 0 <= i < 32 -> Z.testbit newVal i = negb (Z.testbit tempWord i)) ->
  (forall i, 0 <= i < 32 -> Z.testbit newVal i = Z.testbit old i || bool_decide (i ∈ bits)) ->
  NoDup bits -> Forall (fun i => 0 <= i < 32 /\ Z.testbit old i = false) bits ->
  Z.of_nat (length bits) <= remaining ->
  exists newVal' bits', find_bits fuel tempWord newVal bits remaining = Ret (newVal', bits') /\
    0 <= newVal' < 4294967296 /\
    (forall i, 0 <= i < 32 -> Z.testbit newVal' i = Z.testbit old i || bool_decide (i ∈ bits')) /\
    NoDup bits' /\ Forall (fun i => 0 <= i < 32 /\ Z.testbit old i = false) bits' /\
    Z.of_nat (length bits') <= remaining /\
    (Z.of_nat (length bits') < remaining -> newVal' = 4294967295).
Proof.
  intros Hold. revert k tempWord newVal bits.
  induction fuel as [|fuel IH]; intros k t v bits Ht Hv Hk Hf Hlow Hcomp Hbits Hnd Hall Hlen;
    [lia|].
  cbn [find_bits]. case_decide as Hd.
  2:{ exists v, bits. split_and!; try done; try lia. intros Hlt.
      assert (t = 0) as -> by (destruct (decide (t = 0)); [done|exfalso; apply Hd; lia]).
      apply Z.bits_inj'. intros i Hi. destruct (decide (i < 32)).
      - rewrite Hcomp, Z.bits_0 by lia. change 4294967295 with (Z.ones 32).
        by rewrite Z.ones_spec_low by lia.
      - rewrite !testbit_high by lia. done. }
  destruct (TrailingZeros32_spec t) as (Hz & Hzt & Hzl); [lia|].
  set (z := TrailingZeros32 t) in *. clearbody z. cbv zeta.
  assert (k <= z) as Hkz.
  { destruct (decide (k <= z)); [done|]. rewrite (Hlow z) in Hzt by lia. done. }
  assert (Hcl : forall i, 0 <= i < 32 ->
    Z.testbit (Z.land t (u32 (Z.lnot (Z.shiftl 1 z)))) i =
    Z.testbit t i && negb (bool_decide (i = z))).
  { intros i Hi. rewrite Z.land_spec, testbit_u32, Z.lnot_spec by lia.
    by rewrite testbit_one_shift by lia. }
  assert (Hst : forall i, 0 <= i ->
    Z.testbit (Z.lor v (Z.shiftl 1 z)) i = Z.testbit v i || bool_decide (i = z)).
  { intros i Hi. by rewrite Z.lor_spec, testbit_one_shift by lia. }
  assert (Z.testbit old z = false /\ z ∉ bits) as [Hoz Hzb].
  { pose proof (Hcomp z ltac:(lia)) as E. rewrite Hzt, (Hbits z) in E by lia.
    apply orb_false_iff in E as [? E]. split; [done|].
    by apply bool_decide_eq_false in E. }
  apply (IH (z + 1)).
  - apply uint32_of_bits.
    + intros i Hi. rewrite Z.land_spec, (testbit_high t) by lia. done.
    + apply Z.land_nonneg. lia.
  - apply uint32_of_bits.
    + intros i Hi. rewrite Hst, testbit_high, bool_decide_eq_false_2 by lia. done.
    + apply Z.lor_nonneg. split; [lia|]. apply Z.shiftl_nonneg. lia.
  - lia.
  - lia.
  - intros i Hi. rewrite Hcl by lia. destruct (decide (i = z)) as [->|].
    + rewrite bool_decide_eq_true_2 by done. apply andb_false_r.
    + rewrite Hzl by lia. done.
  - intros i Hi. rewrite Hst, Hcl, Hcomp by lia.
    case_bool_decide; destruct (Z.testbit t i); done.
  - intros i Hi. rewrite Hst, Hbits by lia. rewrite <- orb_assoc. f_equal.
    repeat case_bool_decide; set_solver.
  - apply NoDup_app. split_and!; [done|set_solver|apply NoDup_singleton].
  - apply Forall_app. split; [done|]. repeat constructor; (done || lia).
  - rewrite length_app. simpl. lia.
Qed.

(** Searching a word returns distinct clear bits, no more than wanted, and
    all of them if fewer. *)
Lemma search_word_spec old remaining :
  0 <= old < 4294967296 -> 0 < remaining ->
  exists newVal bits, search_word old remaining = Ret (newVal, bits) /\
    0 <= newVal < 4294967296 /\
    (forall i, 0 <= i < 32 -> Z.testbit newVal i = Z.testbit old i || bool_decide (i ∈ bits)) /\
    NoDup bits /\ Forall (fun i => 0 <= i < 32 /\ Z.testbit old i = false) bits /\
    Z.of_nat (length bits) <= remaining /\
    (Z.of_nat (length bits) < remaining -> newVal = 4294967295).
Proof.
  intros Hold Hrem. unfold search_word.
  apply (find_bits_spec old 33 0); [done|apply u32_range|done|lia|lia|lia| | | | |simpl; lia].
  - intros i Hi. rewrite testbit_u32, Z.lnot_spec, negb_involutive by lia. done.
  - intros i Hi. rewrite bool_decide_eq_false_2 by set_solver. by rewrite orb_false_r.
  - constructor.
  - constructor.
Qed.

(** ** Lemmas on the bitmap *)
Lemma bus_wf_word b w :
  bus_wf b -> 0 <= w < Z.of_nat (length (bitmap b)) ->
  exists old, go_index (bitmap b) w = Ret old /\ bitmap b !! Z.to_nat w = Some old /\
    0 <= old < 4294967296.
Proof.
  intros Hwf Hw. destruct (lookup_lt_is_Some_2 (bitmap b) (Z.to_nat w)) as [old Ho]; [lia|].
  exists old. split_and!; [apply go_index_lookup; (done || lia)|done|..];
    pose proof (bus_words _ Hwf) as Hf; rewrite Forall_lookup in Hf;
    specialize (Hf _ _ Ho); lia.
Qed.

Lemma used_with_lastSearchPos b p g : used (with_lastSearchPos b p) g = used b g.
Proof. done. Qed.

Lemma used_insert b w newVal g :
  0 <= w < Z.of_nat (length (bitmap b)) -> 0 <= g ->
  used (with_bitmap b (<[Z.to_nat w := newVal]> (bitmap b))) g =
  if decide (g / 32 = w) then Z.testbit newVal (g mod 32) else used b g.
Proof.
  intros Hw Hg. unfold used. cbn [bitmap with_bitmap].
  assert (0 <= g / 32) by (apply Z.div_pos; lia).
  case_decide as Hd.
  - rewrite Hd, list_lookup_insert_eq by lia. done.
  - rewrite list_lookup_insert_ne by lia. done.
Qed.

Lemma bus_wf_insert b w newVal :
  bus_wf b -> 0 <= newVal < 4294967296 ->
  bus_wf (with_bitmap b (<[w := newVal]> (bitmap b))).
Proof.
  intros [H1 H2 H3 H4 H5] Hn. split; cbn; try done.
  - by rewrite length_insert.
  - by apply Forall_insert.
Qed.

Lemma used_unmanaged b g :
  bus_wf b -> BlocksPerChunk * chunkCount b <= g -> used b g = false.
Proof.
  intros Hwf Hg. unfold used. rewrite lookup_ge_None_2; [done|].
  pose proof (bus_bitmap _ Hwf). pose proof (bus_count _ Hwf).
  unfold_layout. Z.div_mod_to_equations. lia.
Qed.

(** ** Claiming blocks *)
Lemma claim_block_ok b w i :
  bus_wf b -> 0 <= w < Z.of_nat (length (bitmap b)) -> 0 <= i < 32 ->
  claim_block (chunks b) w i = Ret (blk_of (w * 32 + i)).
Proof.
  intros Hwf Hw Hi. unfold claim_block, blk_of. set (g := w * 32 + i).
  pose proof (bus_bitmap _ Hwf) as Hbm. pose proof (bus_count _ Hwf) as Hc.
  pose proof (bus_chunks _ Hwf) as Hck.
  assert (0 <= g < 65536 /\ g / 1024 < chunkCount b) as [Hg Hgc]
    by (unfold_layout; unfold g; Z.div_mod_to_equations; lia).
  assert (0 <= g / 1024 < 64 /\ 0 <= g mod 1024 < 1024) as [Hq Hr]
    by (Z.div_mod_to_equations; lia).
  unfold ParseBlockAddress. change BlocksPerChunk with 1024. cbn [fst snd].
  rewrite !i16_small by lia. rewrite go_not_invol.
  destruct (lookup_lt_is_Some_2 (chunks b) (Z.to_nat (g / 1024))) as [c Hlk]; [lia|].
  rewrite (go_index_lookup _ _ c) by (done || lia). go_bind.
  rewrite (bus_data _ Hwf _ _ Hlk). unfold slice_sub. cbn [sl_base sl_len].
  rewrite (u32_small (g mod 1024)) by lia.
  rewrite u32_small by (unfold_layout; lia).
  rewrite decide_True by (unfold_layout; lia). go_bind.
  do 3 f_equal; unfold_layout; Z.div_mod_to_equations; lia.
Qed.

Lemma claim_blocks_ok b w bits :
  bus_wf b -> 0 <= w < Z.of_nat (length (bitmap b)) ->
  Forall (fun i => 0 <= i < 32) bits ->
  claim_blocks (chunks b) w bits = Ret (blk_of <$> ((fun i => w * 32 + i) <$> bits)).
Proof.
  intros Hwf Hw. induction 1 as [|i bits Hi Hbits IH]; cbn [claim_blocks]; [done|].
  rewrite claim_block_ok by done. go_bind. rewrite IH. done.
Qed.

(** Setting the bits found in one word claims the corresponding blocks. *)
Lemma claim_word b0 b gs w old newVal bits :
  claimed b0 b gs -> 0 <= w < Z.of_nat (length (bitmap b)) ->
  bitmap b !! Z.to_nat w = Some old -> 0 <= newVal < 4294967296 ->
  (forall i, 0 <= i < 32 -> Z.testbit newVal i = Z.testbit old i || bool_decide (i ∈ bits)) ->
  NoDup bits -> Forall (fun i => 0 <= i < 32 /\ Z.testbit old i = false) bits ->
  claimed b0 (with_bitmap b (<[Z.to_nat w := newVal]> (bitmap b)))
    (gs ++ ((fun i => w * 32 + i) <$> bits)).
Proof.
  intros [Hwf Hnd Hfree Hused Hch] Hw Hold Hnew Hbits Hndb Hall.
  rewrite Forall_forall in Hall.
  assert (forall i, 0 <= i < 32 -> (w * 32 + i) / 32 = w /\ (w * 32 + i) mod 32 = i) as Hdm
    by (intros i Hi; split; Z.div_mod_to_equations; lia).
  assert (forall i, i ∈ bits -> used b (w * 32 + i) = false) as Hub.
  { intros i Hi. destruct (Hall i Hi) as [Hr Ho]. unfold used.
    destruct (Hdm i Hr) as [-> ->]. by rewrite Hold. }
  split.
  - by apply bus_wf_insert.
  - apply NoDup_app. split_and!; [done| |].
    + intros g Hg (i & -> & Hi)%list_elem_of_fmap. specialize (Hub i Hi).
      rewrite Hused, orb_false_iff in Hub by (destruct (Hall i Hi); lia).
      destruct Hub as [_ Hub]. by rewrite bool_decide_eq_false in Hub.
    + apply NoDup_fmap_2_strong; [|done]. intros x y _ _ Hxy. lia.
  - apply Forall_app. split.
    + eapply Forall_impl; [done|]. done.
    + apply Forall_forall. intros g (i & -> & Hi)%list_elem_of_fmap.
      destruct (Hall i Hi) as [Hr Ho]. split.
      * unfold managed. cbn [chunkCount with_bitmap].
        pose proof (bus_bitmap _ Hwf). unfold_layout. lia.
      * specialize (Hub i Hi). rewrite Hused, orb_false_iff in Hub by lia. tauto.
  - intros g Hg. rewrite used_insert by done.
    assert (0 <= g mod 32 < 32) as Hm by (apply Z.mod_pos_bound; lia).
    pose proof (Z.div_mod g 32 ltac:(lia)) as Hgd.
    case_decide as Hd.
    + rewrite Hbits by done.
      assert (Z.testbit old (g mod 32) = used b g) as ->
        by (unfold used; by rewrite Hd, Hold).
      rewrite Hused, <- orb_assoc by done. f_equal.
      rewrite <- bool_decide_or. apply bool_decide_ext.
      rewrite elem_of_app, list_elem_of_fmap. split; [|].
      * intros [?|?]; [by left|]. right. exists (g mod 32). split; [lia|done].
      * intros [?|(i & -> & Hi)]; [by left|]. right.
        destruct (Hall i Hi) as [Hr _]. destruct (Hdm i Hr) as [_ ->]. done.
    + rewrite Hused by done. f_equal. apply bool_decide_ext.
      rewrite elem_of_app, list_elem_of_fmap. split; [by left|].
      intros [?|(i & -> & Hi)]; [done|]. destruct (Hall i Hi) as [Hr _].
      destruct (Hdm i Hr). lia.
  - done.
Qed.

Lemma claimed_lastSearchPos b0 b gs p :
  claimed b0 b gs -> claimed b0 (with_lastSearchPos b p) gs.
Proof. intros [Hwf ? ? ? ?]. split; try done. destruct Hwf. by split. Qed.

(** A full word has all its blocks in use. *)
Lemma full_word_used b w g :
  bitmap b !! Z.to_nat w = Some 4294967295 -> g / 32 = w -> used b g = true.
Proof.
  intros Hw Hg. unfold used. rewrite Hg, Hw.
  change 4294967295 with (Z.ones 32). apply Z.ones_spec_low.
  apply Z.mod_pos_bound. lia.
Qed.

(** Claiming only ever turns bits on. *)
Lemma claim_word_mono b w old newVal g :
  0 <= w < Z.of_nat (length (bitmap b)) -> bitmap b !! Z.to_nat w = Some old ->
  (forall i, 0 <= i < 32 -> Z.testbit old i = true -> Z.testbit newVal i = true) ->
  0 <= g -> used b g = true ->
  used (with_bitmap b (<[Z.to_nat w := newVal]> (bitmap b))) g = true.
Proof.
  intros Hw Hold Hmono Hg Hu. rewrite used_insert by done. case_decide as Hd; [|done].
  apply Hmono; [apply Z.mod_pos_bound; lia|].
  unfold used in Hu. by rewrite Hd, Hold in Hu.
Qed.

Lemma scan_words_spec b0 left b gs numWords start remaining :
  claimed b0 b gs -> numWords = Z.of_nat (length (bitmap b)) ->
  0 <= start < numWords -> Z.of_nat left <= numWords -> 0 < remaining ->
  exists b' gs' rem' ret,
    scan_words left b numWords start (blk_of <$> gs) remaining =
      Ret (b', blk_of <$> gs', rem', ret) /\
    scan_post b0 b b' gs' (Z.of_nat (length gs) + remaining) rem' ret
      (fun w => exists i, numWords - Z.of_nat left <= i < numWords /\
                          w = (start + i) mod numWords).
Proof.
  intros Hcl Hnw Hstart. revert b gs remaining Hcl Hnw.
  induction left as [|left IH]; intros b gs remaining Hcl Hnw Hleft Hrem.
  { exists b, gs, remaining, false. split; [done|]. unfold scan_post. split_and!; try done.
    intros g _ (i & Hi & _). lia. }
  cbn [scan_words]. rewrite decide_True by lia. cbv zeta.
  set (w := (start + (numWords - Z.of_nat (S left))) mod numWords).
  assert (0 <= w < numWords) as Hw by (apply Z.mod_pos_bound; lia).
  destruct (bus_wf_word b w (cl_wf _ _ _ Hcl)) as (old & -> & Hold & Hor); [lia|].
  go_bind.
  (* a word left with every bit set and the words of the recursive scan *)
  assert (Hskip : forall b1 gs1 rem1,
    claimed b0 b1 gs1 -> length (bitmap b1) = length (bitmap b) ->
    chunkCount b1 = chunkCount b ->
    (forall g, 0 <= g -> used b g = true -> used b1 g = true) ->
    (forall g, 0 <= g -> g / 32 = w -> used b1 g = true) -> 0 < rem1 ->
    Z.of_nat (length gs1) + rem1 = Z.of_nat (length gs) + remaining ->
    exists b' gs' rem' ret,
      scan_words left b1 numWords start (blk_of <$> gs1) rem1 =
        Ret (b', blk_of <$> gs', rem', ret) /\
      scan_post b0 b b' gs' (Z.of_nat (length gs) + remaining) rem' ret
        (fun w => exists i, numWords - Z.of_nat (S left) <= i < numWords /\
                            w = (start + i) mod numWords)).
  { intros b1 gs1 rem1 Hcl1 Hl1 Hc1 Hm1 Hfull Hr1 Hsum.
    destruct (IH b1 gs1 rem1 Hcl1) as (b' & gs' & rem' & ret & E & H1 & H2 & H3 & H4 & H5);
      [lia..|].
    exists b', gs', rem', ret. split; [done|]. unfold scan_post. split_and!; try done; try lia.
    { intros g Hg Hu. eauto. }
    destruct ret; [done|]. destruct H5 as [H5 H6]. split; [done|].
    intros g Hg (i & Hi & Hwi).
    destruct (decide (i = numWords - Z.of_nat (S left))) as [->|Hne].
    - apply H4; [done|]. by apply Hfull.
    - apply H6; [done|]. exists i. split; [lia|done]. }
  case_decide as Hfw.
  { subst old. apply Hskip; try done. intros g _ Hg. by eapply full_word_used. }
  destruct (search_word_spec old remaining Hor Hrem)
    as (newVal & bits & -> & Hnr & Hbits & Hnd & Hall & Hle & Hlt).
  go_bind. case_decide as Hz.
  { (* no bit found although some are wanted: the word was full after all *)
    exfalso. apply Hfw. rewrite <- Hlt by lia. apply Z.bits_inj'. intros i Hi.
    destruct (decide (i < 32)).
    - rewrite Hbits by lia. destruct bits; [|simpl in Hz; lia].
      rewrite bool_decide_eq_false_2 by set_solver. by rewrite orb_false_r.
    - rewrite !testbit_high by lia. done. }
  rewrite claim_blocks_ok; [|apply Hcl|lia|by eapply Forall_impl; [done|]; naive_solver].
  go_bind.
  pose proof (claim_word b0 b gs w old newVal bits Hcl ltac:(lia) Hold Hnr Hbits Hnd Hall) as Hcl1.
  set (b1 := with_bitmap b _) in *. set (gs1 := gs ++ _) in *.
  assert (Hm1 : forall g, 0 <= g -> used b g = true -> used b1 g = true).
  { intros g Hg Hu. apply (claim_word_mono b w old newVal); [lia|done| |done|done].
    intros i Hi Ho. by rewrite Hbits, Ho by done. }
  assert (Hlen1 : Z.of_nat (length gs1) = Z.of_nat (length gs) + Z.of_nat (length bits))
    by (unfold gs1; rewrite length_app, length_fmap; lia).
  rewrite <- fmap_app. fold gs1.
  case_decide as Hdone.
  - eexists (with_lastSearchPos b1 _), gs1, 0, true. split; [done|].
    unfold scan_post. split_and!; try done; [by apply claimed_lastSearchPos|lia].
  - apply Hskip; try done; try lia.
    + unfold b1. cbn [bitmap with_bitmap]. apply length_insert.
    + intros g Hg Hgw. unfold b1. rewrite used_insert by lia. rewrite decide_True by done.
      rewrite Hlt by lia. change 4294967295 with (Z.ones 32). apply Z.ones_spec_low.
      apply Z.mod_pos_bound. lia.
Qed.

(** ** Appending a chunk *)
Section append.
Context (mk : Z -> option Chunk) `{!ChunkSource mk}.

Lemma tryAppendChunk_claimed b0 b gs :
  claimed b0 b gs ->
  match tryAppendChunk mk b with
  | (b', None) => claimed b0 b' gs /\ chunkCount b' = chunkCount b + 1
  | (b', Some e) => b' = b /\ (chunkCount b = MaxChunks \/ mk (chunkCount b) = None)
  end.
Proof using All.
  intros Hcl. destruct Hcl as [Hwf Hnd Hfree Hused (extra & Hch & Hap)].
  pose proof (bus_count _ Hwf) as Hc. unfold tryAppendChunk, ChunkCount.
  case_decide; [split; [done|left; lia]|].
  unfold tryAppendChunk_locked, ChunkCount. rewrite decide_False by lia.
  destruct (mk (chunkCount b)) as [c|] eqn:Hmk; [|by split; [|right]].
  assert (u32 (chunkCount b + 1) = chunkCount b + 1) as Hu
    by (apply u32_small; unfold_layout; lia).
  split; [|done].
  assert (Hsame : forall g, 0 <= g ->
    used (mkBus (lastSearchPos b) (u32 (chunkCount b + 1))
      (bitmap b ++ replicate (Z.to_nat (BlocksPerChunk / 32)) 0)
      (chunks b ++ [c]) (appended b ++ [c])) g = used b g).
  { intros g Hg. unfold used. cbn [bitmap].
    destruct (bitmap b !! Z.to_nat (g / 32)) as [x|] eqn:E.
    - by rewrite (lookup_app_l_Some _ _ _ _ E).
    - rewrite lookup_app_r by (by apply lookup_ge_None).
      destruct (replicate _ 0 !! _) as [x|] eqn:E2; [|done].
      apply lookup_replicate in E2 as [-> _]. apply Z.bits_0. }
  split.
  - split; cbn [chunkCount chunks bitmap].
    + rewrite Hu. unfold_layout. lia.
    + rewrite length_app, Hu. pose proof (bus_chunks _ Hwf). simpl. lia.
    + rewrite length_app, length_replicate, Hu. pose proof (bus_bitmap _ Hwf).
      change (Z.to_nat (BlocksPerChunk / 32)) with 32%nat. lia.
    + apply Forall_app. split; [apply Hwf|]. apply Forall_replicate. lia.
    + intros k c' Hk. apply lookup_app_Some in Hk as [Hk|[Hge Hk]].
      * by apply (bus_data _ Hwf).
      * apply list_lookup_singleton_Some in Hk as [Hk <-].
        rewrite (chunk_source _ _ Hmk). do 2 f_equal.
        pose proof (bus_chunks _ Hwf). lia.
  - done.
  - eapply Forall_impl; [exact Hfree|]. intros g [Hm Hf]. split; [|done].
    unfold managed in *. cbn [chunkCount]. rewrite Hu. unfold_layout. lia.
  - intros g Hg. rewrite Hsame by done. by apply Hused.
  - exists (extra ++ [c]). cbn [chunks appended]. rewrite Hch, Hap, !app_assoc. done.
Qed.
End append.

(** ** Releasing blocks *)
Lemma released_nil b : bus_wf b -> released b b [].
Proof.
  intros Hwf. split; try done. intros g Hg.
  rewrite bool_decide_eq_false_2 by set_solver. by rewrite andb_true_r.
Qed.

Lemma released_trans b1 b2 b3 gs1 gs2 :
  released b1 b2 gs1 -> released b2 b3 gs2 -> released b1 b3 (gs1 ++ gs2).
Proof.
  intros [Hw1 Hc1 [Hk1 Ha1] Hu1] [Hw2 Hc2 [Hk2 Ha2] Hu2]. split.
  - done.
  - congruence.
  - split; congruence.
  - intros g Hg. rewrite Hu2, Hu1, <- andb_assoc, <- negb_orb, <- bool_decide_or by done.
    do 2 f_equal. apply bool_decide_ext. by rewrite elem_of_app.
Qed.

Lemma FreeBlock_ok b chunkID blockIdx :
  bus_wf b -> managed b (GetBlockAddress chunkID blockIdx) ->
  exists b', FreeBlock b chunkID blockIdx = Ret b' /\
    released b b' [GetBlockAddress chunkID blockIdx].
Proof.
  intros Hwf. unfold FreeBlock. set (g := GetBlockAddress chunkID blockIdx).
  unfold managed. intros Hg. cbv zeta.
  pose proof (bus_bitmap _ Hwf) as Hbm.
  rewrite Z.quot_div_nonneg, Z.rem_mod_nonneg by lia.
  assert (0 <= g / 32 < Z.of_nat (length (bitmap b)) /\ 0 <= g mod 32 < 32) as [Hq Hm]
    by (unfold_layout; Z.div_mod_to_equations; lia).
  rewrite decide_False by lia.
  destruct (bus_wf_word b (g / 32) Hwf Hq) as (old & -> & Hold & Hor). go_bind.
  rewrite u64_small, decide_True by lia.
  eexists. split; [done|].
  assert (Hbit : forall i, 0 <= i < 32 ->
    Z.testbit (Z.land old (u32 (Z.lnot (Z.shiftl 1 (g mod 32))))) i =
    Z.testbit old i && negb (bool_decide (i = g mod 32))).
  { intros i Hi. rewrite Z.land_spec, testbit_u32, Z.lnot_spec by lia.
    by rewrite testbit_one_shift by lia. }
  split; [|done|done|].
  - apply bus_wf_insert; [done|]. apply uint32_of_bits.
    + intros i Hi. rewrite Z.land_spec, (testbit_high old) by lia. done.
    + apply Z.land_nonneg. lia.
  - intros h Hh. rewrite used_insert by done.
    pose proof (Z.div_mod h 32 ltac:(lia)). pose proof (Z.div_mod g 32 ltac:(lia)).
    case_decide as Hd.
    + rewrite Hbit by (apply Z.mod_pos_bound; lia).
      unfold used. rewrite Hd, Hold. do 2 f_equal. apply bool_decide_ext.
      rewrite list_elem_of_singleton. split; [lia|by intros ->].
    + rewrite bool_decide_eq_false_2; [by rewrite andb_true_r|].
      rewrite list_elem_of_singleton. by intros ->.
Qed.

Lemma blk_of_address g :
  0 <= g < 65536 -> GetBlockAddress (ChunkID (blk_of g)) (BlockIdx (blk_of g)) = g.
Proof.
  intros Hg. pose proof (GetBlockAddress_Parse g ltac:(lia)) as H.
  unfold blk_of. cbn [ChunkID BlockIdx]. by destruct (ParseBlockAddress g).
Qed.

Lemma managed_small b g : bus_wf b -> managed b g -> 0 <= g < 65536.
Proof. intros Hwf. pose proof (bus_count _ Hwf). unfold managed. unfold_layout. lia. Qed.

Lemma free_blocks_ok b gs :
  bus_wf b -> Forall (managed b) gs ->
  exists b', free_blocks b (blk_of <$> gs) = Ret b' /\ released b b' gs.
Proof.
  intros Hwf Hall. revert b Hwf Hall.
  induction gs as [|g gs IH]; intros b Hwf Hall.
  { exists b. split; [done|by apply released_nil]. }
  inversion Hall as [|? ? Hg Hgs]; subst.
  pose proof (blk_of_address g (managed_small _ _ Hwf Hg)) as Ha.
  rewrite fmap_cons. cbn [free_blocks].
  destruct (FreeBlock_ok b (ChunkID (blk_of g)) (BlockIdx (blk_of g)) Hwf) as (b1 & -> & Hr1);
    [by rewrite Ha|]. rewrite Ha in Hr1. go_bind.
  destruct (IH b1) as (b2 & -> & Hr2); [apply Hr1| |].
  { eapply Forall_impl; [done|]. intros h. unfold managed. by rewrite (rel_count _ _ _ Hr1). }
  exists b2. split; [done|]. by apply (released_trans b b1 b2 [g] gs).
Qed.

(** ** Allocation *)
(** Releasing what was claimed restores the original state. *)
Lemma released_claimed b0 b b' gs :
  claimed b0 b gs -> released b b' gs -> forall g, 0 <= g -> used b' g = used b0 g.
Proof.
  intros Hcl Hrel g Hg. rewrite (rel_used _ _ _ Hrel), (cl_used _ _ _ Hcl) by done.
  case_bool_decide as Hin; simpl.
  - rewrite orb_true_r. simpl. pose proof (cl_free _ _ _ Hcl) as Hf.
    rewrite Forall_forall in Hf. destruct (Hf g Hin) as [_ ->]. done.
  - by rewrite orb_false_r, andb_true_r.
Qed.

Lemma claimed_refl b : bus_wf b -> claimed b b [].
Proof.
  intros Hwf. split; try done.
  - constructor.
  - intros g Hg. rewrite bool_decide_eq_false_2 by set_solver. by rewrite orb_false_r.
  - exists []. by rewrite !app_nil_r.
Qed.

Section alloc.
Context (mk : Z -> option Chunk) `{!ChunkSource mk}.

Lemma alloc_loop_spec b0 fuel b gs remaining :
  claimed b0 b gs -> 0 < remaining -> MaxChunks - chunkCount b < Z.of_nat fuel ->
  exists b' r, alloc_loop fuel mk b (blk_of <$> gs) remaining = Ret (b', r) /\
    match r with
    | inr blks => exists gs', blks = blk_of <$> gs' /\ claimed b0 b' gs' /\
        Z.of_nat (length gs') = Z.of_nat (length gs) + remaining
    | inl _ => bus_wf b' /\ (forall g, 0 <= g -> used b' g = used b0 g) /\
        (chunkCount b' = MaxChunks \/ mk (chunkCount b') = None) /\
        exists extra, chunks b' = chunks b0 ++ extra /\ appended b' = appended b0 ++ extra
    end.
Proof using All.
  revert b gs remaining. induction fuel as [|fuel IH]; intros b gs remaining Hcl Hrem Hf.
  { pose proof (bus_count _ (cl_wf _ _ _ Hcl)). lia. }
  cbn [alloc_loop]. pose proof (bus_bitmap _ (cl_wf _ _ _ Hcl)) as Hbm.
  pose proof (bus_count _ (cl_wf _ _ _ Hcl)) as Hc.
  rewrite decide_False by lia.
  set (start := lastSearchPos b mod _).
  assert (0 <= start < Z.of_nat (length (bitmap b))) as Hstart
    by (apply Z.mod_pos_bound; lia).
  destruct (scan_words_spec b0 (length (bitmap b)) b gs (Z.of_nat (length (bitmap b)))
              start remaining Hcl) as (b1 & gs1 & rem1 & ret & -> & Hcl1 & Hc1 & Hsum & _ & Hret);
    [lia..|]. go_bind.
  destruct ret.
  { exists b1, (inr (blk_of <$> gs1)). split; [done|]. exists gs1. split_and!; [done..|lia]. }
  destruct Hret as [Hrem1 _].
  pose proof (tryAppendChunk_claimed mk b0 b1 gs1 Hcl1) as Happ.
  destruct (tryAppendChunk mk b1) as [b2 [e|]].
  - destruct Happ as [-> Hwhy].
    destruct (free_blocks_ok b1 gs1) as (b3 & -> & Hrel).
    { apply Hcl1. }
    { eapply Forall_impl; [apply Hcl1|]. naive_solver. }
    exists b3, (inl e). split; [done|]. split_and!.
    + apply Hrel.
    + by eapply released_claimed.
    + by rewrite (rel_count _ _ _ Hrel).
    + destruct (rel_chunks _ _ _ Hrel) as [-> ->]. apply Hcl1.
  - destruct Happ as [Hcl2 Hc2].
    destruct (IH b2 gs1 rem1 Hcl2 Hrem1) as (b' & r & -> & Hr); [lia|].
    exists b', r. split; [done|]. destruct r; [done|].
    destruct Hr as (gs' & ? & ? & ?). exists gs'. split_and!; [done..|lia].
Qed.

Lemma AllocBlocks_spec b count :
  bus_wf b -> 0 < count ->
  exists b' r, AllocBlocks mk b count = Ret (b', r) /\
    match r with
    | inr blks => exists gs, blks = blk_of <$> gs /\ claimed b b' gs /\
        Z.of_nat (length gs) = count
    | inl _ => bus_wf b' /\ (forall g, 0 <= g -> used b' g = used b g) /\
        (chunkCount b' = MaxChunks \/ mk (chunkCount b') = None) /\
        exists extra, chunks b' = chunks b ++ extra /\ appended b' = appended b ++ extra
    end.
Proof using All.
  intros Hwf Hc. unfold AllocBlocks, go_make_check. rewrite decide_False by lia. go_bind.
  pose proof (bus_count _ Hwf).
  destruct (alloc_loop_spec b (Z.to_nat MaxChunks + 1) b [] count (claimed_refl b Hwf) Hc)
    as (b' & r & E & Hr); [unfold_layout; lia|].
  exists b', r. split; [done|]. destruct r; [done|].
  destruct Hr as (gs & ? & ? & Hl). exists gs. split_and!; [done..|]. simpl in Hl. lia.
Qed.
End alloc.

(** ** Enough free blocks *)
Lemma elem_of_free_list b g : g ∈ free_list b <-> managed b g /\ used b g = false.
Proof.
  unfold free_list, managed. rewrite list_elem_of_filter, elem_of_seqZ. split; [|]; intros; split; (tauto || lia).
Qed.

(** A scan of all words that does not return has used up every block. *)
Lemma scan_exhausts b0 b1 gs1 numWords start rem1 :
  bus_wf b1 -> numWords = Z.of_nat (length (bitmap b1)) -> 0 <= start < numWords ->
  (forall g, 0 <= g -> (exists i, numWords - numWords <= i < numWords /\
     g / 32 = (start + i) mod numWords) -> used b1 g = true) ->
  claimed b0 b1 gs1 -> chunkCount b1 = chunkCount b0 ->
  Z.of_nat (length gs1) + rem1 <= Z.of_nat (length (free_list b0)) -> rem1 <= 0.
Proof.
  intros Hwf Hnw Hstart Hall Hcl Hc Hlen.
  assert (length (free_list b0) <= length gs1)%nat; [|lia].
  apply submseteq_length, NoDup_submseteq.
  { apply NoDup_filter, NoDup_seqZ. }
  intros g [Hg Hfree]%elem_of_free_list.
  assert (used b1 g = true) as Hu.
  { pose proof (bus_bitmap _ Hwf). unfold managed in Hg.
    apply Hall; [lia|]. exists ((g / 32 - start) mod numWords).
    assert (0 <= g / 32 < numWords) by (unfold_layout; Z.div_mod_to_equations; lia).
    pose proof (Z.mod_pos_bound (g / 32 - start) numWords ltac:(lia)).
    split; [lia|]. rewrite Zplus_mod_idemp_r.
    replace (start + (g / 32 - start)) with (g / 32) by lia.
    symmetry. apply Z.mod_small. lia. }
  rewrite (cl_used _ _ _ Hcl), Hfree in Hu by (unfold managed in Hg; lia).
  simpl in Hu. by apply bool_decide_eq_true in Hu.
Qed.

Lemma AllocBlocks_enough mk b count :
  bus_wf b -> 0 < count <= Z.of_nat (length (free_list b)) ->
  exists b' gs, AllocBlocks mk b count = Ret (b', inr (blk_of <$> gs)) /\
    claimed b b' gs /\ Z.of_nat (length gs) = count /\ chunkCount b' = chunkCount b.
Proof.
  intros Hwf Hc. unfold AllocBlocks, go_make_check. rewrite decide_False by lia. go_bind.
  replace (Z.to_nat MaxChunks + 1)%nat with (S (Z.to_nat MaxChunks)) by lia.
  cbn [alloc_loop]. pose proof (bus_bitmap _ Hwf). pose proof (bus_count _ Hwf).
  rewrite decide_False by lia. cbv zeta.
  assert (0 <= lastSearchPos b mod Z.of_nat (length (bitmap b)) < Z.of_nat (length (bitmap b)))
    as Hstart by (apply Z.mod_pos_bound; lia).
  destruct (scan_words_spec b (length (bitmap b)) b [] (Z.of_nat (length (bitmap b)))
              _ count (claimed_refl b Hwf) eq_refl Hstart)
    as (b1 & gs1 & rem1 & ret & E & Hcl1 & Hc1 & Hsum & _ & Hret); [lia..|].
  simpl in E. rewrite E. go_bind. simpl in Hsum. destruct ret.
  { exists b1, gs1. split_and!; [done|done|lia|done]. }
  exfalso. destruct Hret as [Hpos Hall].
  assert (Hb1 : Z.of_nat (length (bitmap b)) = Z.of_nat (length (bitmap b1)))
    by (pose proof (bus_bitmap _ (cl_wf _ _ _ Hcl1)); lia).
  assert (rem1 <= 0); [|lia].
  eapply (scan_exhausts b b1 gs1 (Z.of_nat (length (bitmap b)))); eauto; [apply Hcl1|lia].
Qed.

(** An allocation that fails found too few free blocks. *)
Lemma AllocBlocks_short mk b count b' e :
  bus_wf b -> 0 < count -> AllocBlocks mk b count = Ret (b', inl e) ->
  Z.of_nat (length (free_list b)) < count.
Proof.
  intros Hwf Hc E. destruct (decide (count <= Z.of_nat (length (free_list b)))) as [Hle|]; [|lia].
  destruct (AllocBlocks_enough mk b count Hwf ltac:(lia)) as (b1 & gs & E1 & _). congruence.
Qed.

Lemma AllocStripe_short mk m b n m' b' e :
  bus_wf b -> 0 < n -> AllocStripe mk m b n = Ret (m', b', inl e) ->
  Z.of_nat (length (free_list b)) < n.
Proof.
  intros Hwf Hn E. unfold AllocStripe in E. apply bind_ret_inv in E as ([b1 [e1|blks]] & E1 & E).
  - by eapply AllocBlocks_short.
  - by apply bind_ret_inv in E as (m1 & _ & E).
Qed.

Lemma AllocBlocksForStripe_short mk m b s n m' b' s' e :
  bus_wf b -> 0 < n -> AllocBlocksForStripe mk m b s n = Ret (m', b', s', Some e) ->
  Z.of_nat (length (free_list b)) < n.
Proof.
  intros Hwf Hn E. unfold AllocBlocksForStripe in E. apply bind_ret_inv in E as ([b1 [e1|blks]] & E1 & E).
  - by eapply AllocBlocks_short.
  - by apply bind_ret_inv in E as (m1 & _ & E).
Qed.

(** ** Sequences *)
Lemma encode_seq_roundtrip c blks :
  Forall (fun blk => ChunkID blk < 0 /\ 0 <= BlockIdx blk) blks ->
  seq_blocks c (encode_seq c blks) = (fun blk => (ChunkID blk, BlockIdx blk)) <$> blks.
Proof.
  intros Hall. revert c. induction Hall as [|blk blks [Hc Hi] _ IH]; intros c; [done|].
  cbn [encode_seq]. rewrite fmap_cons. case_decide as Hd.
  - cbn [seq_blocks]. rewrite decide_True, decide_False by lia. by rewrite IH.
  - cbn [seq_blocks]. rewrite decide_False by lia. rewrite IH.
    destruct (decide (ChunkID blk = c)) as [->|]; [done|]. done.
Qed.

Lemma length_encode_seq c blks : (length (encode_seq c blks) <= 2 * length blks)%nat.
Proof.
  revert c. induction blks as [|blk blks IH]; intros c; simpl; [lia|].
  case_decide; simpl; [pose proof (IH (ChunkID blk))|pose proof (IH c)]; lia.
Qed.

Lemma encode_seq_int16 c blks :
  Forall (fun blk => is_int16 (ChunkID blk) /\ is_int16 (BlockIdx blk)) blks ->
  Forall is_int16 (encode_seq c blks).
Proof.
  intros H. revert c. induction H as [|blk blks [? ?] _ IH]; intros c; simpl; [constructor|].
  case_decide; repeat constructor; auto; unfold is_int16 in *; lia.
Qed.

(** The chunk a sequence leaves current. *)
Lemma seq_blocks_app c s1 s2 :
  seq_blocks c (s1 ++ s2) =
  seq_blocks c s1 ++
  seq_blocks (default c (head (filter (fun v => v < 0) (reverse s1)))) s2.
Proof.
  revert c. induction s1 as [|v s1 IH]; intros c; [done|].
  cbn [seq_blocks app]. rewrite reverse_cons, filter_app.
  assert (forall l : list Z, head (l ++ filter (fun v => v < 0) [v]) =
    match head l with Some x => Some x | None => head (filter (fun v => v < 0) [v]) end) as Hh
    by (intros [|x l]; done).
  rewrite Hh. case_decide as Hv.
  - rewrite IH. rewrite filter_cons_True by done. simpl.
    destruct (head (filter (fun v => v < 0) (reverse s1))); done.
  - rewrite IH. rewrite filter_cons_False by done. simpl.
    destruct (head (filter (fun v => v < 0) (reverse s1))); done.
Qed.

Lemma free_seq_blocks b c seq :
  free_seq b c seq = free_pairs b (seq_blocks c seq).
Proof.
  revert b c. induction seq as [|v seq IH]; intros b c; [done|].
  cbn [free_seq seq_blocks]. case_decide; [apply IH|]. cbn [free_pairs].
  destruct (FreeBlock b c v); go_bind; [apply IH|done|done].
Qed.

Lemma blk_of_bounds g :
  0 <= g < 65536 ->
  -64 <= ChunkID (blk_of g) < 0 /\ 0 <= BlockIdx (blk_of g) < 1024.
Proof.
  intros Hg. unfold blk_of, ParseBlockAddress, go_not. cbn [ChunkID BlockIdx fst snd].
  unfold_layout.
  assert (0 <= g / 1024 < 64 /\ 0 <= g mod 1024 < 1024) by (Z.div_mod_to_equations; lia).
  rewrite !i16_small by lia. lia.
Qed.

(** Freeing by a sequence releases the blocks it denotes. *)
Lemma free_seq_released b gs c seq :
  bus_wf b -> Forall (managed b) gs -> seq_blocks c seq = ParseBlockAddress <$> gs ->
  exists b', free_seq b c seq = Ret b' /\ released b b' gs.
Proof.
  intros Hwf Hall Hseq. rewrite free_seq_blocks, Hseq. clear Hseq seq c.
  destruct (free_blocks_ok b gs Hwf Hall) as (b' & E & Hr). exists b'. split; [|done].
  rewrite <- E. clear. revert b. induction gs as [|g gs IH]; intros b; [done|].
  rewrite !fmap_cons. cbn [free_blocks free_pairs].
  change (ChunkID (blk_of g)) with (ParseBlockAddress g).1.
  change (BlockIdx (blk_of g)) with (ParseBlockAddress g).2.
  destruct (ParseBlockAddress g) as [c i]. cbn [fst snd].
  destruct (FreeBlock b c i); go_bind; [apply IH|done|done].
Qed.

(** ** Stripes made of claimed blocks *)
Lemma blocks_wf_of_gs gs :
  NoDup gs -> gs <> [] -> Forall (fun g => 0 <= g < 65536) gs ->
  blocks_wf (blk_slice <$> gs).
Proof.
  intros Hnd Hne Hall. split.
  - apply Forall_fmap, Forall_true. done.
  - intros i j x y Hx Hy Hij. rewrite !list_lookup_fmap in Hx, Hy.
    destruct (gs !! i) as [g|] eqn:Hg, (gs !! j) as [h|] eqn:Hh; simplify_eq/=.
    assert (g <> h) by (intros ->; apply Hij; eapply NoDup_lookup; eauto).
    unfold_layout. lia.
  - rewrite length_fmap. destruct gs; [done|simpl; lia].
  - rewrite length_fmap.
    assert (length gs <= length (seqZ 0 65536))%nat as Hl.
    { apply submseteq_length, NoDup_submseteq; [done|]. intros g Hg.
      rewrite Forall_forall in Hall. apply elem_of_seqZ. specialize (Hall g Hg). lia. }
    rewrite length_seqZ in Hl. unfold_layout. lia.
Qed.

Lemma stripe_backed_wf b s gs : bus_wf b -> stripe_backed b s gs -> stripe_wf s.
Proof.
  intros Hwf [Hnd Hne Hu Hs Hi Hb Hc Hl]. split; [|done]. rewrite Hb.
  apply blocks_wf_of_gs; [done|done|]. eapply Forall_impl; [exact Hu|].
  intros g [Hg _]. by eapply managed_small.
Qed.

Lemma claimed_stripe b0 b gs :
  claimed b0 b gs -> Forall (fun g => managed b g /\ used b g = true) gs.
Proof.
  intros Hcl. apply Forall_forall. intros g Hg. pose proof (cl_free _ _ _ Hcl) as Hf.
  rewrite Forall_forall in Hf. destruct (Hf g Hg) as [Hm _]. split; [done|].
  rewrite (cl_used _ _ _ Hcl) by (unfold managed in Hm; lia).
  by rewrite bool_decide_eq_true_2, orb_true_r.
Qed.

Lemma claimed_mono b0 b gs hs :
  claimed b0 b gs -> Forall (fun g => managed b0 g /\ used b0 g = true) hs ->
  chunkCount b0 <= chunkCount b ->
  Forall (fun g => managed b g /\ used b g = true) hs.
Proof.
  intros Hcl Hhs Hc. eapply Forall_impl; [exact Hhs|]. intros h [Hm Hu].
  unfold managed in *. split; [unfold_layout; lia|].
  rewrite (cl_used _ _ _ Hcl), Hu by lia. done.
Qed.

Lemma claimed_chunkCount b0 b gs :
  bus_wf b0 -> claimed b0 b gs -> chunkCount b0 <= chunkCount b.
Proof.
  intros Hwf Hcl. destruct (cl_chunks _ _ _ Hcl) as (extra & Hch & _).
  pose proof (bus_chunks _ Hwf). pose proof (bus_chunks _ (cl_wf _ _ _ Hcl)) as H1.
  rewrite Hch, length_app in H1. lia.
Qed.

Lemma blk_of_data (gs : list Z) : BlkData <$> (blk_of <$> gs) = blk_slice <$> gs.
Proof. rewrite <- list_fmap_compose. done. Qed.

Lemma blk_of_pairs (gs : list Z) :
  (fun blk => (ChunkID blk, BlockIdx blk)) <$> (blk_of <$> gs) = ParseBlockAddress <$> gs.
Proof.
  rewrite <- list_fmap_compose. apply list_fmap_ext. intros i g _.
  unfold compose, blk_of. cbn [ChunkID BlockIdx]. symmetry. apply surjective_pairing.
Qed.

(** The sequence written for claimed blocks denotes them. *)
Lemma encode_claimed c gs :
  Forall (fun g => 0 <= g < 65536) gs ->
  seq_blocks c (encode_seq c (blk_of <$> gs)) = ParseBlockAddress <$> gs /\
  Forall is_int16 (encode_seq c (blk_of <$> gs)).
Proof.
  intros Hall. split.
  - rewrite encode_seq_roundtrip; [apply blk_of_pairs|].
    apply Forall_fmap. eapply Forall_impl; [exact Hall|]. intros g Hg.
    pose proof (blk_of_bounds g Hg). unfold compose. lia.
  - apply encode_seq_int16. apply Forall_fmap. eapply Forall_impl; [exact Hall|].
    intros g Hg. pose proof (blk_of_bounds g Hg). unfold is_int16, compose. lia.
Qed.

(** A header update on a well-formed stripe succeeds, syncs the length word
    and touches only the header block. *)
Lemma UpdateStripeHeader_ok m s :
  stripe_wf s ->
  exists m' hd, UpdateStripeHeader m s = Ret m' /\ Blocks s !! 0%nat = Some hd /\
    sl_len hd = BlockSize /\ header_synced m' s /\
    mem_frame (fun a => sl_base hd <= a < sl_base hd + BlockSize) m m'.
Proof.
  intros [Hwf Hlen]. destruct (header_block s Hwf) as (hd & Hhd & Lhd).
  pose proof (UpdateStripeHeader_bytes m s hd Hhd Lhd) as E.
  eexists _, hd. split_and!; [exact E|done|done| |].
  - exists hd. split; [done|].
    pose proof (bwf_cap _ Hwf). unfold data_cap in Hlen.
    pose proof (load_le_mid m (sl_base hd) [] (le_bytes 4 (DataLen s))
      (le_bytes 2 (u16 (BlockCount s)) ++
       le_bytes 2 (u16 (Z.of_nat (length (Sequence s)))) ++
       seq_bytes (take max_seq (Sequence s))) 4 (length_le_bytes _ _)) as HL.
    rewrite app_nil_l in HL. change (Z.of_nat (length [])) with 0 in HL.
    rewrite Z.add_0_r in HL. unfold header_bytes. rewrite HL.
    apply le_val_bytes. simpl. unfold_layout. lia.
  - by apply (UpdateStripeHeader_frame m _ s hd).
Qed.

(** The stripe [AllocStripe] builds on claimed blocks. *)
Lemma claimed_new_stripe b b' gs n :
  claimed b b' gs -> Z.of_nat (length gs) = n -> 0 < n ->
  stripe_backed b' (mkStripe (encode_seq 0 (blk_of <$> gs)) n (BlkData <$> (blk_of <$> gs)) 0) gs.
Proof.
  intros Hcl Hlen Hn. pose proof (claimed_stripe _ _ _ Hcl) as Hu.
  assert (Hsm : Forall (fun g => 0 <= g < 65536) gs).
  { eapply Forall_impl; [exact Hu|]. intros g [Hg _]. eapply managed_small; [|done]. apply Hcl. }
  destruct (encode_claimed 0 gs Hsm) as [Hsq Hi16].
  split; try done; cbn [Sequence Blocks BlockCount DataLen].
  - apply Hcl.
  - intros ->. simpl in Hlen. lia.
  - apply blk_of_data.
  - unfold data_cap. cbn [Blocks]. rewrite !length_fmap. unfold_layout. lia.
Qed.

Section stripes.
Context (mk : Z -> option Chunk) `{!ChunkSource mk}.

Lemma AllocStripe_spec m b n :
  bus_wf b -> 0 < n ->
  exists m' b' r, AllocStripe mk m b n = Ret (m', b', r) /\ bus_wf b' /\
    match r with
    | inr s => exists gs, claimed b b' gs /\ Z.of_nat (length gs) = n /\
        stripe_backed b' s gs /\ DataLen s = 0 /\ header_synced m' s /\
        mem_frame (in_blocks s) m m' /\
        Sequence s = encode_seq 0 (blk_of <$> gs)
    | inl _ => m' = m /\ forall g, 0 <= g -> used b' g = used b g
    end.
Proof using All.
  intros Hwf Hn. destruct (AllocBlocks_spec mk b n Hwf Hn) as (b' & r & E & Hr).
  unfold AllocStripe. rewrite E. go_bind. destruct r as [e|blks].
  { exists m, b', (inl e). split_and!; try done; apply Hr. }
  destruct Hr as (gs & -> & Hcl & Hlen).
  set (s := mkStripe _ _ _ _).
  pose proof (claimed_new_stripe b b' gs n Hcl Hlen ltac:(lia)) as Hback. fold s in Hback.
  pose proof (stripe_backed_wf _ _ _ (cl_wf _ _ _ Hcl) Hback) as Hswf.
  destruct (UpdateStripeHeader_ok m s Hswf) as (m' & hd & -> & Hhd & Lhd & Hsync & Hfr).
  go_bind. exists m', b', (inr s). split_and!; [done|apply Hcl|].
  exists gs. split_and!; try done.
  intros a Ha. apply Hfr. intros Hin. apply Ha, Exists_exists. exists hd.
  split; [by eapply list_elem_of_lookup_2|]. by rewrite Lhd.
Qed.

(** Extending a stripe keeps its blocks in place. *)
Lemma extend_stripe_backed b b' s gs gs' :
  bus_wf b -> stripe_backed b s gs -> claimed b b' gs' ->
  stripe_backed b' (extend_stripe s (blk_of <$> gs')) (gs ++ gs').
Proof using Type.
  intros Hwf [Hnd Hne Hu Hs Hi Hb Hc Hl] Hcl.
  pose proof (claimed_stripe _ _ _ Hcl) as Hu'.
  assert (Hsm : Forall (fun g => 0 <= g < 65536) gs').
  { eapply Forall_impl; [exact Hu'|]. intros g [Hg _]. eapply managed_small; [|done]. apply Hcl. }
  destruct (encode_claimed (last_chunk (Sequence s)) gs' Hsm) as [Hsq Hi16].
  split; cbn [extend_stripe Sequence BlockCount Blocks DataLen].
  - apply NoDup_app. split_and!; [done| |apply Hcl]. intros g Hg Hg'.
    pose proof (cl_free _ _ _ Hcl) as Hf. rewrite Forall_forall in Hu, Hf.
    destruct (Hu g Hg) as [_ H1], (Hf g Hg') as [_ H2]. congruence.
  - by destruct gs.
  - apply Forall_app. split; [|done].
    eapply claimed_mono; eauto using claimed_chunkCount.
  - rewrite seq_blocks_app, fmap_app, <- Hsq. by rewrite Hs.
  - by apply Forall_app.
  - by rewrite Hb, blk_of_data, fmap_app.
  - rewrite Hc, length_fmap, length_app. lia.
  - unfold data_cap in *. cbn [extend_stripe Blocks].
    rewrite length_app. unfold_layout. lia.
Qed.

Lemma extend_data_addr s blks i :
  0 <= i < data_cap s -> data_addr (extend_stripe s blks) i = data_addr s i.
Proof using Type.
  intros Hi. unfold data_addr. cbn [extend_stripe Blocks].
  rewrite lookup_app_l; [done|]. unfold data_cap in Hi. unfold_layout.
  Z.div_mod_to_equations. lia.
Qed.

Lemma AllocBlocksForStripe_spec m b s gs n :
  bus_wf b -> stripe_backed b s gs -> 0 < n ->
  exists m' b' s' e, AllocBlocksForStripe mk m b s n = Ret (m', b', s', e) /\ bus_wf b' /\
    match e with
    | None => exists gs', claimed b b' gs' /\ Z.of_nat (length gs') = n /\
        stripe_backed b' s' (gs ++ gs') /\ header_synced m' s' /\
        data_cap s' = data_cap s + n * BlockSize /\ DataLen s' = DataLen s /\
        data_bytes m' s' 0 (data_cap s) = stripe_area m s /\
        s' = extend_stripe s (blk_of <$> gs') /\
        mem_frame (fun a => exists hd, Blocks s !! 0%nat = Some hd /\
                     sl_base hd <= a < sl_base hd + BlockSize) m m'
    | Some _ => m' = m /\ s' = s /\ forall g, 0 <= g -> used b' g = used b g
    end.
Proof using All.
  intros Hwf Hback Hn. destruct (AllocBlocks_spec mk b n Hwf Hn) as (b' & r & E & Hr).
  unfold AllocBlocksForStripe. rewrite E. go_bind. destruct r as [e|blks].
  { exists m, b', s, (Some e). split_and!; try done; apply Hr. }
  destruct Hr as (gs' & -> & Hcl & Hlen).
  pose proof (extend_stripe_backed b b' s gs gs' Hwf Hback Hcl) as Hback'.
  pose proof (stripe_backed_wf _ _ _ (cl_wf _ _ _ Hcl) Hback') as Hswf.
  set (s' := extend_stripe s (blk_of <$> gs')) in *.
  destruct (UpdateStripeHeader_ok m s' Hswf) as (m' & hd & -> & Hhd & Lhd & Hsync & Hfr).
  go_bind. exists m', b', s', None. split_and!; [done|apply Hcl|].
  assert (Hhd0 : Blocks s !! 0%nat = Some hd).
  { pose proof (sb_nonempty _ _ _ Hback). unfold s' in Hhd. cbn [extend_stripe Blocks] in Hhd.
    rewrite lookup_app_l in Hhd; [done|]. rewrite (sb_blocks _ _ _ Hback), length_fmap.
    destruct gs; [done|simpl; lia]. }
  assert (Hcap : data_cap s' = data_cap s + n * BlockSize).
  { unfold data_cap, s'. cbn [extend_stripe Blocks].
    rewrite length_app, !length_fmap. unfold_layout. lia. }
  exists gs'. split_and!; try done.
  - unfold stripe_area, data_bytes. apply list_fmap_ext. intros k i Hk.
    apply lookup_seqZ in Hk as [-> Hk]. unfold data_byte.
    rewrite <- (extend_data_addr s (blk_of <$> gs')) by lia. fold s'.
    apply Hfr. intros Hin.
    pose proof (data_addr_not_header s' (swf_blocks _ Hswf) hd (0 + Z.of_nat k) Hhd) as Hd.
    unfold_layout. lia.
  - intros a Ha. apply Hfr. intros Hin. apply Ha. by exists hd.
Qed.
End stripes.

(** ** Properties *)

(** A system on which every memfd can be created, and a fresh bus. *)
Definition demo_mk (k : Z) : option Chunk :=
  Some (mkChunk (Slice (k * ChunkSize) ChunkSize) (k + 10)).

#[export] Instance demo_mk_source : ChunkSource demo_mk.
Proof. intros k c H. unfold demo_mk in H. by simplify_eq. Qed.

Definition demo_bus : Bus :=
  mkBus 0 1 (replicate 32 0) [mkChunk (Slice 0 ChunkSize) 10] [].

Lemma NewBus_wf c :
  CData c = Slice 0 ChunkSize ->
  exists b, NewBus (Some c) true = inr b /\ bus_wf b /\ forall g, used b g = false.
Proof.
  intros Hc. eexists. split; [done|]. split; [split|].
  - cbn. unfold_layout. lia.
  - done.
  - done.
  - apply Forall_replicate. lia.
  - intros [|k] c' Hk; simpl in Hk; [by simplify_eq|done].
  - intros g. unfold used. cbn [bitmap].
    destruct (replicate _ 0 !! _) as [x|] eqn:E; [|done].
    apply lookup_replicate in E as [-> _]. apply Z.bits_0.
Qed.

Lemma demo_bus_wf : bus_wf demo_bus.
Proof.
  destruct (NewBus_wf (mkChunk (Slice 0 ChunkSize) 10) eq_refl) as (b & E & Hwf & _).
  vm_compute in E. simplify_eq. exact Hwf.
Qed.

(** C21: [AllocBlocks] with a positive count always returns.  On success it
    hands out exactly [count] distinct blocks, each with its own 4KB of the
    mapped chunks, that were all free before and are marked used now, and
    leaves the state of every other block alone (so no block is ever handed
    out twice).  On failure the bitmap is as before, and the failure is due
    to the chunk limit or to the system. *)
Theorem AllocBlocks_exclusive mk b count :
  ChunkSource mk -> bus_wf b -> 0 < count ->
  exists b' r, AllocBlocks mk b count = Ret (b', r) /\ bus_wf b' /\
    match r with
    | inr blks => exists gs, blks = blk_of <$> gs /\ Z.of_nat (length gs) = count /\
        NoDup gs /\ Forall (fun g => managed b' g /\ used b g = false) gs /\
        forall g, 0 <= g -> used b' g = used b g || bool_decide (g ∈ gs)
    | inl _ => (forall g, 0 <= g -> used b' g = used b g) /\
        (chunkCount b' = MaxChunks \/ mk (chunkCount b') = None)
    end.
Proof.
  intros Hmk Hwf Hc. destruct (AllocBlocks_spec mk b count Hwf Hc) as (b' & r & E & Hr).
  exists b', r. split; [done|]. destruct r as [e|blks].
  - destruct Hr as (Hwf' & Hu & Hwhy & _). done.
  - destruct Hr as (gs & -> & Hcl & Hl). split; [apply Hcl|].
    exists gs. split_and!; try done; apply Hcl.
Qed.

Lemma AllocBlocks_exclusive_witness :
  exists b' r, AllocBlocks demo_mk demo_bus 40 = Ret (b', inr r) /\ bus_wf b' /\
    length r = 40%nat.
Proof.
  destruct (AllocBlocks_exclusive demo_mk demo_bus 40 demo_mk_source demo_bus_wf ltac:(lia))
    as (b' & [e|blks] & E & Hwf & Hr).
  - exfalso. vm_compute in E. discriminate.
  - exists b', blks. split; [exact E|]. split; [exact Hwf|].
    destruct Hr as (gs & -> & Hl & _). rewrite length_fmap. lia.
Defined.

(** C28: no spurious failure or growth: if the bus has at least [count] free
    blocks, [AllocBlocks] succeeds, whatever the search position, without
    appending a chunk. *)
Theorem AllocBlocks_complete mk b count :
  bus_wf b -> 0 < count <= Z.of_nat (length (free_list b)) ->
  exists b' blks, AllocBlocks mk b count = Ret (b', inr blks) /\
    Z.of_nat (length blks) = count /\ chunkCount b' = chunkCount b.
Proof.
  intros Hwf Hc. destruct (AllocBlocks_enough mk b count Hwf Hc) as (b' & gs & E & _ & Hl & Hcc).
  exists b', (blk_of <$> gs). split_and!; [done| |done]. by rewrite length_fmap.
Qed.

Lemma AllocBlocks_complete_witness :
  exists b' blks, AllocBlocks (fun _ => None) demo_bus 1024 = Ret (b', inr blks) /\
    Z.of_nat (length blks) = 1024 /\ chunkCount b' = 1.
Proof.
  apply (AllocBlocks_complete (fun _ => None) demo_bus 1024 demo_bus_wf).
  vm_compute. split; [reflexivity|discriminate].
Defined.

Lemma alloc_loop_zero mk fuel b :
  (forall k, is_Some (mk k)) -> 1 <= chunkCount b <= MaxChunks ->
  0 < Z.of_nat (length (bitmap b)) ->
  MaxChunks - chunkCount b < Z.of_nat fuel ->
  exists b', alloc_loop fuel mk b [] 0 = Ret (b', inl ErrAlloc) /\ chunkCount b' = MaxChunks.
Proof.
  intros Hmk. revert b. induction fuel as [|fuel IH]; intros b Hc Hb Hf; [lia|].
  cbn [alloc_loop]. rewrite decide_False by lia.
  destruct (length (bitmap b)) as [|left] eqn:El; [lia|].
  cbn [scan_words]. rewrite decide_False by lia. go_bind.
  unfold tryAppendChunk, ChunkCount. case_decide as Hmax.
  { exists b. split; [done|lia]. }
  unfold tryAppendChunk_locked, ChunkCount. rewrite decide_False by lia.
  destruct (Hmk (chunkCount b)) as [c ->]. cbn [free_blocks].
  assert (u32 (chunkCount b + 1) = chunkCount b + 1) as Hu
    by (apply u32_small; unfold_layout; lia).
  apply IH; cbn [chunkCount bitmap]; rewrite ?Hu, ?length_app; lia.
Qed.

(** a request for zero blocks never succeeds: the loop returns only
    from inside the search, which zero remaining blocks never enter, so
    [AllocBlocks(0)] maps chunks until [MaxChunks] and then fails. *)
Theorem AllocBlocks_zero_exhausts mk b :
  bus_wf b -> (forall k, is_Some (mk k)) ->
  exists b', AllocBlocks mk b 0 = Ret (b', inl ErrAlloc) /\ chunkCount b' = MaxChunks.
Proof.
  intros Hwf Hmk. pose proof (bus_count _ Hwf). pose proof (bus_bitmap _ Hwf).
  unfold AllocBlocks, go_make_check. rewrite decide_False by lia. go_bind.
  apply alloc_loop_zero; [done|lia|lia|unfold_layout; lia].
Qed.

Lemma AllocBlocks_zero_exhausts_witness :
  exists b', AllocBlocks demo_mk demo_bus 0 = Ret (b', inl ErrAlloc) /\ chunkCount b' = 64.
Proof.
  apply (AllocBlocks_zero_exhausts demo_mk demo_bus demo_bus_wf).
  intros k. eexists. reflexivity.
Defined.

(** [AllocStripe] yields a well-formed, empty stripe made of exactly the
    blocks it claimed, changes memory only inside them, and, for stripes of
    at most 1022 blocks, leaves a header block that any process parses back
    to the stripe's length, block count and sequence. *)
Theorem AllocStripe_correct mk m b n :
  ChunkSource mk -> bus_wf b -> 0 < n <= 1022 ->
  exists m' b' r, AllocStripe mk m b n = Ret (m', b', r) /\ bus_wf b' /\
    match r with
    | inl _ => m' = m /\ forall g, 0 <= g -> used b' g = used b g
    | inr s => exists gs hd, claimed b b' gs /\ Z.of_nat (length gs) = n /\
        stripe_backed b' s gs /\ stripe_wf s /\ DataLen s = 0 /\
        mem_frame (in_blocks s) m m' /\ Blocks s !! 0%nat = Some hd /\
        DecodeHeader m' hd = Ret (0, n, Sequence s)
    end.
Proof.
  intros Hmk Hwf Hn. destruct (AllocStripe_spec mk m b n Hwf ltac:(lia))
    as (m' & b' & r & E & Hwf' & Hr).
  exists m', b', r. split_and!; [done..|]. destruct r as [e|s]; [done|].
  destruct Hr as (gs & Hcl & Hl & Hback & HD & Hsync & Hfr & Hsq).
  pose proof (stripe_backed_wf _ _ _ Hwf' Hback) as Hswf.
  destruct (header_block s (swf_blocks _ Hswf)) as (hd & Hhd & Lhd).
  exists gs, hd. split_and!; try done.
  (* the header update is the last step of AllocStripe *)
  unfold AllocStripe in E. destruct (AllocBlocks mk b n) as [[b1 [e|blks]]| |]; go_bind;
    [discriminate| |discriminate|discriminate].
  cbn [mbind outcome_bind] in E. set (s0 := mkStripe _ _ _ _) in E.
  destruct (UpdateStripeHeader m s0) as [m0| |] eqn:EU; try discriminate.
  cbn [mbind outcome_bind] in E. injection E as -> -> <-.
  pose proof max_seq_Z. pose proof (length_encode_seq 0 (blk_of <$> gs)) as Hle.
  rewrite length_fmap, <- Hsq in Hle.
  pose proof (decode_update m s0 hd Hhd Lhd ltac:(rewrite HD; lia)
    ltac:(simpl; lia) ltac:(lia) (sb_int16 _ _ _ Hback)) as D.
  rewrite EU in D. cbn [mbind outcome_bind] in D. rewrite D, take_ge by lia.
  replace (_ - _)%nat with 0%nat by lia. by rewrite app_nil_r.
Qed.

Lemma AllocStripe_correct_witness :
  exists m' b' s, AllocStripe demo_mk ∅ demo_bus 3 = Ret (m', b', inr s) /\
    stripe_wf s /\ Sequence s = [-1; 0; 1; 2].
Proof.
  destruct (AllocStripe_correct demo_mk ∅ demo_bus 3 demo_mk_source demo_bus_wf ltac:(lia))
    as (m' & b' & [e|s] & E & Hwf & Hr).
  - exfalso. vm_compute in E. discriminate.
  - exists m', b', s. split; [exact E|]. destruct Hr as (gs & hd & _ & _ & _ & Hs & _).
    split; [exact Hs|]. vm_compute in E. injection E as _ _ <-. reflexivity.
Defined.

(** allocating a stripe and freeing it leaves every block as it was. *)
Theorem AllocStripe_FreeStripe_roundtrip mk m b n m' b' s :
  ChunkSource mk -> bus_wf b -> 0 < n ->
  AllocStripe mk m b n = Ret (m', b', inr s) ->
  exists b'', FreeStripe b' s = Ret b'' /\ bus_wf b'' /\
    forall g, 0 <= g -> used b'' g = used b g.
Proof.
  intros Hmk Hwf Hn E. destruct (AllocStripe_spec mk m b n Hwf Hn)
    as (m1 & b1 & r & E1 & Hwf' & Hr).
  rewrite E in E1. injection E1 as <- <- <-.
  destruct Hr as (gs & Hcl & _ & Hback & _).
  destruct (free_seq_released b' gs 0 (Sequence s)) as (b'' & EF & Hrel); [done| | |].
  { eapply Forall_impl; [apply Hback|]. naive_solver. }
  { apply Hback. }
  exists b''. split_and!; [done|apply Hrel|]. by eapply released_claimed.
Qed.

Lemma AllocStripe_FreeStripe_roundtrip_witness :
  exists m' b' s b'', AllocStripe demo_mk ∅ demo_bus 5 = Ret (m', b', inr s) /\
    FreeStripe b' s = Ret b'' /\ forall g, 0 <= g -> used b'' g = used demo_bus g.
Proof.
  destruct (AllocStripe demo_mk ∅ demo_bus 5) as [[[m' b'] [e|s]]| |] eqn:E;
    [exfalso; vm_compute in E; discriminate| |exfalso; vm_compute in E; discriminate..].
  destruct (AllocStripe_FreeStripe_roundtrip demo_mk ∅ demo_bus 5 m' b' s
    demo_mk_source demo_bus_wf ltac:(lia) E) as (b'' & EF & _ & Hu).
  exists m', b', s, b''. split; [reflexivity|]. split; [exact EF|exact Hu].
Defined.

(** [AllocBlocksForStripe] grows a stripe in place: on success it owns
    its old blocks followed by [n] fresh ones, no other block changes hands,
    the capacity grows by [n] blocks and every data byte (valid or not) keeps
    its value and position; only the header block is written.  On failure
    stripe, memory and bitmap are unchanged. *)
Theorem AllocBlocksForStripe_correct mk m b s gs n :
  ChunkSource mk -> bus_wf b -> stripe_backed b s gs -> 0 < n ->
  exists m' b' s' e, AllocBlocksForStripe mk m b s n = Ret (m', b', s', e) /\ bus_wf b' /\
    match e with
    | None => exists gs', claimed b b' gs' /\ Z.of_nat (length gs') = n /\
        stripe_backed b' s' (gs ++ gs') /\ stripe_wf s' /\ header_synced m' s' /\
        data_cap s' = data_cap s + n * BlockSize /\ DataLen s' = DataLen s /\
        take (Z.to_nat (data_cap s)) (stripe_area m' s') = stripe_area m s
    | Some _ => m' = m /\ s' = s /\ forall g, 0 <= g -> used b' g = used b g
    end.
Proof.
  intros Hmk Hwf Hback Hn.
  destruct (AllocBlocksForStripe_spec mk m b s gs n Hwf Hback Hn)
    as (m' & b' & s' & e & E & Hwf' & Hr).
  exists m', b', s', e. split_and!; [done..|]. destruct e as [e|]; [done|].
  destruct Hr as (gs' & Hcl & Hl & Hback' & Hsync & Hcap & HD & Harea & _).
  pose proof (stripe_backed_wf _ _ _ Hwf' Hback') as Hswf.
  exists gs'. split_and!; try done. rewrite <- Harea. unfold stripe_area.
  rewrite Hcap, data_bytes_app by (pose proof (sb_len _ _ _ Hback); unfold_layout; lia).
  rewrite <- (length_data_bytes s' m' 0 (data_cap s)). by rewrite take_app_length.
Qed.

(** The witness extends the stripe of three blocks. *)
Lemma AllocBlocksForStripe_correct_witness :
  exists m1 b1 s1 m2 b2 s2,
    AllocStripe demo_mk ∅ demo_bus 3 = Ret (m1, b1, inr s1) /\
    AllocBlocksForStripe demo_mk m1 b1 s1 2 = Ret (m2, b2, s2, None) /\
    data_cap s2 = 4 * BlockSize.
Proof.
  destruct (AllocStripe_spec demo_mk ∅ demo_bus 3 demo_bus_wf ltac:(lia))
    as (m1 & b1 & [e|s1] & E & Hwf & Hr).
  { exfalso. vm_compute in E. discriminate. }
  destruct Hr as (gs & _ & Hl & Hback & _).
  destruct (AllocBlocksForStripe_correct demo_mk m1 b1 s1 gs 2 demo_mk_source Hwf Hback
    ltac:(lia)) as (m2 & b2 & s2 & [e|] & E2 & _ & Hr).
  { exfalso. vm_compute in E. injection E as <- <- <-. vm_compute in E2. discriminate. }
  exists m1, b1, s1, m2, b2, s2. split; [exact E|]. split; [exact E2|].
  destruct Hr as (_ & _ & _ & _ & _ & _ & Hcap & _). rewrite Hcap.
  unfold data_cap. rewrite (sb_blocks _ _ _ Hback), length_fmap.
  unfold BlockSize. lia.
Defined.

(** looking a managed block up by its id gives the same 4KB that
    allocation handed out, and [GetChunk] the chunk it lies in. *)
Theorem GetBlock_correct b g :
  bus_wf b -> managed b g ->
  let '(c, i) := ParseBlockAddress g in
  GetBlock b c i = Ret (inr (blk_of g)) /\
  exists ch, GetChunk b c = Some ch /\
    slice_sub (CData ch) (i * BlockSize) (i * BlockSize + BlockSize) = Ret (BlkData (blk_of g)).
Proof.
  intros Hwf Hg. pose proof (bus_count _ Hwf) as Hc. pose proof (bus_chunks _ Hwf) as Hck.
  pose proof (managed_small _ _ Hwf Hg) as Hs. unfold managed in Hg. unfold blk_of.
  unfold ParseBlockAddress, GetBlock, GetChunk. change BlocksPerChunk with 1024 in *.
  cbn [fst snd].
  assert (0 <= g / 1024 < 64 /\ 0 <= g mod 1024 < 1024 /\ g / 1024 < chunkCount b)
    as (Hq & Hr & Hqc) by (Z.div_mod_to_equations; lia).
  rewrite !i16_small, go_not_invol by lia.
  destruct (lookup_lt_is_Some_2 (chunks b) (Z.to_nat (g / 1024))) as [ch Hch]; [lia|].
  rewrite !decide_False by lia.
  rewrite (go_index_lookup _ _ ch) by (done || lia). go_bind.
  rewrite (u32_small (g mod 1024)), u32_small by (unfold_layout; lia).
  assert (slice_sub (CData ch) (g mod 1024 * BlockSize) (g mod 1024 * BlockSize + BlockSize)
          = Ret (Slice (g * BlockSize) BlockSize)) as Hsub.
  { rewrite (bus_data _ Hwf _ _ Hch). unfold slice_sub. cbn [sl_base sl_len].
    rewrite decide_True by (unfold_layout; lia).
    do 2 f_equal; unfold_layout; Z.div_mod_to_equations; lia. }
  rewrite Hsub. go_bind. split; [done|]. exists ch. by rewrite Hch.
Qed.

Lemma GetBlock_correct_witness :
  GetBlock demo_bus (-1) 7 = Ret (inr (blk_of 7)).
Proof.
  apply (GetBlock_correct demo_bus 7 demo_bus_wf). unfold managed. vm_compute.
  split; [discriminate|reflexivity].
Defined.
