(* ===== verification/BusOps.v ===== *)
(** * Every use of a bus

    The operations of go/shm/bus.go called in any order: with arguments that
    make sense they all return, also for blocks of chunks the bus does not
    have, and whatever the arguments, what they return is a well-formed bus
    whose chunks were only added to. *)
From stdpp Require Import base tactics list numbers option gmap.
From Stdlib Require Import ZArith Lia.
From S2P Require Import Prelude Memory Layout Protocol Stripe Bus.
#[local] Open Scope Z_scope.

(** ** Calls *)
Inductive bus_call : Type :=
| BAllocBlocks (count : Z)
| BAllocStripe (blockCount : Z)
| BAllocBlocksForStripe (s : Stripe) (count : Z)
| BFreeBlock (chunkID blockIdx : Z)
| BFreeStripe (s : Stripe).

Definition run_bus_call (mk : Z -> option Chunk) (m : mem) (b : Bus) (c : bus_call)
  : outcome (mem * Bus) :=
  match c with
  | BAllocBlocks count => r ← AllocBlocks mk b count; Ret (m, r.1)
  | BAllocStripe n => r ← AllocStripe mk m b n; Ret r.1
  | BAllocBlocksForStripe s n => r ← AllocBlocksForStripe mk m b s n; Ret r.1.1
  | BFreeBlock chunkID blockIdx => b' ← FreeBlock b chunkID blockIdx; Ret (m, b')
  | BFreeStripe s => b' ← FreeStripe b s; Ret (m, b')
  end.

Fixpoint run_bus_calls (mk : Z -> option Chunk) (m : mem) (b : Bus) (cs : list bus_call)
  : outcome (mem * Bus) :=
  match cs with
  | [] => Ret (m, b)
  | c :: cs' => r ← run_bus_call mk m b c; run_bus_calls mk r.1 r.2 cs'
  end.

(** ** Specification vocabulary *)

(** [b] is a well-formed successor of [b0]: chunks were only appended, and
    each was announced once, in order. *)
Definition grown (b0 b : Bus) : Prop :=
  bus_wf b /\ exists extra, chunks b = chunks b0 ++ extra /\ appended b = appended b0 ++ extra.

(** The blocks of a sequence, read after [chunkID], have an address. *)
Fixpoint freeable (chunkID : Z) (seq : list Z) : Prop :=
  match seq with
  | [] => True
  | id :: seq' =>
      if decide (id < 0) then freeable id seq'
      else 0 <= GetBlockAddress chunkID id /\ freeable chunkID seq'
  end.

(** Arguments that make sense: counts, a stripe with a header block, blocks
    with an address, in the bus or not. *)
Definition bus_call_ok (c : bus_call) : Prop :=
  match c with
  | BAllocBlocks n | BAllocStripe n => 0 <= n
  | BAllocBlocksForStripe s n => 0 <= n /\ exists hd, Blocks s !! 0%nat = Some hd /\ sl_len hd = BlockSize
  | BFreeBlock chunkID blockIdx => 0 <= GetBlockAddress chunkID blockIdx
  | BFreeStripe s => freeable 0 (Sequence s)
  end.

(** The computation returns a value of [P]. *)
Definition returns {A} (P : A -> Prop) (o : outcome A) : Prop := exists a, o = Ret a /\ P a.

(** A property of the results of a computation, if it returns. *)
Definition yields {A} (P : A -> Prop) (o : outcome A) : Prop := forall a, o = Ret a -> P a.

(** ** Lemmas *)
Lemma returns_bind {A B} (P : A -> Prop) (Q : B -> Prop) (o : outcome A) (f : A -> outcome B) :
  returns P o -> (forall a, P a -> returns Q (f a)) -> returns Q (x ← o; f x).
Proof. intros (a & -> & Ha) Hf. by apply Hf. Qed.

Lemma returns_impl {A} (P Q : A -> Prop) o : returns P o -> (forall a, P a -> Q a) -> returns Q o.
Proof. intros (a & -> & Ha) H. exists a. auto. Qed.

Lemma returns_ret {A} (P : A -> Prop) (a : A) : P a -> returns P (Ret a).
Proof. by exists a. Qed.

Lemma yields_bind {A B} (P : A -> Prop) (Q : B -> Prop) (o : outcome A) (f : A -> outcome B) :
  yields P o -> (forall a, P a -> yields Q (f a)) -> yields Q (x ← o; f x).
Proof. intros Ho Hf b H. apply bind_ret_inv in H as (a & Ea & H). by eapply Hf; [apply Ho|]. Qed.

Lemma yields_ret {A} (P : A -> Prop) (a : A) : P a -> yields P (Ret a).
Proof. by intros H x [= <-]. Qed.

Lemma yields_any {A} (o : outcome A) : yields (fun _ => True) o.
Proof. done. Qed.

Lemma yields_returns {A} (P : A -> Prop) o : returns (fun _ => True) o -> yields P o -> returns P o.
Proof. intros (a & Ea & _) H. exists a. auto. Qed.

Lemma grown_refl b : bus_wf b -> grown b b.
Proof. intros Hwf. split; [done|]. exists []. by rewrite !app_nil_r. Qed.

Lemma grown_trans b1 b2 b3 : grown b1 b2 -> grown b2 b3 -> grown b1 b3.
Proof.
  intros [_ (e1 & Hc1 & Ha1)] [Hwf (e2 & Hc2 & Ha2)]. split; [done|]. exists (e1 ++ e2).
  by rewrite Hc2, Ha2, Hc1, Ha1, !app_assoc.
Qed.

(** Freeing any block number, valid or not. *)
Lemma FreeBlock_grown b chunkID blockIdx : bus_wf b -> yields (grown b) (FreeBlock b chunkID blockIdx).
Proof.
  intros Hwf. unfold FreeBlock. cbv zeta. case_decide; [by apply yields_ret, grown_refl|].
  intros b' Hr. apply bind_ret_inv in Hr as (old & E & [= <-]). apply go_index_Ret in E as [_ E]. split.
  - apply bus_wf_insert; [done|]. pose proof (bus_words _ Hwf) as Hw.
    rewrite Forall_lookup in Hw. specialize (Hw _ _ E).
    apply uint32_of_bits; [|apply Z.land_nonneg; lia].
    intros i Hi. rewrite Z.land_spec, (testbit_high old) by lia. done.
  - exists []. cbn. by rewrite !app_nil_r.
Qed.

(** A block with an address can be freed, whether the bus has it or not. *)
Lemma FreeBlock_returns b chunkID blockIdx :
  bus_wf b -> 0 <= GetBlockAddress chunkID blockIdx -> returns (grown b) (FreeBlock b chunkID blockIdx).
Proof.
  intros Hwf Ha. apply yields_returns; [|by apply FreeBlock_grown]. unfold FreeBlock. cbv zeta.
  case_decide as Hw; [by apply returns_ret|]. pose proof (Z.quot_pos _ 32 Ha ltac:(lia)) as Hq.
  destruct (lookup_lt_is_Some_2 (bitmap b) (Z.to_nat (Z.quot (GetBlockAddress chunkID blockIdx) 32)))
    as [old Hold]; [lia|].
  rewrite (go_index_lookup _ _ old), bind_ret by done. by apply returns_ret.
Qed.

Lemma free_seq_grown seq : forall b chunkID, bus_wf b -> yields (grown b) (free_seq b chunkID seq).
Proof.
  induction seq as [|id seq IH]; intros b chunkID Hwf; cbn [free_seq]; [by apply yields_ret, grown_refl|].
  case_decide; [by apply IH|]. eapply yields_bind; [by apply FreeBlock_grown|].
  intros b1 H1 b2 H2. eapply grown_trans; [exact H1|]. eapply IH; [apply H1|exact H2].
Qed.

Lemma free_seq_returns seq : forall b chunkID,
  bus_wf b -> freeable chunkID seq -> returns (grown b) (free_seq b chunkID seq).
Proof.
  induction seq as [|id seq IH]; intros b chunkID Hwf Hf; cbn [free_seq freeable] in *;
    [by apply returns_ret, grown_refl|].
  case_decide; [by apply IH|]. destruct Hf as [Ha Hf]. eapply returns_bind; [by apply FreeBlock_returns|].
  intros b1 H1. eapply returns_impl; [by apply IH; [apply H1|]|]. intros b2. by apply grown_trans.
Qed.

Lemma claimed_grown b0 b gs : claimed b0 b gs -> grown b0 b.
Proof. intros H. split; apply H. Qed.

Section alloc.
Context (mk : Z -> option Chunk) `{!ChunkSource mk}.

Lemma alloc_loop_zero_claimed b0 fuel : forall b,
  claimed b0 b [] -> MaxChunks - chunkCount b < Z.of_nat fuel ->
  exists b' e, alloc_loop fuel mk b [] 0 = Ret (b', inl e) /\ claimed b0 b' [].
Proof using All.
  induction fuel as [|fuel IH]; intros b Hcl Hf;
    pose proof (bus_count _ (cl_wf _ _ _ Hcl)) as Hc; [lia|].
  cbn [alloc_loop]. pose proof (bus_bitmap _ (cl_wf _ _ _ Hcl)).
  rewrite decide_False by lia. destruct (length (bitmap b)) as [|left] eqn:El; [lia|].
  cbn [scan_words]. rewrite decide_False by lia. go_bind.
  pose proof (tryAppendChunk_claimed mk b0 b [] Hcl) as Happ.
  destruct (tryAppendChunk mk b) as [b2 [e|]].
  - destruct Happ as [-> _]. by exists b, e.
  - destruct Happ as [Hcl2 Hc2]. apply IH; [done|lia].
Qed.

Lemma AllocBlocks_returns b count :
  bus_wf b -> 0 <= count ->
  returns (fun r => grown b r.1 /\ forall blks, r.2 = inr blks -> exists g gs, blks = blk_of <$> g :: gs)
    (AllocBlocks mk b count).
Proof using All.
  intros Hwf Hc. destruct (decide (0 < count)) as [Hp|Hp].
  - destruct (AllocBlocks_spec mk b count Hwf Hp) as (b' & r & -> & Hr). apply returns_ret. cbn [fst snd].
    destruct r as [e|blks]; [split; [split; apply Hr|done]|].
    destruct Hr as (gs & -> & Hcl & Hl). split; [by apply (claimed_grown b b' gs)|]. intros blks [= <-].
    destruct gs as [|g gs]; [simpl in Hl; lia|]. by exists g, gs.
  - unfold AllocBlocks, go_make_check. rewrite decide_False by lia. go_bind.
    replace count with 0 by lia. pose proof (bus_count _ Hwf).
    destruct (alloc_loop_zero_claimed b (Z.to_nat MaxChunks + 1) b (claimed_refl b Hwf))
      as (b' & e & -> & Hcl); [unfold_layout; lia|]. apply returns_ret.
    split; [by apply (claimed_grown b b' [])|done].
Qed.

Lemma AllocBlocks_grown b count :
  bus_wf b -> yields (fun r => grown b r.1) (AllocBlocks mk b count).
Proof using All.
  intros Hwf r E. destruct (decide (0 <= count)) as [Hc|Hc].
  - destruct (AllocBlocks_returns b count Hwf Hc) as (r' & E' & H & _). congruence.
  - unfold AllocBlocks, go_make_check in E. by rewrite decide_True in E by lia.
Qed.

Lemma AllocStripe_grown m b n : bus_wf b -> yields (fun r => grown b r.1.2) (AllocStripe mk m b n).
Proof using All.
  intros Hwf. unfold AllocStripe. eapply yields_bind; [by apply AllocBlocks_grown|].
  intros [b' [e|blks]] Hg; [by apply yields_ret|]. eapply yields_bind; [apply yields_any|].
  intros m' _. by apply yields_ret.
Qed.

Lemma AllocBlocksForStripe_grown m b s n :
  bus_wf b -> yields (fun r => grown b r.1.1.2) (AllocBlocksForStripe mk m b s n).
Proof using All.
  intros Hwf. unfold AllocBlocksForStripe. eapply yields_bind; [by apply AllocBlocks_grown|].
  intros [b' [e|blks]] Hg; [by apply yields_ret|]. eapply yields_bind; [apply yields_any|].
  intros m' _. by apply yields_ret.
Qed.

Lemma UpdateStripeHeader_returns m s hd :
  Blocks s !! 0%nat = Some hd -> sl_len hd = BlockSize -> returns (fun _ => True) (UpdateStripeHeader m s).
Proof using Type. intros Hhd Hl. rewrite (UpdateStripeHeader_bytes m s hd Hhd Hl). by apply returns_ret. Qed.

Lemma run_bus_call_returns m b c :
  bus_wf b -> bus_call_ok c -> returns (fun r => grown b r.2) (run_bus_call mk m b c).
Proof using All.
  intros Hwf Hok. destruct c as [n|n|s n|cid idx|s]; cbn [run_bus_call bus_call_ok] in *.
  - eapply returns_bind; [by apply AllocBlocks_returns|]. intros r [Hg _]. by apply returns_ret.
  - eapply (returns_bind (fun r => grown b r.1.2)); [|intros r Hg; by apply returns_ret].
    unfold AllocStripe. eapply returns_bind; [by apply AllocBlocks_returns|].
    intros [b' [e|blks]] [Hg Hb]; [by apply returns_ret|]. destruct (Hb blks eq_refl) as (g & gs & ->).
    eapply returns_bind; [by eapply UpdateStripeHeader_returns|]. intros m' _. by apply returns_ret.
  - destruct Hok as (Hn & hd & Hhd & Hl).
    eapply (returns_bind (fun r => grown b r.1.1.2)); [|intros r Hg; by apply returns_ret].
    unfold AllocBlocksForStripe. eapply returns_bind; [by apply AllocBlocks_returns|].
    intros [b' [e|blks]] [Hg _]; [by apply returns_ret|].
    eapply returns_bind; [|intros m' _; by apply returns_ret].
    apply (UpdateStripeHeader_returns _ _ hd); [|done]. by apply lookup_app_l_Some.
  - eapply returns_bind; [by apply FreeBlock_returns|]. intros b' Hg. by apply returns_ret.
  - eapply returns_bind; [by apply free_seq_returns|]. intros b' Hg. by apply returns_ret.
Qed.

Lemma run_bus_calls_returns cs : forall m b,
  bus_wf b -> Forall bus_call_ok cs -> returns (fun r => grown b r.2) (run_bus_calls mk m b cs).
Proof using All.
  induction cs as [|c cs IH]; intros m b Hwf Hok; cbn [run_bus_calls]; [by apply returns_ret, grown_refl|].
  apply Forall_cons in Hok as [Hc Hok]. eapply returns_bind; [by apply run_bus_call_returns|].
  intros [m1 b1] H1. cbn [fst snd] in *. eapply returns_impl; [by apply IH; [apply H1|]|].
  intros r. by apply grown_trans.
Qed.
End alloc.

(** ** Theorems *)

(** C26: The type of a bus.  From [NewBus] on, any sequence of calls returns,
    if the counts are not negative, the stripes that grow have a header block
    and the blocks to be freed have an address, be it one of a chunk that the
    bus does not have.  It leaves a well-formed bus: between one and
    [MaxChunks] chunks, one 32-bit bitmap word per 32 blocks, each chunk in
    its own memory, and every chunk after the first announced exactly once, in
    the order of the chunk ids. *)
Theorem bus_typed mk c0 cs m b :
  ChunkSource mk -> CData c0 = Slice 0 ChunkSize -> NewBus (Some c0) true = inr b -> Forall bus_call_ok cs ->
  exists m' b', run_bus_calls mk m b cs = Ret (m', b') /\ bus_wf b' /\ chunks b' = c0 :: appended b'.
Proof.
  intros Hmk Hc0 Hnew Hok. pose proof (NewBus_wf c0 Hc0) as (b1 & Hb1 & Hwf & _).
  rewrite Hnew in Hb1. injection Hb1 as <-.
  destruct (run_bus_calls_returns mk cs m b Hwf Hok) as ([m' b'] & E & Hwf' & extra & Hch & Hap).
  exists m', b'. split; [done|]. split; [done|]. injection Hnew as <-. cbn [chunks appended app snd] in *.
  by rewrite Hch, Hap.
Qed.

Lemma bus_typed_witness :
  exists m' b', run_bus_calls demo_mk ∅
       (mkBus 0 1 (replicate 32 0) [mkChunk (Slice 0 ChunkSize) 3] [])
       [BAllocStripe 1030; BFreeBlock (-1) 3; BAllocBlocks 0; BFreeBlock (-900) 2] = Ret (m', b') /\
    bus_wf b' /\ chunks b' = mkChunk (Slice 0 ChunkSize) 3 :: appended b'.
Proof.
  apply (bus_typed demo_mk (mkChunk (Slice 0 ChunkSize) 3)); [exact demo_mk_source|reflexivity..|].
  repeat constructor; vm_compute; discriminate.
Defined.
