(* ===== verification/BusConcurrent.v ===== *)
(** * The bus under concurrency

    [AllocBlocks] and [FreeBlock] are called by any number of goroutines.
    Here every atomic access to the bitmap is one step: the load of a word
    and the compare-and-swap that claims or releases bits are separate, so
    other threads run in between.  The read-write mutex [mu] appears as the
    rule that a chunk is appended only when no thread is inside a read-locked
    region. *)
From stdpp Require Import base tactics list numbers option gmap relations.
From Stdlib Require Import ZArith Lia.
From S2P Require Import Prelude Memory Layout Protocol Stripe Bus.
#[local] Open Scope Z_scope.

(** ** Threads *)
Inductive apc : Type :=
| AIdle
| AStart (remaining : Z)                 (* about to take RLock, read lastSearchPos *)
| AScan (start i remaining : Z)          (* read-locked, about to load word i *)
| ACas (start i remaining w old newVal : Z) (bits : list Z)  (* about to swap it *)
| AStorePos (w : Z)                      (* about to store lastSearchPos, return *)
| AGrow (remaining : Z)                  (* unlocked, about to read chunkCount *)
| AAppend (remaining count : Z)          (* about to append a chunk *)
| AFree (todo : list Z)                  (* about to take RLock, load the first's word *)
| AFreeCas (todo : list Z) (old : Z).    (* about to swap it *)

(** [local] are the blocks of the call in progress (claimed so far, or still
    to be released), [owned] the blocks of calls that have returned; [want] is
    the count the current allocation was asked for. *)
Record thread : Type := mkT { pc : apc; want : Z; local : list Z; owned : list Z }.

Definition with_pc (t : thread) (p : apc) : thread := mkT p (want t) (local t) (owned t).

Definition read_locked (t : thread) : bool :=
  match pc t with
  | AScan _ _ _ | ACas _ _ _ _ _ _ _ | AStorePos _ | AFreeCas _ _ => true
  | _ => false
  end.

Record bstate : Type := mkB { sbus : Bus; threads : list thread }.

Section steps.
Context (mk : Z -> option Chunk).

(** The load of a bitmap word in [AllocBlocks]. *)
Definition scan_step (b : Bus) (t : thread) (start i remaining : Z)
  : outcome (Bus * thread) :=
  let numWords := Z.of_nat (length (bitmap b)) in
  if decide (i < numWords /\ remaining > 0) then
    let w := (start + i) mod numWords in
    old ← go_index (bitmap b) w;
    if decide (old = 4294967295) then Ret (b, with_pc t (AScan start (i + 1) remaining))
    else
      r ← search_word old remaining;
      let '(newVal, bits) := r in
      if decide (bits = []) then Ret (b, with_pc t (AScan start (i + 1) remaining))
      else Ret (b, with_pc t (ACas start i remaining w old newVal bits))
  else Ret (b, with_pc t (AGrow remaining)).

(** The compare-and-swap that claims bits. *)
Definition cas_step (b : Bus) (t : thread) (start i remaining w old newVal : Z)
  (bits : list Z) : outcome (Bus * thread) :=
  cur ← go_index (bitmap b) w;
  if decide (cur = old) then
    blks ← claim_blocks (chunks b) w bits;
    let gs := (fun blk => GetBlockAddress (ChunkID blk) (BlockIdx blk)) <$> blks in
    let remaining' := remaining - Z.of_nat (length bits) in
    Ret (with_bitmap b (<[Z.to_nat w := newVal]> (bitmap b)),
         mkT (if decide (remaining' = 0) then AStorePos w
              else AScan start (i + 1) remaining')
           (want t) (local t ++ gs) (owned t))
  else Ret (b, with_pc t (AScan start i remaining)).

(** The chunk is appended under the exclusive lock; [quiet] says that no
    thread is read-locked. *)
Definition append_step (quiet : bool) (b : Bus) (t : thread) (remaining count : Z)
  : option (Bus * thread) :=
  match tryAppendChunk_locked mk b count with
  | (b', Some err) => Some (b', with_pc t (AFree (local t)))
  | (b', None) =>
      if decide (count <> ChunkCount b \/ quiet = true)
      then Some (b', with_pc t (AStart remaining)) else None
  end.

(** The compare-and-swap of [FreeBlock]: when the word still is what was
    loaded, the effect is that of the sequential function. *)
Definition free_cas_step (b : Bus) (t : thread) (g : Z) (todo : list Z) (old : Z)
  : outcome (Bus * thread) :=
  cur ← go_index (bitmap b) (g / 32);
  if decide (cur = old) then
    b' ← FreeBlock b (ChunkID (blk_of g)) (BlockIdx (blk_of g));
    Ret (b', mkT (AFree todo) (want t) todo (owned t))
  else Ret (b, with_pc t (AFree (g :: todo))).

(** One step of a thread; [None] when it has to wait. *)
Definition tstep (quiet : bool) (b : Bus) (t : thread) : option (outcome (Bus * thread)) :=
  match pc t with
  | AIdle => None
  | AStart remaining =>
      Some (Ret (b, with_pc t (AScan (lastSearchPos b mod Z.of_nat (length (bitmap b)))
                                 0 remaining)))
  | AScan start i remaining => Some (scan_step b t start i remaining)
  | ACas start i remaining w old newVal bits =>
      Some (cas_step b t start i remaining w old newVal bits)
  | AStorePos w =>
      Some (Ret (with_lastSearchPos b ((w + 1) mod Z.of_nat (length (bitmap b))),
                 mkT AIdle (want t) [] (local t ++ owned t)))
  | AGrow remaining =>
      Some (Ret (b, with_pc t (if decide (ChunkCount b >= MaxChunks) then AFree (local t)
                               else AAppend remaining (ChunkCount b))))
  | AAppend remaining count => Ret <$> append_step quiet b t remaining count
  | AFree [] => Some (Ret (b, with_pc t AIdle))
  | AFree (g :: todo) =>
      Some (old ← go_index (bitmap b) (g / 32);
            Ret (b, with_pc t (AFreeCas (g :: todo) old)))
  | AFreeCas [] old => Some (Ret (b, with_pc t AIdle))
  | AFreeCas (g :: todo) old => Some (free_cas_step b t g todo old)
  end.

Definition quiet (s : bstate) : bool := forallb (fun t => negb (read_locked t)) (threads s).

(** A thread calls [AllocBlocks], or frees some of the blocks it owns, or
    takes a step of the call it is in. *)
Inductive bstep : bstate -> bstate -> Prop :=
| call_alloc s i t n :
    threads s !! i = Some t -> pc t = AIdle -> 0 <= n ->
    bstep s (mkB (sbus s) (<[i := mkT (AStart n) n [] (owned t)]> (threads s)))
| call_free s i t gs rest :
    threads s !! i = Some t -> pc t = AIdle -> owned t ≡ₚ gs ++ rest ->
    bstep s (mkB (sbus s) (<[i := mkT (AFree gs) (want t) gs rest]> (threads s)))
| thread_step s i t b' t' :
    threads s !! i = Some t -> tstep (quiet s) (sbus s) t = Some (Ret (b', t')) ->
    bstep s (mkB b' (<[i := t']> (threads s))).

(** Executable schedules. *)
Inductive bsched : Type :=
| BAlloc (i : nat) (n : Z)               (* thread [i] calls AllocBlocks(n) *)
| BFree (i k : nat)                      (* thread [i] frees its first [k] blocks *)
| BStep (i : nat).

Definition brun1 (s : bstate) (a : bsched) : option bstate :=
  match a with
  | BAlloc i n =>
      t ← threads s !! i;
      match pc t with
      | AIdle =>
          if decide (0 <= n)
          then Some (mkB (sbus s) (<[i := mkT (AStart n) n [] (owned t)]> (threads s)))
          else None
      | _ => None
      end
  | BFree i k =>
      t ← threads s !! i;
      match pc t with
      | AIdle => Some (mkB (sbus s) (<[i := mkT (AFree (take k (owned t))) (want t)
                         (take k (owned t)) (drop k (owned t))]> (threads s)))
      | _ => None
      end
  | BStep i =>
      t ← threads s !! i;
      match tstep (quiet s) (sbus s) t with
      | Some (Ret (b', t')) => Some (mkB b' (<[i := t']> (threads s)))
      | _ => None
      end
  end.

Fixpoint brun (s : bstate) (l : list bsched) : option bstate :=
  match l with
  | [] => Some s
  | a :: l' => s' ← brun1 s a; brun s' l'
  end.

Definition binit (b : Bus) (n : nat) : bstate :=
  mkB b (replicate n (mkT AIdle 0 [] [])).

Definition breach (b : Bus) (n : nat) : bstate -> Prop := rtc bstep (binit b n).
End steps.

(** ** The invariant *)

Definition held (t : thread) : list Z := local t ++ owned t.
Definition all_held (s : bstate) : list Z := threads s ≫= held.

(** What a program counter knows about the bus. *)
Definition t_inv (b : Bus) (t : thread) : Prop :=
  match pc t with
  | AIdle => local t = []
  | AStart remaining => 0 <= remaining /\ Z.of_nat (length (local t)) + remaining = want t
  | AScan start i remaining =>
      0 <= start /\ 0 <= i /\ 0 <= remaining /\
      Z.of_nat (length (local t)) + remaining = want t
  | ACas start i remaining w old newVal bits =>
      0 <= start /\ 0 <= i /\ 0 < remaining /\
      Z.of_nat (length (local t)) + remaining = want t /\
      0 <= w < Z.of_nat (length (bitmap b)) /\ 0 <= newVal < 4294967296 /\
      (forall k, 0 <= k < 32 -> Z.testbit newVal k = Z.testbit old k || bool_decide (k ∈ bits)) /\
      NoDup bits /\ Forall (fun k => 0 <= k < 32 /\ Z.testbit old k = false) bits /\
      Z.of_nat (length bits) <= remaining
  | AStorePos w => Z.of_nat (length (local t)) = want t
  | AGrow remaining | AAppend remaining _ =>
      0 <= remaining /\ Z.of_nat (length (local t)) + remaining = want t /\
      match pc t with AAppend _ count => count < MaxChunks | _ => True end
  | AFree todo | AFreeCas todo _ => local t = todo
  end.

Record binv (b0 : Bus) (s : bstate) : Prop := {
  bi_claimed : claimed b0 (sbus s) (all_held s);
  bi_threads : Forall (t_inv (sbus s)) (threads s);
}.

(** What every step of a thread guarantees, given the blocks [rest] of the
    other threads. *)
Definition step_post (b0 b : Bus) (rest : list Z) (o : outcome (Bus * thread)) : Prop :=
  exists b' t', o = Ret (b', t') /\ claimed b0 b' (held t' ++ rest) /\ t_inv b' t' /\
    (length (bitmap b) <= length (bitmap b'))%nat.

(** Threads 0 and 1 load the same word; 0 wins the swap, 1 retries; 0 then
    frees one of its blocks. *)
Definition demo_race : list bsched :=
  [BAlloc 0 2; BAlloc 1 3; BStep 0; BStep 1; BStep 0; BStep 1; BStep 0; BStep 1;
   BStep 1; BStep 1; BStep 0; BStep 1; BFree 0 1; BStep 0; BStep 0].

(** ** Preservation *)
Lemma claimed_perm b0 b gs gs' : claimed b0 b gs -> gs ≡ₚ gs' -> claimed b0 b gs'.
Proof.
  intros [] Hp. split; try done.
  - by rewrite <- Hp.
  - by rewrite <- Hp.
  - intros g Hg. rewrite cl_used by done. f_equal. apply bool_decide_ext.
    by rewrite Hp.
Qed.

(** Releasing one of the claimed blocks. *)
Lemma claimed_release b0 b b' g gs :
  claimed b0 b (g :: gs) -> released b b' [g] -> claimed b0 b' gs.
Proof.
  intros [Hwf Hnd Hfree Hused Hch] [Hwf' Hc [Hk Ha] Hu]. apply NoDup_cons in Hnd as [Hng Hnd].
  inversion Hfree as [|?? [Hm Hf] Hrest]; subst. split.
  - done.
  - done.
  - eapply Forall_impl; [exact Hrest|]. intros h [? ?]. split; [|done].
    unfold managed in *. by rewrite Hc.
  - intros h Hh. rewrite Hu, Hused by done. destruct (decide (h = g)) as [->|Hne].
    + rewrite Hf. rewrite (bool_decide_eq_true_2 (g ∈ [g])) by set_solver.
      rewrite (bool_decide_eq_false_2 (g ∈ gs)) by done. by rewrite andb_false_r.
    + rewrite (bool_decide_eq_false_2 (h ∈ [g])) by set_solver. simpl.
      rewrite andb_true_r. f_equal. apply bool_decide_ext. set_solver.
  - by rewrite Hk, Ha.
Qed.

Lemma t_inv_mono b b' t :
  (length (bitmap b) <= length (bitmap b'))%nat -> t_inv b t -> t_inv b' t.
Proof.
  intros Hl. unfold t_inv. destruct (pc t); try done.
  intros (? & ? & ? & ? & ? & ? & ? & ? & ? & ?). split_and!; try done; lia.
Qed.

Section preservation.
Context (mk : Z -> option Chunk) `{!ChunkSource mk} (b0 : Bus).

Lemma step_post_local b rest t p :
  claimed b0 b (held t ++ rest) -> t_inv b (with_pc t p) ->
  step_post b0 b rest (Ret (b, with_pc t p)).
Proof using Type. intros Hc Ht. exists b, (with_pc t p). by split_and!. Qed.

(** The thread moves on without touching the bus. *)
Ltac stay :=
  apply step_post_local; [done|]; unfold t_inv; simpl;
  first [done | lia | split_and!; (done || lia)].

Lemma scan_step_ok b rest t start i remaining :
  claimed b0 b (held t ++ rest) -> t_inv b t -> pc t = AScan start i remaining ->
  step_post b0 b rest (scan_step b t start i remaining).
Proof using Type.
  intros Hc Ht Hpc. unfold t_inv in Ht. rewrite Hpc in Ht.
  destruct Ht as (Hs & Hi & Hr & Hw). pose proof (cl_wf _ _ _ Hc) as Hwf.
  unfold scan_step. case_decide as Hd; [|stay].
  set (n := Z.of_nat (length (bitmap b))) in *.
  assert (Hrange : 0 <= (start + i) mod n < n) by (apply Z.mod_pos_bound; lia).
  destruct (bus_wf_word b _ Hwf Hrange) as (old & -> & Hold & Hor). go_bind.
  case_decide; [stay|].
  destruct (search_word_spec old remaining Hor) as
    (newVal & bits & -> & Hnv & Hbits & Hnd & Hall & Hle & _); [lia|]. go_bind.
  case_decide; (apply step_post_local; [done|]; unfold t_inv; simpl).
  - lia.
  - split_and!; done || lia.
Qed.

Lemma cas_step_ok b rest t start i remaining w old newVal bits :
  claimed b0 b (held t ++ rest) -> t_inv b t ->
  pc t = ACas start i remaining w old newVal bits ->
  step_post b0 b rest (cas_step b t start i remaining w old newVal bits).
Proof using Type.
  intros Hc Ht Hpc. unfold t_inv in Ht. rewrite Hpc in Ht.
  destruct Ht as (Hs & Hi & Hr & Hw & Hrange & Hnv & Hbits & Hnd & Hall & Hle).
  pose proof (cl_wf _ _ _ Hc) as Hwf. unfold cas_step.
  destruct (bus_wf_word b w Hwf Hrange) as (cur & -> & Hcur & Hcr). go_bind.
  case_decide as Hd; [subst cur|stay].
  assert (Hb32 : Forall (fun k => 0 <= k < 32) bits)
    by (eapply Forall_impl; [exact Hall|]; naive_solver).
  rewrite (claim_blocks_ok b) by done. go_bind.
  assert (Hgs : (fun blk => GetBlockAddress (ChunkID blk) (BlockIdx blk)) <$>
      (blk_of <$> ((fun k => w * 32 + k) <$> bits)) = (fun k => w * 32 + k) <$> bits).
  { rewrite <- list_fmap_compose. rewrite <- (list_fmap_id (_ <$> bits)) at 2.
    apply list_fmap_ext. intros j g Hg. apply list_lookup_fmap_Some in Hg as (k & -> & Hk).
    rewrite Forall_lookup in Hb32. specialize (Hb32 _ _ Hk). simpl.
    apply blk_of_address. pose proof (bus_bitmap _ Hwf). pose proof (bus_count _ Hwf).
    unfold_layout. lia. }
  eexists _, _. split; [done|]. rewrite Hgs. split_and!.
  - eapply claimed_perm; [by apply (claim_word b0 b (held t ++ rest) w old newVal bits)|].
    unfold held. simpl. rewrite <- !app_assoc. apply Permutation_app_head.
    rewrite app_assoc, (app_assoc _ (owned t)). rewrite Permutation_app_comm.
    by rewrite <- app_assoc.
  - unfold t_inv. simpl. case_decide; simpl; rewrite length_app, length_fmap; lia.
  - simpl. by rewrite length_insert.
Qed.

Lemma append_step_ok q b rest t remaining count o :
  claimed b0 b (held t ++ rest) -> t_inv b t -> pc t = AAppend remaining count ->
  append_step mk q b t remaining count = Some o -> step_post b0 b rest (Ret o).
Proof using ChunkSource0.
  intros Hc Ht Hpc. unfold t_inv in Ht. rewrite Hpc in Ht. destruct Ht as (Hr & Hw & Hm).
  unfold append_step. destruct (decide (count = ChunkCount b)) as [->|Hne].
  - pose proof (tryAppendChunk_claimed mk b0 b _ Hc) as Hta. unfold tryAppendChunk in Hta.
    rewrite decide_False in Hta by lia.
    destruct (tryAppendChunk_locked mk b (ChunkCount b)) as [b' [e|]].
    + intros [= <-]. destruct Hta as [-> _]. stay.
    + destruct Hta as [Hcl Hcc]. case_decide; [|done]. intros [= <-].
      exists b', (with_pc t (AStart remaining)). split_and!; try done.
      pose proof (bus_bitmap _ (cl_wf _ _ _ Hc)). pose proof (bus_bitmap _ (cl_wf _ _ _ Hcl)).
      lia.
  - unfold tryAppendChunk_locked. rewrite decide_True by done.
    rewrite decide_True by auto. intros [= <-]. stay.
Qed.

Lemma held_word b rest t g todo :
  claimed b0 b (held t ++ rest) -> local t = g :: todo ->
  managed b g /\ 0 <= g / 32 < Z.of_nat (length (bitmap b)).
Proof using Type.
  intros Hc Hl. pose proof (cl_free _ _ _ Hc) as Hf. unfold held in Hf. rewrite Hl in Hf.
  inversion Hf as [|?? [Hm _] _]; subst. split; [done|].
  pose proof (bus_bitmap _ (cl_wf _ _ _ Hc)). unfold managed in Hm.
  unfold_layout. Z.div_mod_to_equations. lia.
Qed.

Lemma free_cas_step_ok b rest t g todo old :
  claimed b0 b (held t ++ rest) -> t_inv b t -> pc t = AFreeCas (g :: todo) old ->
  step_post b0 b rest (free_cas_step b t g todo old).
Proof using Type.
  intros Hc Ht Hpc. unfold t_inv in Ht. rewrite Hpc in Ht.
  destruct (held_word _ _ _ _ _ Hc Ht) as [Hm Hrange].
  pose proof (cl_wf _ _ _ Hc) as Hwf. unfold free_cas_step.
  destruct (bus_wf_word b _ Hwf Hrange) as (cur & -> & Hcur & Hcr). go_bind.
  case_decide as Hd; [|stay].
  pose proof (blk_of_address g (managed_small _ _ Hwf Hm)) as Ha.
  destruct (FreeBlock_ok b (ChunkID (blk_of g)) (BlockIdx (blk_of g)) Hwf) as (b' & -> & Hrel);
    [by rewrite Ha|]. rewrite Ha in Hrel. go_bind.
  eexists _, _. split; [done|]. split_and!.
  - unfold held in *. rewrite Ht in Hc. eapply (claimed_release b0 b b' g); [exact Hc|exact Hrel].
  - done.
  - pose proof (bus_bitmap _ Hwf). pose proof (bus_bitmap _ (rel_wf _ _ _ Hrel)).
    pose proof (rel_count _ _ _ Hrel). lia.
Qed.

(** No step panics, and each keeps the books. *)
Lemma tstep_ok q b rest t o :
  claimed b0 b (held t ++ rest) -> t_inv b t -> tstep mk q b t = Some o ->
  step_post b0 b rest o.
Proof using ChunkSource0.
  intros Hc Ht Hs. pose proof Ht as Ht'. unfold t_inv in Ht. unfold tstep in Hs.
  pose proof (cl_wf _ _ _ Hc) as Hwf.
  assert (0 < Z.of_nat (length (bitmap b)))
    by (pose proof (bus_bitmap _ Hwf); pose proof (bus_count _ Hwf); lia).
  destruct (pc t) as [|rem|start i rem|start i rem w old nv bits|w|rem|rem count|todo|todo old]
    eqn:Hpc.
  - done.
  - injection Hs as <-. apply step_post_local; [done|]. unfold t_inv. simpl.
    split_and!; try lia. apply Z.mod_pos_bound. lia.
  - injection Hs as <-. by apply scan_step_ok.
  - injection Hs as <-. by apply cas_step_ok.
  - injection Hs as <-. eexists _, _. split; [done|]. split_and!.
    + unfold held in *. simpl. by apply claimed_lastSearchPos.
    + done.
    + done.
  - injection Hs as <-. apply step_post_local; [done|]. unfold t_inv.
    case_decide; simpl; [done|]. split_and!; lia.
  - destruct (append_step mk q b t rem count) as [r|] eqn:E; [|done].
    injection Hs as <-. by eapply append_step_ok.
  - destruct todo as [|g todo]; injection Hs as <-; [stay|].
    destruct (held_word _ _ _ _ _ Hc Ht) as [Hm Hrange].
    destruct (bus_wf_word b _ Hwf Hrange) as (old & -> & _). go_bind.
    stay.
  - destruct todo as [|g todo]; injection Hs as <-; [stay|].
    by apply free_cas_step_ok.
Qed.
End preservation.

(** ** From steps to states *)
Lemma all_held_split (ths : list thread) i t :
  ths !! i = Some t ->
  exists rest, (ths ≫= held) ≡ₚ (held t ++ rest) /\
    forall t', (<[i := t']> ths ≫= held) ≡ₚ (held t' ++ rest).
Proof.
  intros Hi. exists ((take i ths ≫= held) ++ (drop (S i) ths ≫= held)).
  assert (Hgen : forall u, (take i ths ++ u :: drop (S i) ths) ≫= held ≡ₚ
    held u ++ (take i ths ≫= held) ++ (drop (S i) ths ≫= held)).
  { intros u. rewrite bind_app, bind_cons. rewrite !app_assoc.
    apply Permutation_app_tail, Permutation_app_comm. }
  split.
  - rewrite <- (take_drop_middle ths i t Hi) at 1. apply Hgen.
  - intros t'. rewrite insert_take_drop by (by eapply lookup_lt_Some). apply Hgen.
Qed.

Section reach.
Context (mk : Z -> option Chunk) `{!ChunkSource mk} (b0 : Bus).

(** Replacing one thread keeps the invariant if the books still balance. *)
Lemma binv_insert s i t b' t' :
  binv b0 s -> threads s !! i = Some t ->
  (forall rest, claimed b0 (sbus s) (held t ++ rest) -> claimed b0 b' (held t' ++ rest)) ->
  t_inv b' t' -> (length (bitmap (sbus s)) <= length (bitmap b'))%nat ->
  binv b0 (mkB b' (<[i := t']> (threads s))).
Proof using Type.
  intros [Hc Hf] Hi Hcl Ht Hl. destruct (all_held_split _ _ _ Hi) as (rest & Hp & Hp').
  split; simpl.
  - unfold all_held in *. simpl. eapply claimed_perm; [|symmetry; apply Hp'].
    apply Hcl. by eapply claimed_perm.
  - apply Forall_insert; [|done]. eapply Forall_impl; [exact Hf|].
    intros u. by apply t_inv_mono.
Qed.

Lemma thread_step_post s i t o :
  binv b0 s -> threads s !! i = Some t -> tstep mk (quiet s) (sbus s) t = Some o ->
  exists b' t', o = Ret (b', t') /\ binv b0 (mkB b' (<[i := t']> (threads s))).
Proof using ChunkSource0.
  intros Hinv Hi Hs. pose proof Hinv as [Hc Hf].
  assert (Ht : t_inv (sbus s) t) by (rewrite Forall_lookup in Hf; by eapply Hf).
  destruct (all_held_split _ _ _ Hi) as (rest & Hp & Hp').
  destruct (tstep_ok mk b0 _ _ rest _ _ (claimed_perm _ _ _ _ Hc Hp) Ht Hs)
    as (b' & t' & -> & Hc' & Ht' & Hl).
  exists b', t'. split; [done|]. split; simpl.
  - unfold all_held. simpl. eapply claimed_perm; [exact Hc'|symmetry; apply Hp'].
  - apply Forall_insert; [|done]. eapply Forall_impl; [exact Hf|].
    intros u. by apply t_inv_mono.
Qed.

Lemma binv_step s s' : binv b0 s -> bstep mk s s' -> binv b0 s'.
Proof using ChunkSource0.
  intros Hinv Hs. destruct Hs as [s i t n Hi Hpc Hn|s i t gs rest Hi Hpc Hp|s i t b' t' Hi Ht].
  - assert (local t = []) as Hl.
    { pose proof (bi_threads _ _ Hinv) as Hf. rewrite Forall_lookup in Hf.
      specialize (Hf _ _ Hi). unfold t_inv in Hf. by rewrite Hpc in Hf. }
    eapply binv_insert; [done|done| |unfold t_inv; simpl; lia|done].
    intros rest. unfold held. by rewrite Hl.
  - assert (local t = []) as Hl.
    { pose proof (bi_threads _ _ Hinv) as Hf. rewrite Forall_lookup in Hf.
      specialize (Hf _ _ Hi). unfold t_inv in Hf. by rewrite Hpc in Hf. }
    eapply binv_insert; [done|done| |done|done].
    intros rest' Hc. eapply claimed_perm; [exact Hc|]. unfold held. rewrite Hl. simpl.
    by rewrite Hp.
  - destruct (thread_step_post s i t _ Hinv Hi Ht) as (b1 & t1 & [= -> ->] & H). done.
Qed.

Lemma binv_init n : bus_wf b0 -> binv b0 (binit b0 n).
Proof using Type.
  intros Hwf. split; simpl.
  - unfold all_held. simpl.
    replace (replicate n (mkT AIdle 0 [] []) ≫= held) with (@nil Z); [by apply claimed_refl|].
    symmetry. induction n; [done|]. simpl. done.
  - by apply Forall_replicate.
Qed.

Lemma binv_reach n s : bus_wf b0 -> breach mk b0 n s -> binv b0 s.
Proof using ChunkSource0.
  intros Hwf Hr. unfold breach in Hr. pose proof (binv_init n Hwf) as Hi. revert Hi.
  induction Hr as [s|s s1 s' Hs Hrest IH]; intros Hi; [done|].
  apply IH. by eapply binv_step.
Qed.

Lemma brun1_step s s' a : brun1 mk s a = Some s' -> bstep mk s s'.
Proof using Type.
  destruct a as [i n|i k|i]; cbn [brun1]; intros H;
    (destruct (threads s !! i) as [t|] eqn:Hi; [|done]); cbn [mbind option_bind] in H.
  - destruct (pc t) eqn:Hpc; try done. case_decide; [|done]. injection H as <-.
    by apply call_alloc.
  - destruct (pc t) eqn:Hpc; try done. injection H as <-.
    eapply call_free; [done|done|]. by rewrite take_drop.
  - destruct (tstep mk (quiet s) (sbus s) t) as [[[b' t']| |]|] eqn:E; try done.
    injection H as <-. by eapply thread_step.
Qed.

Lemma brun_rtc l : forall s s', brun mk s l = Some s' -> rtc (bstep mk) s s'.
Proof using Type.
  induction l as [|a l IH]; intros s s'; cbn [brun]; intros H.
  - injection H as ->. apply rtc_refl.
  - destruct (brun1 mk s a) as [s1|] eqn:E; [|done].
    eapply rtc_l; [by eapply brun1_step|by apply IH].
Qed.
End reach.

(** Blocks of different threads are different. *)
Lemma held_disjoint (ths : list thread) i j ti tj g :
  NoDup (ths ≫= held) -> ths !! i = Some ti -> ths !! j = Some tj -> i <> j ->
  g ∈ held ti -> g ∈ held tj -> False.
Proof.
  intros Hnd Hi Hj Hne Hgi Hgj.
  destruct (all_held_split _ _ _ Hi) as (rest & Hp & Hp').
  rewrite Hp in Hnd. apply NoDup_app in Hnd as (_ & Hd & _). apply (Hd g Hgi).
  specialize (Hp' (mkT AIdle 0 [] [])). simpl in Hp'. rewrite <- Hp'.
  apply list_elem_of_bind. exists tj. split; [done|].
  apply list_elem_of_lookup. exists j. by rewrite list_lookup_insert_ne.
Qed.

(** ** Theorems *)

(** C10: Blocks are never shared.  However the atomic accesses of any number
    of [AllocBlocks] and [FreeBlock] calls interleave (a chunk being appended
    in between included), in every reachable state no two threads hold the
    same block and none holds one twice, a block is marked used exactly if it
    was used from the start or some thread holds it, an allocation about to
    return holds exactly the number of blocks asked for, and no step
    panics. *)
Theorem bus_concurrent_exclusive mk b n s :
  ChunkSource mk -> bus_wf b -> breach mk b n s ->
  (forall i j ti tj g, threads s !! i = Some ti -> threads s !! j = Some tj -> i <> j ->
     g ∈ held ti -> g ∈ held tj -> False) /\
  NoDup (all_held s) /\
  (forall g, 0 <= g -> used (sbus s) g = used b g || bool_decide (g ∈ all_held s)) /\
  (forall g, g ∈ all_held s -> used b g = false) /\
  (forall i t w, threads s !! i = Some t -> pc t = AStorePos w ->
     Z.of_nat (length (local t)) = want t) /\
  (forall i t o, threads s !! i = Some t -> tstep mk (quiet s) (sbus s) t = Some o ->
     exists b' t', o = Ret (b', t')).
Proof.
  intros Hmk Hwf Hr. pose proof (binv_reach mk b n s Hwf Hr) as Hinv.
  pose proof Hinv as [Hc Hf]. split_and!.
  - intros i j ti tj g. by apply (held_disjoint (threads s)), Hc.
  - apply Hc.
  - apply Hc.
  - intros g Hg. pose proof (cl_free _ _ _ Hc) as Hfr. rewrite Forall_forall in Hfr.
    by apply Hfr.
  - intros i t w Hi Hpc. rewrite Forall_lookup in Hf. specialize (Hf _ _ Hi).
    unfold t_inv in Hf. by rewrite Hpc in Hf.
  - intros i t o Hi Ho. destruct (thread_step_post mk b s i t o Hinv Hi Ho)
      as (b' & t' & -> & _). by exists b', t'.
Qed.

Lemma bus_concurrent_exclusive_witness :
  exists s, brun demo_mk (binit demo_bus 2) demo_race = Some s /\
    all_held s = [1; 2; 3; 4] /\ NoDup (all_held s) /\
    (forall g, 0 <= g -> used (sbus s) g = used demo_bus g || bool_decide (g ∈ all_held s)).
Proof.
  assert (Hv : all_held <$> brun demo_mk (binit demo_bus 2) demo_race = Some [1; 2; 3; 4])
    by (vm_compute; reflexivity).
  destruct (brun demo_mk (binit demo_bus 2) demo_race) as [s|] eqn:E; [|discriminate Hv].
  injection Hv as Hh.
  destruct (bus_concurrent_exclusive demo_mk demo_bus 2 s demo_mk_source demo_bus_wf)
    as (_ & Hnd & Hu & _).
  - eapply brun_rtc. exact E.
  - exists s. split; [reflexivity|]. split; [exact Hh|]. split; [exact Hnd|exact Hu].
Defined.
