(* ===== verification/Dial.v ===== *)
(** * Announcing chunks to nodes

    [Hub.Dial] and [Hub.AppendedChunkBroacast] of go/hub/hub.go against
    [Bus.tryAppendChunk] of go/shm/bus.go.  A node learns of the chunks from
    three places: the handshake, a second message of [Dial] for the chunks
    that appeared since, and the broadcast of every chunk appended later.
    Each lock operation, counter access and send is one step here; any number
    of diallers and the appender interleave.

    The sockets are a parameter: whether a send succeeds is part of the
    schedule.  So are the names the nodes are dialled under, which are the
    keys of the node table: two diallers may use the same one. *)
From stdpp Require Import base tactics list numbers option relations.
From Stdlib Require Import ZArith Lia.
From S2P Require Import Prelude Layout.
#[local] Open Scope nat_scope.

(** ** State *)

(** The appender, which holds [tryAppendChunkMux] throughout; there is one at
    a time.  From [AAppend] on it holds [bus.mu]. *)
Inductive apc : Type :=
| AIdle
| ALock (fd : nat)                       (* has made the chunk; about to lock bus.mu *)
| AAppend (fd : nat)                     (* about to append chunk and bitmap words *)
| ACount                                 (* about to add 1 to chunkCount *)
| ARLock                                 (* about to lock hub.mu for reading *)
| ACopy                                  (* about to copy the node table, unlock hub.mu *)
| ASend (todo : list nat).               (* about to send to the next node, or unlock bus.mu *)

#[export] Instance apc_eq_dec : EqDecision apc.
Proof. solve_decision. Defined.

(** A call of [Dial] that has its connection, node id and eventfd. *)
Inductive dpc : Type :=
| DRLock                                 (* about to lock hub.mu for reading *)
| DCount                                 (* about to read chunkCount *)
| DGet (count : nat) (fds : list nat)    (* about to get the next chunk, or unlock hub.mu *)
| DSend (count : nat) (fds : list nat)   (* about to send the handshake *)
| DLock (count : nat)                    (* about to lock hub.mu *)
| DAfter (count : nat)                   (* about to read chunkCount again *)
| DExtra (count after : nat) (fds : list nat)
                                         (* about to get the next new chunk, or send them *)
| DReg                                   (* about to enter the table, unlock hub.mu *)
| DDone
| DFail.                                 (* returned an error *)

#[export] Instance dpc_eq_dec : EqDecision dpc.
Proof. solve_decision. Defined.

(** [chunks] are the descriptors of the bus; [nodes] are the diallers whose
    node is in the table; [inbox] is what was sent to each node and whether the
    send succeeded, [None] once its connection is broken. *)
Record dstate : Type := mkD {
  chunks : list nat;
  chunkCount : nat;
  appender : apc;
  diallers : list dpc;
  nodes : list nat;
  inbox : list (option (list (nat * bool)));
}.

(** The chunks that were announced to a node, and those that it was told of. *)
Definition tried (o : option (list (nat * bool))) : option (list nat) := (fun l => l.*1) <$> o.
Definition told (l : list (nat * bool)) : list nat := (filter (fun x => x.2 = true) l).*1.

(** ** Locks *)
Definition bus_locked (a : apc) : bool :=
  match a with AIdle | ALock _ => false | _ => true end.

Definition hub_reads (p : dpc) : bool :=
  match p with DCount | DGet _ _ => true | _ => false end.
Definition hub_writes (p : dpc) : bool :=
  match p with DAfter _ | DExtra _ _ _ | DReg => true | _ => false end.

(** [hub.mu] can be locked for reading, or for writing. *)
Definition can_read (s : dstate) : bool := forallb (fun p => negb (hub_writes p)) (diallers s).
Definition can_write (s : dstate) : bool :=
  can_read s && forallb (fun p => negb (hub_reads p)) (diallers s) &&
  match appender s with ACopy => false | _ => true end.

(** ** Steps *)

(** [SendMsgWithFDs] to node [i]. *)
Definition deliver (ib : list (option (list (nat * bool)))) (i : nat) (fds : list nat) (ok : bool)
  : list (option (list (nat * bool))) :=
  alter (fun o => (fun l => l ++ ((fun fd => (fd, ok)) <$> fds)) <$> o) i ib.

(** [AppendedChunkBroacast], the callback of [tryAppendChunk], which still
    holds [bus.mu]: one step, [ok] whether the send succeeds.  [syncChunk]
    drops the error of a send that fails, and the node stays in the table. *)
Definition AppendedChunkBroacast (s : dstate) (ok : bool) : option dstate :=
  let '(mkD cs k a ds ns ib) := s in
  match a with
  | ARLock => if can_read s then Some (mkD cs k ACopy ds ns ib) else None
  | ACopy => Some (mkD cs k (ASend ns) ds ns ib)
  | ASend [] => Some (mkD cs k AIdle ds ns ib)
  | ASend (i :: todo) =>
      fd ← last cs;
      Some (mkD cs k (ASend todo) ds ns (deliver ib i [fd] ok))
  | _ => None
  end.

(** [tryAppendChunk].  [count] is what the caller read when it came in, before
    it waited for [tryAppendChunkMux]; [fd] is the descriptor of the chunk
    [NewChunk] makes, none if that fails.  A call that is refused, or that
    finds the count changed, or that gets no chunk, leaves all as it is. *)
Definition append_chunk (s : dstate) (count : nat) (fd : option nat) (ok : bool) : option dstate :=
  let '(mkD cs k a ds ns ib) := s in
  match a with
  | AIdle =>
      if decide (MaxChunks <= Z.of_nat count)%Z then Some s
      else if decide (count = k) then
        match fd with
        | Some fd => Some (mkD cs k (ALock fd) ds ns ib)
        | None => Some s
        end
      else Some s
  | ALock fd => Some (mkD cs k (AAppend fd) ds ns ib)
  | AAppend fd => Some (mkD (cs ++ [fd]) k ACount ds ns ib)
  | ACount => Some (mkD cs (S k) ARLock ds ns ib)
  | ARLock | ACopy | ASend _ => AppendedChunkBroacast s ok
  end.

(** [GetChunk] takes [bus.mu] for reading; a chunk that is not there would be
    a nil dereference. *)
Definition get_chunk (s : dstate) (i : nat) : option nat :=
  if bus_locked (appender s) then None else chunks s !! i.

Definition set_dialler (s : dstate) (i : nat) (p : dpc) : dstate :=
  mkD (chunks s) (chunkCount s) (appender s) (<[i := p]> (diallers s)) (nodes s) (inbox s).
Definition set_inbox (s : dstate) (ib : list (option (list (nat * bool)))) : dstate :=
  mkD (chunks s) (chunkCount s) (appender s) (diallers s) (nodes s) ib.
Definition set_nodes (s : dstate) (ns : list nat) : dstate :=
  mkD (chunks s) (chunkCount s) (appender s) (diallers s) ns (inbox s).

(** The table without the entry for the name of [i]. *)
Definition unlisted (name : nat -> nat) (i : nat) (ns : list nat) : list nat :=
  filter (fun j => name j <> name i) ns.

(** One step of dialler [i]. *)
Definition dial (name : nat -> nat) (s : dstate) (i : nat) (ok : bool) : option dstate :=
  p ← diallers s !! i;
  match p with
  | DRLock => if can_read s then Some (set_dialler s i DCount) else None
  | DCount => Some (set_dialler s i (DGet (chunkCount s) []))
  | DGet count fds =>
      if decide (length fds < count) then
        fd ← get_chunk s (length fds);
        Some (set_dialler s i (DGet count (fds ++ [fd])))
      else Some (set_dialler s i (DSend count fds))
  | DSend count fds =>
      Some (set_dialler (set_inbox s (deliver (inbox s) i fds ok)) i
              (if ok then DLock count else DFail))
  | DLock count => if can_write s then Some (set_dialler s i (DAfter count)) else None
  | DAfter count =>
      let after := chunkCount s in
      Some (set_dialler s i
              (if decide (count < after) then DExtra count after [] else DReg))
  | DExtra count after fds =>
      if decide (length fds < after - count) then
        fd ← get_chunk s (length fds + count);
        Some (set_dialler s i (DExtra count after (fds ++ [fd])))
      else Some (set_dialler (set_inbox s (deliver (inbox s) i fds ok)) i
                   (if ok then DReg else DFail))
  | DReg => Some (set_dialler (set_nodes s (i :: unlisted name i (nodes s))) i DDone)
  | DDone | DFail => None
  end.

(** The connection of node [i] breaks and [watchdog] takes the entry for its
    name off the table. *)
Definition hang_up (name : nat -> nat) (s : dstate) (i : nat) : option dstate :=
  p ← diallers s !! i;
  match p with
  | DDone =>
      if can_write s then
        Some (set_inbox (set_nodes s (unlisted name i (nodes s)))
                (alter (fun _ => None) i (inbox s)))
      else None
  | _ => None
  end.

Inductive dact : Type :=
| Append (count : nat) (fd : option nat) (ok : bool)
| Dialler (i : nat) (ok : bool)
| HangUp (i : nat).

Definition drun1 (name : nat -> nat) (s : dstate) (a : dact) : option dstate :=
  match a with
  | Append count fd ok => append_chunk s count fd ok
  | Dialler i ok => dial name s i ok
  | HangUp i => hang_up name s i
  end.

Definition dstep (name : nat -> nat) (s s' : dstate) : Prop := exists a, drun1 name s a = Some s'.

Fixpoint drun (name : nat -> nat) (s : dstate) (l : list dact) : option dstate :=
  match l with
  | [] => Some s
  | a :: l' => s' ← drun1 name s a; drun name s' l'
  end.

(** A bus with the chunks [cs], [n] calls of [Dial] about to read the table. *)
Definition dinit (cs : list nat) (n : nat) : dstate :=
  mkD cs (length cs) AIdle (replicate n DRLock) [] (replicate n (Some [])).

(** ** The invariant *)

(** How many chunks need no broadcast any more: all but one whose broadcast
    has yet to look at the node table. *)
Definition settled (s : dstate) : nat :=
  match appender s with
  | ACount | ARLock | ACopy => pred (length (chunks s))
  | _ => length (chunks s)
  end.

(** What is still owed to node [i] of the chunks it counts as known. *)
Definition owed (s : dstate) (i : nat) : nat :=
  match appender s with
  | ASend todo => if decide (i ∈ todo) then pred (length (chunks s)) else length (chunks s)
  | _ => settled s
  end.

Definition count_inv (s : dstate) : Prop :=
  match appender s with
  | ACount => length (chunks s) = S (chunkCount s)
  | _ => length (chunks s) = chunkCount s
  end.

Definition d_inv (s : dstate) (i : nat) (p : dpc) (got : option (list nat)) : Prop :=
  match p with
  | DRLock | DCount => got = Some []
  | DGet count fds =>
      got = Some [] /\ length fds <= count <= chunkCount s /\ length fds <= settled s /\
      fds = take (length fds) (chunks s)
  | DSend count fds =>
      got = Some [] /\ count <= settled s /\ fds = take count (chunks s)
  | DLock count | DAfter count =>
      count <= settled s /\ got = Some (take count (chunks s))
  | DExtra count after fds =>
      count < after /\ count <= settled s /\ got = Some (take count (chunks s)) /\
      ((after = settled s /\ length fds <= after - count /\
        fds = take (length fds) (drop count (chunks s))) \/
       (appender s = ARLock /\ fds = []))
  | DReg => got = Some (take (settled s) (chunks s))
  | DDone => forall l, got = Some l -> l = take (owed s i) (chunks s)
  | DFail => True
  end.

Record dinv (s : dstate) : Prop := {
  di_count : count_inv s;
  di_pos : 0 < chunkCount s;
  di_len : length (inbox s) = length (diallers s);
  di_dial : forall i p got, diallers s !! i = Some p -> inbox s !! i = Some got ->
    (p = DDone -> i ∈ nodes s) -> d_inv s i p (tried got);
  di_todo : forall todo, appender s = ASend todo -> NoDup todo /\
    forall i, i ∈ todo -> diallers s !! i = Some DDone;
  di_nodes : NoDup (nodes s) /\ forall i, i ∈ nodes s -> diallers s !! i = Some DDone;
  di_copy : appender s = ACopy -> can_read s = true;
  di_one : forall i j p r, diallers s !! i = Some p -> diallers s !! j = Some r ->
    hub_writes p = true -> hub_writes r = true -> i = j;
}.

(** ** Lemmas on the pieces *)
Lemma can_read_spec s :
  can_read s = true <-> forall i p, diallers s !! i = Some p -> hub_writes p = false.
Proof.
  unfold can_read. rewrite forallb_forall. split.
  - intros H i p Hi. apply negb_true_iff, H, list_elem_of_In. by eapply list_elem_of_lookup_2.
  - intros H p Hp. apply list_elem_of_In, list_elem_of_lookup in Hp as [i Hi].
    apply negb_true_iff. by eapply H.
Qed.

Lemma can_write_read s : can_write s = true -> can_read s = true /\ appender s <> ACopy.
Proof. unfold can_write. destruct (can_read s), (appender s), forallb; done. Qed.

Lemma lookup_deliver_ne ib i j fds ok : i <> j -> deliver ib i fds ok !! j = ib !! j.
Proof. intros Hij. unfold deliver. by apply list_lookup_alter_ne. Qed.

Lemma lookup_deliver ib i fds ok :
  deliver ib i fds ok !! i = (fun o => (fun l => l ++ ((fun fd => (fd, ok)) <$> fds)) <$> o) <$> ib !! i.
Proof. apply list_lookup_alter_eq. Qed.

Lemma tried_deliver ib i fds ok got :
  deliver ib i fds ok !! i = Some got ->
  exists got0, ib !! i = Some got0 /\ tried got = (fun l => l ++ fds) <$> tried got0.
Proof.
  rewrite lookup_deliver. intros (got0 & Hg & ->)%fmap_Some. exists got0. split; [done|].
  destruct got0 as [l|]; [|done]. cbn. rewrite fmap_app, <- list_fmap_compose. f_equal. f_equal.
  apply list_fmap_id.
Qed.

Lemma unlisted_in name i ns j : j ∈ unlisted name i ns -> j ∈ ns /\ name j <> name i.
Proof. unfold unlisted. rewrite list_elem_of_filter. by intros [? ?]. Qed.

Lemma length_deliver ib i fds ok : length (deliver ib i fds ok) = length ib.
Proof. apply length_alter. Qed.

(** Nobody but [i] takes the entry for a name that only [i] uses. *)
Lemma unlisted_keeps name i j ns :
  (forall k, name k = name i -> k = i) -> j <> i -> i ∈ ns -> i ∈ unlisted name j ns.
Proof. intros Hn Hj Hi. unfold unlisted. apply list_elem_of_filter. split; [|done]. intros E. by apply Hj, Hn. Qed.

(** What is said of a dialler depends on the bus and the appender only. *)
Lemma d_inv_ext s s' i p got :
  chunks s' = chunks s -> chunkCount s' = chunkCount s -> appender s' = appender s ->
  d_inv s i p got -> d_inv s' i p got.
Proof.
  intros Hc Hk Ha. unfold d_inv, owed, settled. rewrite Hc, Hk, Ha. done.
Qed.

Lemma settled_bound s : dinv s -> settled s <= chunkCount s <= length (chunks s) /\
  length (chunks s) <= S (settled s).
Proof.
  intros Hi. pose proof (di_count _ Hi) as Hc. pose proof (di_pos _ Hi).
  unfold count_inv, settled in *. destruct (appender s); lia.
Qed.

(** With [bus.mu] free nothing is about to be broadcast. *)
Lemma settled_free s : bus_locked (appender s) = false -> settled s = length (chunks s).
Proof. unfold settled. by destruct (appender s). Qed.

(** ** A step of a dialler *)
Section dialler.
Context (name : nat -> nat) (s : dstate) (i : nat) (p p' : dpc) (ns : list nat).
Context (ib : list (option (list (nat * bool)))).
Context (Hinv : dinv s) (Hi : diallers s !! i = Some p) (Hp : p <> DDone).
Let s' := mkD (chunks s) (chunkCount s) (appender s) (<[i := p']> (diallers s)) ns ib.

(** Only one dialler holds [hub.mu] for writing. *)
Lemma dialler_one :
  (hub_writes p' = true -> hub_writes p = true \/ can_write s = true) ->
  forall j k r t, <[i := p']> (diallers s) !! j = Some r -> <[i := p']> (diallers s) !! k = Some t ->
    hub_writes r = true -> hub_writes t = true -> j = k.
Proof using Hinv Hi.
  intros Hw. pose proof (lookup_lt_Some _ _ _ Hi) as Hlt.
  assert (Hone : forall j r, i <> j -> diallers s !! j = Some r -> hub_writes p' = true ->
    hub_writes r = true -> False).
  { intros j r Hij Hj H1 H2. destruct (Hw H1) as [Hw'|Hw'].
    - apply Hij. by eapply (di_one _ Hinv).
    - apply can_write_read in Hw' as [Hw' _]. rewrite can_read_spec in Hw'.
      by rewrite (Hw' j r Hj) in H2. }
  intros j k r t Hj Hk H1 H2.
  destruct (decide (i = j)) as [<-|Hij], (decide (i = k)) as [<-|Hik]; [done|..].
  + rewrite list_lookup_insert_eq in Hj by done. rewrite list_lookup_insert_ne in Hk by done.
    injection Hj as <-. by destruct (Hone k t).
  + rewrite list_lookup_insert_eq in Hk by done. rewrite list_lookup_insert_ne in Hj by done.
    injection Hk as <-. by destruct (Hone j r).
  + rewrite list_lookup_insert_ne in Hj, Hk by done. by eapply (di_one _ Hinv).
Qed.

Lemma dialler_step :
  length ib = length (inbox s) -> (forall j, i <> j -> ib !! j = inbox s !! j) ->
  (forall got, ib !! i = Some got -> d_inv s' i p' (tried got)) ->
  (ns = nodes s /\ p' <> DDone \/ ns = i :: unlisted name i (nodes s) /\ p' = DDone) ->
  (hub_writes p' = true -> hub_writes p = true \/ can_write s = true) ->
  dinv s'.
Proof using All.
  intros Hlen Hib Hown Hns Hw. pose proof (lookup_lt_Some _ _ _ Hi) as Hlt.
  assert (Hne : forall j, diallers s !! j = Some DDone -> i <> j) by (intros j Hj ->; congruence).
  assert (Hkeep : forall j, diallers s !! j = Some DDone -> diallers s' !! j = Some DDone).
  { intros j Hj. cbn. by rewrite list_lookup_insert_ne by (by apply Hne). }
  assert (Hni : i ∉ nodes s) by (intros Hin; by apply (Hne i (proj2 (di_nodes _ Hinv) i Hin))).
  split.
  - exact (di_count _ Hinv).
  - exact (di_pos _ Hinv).
  - cbn. rewrite Hlen, length_insert. apply Hinv.
  - intros j r got Hj Hg Hin. cbn in Hj, Hg, Hin. destruct (decide (i = j)) as [->|Hij].
    + rewrite list_lookup_insert_eq in Hj by done. injection Hj as <-. by apply Hown.
    + rewrite list_lookup_insert_ne in Hj by done. rewrite Hib in Hg by done.
      apply (d_inv_ext s); [done..|]. apply (di_dial _ Hinv); [done|done|]. intros Hr.
      specialize (Hin Hr). destruct Hns as [[-> _]|[-> _]]; [done|].
      apply elem_of_cons in Hin as [->|Hin]; [done|]. by apply unlisted_in in Hin as [? _].
  - intros todo Ha. destruct (di_todo _ Hinv todo Ha) as [Hnd Hin]. split; [done|]. auto.
  - destruct (di_nodes _ Hinv) as [Hnd Hin]. cbn. destruct Hns as [[-> _]|[-> ->]]; [auto|].
    split; [constructor; [|by apply NoDup_filter]; by intros [? _]%unlisted_in|].
    intros j [->|[Hj _]%unlisted_in]%elem_of_cons; [by rewrite list_lookup_insert_eq|]. by apply Hkeep, Hin.
  - intros Ha. cbn in Ha. apply can_read_spec. intros j r Hj. cbn in Hj.
    pose proof (proj1 (can_read_spec s) (di_copy _ Hinv Ha)) as Hr.
    destruct (decide (i = j)) as [->|Hij].
    + rewrite list_lookup_insert_eq in Hj by done. injection Hj as <-.
      destruct (hub_writes p') eqn:Ew; [|done]. destruct (Hw eq_refl) as [Hw'|Hw'].
      * by rewrite (Hr j p Hi) in Hw'.
      * by apply can_write_read in Hw' as [_ Hw'].
    + rewrite list_lookup_insert_ne in Hj by done. by eapply Hr.
  - by apply dialler_one.
Qed.
End dialler.

(** The next descriptor of a list being filled from the chunks. *)
Lemma take_next (cs fds : list nat) (k fd : nat) :
  fds = take (length fds) (drop k cs) -> cs !! (length fds + k) = Some fd ->
  fds ++ [fd] = take (length (fds ++ [fd])) (drop k cs).
Proof.
  intros Hf Hc. rewrite length_app, Nat.add_1_r, (take_S_r _ _ fd); [by rewrite <- Hf|].
  by rewrite lookup_drop, Nat.add_comm.
Qed.

Lemma get_chunk_Some s k fd :
  get_chunk s k = Some fd -> bus_locked (appender s) = false /\ chunks s !! k = Some fd.
Proof. unfold get_chunk. by destruct (bus_locked (appender s)). Qed.

(** What the second reading of the counter leads to. *)
Lemma after_inv s i p' count got :
  dinv s -> diallers s !! i = Some (DAfter count) -> count <= settled s ->
  got = Some (take count (chunks s)) ->
  p' = (if decide (count < chunkCount s) then DExtra count (chunkCount s) [] else DReg) ->
  d_inv s i p' got.
Proof.
  intros Hinv Hi Hc -> ->. pose proof (settled_bound _ Hinv) as Hb.
  pose proof (di_count _ Hinv) as Hk.
  assert (Hcopy : appender s <> ACopy).
  { intros Ha. pose proof (proj1 (can_read_spec s) (di_copy _ Hinv Ha) i _ Hi). done. }
  case_decide as Hlt; cbn; [|do 2 f_equal; lia].
  split; [done|]. split; [done|]. split; [done|].
  unfold count_inv, settled in *. destruct (appender s); try done; try (left; split; [lia|split; [lia|done]]).
  right. done.
Qed.

(** The second message carries the chunks up to the settled ones. *)
Lemma extra_sent s count after fds :
  count < after -> after - count <= length fds ->
  (after = settled s /\ length fds <= after - count /\
   fds = take (length fds) (drop count (chunks s))) \/ (appender s = ARLock /\ fds = []) ->
  take count (chunks s) ++ fds = take (settled s) (chunks s).
Proof.
  intros Hlt Hle [(-> & H1 & H2)|[_ ->]]; [|simpl in Hle; lia].
  rewrite H2. replace (length fds) with (settled s - count) by lia.
  rewrite take_drop_commute. replace (count + (settled s - count)) with (settled s) by lia.
  rewrite <- (take_drop count (take (settled s) (chunks s))) at 2. f_equal.
  rewrite take_take. f_equal. lia.
Qed.

(** Filling the lists. *)
Lemma get_step s i count fds fd :
  get_chunk s (length fds) = Some fd -> length fds < count ->
  d_inv s i (DGet count fds) (Some []) -> d_inv s i (DGet count (fds ++ [fd])) (Some []).
Proof.
  intros [Hfree Hfd]%get_chunk_Some Hlt (_ & H2 & H3 & H4). apply settled_free in Hfree.
  pose proof (lookup_lt_Some _ _ _ Hfd). cbn. rewrite length_app. cbn.
  split; [done|]. split; [lia|]. split; [lia|].
  rewrite <- (drop_0 (chunks s)) in H4 |- *.
  rewrite (take_next _ _ 0 fd H4) at 1 by (by rewrite Nat.add_0_r).
  by rewrite length_app.
Qed.

Lemma extra_step s i count after fds fd got :
  get_chunk s (length fds + count) = Some fd -> length fds < after - count ->
  d_inv s i (DExtra count after fds) got -> d_inv s i (DExtra count after (fds ++ [fd])) got.
Proof.
  intros [Hfree Hfd]%get_chunk_Some Hlt (H1 & H2 & H3 & H4). cbn.
  split; [done|]. split; [done|]. split; [done|]. left.
  destruct H4 as [(-> & H4 & H5)|[Ha _]]; [|by rewrite Ha in Hfree].
  split; [done|]. rewrite length_app. cbn. split; [lia|].
  rewrite (take_next _ _ count fd H5 Hfd) at 1. by rewrite length_app.
Qed.

Lemma dial_inv name s i ok s' : dial name s i ok = Some s' -> dinv s -> dinv s'.
Proof.
  intros (p & Hi & H)%bind_Some Hinv.
  pose proof (fun got => di_dial _ Hinv i p got Hi) as Hd.
  pose proof (length_deliver (inbox s) i) as Hlen.
  assert (Hne : forall fds ok j, i <> j -> deliver (inbox s) i fds ok !! j = inbox s !! j)
    by (intros; by apply lookup_deliver_ne).
  assert (Hd' : p <> DDone -> forall got, inbox s !! i = Some got -> d_inv s i p (tried got))
    by (intros Hp got Hg; by apply Hd).
  destruct p as [| |count fds|count fds|count|count|count after fds| | |]; try done;
    specialize (Hd' ltac:(done)); clear Hd.
  - destruct (can_read s); [|done]. injection H as <-.
    apply (dialler_step name s i _ _ (nodes s) (inbox s) Hinv Hi); auto.
  - injection H as <-. apply (dialler_step name s i _ _ (nodes s) (inbox s) Hinv Hi); auto.
    intros got Hg%Hd'. cbn in Hg |- *. rewrite Hg. pose proof (settled_bound _ Hinv).
    split; [done|]. split; [lia|]. split; [lia|done].
  - case_decide as Hlt.
    + apply bind_Some in H as (fd & Hg & [= <-]).
      apply (dialler_step name s i _ _ (nodes s) (inbox s) Hinv Hi); auto.
      intros got Hgot%Hd'. pose proof Hgot as [Et _]. rewrite Et in Hgot |- *.
      apply (d_inv_ext s); [done..|]. by apply get_step.
    + injection H as <-. apply (dialler_step name s i _ _ (nodes s) (inbox s) Hinv Hi); auto.
      intros got (H1 & H2 & H3 & H4)%Hd'. apply (d_inv_ext s); [done..|]. cbn.
      assert (count = length fds) as -> by lia. done.
  - injection H as <-. apply (dialler_step name s i _ _ (nodes s) (deliver (inbox s) i fds ok) Hinv Hi);
      try (destruct ok; auto; fail); auto.
    intros got (got0 & (H1 & H2 & ->)%Hd' & Ht)%tried_deliver. rewrite Ht, H1.
    apply (d_inv_ext s); [done..|]. by destruct ok.
  - destruct (can_write s) eqn:Ew; [|done]. injection H as <-.
    apply (dialler_step name s i _ _ (nodes s) (inbox s) Hinv Hi); auto.
  - injection H as <-. apply (dialler_step name s i _ _ (nodes s) (inbox s) Hinv Hi); auto.
    + intros got [H1 H2]%Hd'. apply (d_inv_ext s); [done..|]. by eapply after_inv.
    + left. split; [done|]. by case_decide.
  - case_decide as Hlt.
    + apply bind_Some in H as (fd & Hg & [= <-]).
      apply (dialler_step name s i _ _ (nodes s) (inbox s) Hinv Hi); auto.
      intros got Hgot%Hd'. apply (d_inv_ext s); [done..|]. by apply extra_step.
    + injection H as <-.
      apply (dialler_step name s i _ _ (nodes s) (deliver (inbox s) i fds ok) Hinv Hi);
        try (destruct ok; auto; fail); auto.
      intros got (got0 & (H1 & H2 & H3 & H4)%Hd' & Ht)%tried_deliver. rewrite Ht, H3.
      apply (d_inv_ext s); [done..|]. destruct ok; cbn; [|done].
      f_equal. eapply extra_sent; [exact H1|lia|exact H4].
  - injection H as <-.
    apply (dialler_step name s i _ _ (i :: unlisted name i (nodes s)) (inbox s) Hinv Hi); auto.
    intros got ->%Hd' l [= <-]. f_equal. unfold owed. cbn. unfold settled.
    destruct (appender s) as [| | | | | |todo] eqn:Ea; try done.
    rewrite decide_False; [done|]. intros Hin.
    pose proof (proj2 (di_todo _ Hinv todo Ea) i Hin). congruence.
Qed.

(** ** A step of the appender *)
Lemma appender_step s cs k a :
  dinv s ->
  let s' := mkD cs k a (diallers s) (nodes s) (inbox s) in
  count_inv s' -> 0 < k ->
  (forall i p got, diallers s !! i = Some p -> (p = DDone -> i ∈ nodes s) ->
     d_inv s i p got -> d_inv s' i p got) ->
  (forall todo, a = ASend todo -> todo = nodes s \/
     exists i, appender s = ASend (i :: todo)) ->
  (a = ACopy -> can_read s = true) ->
  dinv s'.
Proof.
  intros Hinv s' Hc Hk Hd Ht Hcp. split; cbn; try done.
  - apply Hinv.
  - intros i p got Hi Hg Hin. apply Hd; [done|done|]. by apply (di_dial _ Hinv).
  - intros todo ->. destruct (Ht todo eq_refl) as [Hn|(i & Ha)];
      [rewrite Hn; exact (di_nodes _ Hinv)|].
    destruct (di_todo _ Hinv _ Ha) as [Hnd Hin]. apply NoDup_cons in Hnd as [_ Hnd].
    split; [done|]. intros j Hj. apply Hin. by apply list_elem_of_further.
  - exact (di_nodes _ Hinv).
  - exact (di_one _ Hinv).
Qed.

(** [d_inv] survives while the settled chunks stay what they are. *)
Lemma d_inv_settled s s' i p got :
  chunkCount s <= chunkCount s' -> settled s' = settled s ->
  take (settled s) (chunks s') = take (settled s) (chunks s) ->
  (appender s = ARLock -> hub_writes p = true -> appender s' = ARLock) ->
  owed s' i = settled s' -> owed s i = settled s ->
  d_inv s i p got -> d_inv s' i p got.
Proof.
  intros Hk Hs Ht Ha Ho1 Ho2.
  assert (Htk : forall n, n <= settled s -> take n (chunks s') = take n (chunks s)).
  { intros n Hn. rewrite <- (Nat.min_l n (settled s)), <- !take_take by done. by rewrite Ht. }
  destruct p as [| |count fds|count fds|count|count|count after fds| | |]; cbn [d_inv]; rewrite ?Hs.
  - done.
  - done.
  - intros (H1 & H2 & H3 & H4). split; [done|]. split; [lia|]. split; [done|].
    by rewrite Htk.
  - intros (H1 & H2 & H3). split; [done|]. split; [done|]. by rewrite Htk.
  - intros [H1 H2]. split; [done|]. by rewrite Htk.
  - intros [H1 H2]. split; [done|]. by rewrite Htk.
  - intros (H1 & H2 & H3 & H4). split; [done|]. split; [done|]. split; [by rewrite Htk|].
    destruct H4 as [(-> & H4 & H5)|[H4 H5]]; [left|right; auto].
    split; [done|]. split; [done|]. rewrite H5 at 1. rewrite !take_drop_commute. f_equal.
    rewrite Htk by lia. done.
  - intros ->. by rewrite Htk.
  - intros H l Hl. rewrite (H l Hl), Ho1, Ho2, Hs. by rewrite Htk.
  - done.
Qed.

(** No writer of [hub.mu]: then settling one more chunk is harmless. *)
Lemma d_inv_grow s s' i p got :
  chunks s' = chunks s -> chunkCount s' = chunkCount s -> settled s <= settled s' ->
  hub_writes p = false -> p <> DDone -> d_inv s i p got -> d_inv s' i p got.
Proof.
  intros Hc Hk Hs Hw Hp. destruct p; try done; cbn [d_inv]; rewrite Hc, ?Hk; intros;
    intuition (lia || done).
Qed.

(** The send to the next node of the broadcast. *)
Lemma broadcast_inv cs k i todo ds ns ib fd ok :
  last cs = Some fd -> dinv (mkD cs k (ASend (i :: todo)) ds ns ib) ->
  dinv (mkD cs k (ASend todo) ds ns (deliver ib i [fd] ok)).
Proof.
  intros Hl Hinv. destruct (di_todo _ Hinv _ eq_refl) as [[Hni Hnd]%NoDup_cons Hin].
  pose proof (Hin i (list_elem_of_here _ _)) as Hdi. cbn in Hdi.
  split; cbn.
  - exact (di_count _ Hinv).
  - exact (di_pos _ Hinv).
  - rewrite length_deliver. exact (di_len _ Hinv).
  - intros j p got Hj Hg Hjn. destruct (decide (i = j)) as [<-|Hij].
    + apply tried_deliver in Hg as (got0 & Hg & ->).
      pose proof (di_dial _ Hinv i p got0 Hj Hg Hjn) as Hd. cbn in Hj.
      rewrite Hdi in Hj. injection Hj as <-. intros l (l0 & Hl0 & ->)%fmap_Some.
      rewrite (Hd l0 Hl0). unfold owed. cbn.
      rewrite decide_True, decide_False by (done || apply list_elem_of_here).
      apply last_Some in Hl as (cs' & ->). rewrite length_app, Nat.add_1_r. cbn [pred length].
      rewrite take_app_length, firstn_all2; [done|]. rewrite length_app. cbn. lia.
    + rewrite lookup_deliver_ne in Hg by done. pose proof (di_dial _ Hinv j p got Hj Hg Hjn) as Hd.
      revert Hd. unfold d_inv, settled, owed. cbn. destruct p; try done.
      { intros (H1 & H2 & H3 & [H4|[? _]]); [by auto|done]. }
      intros Hd l0 Hl0. rewrite (Hd l0 Hl0). f_equal.
      destruct (decide (j ∈ todo)) as [Hjt|Hjt].
      * by rewrite decide_True by (by apply list_elem_of_further).
      * rewrite decide_False; [done|]. intros [->|?]%elem_of_cons; done.
  - intros todo' [= <-]. split; [done|]. intros j Hj. apply Hin. by apply list_elem_of_further.
  - exact (di_nodes _ Hinv).
  - done.
  - exact (di_one _ Hinv).
Qed.

Lemma append_inv s count fd ok s' : append_chunk s count fd ok = Some s' -> dinv s -> dinv s'.
Proof.
  intros H Hinv. pose proof (di_count _ Hinv) as Hc. pose proof (di_pos _ Hinv) as Hk.
  destruct s as [cs k a ds ns ib]. unfold count_inv in Hc. cbn in Hc, Hk.
  destruct a as [|fd'|fd'| | | |[|i todo]]; cbn [append_chunk AppendedChunkBroacast] in H.
  - repeat case_decide; [by injection H as <-| |by injection H as <-].
    destruct fd as [fd|]; injection H as <-; [|done]. apply (appender_step _ cs k (ALock fd) Hinv); try done.
    intros i p got _ _. by apply d_inv_settled.
  - injection H as <-. apply (appender_step _ cs k (AAppend fd') Hinv); try done.
    intros i p got _ _. by apply d_inv_settled.
  - injection H as <-. apply (appender_step _ (cs ++ [fd']) k ACount Hinv); try done.
    + unfold count_inv. cbn. rewrite length_app. cbn. lia.
    + intros i p got _ _.
      assert (Hs : settled (mkD (cs ++ [fd']) k ACount ds ns ib) = length cs)
        by (unfold settled; cbn; rewrite length_app; cbn; lia).
      apply d_inv_settled; try done. unfold settled. cbn. by rewrite take_app_length, firstn_all.
  - injection H as <-. apply (appender_step _ cs (S k) ARLock Hinv); try done; [lia|].
    intros i p got _ _. apply d_inv_settled; try done. cbn. lia.
  - destruct (can_read _) eqn:Er; [|done]. injection H as <-.
    apply (appender_step _ cs k ACopy Hinv); try done.
    intros i p got Hi _. apply d_inv_settled; try done. intros _ Hw.
    by rewrite (proj1 (can_read_spec _) Er i p Hi) in Hw.
  - injection H as <-. apply (appender_step _ cs k (ASend ns) Hinv); try done.
    + intros i p got Hi Hn Hd. pose proof (di_copy _ Hinv eq_refl) as Hr.
      pose proof (proj1 (can_read_spec _) Hr i p Hi) as Hw.
      destruct (decide (p = DDone)) as [->|Hne].
      * intros l ->. rewrite (Hd l eq_refl). unfold owed, settled. cbn.
        rewrite decide_True; [done|]. by apply Hn.
      * apply (d_inv_grow (mkD cs k ACopy ds ns ib)); try done. unfold settled. cbn. lia.
    + intros todo [= <-]. by left.
  - injection H as <-. apply (appender_step _ cs k AIdle Hinv); try done.
    intros i p got _ _. by apply d_inv_settled.
  - apply bind_Some in H as (fd0 & Hl & [= <-]). by eapply broadcast_inv.
Qed.

(** ** A connection breaks *)
Lemma hang_up_inv name s i s' : hang_up name s i = Some s' -> dinv s -> dinv s'.
Proof.
  intros (p & Hi & H)%bind_Some Hinv. destruct p; try done.
  destruct (can_write s) eqn:Ew; [|done]. injection H as <-.
  assert (Hib : forall j, i <> j -> alter (fun _ => None) i (inbox s) !! j = inbox s !! j)
    by (intros; by apply list_lookup_alter_ne).
  assert (Hii : forall got, alter (fun _ => None) i (inbox s) !! i = Some got -> got = None).
  { intros got. rewrite list_lookup_alter_eq. by intros (g & _ & ->)%fmap_Some. }
  split; cbn; [exact (di_count _ Hinv)|exact (di_pos _ Hinv)|..].
  - rewrite length_alter. exact (di_len _ Hinv).
  - intros j p got Hj Hg Hin. apply (d_inv_ext s); [done..|]. destruct (decide (i = j)) as [<-|Hij].
    + apply Hii in Hg as ->. rewrite Hi in Hj. by injection Hj as <-.
    + rewrite Hib in Hg by done. apply (di_dial _ Hinv); [done|done|]. intros Hp.
      by destruct (unlisted_in _ _ _ _ (Hin Hp)).
  - exact (di_todo _ Hinv).
  - destruct (di_nodes _ Hinv) as [Hnd Hin]. split; [by apply NoDup_filter|].
    intros j [Hj _]%unlisted_in. by apply Hin.
  - exact (di_copy _ Hinv).
  - exact (di_one _ Hinv).
Qed.

(** ** Every reachable state *)
Lemma dinv_init cs n : cs <> [] -> dinv (dinit cs n).
Proof.
  intros Hcs. split; cbn; try done.
  - destruct cs; [done|simpl; lia].
  - by rewrite !length_replicate.
  - intros i p got [-> _]%lookup_replicate [-> _]%lookup_replicate. done.
  - split; [constructor|]. intros i Hi. by apply not_elem_of_nil in Hi.
  - intros i j p r [-> _]%lookup_replicate. done.
Qed.

Lemma dinv_reach name cs n s : cs <> [] -> rtc (dstep name) (dinit cs n) s -> dinv s.
Proof.
  intros Hcs Hr. pose proof (dinv_init cs n Hcs) as Hinv. revert Hinv.
  induction Hr as [s|s s1 s' [a Ha] _ IH]; intros Hinv; [done|]. apply IH.
  destruct a as [count fd ok|i ok|i]; cbn in Ha.
  - by eapply append_inv.
  - by eapply dial_inv.
  - by eapply hang_up_inv.
Qed.

Lemma drun_rtc name l : forall s s', drun name s l = Some s' -> rtc (dstep name) s s'.
Proof.
  induction l as [|a l IH]; intros s s' H; cbn [drun] in H; [by injection H as ->|].
  apply bind_Some in H as (s1 & E1 & H). eapply rtc_l; [by exists a|by apply IH].
Qed.

(** ** Nodes whose name nobody else uses *)

(** A node that is dialled and connected is in the table. *)
Definition listed (i : nat) (s : dstate) : Prop :=
  forall l, diallers s !! i = Some DDone -> inbox s !! i = Some (Some l) -> i ∈ nodes s.

Lemma deliver_open ib j fds ok i l :
  deliver ib j fds ok !! i = Some (Some l) -> exists l0, ib !! i = Some (Some l0).
Proof.
  destruct (decide (j = i)) as [->|Hj]; [|rewrite lookup_deliver_ne by done; by exists l].
  rewrite lookup_deliver. intros ([l0|] & -> & ?)%fmap_Some; [by exists l0|done].
Qed.

(** A step that keeps the table, and what it does to the rest. *)
Lemma listed_same i s s' :
  nodes s' = nodes s -> (diallers s' !! i = Some DDone -> diallers s !! i = Some DDone) ->
  (forall l, inbox s' !! i = Some (Some l) -> exists l0, inbox s !! i = Some (Some l0)) ->
  listed i s -> listed i s'.
Proof.
  intros Hn Hd Hb Hl l Hi Hib. rewrite Hn. destruct (Hb l Hib) as [l0 Hl0]. by apply (Hl l0); [apply Hd|].
Qed.

Section exclusive.
Context (name : nat -> nat) (i : nat) (Hname : forall k, name k = name i -> k = i).

Lemma listed_dial s j ok s' : dial name s j ok = Some s' -> listed i s -> listed i s'.
Proof using Hname.
  intros (p & Hj & H)%bind_Some Hl. pose proof (lookup_lt_Some _ _ _ Hj) as Hlt.
  assert (Hins : forall p' ib, p' <> DDone ->
    (forall l, ib !! i = Some (Some l) -> exists l0, inbox s !! i = Some (Some l0)) ->
    listed i (set_dialler (set_inbox s ib) j p')).
  { intros p' ib Hp' Hib. apply (listed_same i s); [done| |done|done]. cbn.
    destruct (decide (j = i)) as [->|Hji]; [rewrite list_lookup_insert_eq by done; congruence|].
    by rewrite list_lookup_insert_ne. }
  assert (Hkeep : forall p', p' <> DDone -> listed i (set_dialler s j p')).
  { intros p' Hp'. destruct s. apply (Hins p' _ Hp'). intros l ?. by exists l. }
  assert (Hsend : forall fds p', p' <> DDone ->
    listed i (set_dialler (set_inbox s (deliver (inbox s) j fds ok)) j p'))
    by (intros fds p' Hp'; apply Hins; [done|apply deliver_open]).
  destruct p; try done; repeat (case_decide || case_match); try done;
    try (apply bind_Some in H as (fd & _ & H)); injection H as <-; try (apply Hkeep; by repeat case_match);
    try (apply Hsend; by repeat case_match).
  intros l Hi Hib. cbn in *. destruct (decide (j = i)) as [->|Hji]; [apply list_elem_of_here|].
  rewrite list_lookup_insert_ne in Hi by done. apply list_elem_of_further, unlisted_keeps; [done|done|].
  by apply (Hl l).
Qed.

Lemma listed_step s s' : dstep name s s' -> listed i s -> listed i s'.
Proof using Hname.
  intros [[count fd ok|j ok|j] H] Hl; cbn [drun1] in H.
  - destruct s as [cs k a ds ns ib]. unfold append_chunk, AppendedChunkBroacast in H.
    repeat (case_decide || case_match); try done; simplify_eq;
      try (apply bind_Some in H as (x & _ & H)); simplify_eq;
      eapply (listed_same i); try exact Hl; try done; cbn; try (intros ? ?; by eexists); intros ?;
      apply deliver_open.
  - by eapply listed_dial.
  - unfold hang_up in H. apply bind_Some in H as (p & Hj & H). destruct p; try done.
    destruct (can_write s); [|done]. injection H as <-. intros l Hi Hib. cbn in *.
    destruct (decide (j = i)) as [->|Hji].
    { rewrite list_lookup_alter_eq in Hib. by apply fmap_Some in Hib as (? & _ & ?). }
    rewrite list_lookup_alter_ne in Hib by done. apply unlisted_keeps; [done|done|]. by apply (Hl l).
Qed.

Lemma listed_reach cs n s : rtc (dstep name) (dinit cs n) s -> listed i s.
Proof using Hname.
  intros Hr. assert (H0 : listed i (dinit cs n)) by (by intros l [? _]%lookup_replicate).
  revert H0. induction Hr as [s|s s1 s' Hs _ IH]; intros H0; [done|]. apply IH. by eapply listed_step.
Qed.
End exclusive.

(** ** The deadlock *)

(** The dialler has the table locked for writing and waits for [bus.mu]; the
    appender has [bus.mu] and waits for the table. *)
Definition deadlocked (cs : list nat) (fd : nat) : dstate :=
  mkD (cs ++ [fd]) (S (length cs)) ARLock [DExtra (length cs) (S (length cs)) []] []
    [Some ((fun x => (x, true)) <$> cs)].

Lemma get_all name cs k : forall fds,
  length fds + k = length cs -> fds = take (length fds) cs ->
  rtc (dstep name) (mkD cs (length cs) AIdle [DGet (length cs) fds] [] [Some []])
                   (mkD cs (length cs) AIdle [DGet (length cs) cs] [] [Some []]).
Proof.
  induction k as [|k IH]; intros fds Hk Hf.
  - rewrite firstn_all2 in Hf by lia. by rewrite Hf.
  - destruct (lookup_lt_is_Some_2 cs (length fds)) as [fd Hfd]; [lia|].
    eapply rtc_l; [|apply (IH (fds ++ [fd]))].
    + exists (Dialler 0 true). cbn. unfold dial. cbn. rewrite decide_True by lia.
      unfold get_chunk. cbn. by rewrite Hfd.
    + rewrite length_app. cbn. lia.
    + rewrite <- (drop_0 cs) in Hf |- *. apply take_next; [done|]. by rewrite Nat.add_0_r.
Qed.

Lemma deadlock_reached name cs fd :
  (Z.of_nat (length cs) < MaxChunks)%Z -> rtc (dstep name) (dinit cs 1) (deadlocked cs fd).
Proof.
  intros Hmax.
  etransitivity; [apply (drun_rtc name [Dialler 0 true; Dialler 0 true]); reflexivity|].
  etransitivity; [apply (get_all name cs (length cs) []); done|].
  assert (Hlt : ~ length cs < length cs) by lia. assert (Hs : length cs < S (length cs)) by lia.
  assert (Hm : ~ (MaxChunks <= Z.of_nat (length cs))%Z) by lia.
  set (ap := Append (length cs) (Some fd) true).
  apply (drun_rtc name [Dialler 0 true; Dialler 0 true; ap; ap; ap; ap; Dialler 0 true; Dialler 0 true]).
  cbn [drun drun1 ap]. unfold dial at 1. cbn. rewrite (decide_False _ _ Hlt). cbn.
  rewrite (decide_False _ _ Hm), decide_True by done. cbn.
  unfold dial. cbn. rewrite (decide_True _ _ Hs). reflexivity.
Qed.

(** ** Theorems *)

Lemma told_sublist l : told l `sublist_of` l.*1.
Proof.
  induction l as [|[fd [|]] l IH]; [constructor| |]; unfold told in *; cbn [fmap list_fmap fst];
    [rewrite filter_cons_True by done; by constructor|rewrite filter_cons_False by done; by constructor].
Qed.

Lemma told_all l : Forall (fun x => x.2 = true) l -> told l = l.*1.
Proof.
  intros Hl. unfold told. f_equal. induction Hl as [|x l Hx _ IH]; [done|]. rewrite filter_cons_True by done. by rewrite IH.
Qed.

(** C11: However the appending of chunks, the broadcasts and any number of
    [Dial] calls interleave: whenever no chunk is being appended, every chunk
    of the bus has been announced to each node of the table exactly once and
    in order.  The chunks a node was really told of are those less the ones
    whose send failed: all of them, in the hub's order, as chunk ids in stripe
    headers require, if no send to it failed.  And a node that was dialled
    under a name that nobody else uses is in the table as long as it is
    connected. *)
Theorem dial_announces_all name cs n s i l :
  cs <> [] -> rtc (dstep name) (dinit cs n) s -> appender s = AIdle ->
  diallers s !! i = Some DDone -> inbox s !! i = Some (Some l) ->
  (i ∈ nodes s -> l.*1 = chunks s /\ told l `sublist_of` chunks s /\
     (Forall (fun x => x.2 = true) l -> told l = chunks s)) /\
  ((forall k, name k = name i -> k = i) -> i ∈ nodes s).
Proof.
  intros Hcs Hr Ha Hi Hl. split; [|intros Hn; by eapply listed_reach].
  intros Hin. pose proof (dinv_reach name cs n s Hcs Hr) as Hinv.
  assert (El : l.*1 = chunks s).
  { rewrite (di_dial _ Hinv i _ _ Hi Hl (fun _ => Hin) (l.*1) eq_refl). unfold owed, settled. rewrite Ha.
    apply firstn_all. }
  rewrite <- El. split_and!; [done|apply told_sublist|apply told_all].
Qed.

(** A chunk is appended between the two messages of a [Dial], another after
    it. *)
Definition demo_dial : list dact :=
  replicate 5 (Dialler 0 true) ++ replicate 7 (Append 1 (Some 11) true) ++ replicate 5 (Dialler 0 true) ++
  replicate 8 (Append 2 (Some 12) true).

Lemma dial_announces_all_witness :
  exists s l, drun id (dinit [10] 1) demo_dial = Some s /\ diallers s !! 0 = Some DDone /\ 0 ∈ nodes s /\
    chunks s = [10; 11; 12] /\ inbox s !! 0 = Some (Some l) /\ told l = chunks s.
Proof.
  destruct (drun id (dinit [10] 1) demo_dial) as [s|] eqn:E; [|discriminate E].
  assert (Hr : rtc (dstep id) (dinit [10] 1) s) by (eapply drun_rtc; exact E).
  vm_compute in E. injection E as Es.
  assert (Hi : inbox s !! 0 = Some (Some [(10, true); (11, true); (12, true)])) by (subst s; reflexivity).
  destruct (dial_announces_all id [10] 1 s 0 [(10, true); (11, true); (12, true)]) as [H1 H2].
  - discriminate.
  - exact Hr.
  - subst s. reflexivity.
  - subst s. reflexivity.
  - exact Hi.
  - assert (Hn : 0 ∈ nodes s) by (apply H2; intros k Hk; exact Hk).
    destruct (H1 Hn) as (_ & _ & Ht). eexists s, _. split; [reflexivity|]. split; [subst s; reflexivity|].
    split; [exact Hn|]. split; [subst s; reflexivity|]. split; [exact Hi|]. apply Ht. repeat constructor.
Defined.

(** A broadcast that fails leaves a node of the table without the chunk: all
    later chunks have another number at the node than at the hub. *)
Lemma broadcast_failure_shifts :
  exists s l, drun id (dinit [10] 1)
      (replicate 8 (Dialler 0 true) ++ replicate 8 (Append 1 (Some 11) false) ++
       replicate 8 (Append 2 (Some 12) true)) = Some s /\
    appender s = AIdle /\ nodes s = [0] /\ chunks s = [10; 11; 12] /\
    inbox s !! 0 = Some (Some l) /\ told l = [10; 12].
Proof. eexists _, _. split; [vm_compute; reflexivity|]. repeat split; reflexivity. Qed.

(** A second [Dial] under a name takes the place of the first node, which is
    connected still and hears of no chunk any more. *)
Lemma redial_orphans :
  exists s l, drun (fun _ => 0) (dinit [10] 2)
      (replicate 8 (Dialler 0 true) ++ replicate 8 (Dialler 1 true) ++ replicate 8 (Append 1 (Some 11) true)) = Some s /\
    appender s = AIdle /\ diallers s = [DDone; DDone] /\ nodes s = [1] /\ chunks s = [10; 11] /\
    inbox s !! 0 = Some (Some l) /\ told l = [10].
Proof. eexists _, _. split; [vm_compute; reflexivity|]. repeat split; reflexivity. Qed.

(** C34: The locks can deadlock.  [tryAppendChunk] calls the hub's broadcast
    with [bus.mu] held, and the broadcast locks [hub.mu]; [Dial] locks
    [hub.mu] and, when the counter has moved, calls [GetChunk], which locks
    [bus.mu].  From any bus that can still grow there is a schedule of one
    [Dial] and one append after which the two wait for each other and nothing
    can move any more. *)
Theorem dial_append_deadlock name cs fd :
  (Z.of_nat (length cs) < MaxChunks)%Z ->
  exists s, rtc (dstep name) (dinit cs 1) s /\ chunks s = cs ++ [fd] /\ appender s = ARLock /\
    diallers s = [DExtra (length cs) (S (length cs)) []] /\ forall a, drun1 name s a = None.
Proof.
  intros Hmax. exists (deadlocked cs fd). split; [exact (deadlock_reached name cs fd Hmax)|]. split_and!; [done..|].
  intros [count fd' ok|[|i] ok|[|i]]; cbn; try done. unfold dial. cbn.
  by rewrite decide_True by lia.
Qed.

Lemma dial_append_deadlock_witness :
  exists s, rtc (dstep id) (dinit [10; 11] 1) s /\ chunks s = [10; 11; 12] /\ forall a, drun1 id s a = None.
Proof.
  destruct (dial_append_deadlock id [10; 11] 12) as (s & Hr & Hc & _ & _ & Ha); [vm_compute; reflexivity|].
  exists s. split; [exact Hr|]. split; [exact Hc|exact Ha].
Defined.
