(* ===== verification/Control.v ===== *)
(** * The control stripe: queues and stripe registry

    go/shm/control.go.  The control region lives in an ordinary stripe of
    256 blocks; every access goes through [Stripe.GetPointer].  The file
    first proves that the words of the region ([Layout.field]) behave as
    independent registers, and then specifies queues and registry on them.
    Operations run alone here; [Queue] interleaves them. *)
From stdpp Require Import base tactics list numbers option gmap.
From Stdlib Require Import ZArith Lia.
From S2P Require Import Prelude Memory Layout Protocol Stripe.
#[local] Open Scope Z_scope.

Record Control : Type := mkControl {
  cursor : Z;         (* atomic.Uint32 *)
  cstripe : Stripe;
}.

Definition NewControl (stripe : Stripe) : Control := mkControl 0 stripe.

(** ** Atomic accessors *)
Definition readU32 (m : mem) (c : Control) (offset : Z) : outcome Z :=
  ptr ← GetPointer (cstripe c) offset;
  match ptr with
  | None => Ret 0
  | Some a => Ret (load_le m a 4)
  end.

Definition writeU32 (m : mem) (c : Control) (offset val : Z) : outcome mem :=
  ptr ← GetPointer (cstripe c) offset;
  match ptr with
  | None => Ret m
  | Some a => Ret (store_le m a 4 val)
  end.

Definition casU32 (m : mem) (c : Control) (offset old new : Z) : outcome (mem * bool) :=
  ptr ← GetPointer (cstripe c) offset;
  match ptr with
  | None => Ret (m, false)
  | Some a =>
      if decide (load_le m a 4 = old) then Ret (store_le m a 4 new, true)
      else Ret (m, false)
  end.

(** [atomic.LoadUint64] and [atomic.StoreUint64] through a pointer; a nil
    pointer faults. *)
Definition loadU64 (m : mem) (ptr : option Z) : outcome Z :=
  match ptr with None => Panic | Some a => Ret (load_le m a 8) end.

Definition storeU64 (m : mem) (ptr : option Z) (v : Z) : outcome mem :=
  match ptr with None => Panic | Some a => Ret (store_le m a 8 v) end.

(** ** Initialisation *)
Fixpoint init_queues (n : nat) (i : Z) (m : mem) (c : Control) : outcome mem :=
  match n with
  | O => Ret m
  | S n' =>
      let qOff := GetNodeReqQueueOffset i in
      m1 ← writeU32 m c (qOff + Q_OFF_HEAD) 0;
      m2 ← writeU32 m1 c (qOff + Q_OFF_TAIL) 0;
      init_queues n' (i + 1) m2 c
  end.

(** The loop variable runs from 0 to [MaxTotalSlots - 1], as in the code. *)
Fixpoint init_slots (n : nat) (i : Z) (m : mem) (c : Control) : outcome mem :=
  match n with
  | O => Ret m
  | S n' =>
      m1 ← writeU32 m c (GetStripeEntryOffset i + STRIPE_OFF_STATUS) StripeStatusIdle;
      init_slots n' (i + 1) m1 c
  end.

Definition Init (m : mem) (c : Control) : outcome mem :=
  m1 ← writeU32 m c (OFF_RESP_QUEUE + Q_OFF_HEAD) 0;
  m2 ← writeU32 m1 c (OFF_RESP_QUEUE + Q_OFF_TAIL) 0;
  m3 ← init_queues (Z.to_nat MaxNodes) 0 m2 c;
  init_slots (Z.to_nat MaxTotalSlots) 0 m3 c.

(** ** Queues *)

(** [(uint64(cmd|Q_READY_BIT) << 32) | uint64(slotID)] *)
Definition pack (slotID cmd : Z) : Z :=
  Z.lor (u64 (Z.shiftl (Z.lor cmd Q_READY_BIT) 32)) slotID.

(** What [Pop] takes apart: [cmd], [slotID]. *)
Definition unpack (packed : Z) : Z * Z :=
  (u32 (Z.shiftr packed 32), u32 (Z.land packed 4294967295)).

Definition entry_offset (qOffset k : Z) : Z :=
  qOffset + Q_OFF_ENTRIES + u32 ((k mod QueueSize) * 8).

(** [Push]: a full queue is retried with growing pauses and given up at the
    76th attempt; a failed compare-and-swap restarts at once. *)
Fixpoint push_loop (fuel : nat) (m : mem) (c : Control) (qOffset slotID cmd spin : Z)
  : outcome (mem * bool) :=
  match fuel with
  | O => Diverge
  | S fuel' =>
      head ← readU32 m c (qOffset + Q_OFF_HEAD);
      tail ← readU32 m c (qOffset + Q_OFF_TAIL);
      if decide (u32 (tail - head) >= QueueSize - 1) then
        if decide (spin < 75)
        then push_loop fuel' m c qOffset slotID cmd (spin + 1)
        else Ret (m, false)
      else
        r ← casU32 m c (qOffset + Q_OFF_TAIL) tail (u32 (tail + 1));
        let '(m', swapped) := r in
        if swapped : bool then
          ptr ← GetPointer (cstripe c) (entry_offset qOffset tail);
          m'' ← storeU64 m' ptr (pack slotID cmd);
          Ret (m'', true)
        else push_loop fuel' m' c qOffset slotID cmd spin
  end.

Definition Push (m : mem) (c : Control) (qOffset slotID cmd : Z) : outcome (mem * bool) :=
  push_loop 76 m c qOffset slotID cmd 0.

(** The wait of [Pop] for the producer's store; there is no limit on it. *)
Fixpoint pop_wait (fuel : nat) (m : mem) (c : Control) (qOffset head : Z)
  (ptr : option Z) : outcome (mem * (Z * Z * bool)) :=
  match fuel with
  | O => Diverge
  | S fuel' =>
      packed ← loadU64 m ptr;
      let '(cmd, slotID) := unpack packed in
      if decide (Z.land cmd Q_READY_BIT <> 0) then
        m1 ← storeU64 m ptr 0;
        m2 ← writeU32 m1 c (qOffset + Q_OFF_HEAD) (u32 (head + 1));
        Ret (m2, (slotID, Z.land cmd (u32 (Z.lnot Q_READY_BIT)), true))
      else pop_wait fuel' m c qOffset head ptr
  end.

Definition Pop (fuel : nat) (m : mem) (c : Control) (qOffset : Z)
  : outcome (mem * (Z * Z * bool)) :=
  head ← readU32 m c (qOffset + Q_OFF_HEAD);
  tail ← readU32 m c (qOffset + Q_OFF_TAIL);
  if decide (head = tail) then Ret (m, (0, 0, false))
  else
    ptr ← GetPointer (cstripe c) (entry_offset qOffset head);
    pop_wait fuel m c qOffset head ptr.

(** ** Stripe registry *)
Fixpoint alloc_slot_loop (n : nat) (i start : Z) (m : mem) (c : Control)
  : outcome (mem * (Z * bool)) :=
  match n with
  | O => Ret (m, (0, false))
  | S n' =>
      let slot := u32 (u32 (start + i - 1) mod MaxTotalSlots + 1) in
      r ← casU32 m c (GetStripeEntryOffset slot + STRIPE_OFF_STATUS)
            StripeStatusIdle StripeStatusBusy;
      let '(m', ok) := r in
      if ok : bool then Ret (m', (slot, true))
      else alloc_slot_loop n' (i + 1) start m' c
  end.

Definition AllocSlot (m : mem) (c : Control) : outcome (mem * Control * (Z * bool)) :=
  let start := u32 (cursor c + 1) in
  let c' := mkControl start (cstripe c) in
  r ← alloc_slot_loop (Z.to_nat MaxTotalSlots) 0 start m c';
  Ret (r.1, c', r.2).

Definition FreeSlot (m : mem) (c : Control) (slotID : Z) : outcome mem :=
  writeU32 m c (GetStripeEntryOffset slotID + STRIPE_OFF_STATUS) StripeStatusIdle.

Definition SetStripe (m : mem) (c : Control) (slotID status headerCID headerOff owner : Z)
  : outcome mem :=
  let base := GetStripeEntryOffset slotID in
  let combinedHeader := Z.lor (u32 (Z.shiftl (u16 headerCID) 16)) (u16 headerOff) in
  m1 ← writeU32 m c (base + STRIPE_OFF_HEADER) combinedHeader;
  m2 ← writeU32 m1 c (base + STRIPE_OFF_OWNER) owner;
  writeU32 m2 c (base + STRIPE_OFF_STATUS) status.

Definition GetStripeStatus (m : mem) (c : Control) (slotID : Z) : outcome Z :=
  readU32 m c (GetStripeEntryOffset slotID + STRIPE_OFF_STATUS).

Definition GetStripeHeader (m : mem) (c : Control) (slotID : Z) : outcome (Z * Z) :=
  val ← readU32 m c (GetStripeEntryOffset slotID + STRIPE_OFF_HEADER);
  Ret (i16 (u16 (Z.shiftr val 16)), i16 (u16 (Z.land val 65535))).

Definition GetStripeOwner (m : mem) (c : Control) (slotID : Z) : outcome Z :=
  readU32 m c (GetStripeEntryOffset slotID + STRIPE_OFF_OWNER).

Definition SetStripeStatus (m : mem) (c : Control) (slotID status : Z) : outcome mem :=
  writeU32 m c (GetStripeEntryOffset slotID + STRIPE_OFF_STATUS) status.

(** ** Specification vocabulary *)

(** A control stripe as [AllocStripe(ControlStripeSize / BlockSize)] makes
    it. *)
Record ctrl_wf (c : Control) : Prop := {
  cwf_blocks : blocks_wf (Blocks (cstripe c));
  cwf_len : Z.of_nat (length (Blocks (cstripe c))) = ControlStripeSize / BlockSize;
}.

(** The address, contents and update of a word of the control region. *)
Definition field_addr (c : Control) (f : field) : Z :=
  match GetPointer (cstripe c) (field_off f) with
  | Ret (Some a) => a
  | _ => 0
  end.

Definition field_bytes (f : field) : nat := Z.to_nat (field_len f).

Definition fread (m : mem) (c : Control) (f : field) : Z :=
  load_le m (field_addr c f) (field_bytes f).

Definition fwrite (m : mem) (c : Control) (f : field) (v : Z) : mem :=
  store_le m (field_addr c f) (field_bytes f) v.

(** Values that fit in the word. *)
Definition field_val (f : field) (v : Z) : Prop := 0 <= v < 256 ^ field_len f.

(** The bytes of the fields that satisfy [P]. *)
Definition touched (c : Control) (P : field -> Prop) (a : Z) : Prop :=
  exists f, field_ok f /\ P f /\ field_addr c f <= a < field_addr c f + field_len f.

(** The fields of queue [q], and those of registry slot [s]. *)
Definition queue_field (q : Z) (f : field) : Prop :=
  match f with
  | QHead q' | QTail q' | QEntry q' _ => q' = q
  | _ => False
  end.

Definition slot_field (s : Z) (f : field) : Prop :=
  match f with
  | SStatus s' | SHeader s' | SOwner s' => s' = s
  | _ => False
  end.

(** Queue [q] holds the commands [l] (slot, cmd), oldest first; [head] counts
    all the pops so far. *)
Record queue_repr (m : mem) (c : Control) (q : Z) (head : Z) (l : list (Z * Z)) : Prop := {
  qr_head : fread m c (QHead q) = head;
  qr_tail : fread m c (QTail q) = head + Z.of_nat (length l);
  qr_nowrap : 0 <= head /\ head + Z.of_nat (length l) < 4294967296;
  qr_room : Z.of_nat (length l) <= QueueSize - 1;
  qr_entries : forall i x, l !! i = Some x ->
    fread m c (QEntry q ((head + Z.of_nat i) mod QueueSize)) = pack x.1 x.2;
  qr_free : forall k, Z.of_nat (length l) <= k < QueueSize ->
    fread m c (QEntry q ((head + k) mod QueueSize)) = 0;
  qr_vals : Forall (fun x => 0 <= x.1 < 4294967296 /\ 0 <= x.2 < 2147483648) l;
}.

(** Slot [slot] of the registry points at the header block of [s], as the hub
    registers it. *)
Definition registered (m : mem) (c : Control) (slot : Z) (s : Stripe) : Prop :=
  exists cid off rest, Sequence s = cid :: off :: rest /\ 0 <= off /\
    GetStripeHeader m c slot = Ret (cid, off).

(** Queue operations run one after the other, and the bounded FIFO they
    implement. *)
Inductive qop : Type := OPush (slotID cmd : Z) | OPop.
Inductive qres : Type := RPush (ok : bool) | RPop (r : Z * Z * bool).

Definition qop_ok (o : qop) : Prop :=
  match o with
  | OPush slotID cmd => 0 <= slotID < 4294967296 /\ 0 <= cmd < 2147483648
  | OPop => True
  end.

Definition qexec (m : mem) (c : Control) (q : Z) (o : qop) : outcome (mem * qres) :=
  match o with
  | OPush slotID cmd =>
      r ← Push m c (GetNodeReqQueueOffset q) slotID cmd; Ret (r.1, RPush r.2)
  | OPop => r ← Pop 1 m c (GetNodeReqQueueOffset q); Ret (r.1, RPop r.2)
  end.

Definition fifo_step (l : list (Z * Z)) (o : qop) : list (Z * Z) * qres :=
  match o with
  | OPush slotID cmd =>
      if decide (Z.of_nat (length l) < QueueSize - 1)
      then (l ++ [(slotID, cmd)], RPush true) else (l, RPush false)
  | OPop =>
      match l with
      | [] => ([], RPop (0, 0, false))
      | (slotID, cmd) :: l' => (l', RPop (slotID, cmd, true))
      end
  end.

Fixpoint qexec_all (m : mem) (c : Control) (q : Z) (os : list qop)
  : outcome (mem * list qres) :=
  match os with
  | [] => Ret (m, [])
  | o :: os' =>
      r ← qexec m c q o;
      rs ← qexec_all r.1 c q os';
      Ret (rs.1, r.2 :: rs.2)
  end.

Fixpoint fifo_all (l : list (Z * Z)) (os : list qop) : list (Z * Z) * list qres :=
  match os with
  | [] => (l, [])
  | o :: os' =>
      let '(l', r) := fifo_step l o in
      let '(l'', rs) := fifo_all l' os' in (l'', r :: rs)
  end.

(** The registry slot tried in round [i] of [AllocSlot]. *)
Definition cyc_slot (start i : Z) : Z := (start + i - 1) mod MaxTotalSlots + 1.

(** What a run of zeroing writes establishes: the fields of [P] read zero,
    nothing else changes. *)
Definition zeroed (c : Control) (P : field -> Prop) (m m' : mem) : Prop :=
  (forall f, field_ok f -> P f -> fread m' c f = 0) /\ mem_frame (touched c P) m m'.

(** Heads and tails of the queues below [n]; statuses of the slots below. *)
Definition qptr_below (n : Z) (f : field) : Prop :=
  match f with QHead q | QTail q => 0 <= q < n \/ q = 0 | _ => False end.

Definition ptr_or_slot_below (n : Z) (f : field) : Prop :=
  match f with
  | QHead q | QTail q => q < MaxNodes
  | SStatus s => 1 <= s < n
  | _ => False
  end.

#[export] Instance ptr_or_slot_below_dec n f : Decision (ptr_or_slot_below n f).
Proof. destruct f; simpl; apply _. Defined.

(** A control stripe on the first 256 blocks of chunk 0. *)
Definition first_blocks (n : Z) : list slice :=
  (fun j => Slice (j * BlockSize) BlockSize) <$> seqZ 0 n.

Definition demo_control : Control :=
  NewControl (mkStripe [] 256 (first_blocks 256) 0).

(** ** The words of the control region are independent registers *)
Lemma field_bytes_len f : Z.of_nat (field_bytes f) = field_len f.
Proof. by destruct f. Qed.

Section registers.
Context (c : Control) (Hwf : ctrl_wf c).

Lemma field_block f :
  field_ok f ->
  exists b, Blocks (cstripe c) !! Z.to_nat (field_off f / BlockSize) = Some b /\
    sl_len b = BlockSize /\
    GetPointer (cstripe c) (field_off f) =
      Ret (Some (sl_base b + field_off f mod BlockSize)).
Proof using Hwf.
  intros Hf. destruct (field_in_block f Hf) as (H1 & H2 & H3).
  pose proof (cwf_len _ Hwf) as Hlen.
  assert (0 <= field_off f / BlockSize) by (apply Z.div_pos; unfold_layout; lia).
  destruct (lookup_lt_is_Some_2 (Blocks (cstripe c))
              (Z.to_nat (field_off f / BlockSize))) as [b Hb]; [lia|].
  pose proof (bwf_len _ (cwf_blocks _ Hwf)) as Hl.
  rewrite Forall_lookup in Hl. specialize (Hl _ _ Hb).
  exists b. split_and!; [done..|].
  unfold GetPointer. rewrite decide_False by lia.
  rewrite (go_index_lookup _ _ b) by done. go_bind.
  rewrite decide_True; [done|].
  rewrite Hl. apply Z.mod_pos_bound. unfold_layout. lia.
Qed.

Lemma field_ptr f :
  field_ok f -> GetPointer (cstripe c) (field_off f) = Ret (Some (field_addr c f)).
Proof using Hwf.
  intros Hf. destruct (field_block f Hf) as (b & _ & _ & H).
  unfold field_addr. by rewrite H.
Qed.

Lemma field_addr_disjoint f g :
  field_ok f -> field_ok g -> f <> g ->
  field_addr c f + field_len f <= field_addr c g \/
  field_addr c g + field_len g <= field_addr c f.
Proof using Hwf.
  intros Hf Hg Hne.
  pose proof (field_disjoint f g Hf Hg Hne) as Hd.
  destruct (field_in_block f Hf) as (F1 & F2 & F3).
  destruct (field_in_block g Hg) as (G1 & G2 & G3).
  destruct (field_block f Hf) as (b & Hb & Lb & Pb).
  destruct (field_block g Hg) as (d & Hd' & Ld & Pd).
  unfold field_addr. rewrite Pb, Pd.
  assert (0 <= field_off f / BlockSize) by (apply Z.div_pos; unfold_layout; lia).
  assert (0 <= field_off g / BlockSize) by (apply Z.div_pos; unfold_layout; lia).
  destruct (decide (field_off f / BlockSize = field_off g / BlockSize)) as [E|E].
  - rewrite E in Hb. simplify_eq.
    unfold_layout. Z.div_mod_to_equations. lia.
  - pose proof (bwf_disj _ (cwf_blocks _ Hwf) _ _ _ _ Hb Hd') as Hdisj.
    assert (0 <= field_off f mod BlockSize) by (apply Z.mod_pos_bound; unfold_layout; lia).
    assert (0 <= field_off g mod BlockSize) by (apply Z.mod_pos_bound; unfold_layout; lia).
    unfold_layout. lia.
Qed.

Lemma fread_fwrite_same m f v : field_val f v -> fread (fwrite m c f v) c f = v.
Proof using Type.
  intros Hv. unfold fread, fwrite. apply load_store_le_same.
  by rewrite field_bytes_len.
Qed.

Lemma fread_fwrite_other m f g v :
  field_ok f -> field_ok g -> f <> g -> fread (fwrite m c f v) c g = fread m c g.
Proof using Hwf.
  intros Hf Hg Hne. unfold fread, fwrite. apply load_le_store_le_disj.
  rewrite !field_bytes_len. pose proof (field_addr_disjoint f g Hf Hg Hne). lia.
Qed.

(** The accessors are register accesses. *)
Lemma readU32_field m f :
  field_ok f -> field_len f = 4 -> readU32 m c (field_off f) = Ret (fread m c f).
Proof using Hwf.
  intros Hf Hl. unfold readU32, fread, field_bytes. rewrite field_ptr by done.
  by rewrite Hl.
Qed.

Lemma writeU32_field m f v :
  field_ok f -> field_len f = 4 -> writeU32 m c (field_off f) v = Ret (fwrite m c f v).
Proof using Hwf.
  intros Hf Hl. unfold writeU32, fwrite, field_bytes. rewrite field_ptr by done.
  by rewrite Hl.
Qed.

Lemma casU32_field m f old new :
  field_ok f -> field_len f = 4 ->
  casU32 m c (field_off f) old new =
  Ret (if decide (fread m c f = old) then (fwrite m c f new, true) else (m, false)).
Proof using Hwf.
  intros Hf Hl. unfold casU32, fread, fwrite, field_bytes.
  rewrite field_ptr by done. rewrite Hl. go_bind.
  change (Z.to_nat 4) with 4%nat. by destruct (decide _).
Qed.
End registers.

(** ** Packed queue entries *)
Lemma lor_add_disjoint x y : Z.land x y = 0 -> Z.lor x y = x + y.
Proof. intros H. pose proof (Z.add_lor_land x y). lia. Qed.

Lemma land_low_high x y n : 0 <= n -> 0 <= y < 2 ^ n -> Z.land (x * 2 ^ n) y = 0.
Proof.
  intros Hn Hy. destruct (decide (y = 0)) as [->|]; [apply Z.land_0_r|].
  apply Z.bits_inj'. intros i Hi. rewrite Z.land_spec, Z.bits_0.
  destruct (decide (i < n)) as [Hlt|Hge].
  - by rewrite Z.mul_pow2_bits_low.
  - rewrite (Z.bits_above_log2 y); [apply andb_false_r|lia|].
    apply Z.log2_lt_pow2; [lia|].
    apply Z.lt_le_trans with (2 ^ n); [lia|]. apply Z.pow_le_mono_r; lia.
Qed.

Lemma lor_ready cmd :
  0 <= cmd < 2147483648 -> Z.lor cmd Q_READY_BIT = Q_READY_BIT + cmd.
Proof.
  intros H. rewrite Z.lor_comm. apply lor_add_disjoint.
  apply (land_low_high 1 cmd 31); [lia|]. change (2 ^ 31) with 2147483648. lia.
Qed.

Lemma pack_value slotID cmd :
  0 <= slotID < 4294967296 -> 0 <= cmd < 2147483648 ->
  pack slotID cmd = (Q_READY_BIT + cmd) * 4294967296 + slotID.
Proof.
  intros Hs Hc. unfold pack. rewrite lor_ready by done.
  rewrite Z.shiftl_mul_pow2 by lia. change (2 ^ 32) with 4294967296.
  rewrite u64_small by (unfold Q_READY_BIT; lia).
  apply lor_add_disjoint.
  apply (land_low_high (Q_READY_BIT + cmd) slotID 32); [lia|].
  change (2 ^ 32) with 4294967296. lia.
Qed.

Lemma pack_range slotID cmd :
  0 <= slotID < 4294967296 -> 0 <= cmd < 2147483648 ->
  0 < pack slotID cmd < 18446744073709551616.
Proof.
  intros Hs Hc. rewrite pack_value by done. unfold Q_READY_BIT. lia.
Qed.

Lemma unpack_pack slotID cmd :
  0 <= slotID < 4294967296 -> 0 <= cmd < 2147483648 ->
  unpack (pack slotID cmd) = (Q_READY_BIT + cmd, slotID).
Proof.
  intros Hs Hc. rewrite pack_value by done. unfold unpack.
  change 4294967295 with (Z.ones 32). rewrite Z.land_ones by lia.
  rewrite Z.shiftr_div_pow2 by lia. change (2 ^ 32) with 4294967296.
  f_equal.
  - rewrite Z.div_add_l, Z.div_small by lia. rewrite Z.add_0_r.
    apply u32_small. unfold Q_READY_BIT. lia.
  - rewrite Z.add_comm, Z.mod_add, Z.mod_small by lia. by apply u32_small.
Qed.

Lemma land_ready_set cmd :
  0 <= cmd < 2147483648 -> Z.land (Q_READY_BIT + cmd) Q_READY_BIT <> 0.
Proof.
  intros H Hz. rewrite <- lor_ready in Hz by done.
  assert (Z.testbit (Z.land (Z.lor cmd Q_READY_BIT) Q_READY_BIT) 31 = true) as Ht.
  { rewrite Z.land_spec, Z.lor_spec. by rewrite orb_true_r. }
  rewrite Hz, Z.bits_0 in Ht. done.
Qed.

Lemma land_ready_clear cmd :
  0 <= cmd < 2147483648 ->
  Z.land (Q_READY_BIT + cmd) (u32 (Z.lnot Q_READY_BIT)) = cmd.
Proof.
  intros H. change (u32 (Z.lnot Q_READY_BIT)) with (Z.ones 31).
  rewrite Z.land_ones by lia. unfold Q_READY_BIT.
  change (2 ^ 31) with 2147483648.
  replace (2147483648 + cmd) with (cmd + 1 * 2147483648) by lia.
  rewrite Z.mod_add, Z.mod_small; lia.
Qed.

Lemma unpack_zero : unpack 0 = (0, 0).
Proof. reflexivity. Qed.

(** ** Frames *)
Lemma fwrite_frame c (P : field -> Prop) m f v :
  field_ok f -> P f -> mem_frame (touched c P) m (fwrite m c f v).
Proof.
  intros Hf HP a Ha. unfold fwrite. apply load_store_le_out.
  rewrite field_bytes_len.
  destruct (decide (field_addr c f <= a < field_addr c f + field_len f)); [|lia].
  destruct Ha. by exists f.
Qed.

Lemma fread_frame c (P : field -> Prop) m m' g :
  ctrl_wf c -> mem_frame (touched c P) m m' -> field_ok g -> ~ P g ->
  fread m' c g = fread m c g.
Proof.
  intros Hwf Hfr Hg HnP. unfold fread. apply load_le_ext. intros x Hx.
  rewrite field_bytes_len in Hx. apply Hfr. intros (f & Hf & HP & Hr).
  destruct (decide (f = g)) as [->|Hne]; [done|].
  pose proof (field_addr_disjoint c Hwf f g Hf Hg Hne). lia.
Qed.

(** Evaluate register reads after register writes; side conditions on
    validity and distinctness of fields are settled on the spot. *)
Ltac field_side :=
  first [ done | congruence | (simpl; unfold_layout; lia) ].

Ltac regs Hwf :=
  repeat first
    [ rewrite fread_fwrite_same by (unfold field_val; simpl; lia)
    | rewrite (fread_fwrite_other _ Hwf) by field_side ].

(** ** Queues *)
Lemma entry_mod_inj a b :
  0 <= b - a < QueueSize -> a mod QueueSize = b mod QueueSize -> a = b.
Proof. unfold_layout. intros H E. Z.div_mod_to_equations. lia. Qed.

Section queue.
Context (c : Control) (Hwf : ctrl_wf c) (q : Z) (Hq : 0 <= q < MaxNodes).

Lemma entry_offset_field k :
  0 <= k -> entry_offset (GetNodeReqQueueOffset q) k = field_off (QEntry q (k mod QueueSize)).
Proof using Type.
  intros Hk. unfold entry_offset. simpl.
  pose proof (Z.mod_pos_bound k QueueSize ltac:(unfold_layout; lia)).
  rewrite u32_small; [done|unfold_layout; lia].
Qed.

Lemma entry_ok k : field_ok (QEntry q (k mod QueueSize)).
Proof using Hq.
  split; [done|]. apply Z.mod_pos_bound. unfold_layout. lia.
Qed.

(** One attempt of [Push] on a queue with room. *)
Lemma push_loop_room fuel m slotID cmd spin head tail :
  fread m c (QHead q) = head -> fread m c (QTail q) = tail -> 0 <= tail ->
  u32 (tail - head) < QueueSize - 1 ->
  push_loop (S fuel) m c (GetNodeReqQueueOffset q) slotID cmd spin =
  Ret (fwrite (fwrite m c (QTail q) (u32 (tail + 1))) c
         (QEntry q (tail mod QueueSize)) (pack slotID cmd), true).
Proof using Hwf Hq.
  intros Hh Ht Ht0 Hroom. cbn [push_loop].
  change (GetNodeReqQueueOffset q + Q_OFF_HEAD) with (field_off (QHead q)).
  change (GetNodeReqQueueOffset q + Q_OFF_TAIL) with (field_off (QTail q)).
  rewrite !(readU32_field _ Hwf) by done. go_bind. rewrite Hh, Ht.
  rewrite decide_False by lia.
  rewrite (casU32_field _ Hwf) by done. rewrite Ht, decide_True by done. go_bind.
  rewrite entry_offset_field by done. rewrite (field_ptr _ Hwf) by apply entry_ok.
  done.
Qed.

Lemma push_loop_full fuel m slotID cmd spin :
  QueueSize - 1 <= u32 (fread m c (QTail q) - fread m c (QHead q)) ->
  0 <= spin <= 75 -> (Z.to_nat (75 - spin) < fuel)%nat ->
  push_loop fuel m c (GetNodeReqQueueOffset q) slotID cmd spin = Ret (m, false).
Proof using Hwf Hq.
  intros Hfull. revert spin. induction fuel as [|fuel IH]; intros spin Hs Hf; [lia|].
  cbn [push_loop].
  change (GetNodeReqQueueOffset q + Q_OFF_HEAD) with (field_off (QHead q)).
  change (GetNodeReqQueueOffset q + Q_OFF_TAIL) with (field_off (QTail q)).
  rewrite !(readU32_field _ Hwf) by done. go_bind.
  rewrite decide_True by lia.
  destruct (decide (spin < 75)); [apply IH; lia|done].
Qed.

(** [Pop] of an entry whose producer has stored it. *)
Lemma Pop_ready fuel m head slotID cmd :
  fread m c (QHead q) = head -> fread m c (QTail q) <> head -> 0 <= head ->
  0 <= slotID < 4294967296 -> 0 <= cmd < 2147483648 ->
  fread m c (QEntry q (head mod QueueSize)) = pack slotID cmd ->
  Pop (S fuel) m c (GetNodeReqQueueOffset q) =
  Ret (fwrite (fwrite m c (QEntry q (head mod QueueSize)) 0) c (QHead q)
         (u32 (head + 1)), (slotID, cmd, true)).
Proof using Hwf Hq.
  intros Hh Ht Hh0 Hs Hc He. unfold Pop.
  change (GetNodeReqQueueOffset q + Q_OFF_HEAD) with (field_off (QHead q)).
  change (GetNodeReqQueueOffset q + Q_OFF_TAIL) with (field_off (QTail q)).
  rewrite !(readU32_field _ Hwf) by done. go_bind. rewrite Hh.
  rewrite decide_False by congruence.
  rewrite entry_offset_field by done. rewrite (field_ptr _ Hwf) by apply entry_ok.
  go_bind. cbn [pop_wait loadU64]. go_bind.
  change (load_le m (field_addr c (QEntry q (head mod QueueSize))) 8)
    with (fread m c (QEntry q (head mod QueueSize))).
  rewrite He, unpack_pack by done.
  rewrite decide_True by (by apply land_ready_set).
  cbn [storeU64]. go_bind.
  change (GetNodeReqQueueOffset q + Q_OFF_HEAD) with (field_off (QHead q)).
  rewrite (writeU32_field _ Hwf) by done. go_bind.
  by rewrite land_ready_clear.
Qed.

Lemma Pop_empty fuel m :
  fread m c (QHead q) = fread m c (QTail q) ->
  Pop fuel m c (GetNodeReqQueueOffset q) = Ret (m, (0, 0, false)).
Proof using Hwf Hq.
  intros He. unfold Pop.
  change (GetNodeReqQueueOffset q + Q_OFF_HEAD) with (field_off (QHead q)).
  change (GetNodeReqQueueOffset q + Q_OFF_TAIL) with (field_off (QTail q)).
  rewrite !(readU32_field _ Hwf) by done. go_bind. by rewrite decide_True.
Qed.

Lemma queue_repr_push m head l slotID cmd :
  queue_repr m c q head l -> Z.of_nat (length l) < QueueSize - 1 ->
  head + Z.of_nat (length l) + 1 < 4294967296 ->
  0 <= slotID < 4294967296 -> 0 <= cmd < 2147483648 ->
  queue_repr
    (fwrite (fwrite m c (QTail q) (u32 (head + Z.of_nat (length l) + 1))) c
       (QEntry q ((head + Z.of_nat (length l)) mod QueueSize)) (pack slotID cmd))
    c q head (l ++ [(slotID, cmd)]).
Proof using Hwf Hq.
  intros [H1 H2 H3 H4 H5 H6 H7] Hroom Hw Hs Hc.
  pose proof (pack_range slotID cmd Hs Hc) as Hp.
  set (t := head + Z.of_nat (length l)) in *.
  pose proof (entry_ok t) as Hok.
  assert (Hother : forall k, k mod QueueSize <> t mod QueueSize ->
    fread (fwrite (fwrite m c (QTail q) (u32 (t + 1))) c
       (QEntry q (t mod QueueSize)) (pack slotID cmd)) c (QEntry q (k mod QueueSize)) =
    fread m c (QEntry q (k mod QueueSize))).
  { intros k Hk. pose proof (entry_ok k).
    rewrite !(fread_fwrite_other _ Hwf) by field_side. done. }
  split.
  - rewrite !(fread_fwrite_other _ Hwf) by field_side. done.
  - rewrite (fread_fwrite_other _ Hwf) by field_side.
    rewrite u32_small by lia. rewrite fread_fwrite_same by (unfold field_val; simpl; lia).
    rewrite length_app. simpl. lia.
  - rewrite length_app. simpl. lia.
  - rewrite length_app. simpl. lia.
  - intros i x Hx. apply lookup_app_Some in Hx as [Hx|[Hi Hx]].
    + pose proof (lookup_lt_Some _ _ _ Hx). rewrite Hother; [by apply H5|].
      intros E. apply entry_mod_inj in E; unfold t in *; lia.
    + apply list_lookup_singleton_Some in Hx as [Hi' <-].
      replace (head + Z.of_nat i) with t by (unfold t; lia).
      rewrite fread_fwrite_same; [done|]. unfold field_val. simpl. lia.
  - rewrite length_app. simpl. intros k Hk.
    rewrite Hother; [apply H6; lia|].
    intros E. symmetry in E. apply entry_mod_inj in E; unfold t in *; lia.
  - apply Forall_app. split; [done|]. by constructor.
Qed.

Lemma queue_repr_pop m head x l :
  queue_repr m c q head (x :: l) ->
  queue_repr (fwrite (fwrite m c (QEntry q (head mod QueueSize)) 0) c (QHead q)
                (u32 (head + 1))) c q (head + 1) l.
Proof using Hwf Hq.
  intros [H1 H2 H3 H4 H5 H6 H7]. simpl length in *.
  pose proof (entry_ok head) as Hok.
  assert (Hother : forall k, k mod QueueSize <> head mod QueueSize ->
    fread (fwrite (fwrite m c (QEntry q (head mod QueueSize)) 0) c (QHead q)
                (u32 (head + 1))) c (QEntry q (k mod QueueSize)) =
    fread m c (QEntry q (k mod QueueSize))).
  { intros k Hk. pose proof (entry_ok k).
    rewrite !(fread_fwrite_other _ Hwf) by field_side. done. }
  split.
  - rewrite u32_small by lia. apply fread_fwrite_same. unfold field_val. simpl. lia.
  - rewrite !(fread_fwrite_other _ Hwf) by field_side. lia.
  - lia.
  - lia.
  - intros i y Hy. pose proof (lookup_lt_Some _ _ _ Hy).
    replace (head + 1 + Z.of_nat i) with (head + Z.of_nat (S i)) by lia.
    rewrite Hother; [by apply H5|].
    intros E. symmetry in E. apply entry_mod_inj in E; lia.
  - intros k Hk. destruct (decide (k = QueueSize - 1)) as [->|].
    + replace (head + 1 + (QueueSize - 1)) with (head + 1 * QueueSize) by lia.
      rewrite Z.mod_add by (unfold_layout; lia).
      rewrite (fread_fwrite_other _ Hwf) by field_side.
      apply fread_fwrite_same. unfold field_val. simpl. lia.
    + replace (head + 1 + k) with (head + (k + 1)) by lia.
      rewrite Hother; [apply H6; lia|].
      intros E. symmetry in E. apply entry_mod_inj in E; lia.
  - by inversion H7.
Qed.

Lemma Push_room m head l slotID cmd :
  queue_repr m c q head l -> Z.of_nat (length l) < QueueSize - 1 ->
  qop_ok (OPush slotID cmd) -> head + Z.of_nat (length l) + 1 < 4294967296 ->
  exists m', Push m c (GetNodeReqQueueOffset q) slotID cmd = Ret (m', true) /\
    queue_repr m' c q head (l ++ [(slotID, cmd)]) /\
    mem_frame (touched c (queue_field q)) m m'.
Proof using Hwf Hq.
  intros Hr Hroom [Hs Hc] Hw. pose proof (qr_nowrap _ _ _ _ _ Hr).
  eexists. split_and!; [| |].
  - unfold Push. erewrite (push_loop_room 75) by
      (try apply Hr; rewrite ?(qr_tail _ _ _ _ _ Hr), ?(qr_head _ _ _ _ _ Hr),
         ?u32_small; try lia; unfold_layout; lia).
    reflexivity.
  - by apply queue_repr_push.
  - eapply mem_frame_trans; apply fwrite_frame; done || apply entry_ok.
Qed.

Lemma Pop_item m head slotID cmd l :
  queue_repr m c q head ((slotID, cmd) :: l) ->
  exists m', Pop 1 m c (GetNodeReqQueueOffset q) = Ret (m', (slotID, cmd, true)) /\
    queue_repr m' c q (head + 1) l /\ mem_frame (touched c (queue_field q)) m m'.
Proof using Hwf Hq.
  intros Hr. pose proof (qr_nowrap _ _ _ _ _ Hr).
  pose proof (qr_vals _ _ _ _ _ Hr) as Hv. inversion Hv as [|?? [Hs Hc] _]; subst.
  eexists. split_and!.
  - apply (Pop_ready 0 m head slotID cmd); [apply Hr| |lia|done|done|].
    + rewrite (qr_tail _ _ _ _ _ Hr). simpl. lia.
    + pose proof (qr_entries _ _ _ _ _ Hr 0%nat _ eq_refl) as He.
      by rewrite Z.add_0_r in He.
  - by eapply queue_repr_pop.
  - eapply mem_frame_trans; apply fwrite_frame; done || apply entry_ok.
Qed.

Lemma Pop_none m head :
  queue_repr m c q head [] -> Pop 1 m c (GetNodeReqQueueOffset q) = Ret (m, (0, 0, false)).
Proof using Hwf Hq.
  intros Hr. apply Pop_empty. rewrite (qr_head _ _ _ _ _ Hr), (qr_tail _ _ _ _ _ Hr). simpl. lia.
Qed.

Lemma qexec_push m head l slotID cmd :
  queue_repr m c q head l -> qop_ok (OPush slotID cmd) ->
  head + Z.of_nat (length l) + 1 < 4294967296 ->
  exists m',
    qexec m c q (OPush slotID cmd) = Ret (m', (fifo_step l (OPush slotID cmd)).2) /\
    queue_repr m' c q head (fifo_step l (OPush slotID cmd)).1 /\
    mem_frame (touched c (queue_field q)) m m'.
Proof using Hwf Hq.
  intros Hr [Hs Hc] Hw. pose proof (qr_nowrap _ _ _ _ _ Hr).
  simpl. destruct (decide (Z.of_nat (length l) < QueueSize - 1)) as [Hroom|Hfull]; simpl.
  - destruct (Push_room m head l slotID cmd Hr Hroom ltac:(done) Hw) as (m' & E & ? & ?).
    exists m'. rewrite E. done.
  - exists m. split_and!; [|done|apply mem_frame_refl].
    unfold Push. rewrite push_loop_full; [done| |lia|simpl; lia].
    rewrite (qr_tail _ _ _ _ _ Hr), (qr_head _ _ _ _ _ Hr).
    rewrite u32_small; [lia|]. pose proof (qr_room _ _ _ _ _ Hr). unfold_layout. lia.
Qed.

Lemma qexec_pop m head l :
  queue_repr m c q head l ->
  exists m' head',
    qexec m c q OPop = Ret (m', (fifo_step l OPop).2) /\
    queue_repr m' c q head' (fifo_step l OPop).1 /\
    head' + Z.of_nat (length (fifo_step l OPop).1) = head + Z.of_nat (length l) /\
    mem_frame (touched c (queue_field q)) m m'.
Proof using Hwf Hq.
  intros Hr. pose proof (qr_nowrap _ _ _ _ _ Hr).
  destruct l as [|[slotID cmd] l]; simpl.
  - exists m, head. split_and!; [|done|lia|apply mem_frame_refl].
    by rewrite (Pop_none m head).
  - destruct (Pop_item m head slotID cmd l Hr) as (m' & E & Hr' & Hfr).
    exists m', (head + 1). rewrite E. split_and!; [done|done|lia|done].
Qed.

Lemma qexec_refines m head l o :
  queue_repr m c q head l -> qop_ok o ->
  head + Z.of_nat (length l) + 1 < 4294967296 ->
  exists m' head',
    qexec m c q o = Ret (m', (fifo_step l o).2) /\
    queue_repr m' c q head' (fifo_step l o).1 /\
    head' + Z.of_nat (length (fifo_step l o).1) <= head + Z.of_nat (length l) + 1 /\
    mem_frame (touched c (queue_field q)) m m'.
Proof using Hwf Hq.
  intros Hr Ho Hw. destruct o as [slotID cmd|].
  - destruct (qexec_push m head l slotID cmd Hr Ho Hw) as (m' & E & Hr' & Hfr).
    exists m', head. split_and!; [done..| |done].
    simpl. case_decide; simpl; rewrite ?length_app; simpl; lia.
  - destruct (qexec_pop m head l Hr) as (m' & head' & E & Hr' & Hl & Hfr).
    exists m', head'. split_and!; [done..|lia|done].
Qed.
End queue.

(** A queue does not notice writes to other words. *)
Lemma queue_repr_ext m m' c q head l :
  0 <= q < MaxNodes ->
  (forall f, field_ok f -> queue_field q f -> fread m' c f = fread m c f) ->
  queue_repr m c q head l -> queue_repr m' c q head l.
Proof.
  intros Hq Hs [H1 H2 H3 H4 H5 H6 H7]. split; try done.
  - by rewrite Hs.
  - by rewrite Hs.
  - intros i x Hx. rewrite Hs; [by apply H5|by apply entry_ok|done].
  - intros k Hk. rewrite Hs; [by apply H6|by apply entry_ok|done].
Qed.

(** ** Registry *)
Section registry.
Context (c : Control) (Hwf : ctrl_wf c).

(** Accesses to slot 0 miss the stripe: reads give 0, writes are dropped. *)
Lemma slot0_pointer : GetPointer (cstripe c) (GetStripeEntryOffset 0 + STRIPE_OFF_STATUS) = Ret None.
Proof using Hwf.
  unfold GetPointer. rewrite decide_True; [done|].
  rewrite (cwf_len _ Hwf). vm_compute. discriminate.
Qed.

Lemma cyc_slot_code start i :
  0 <= start -> 0 <= i ->
  u32 (u32 (start + i - 1) mod MaxTotalSlots + 1) = cyc_slot start i.
Proof using Type.
  intros Hs Hi. unfold cyc_slot. rewrite u32_small.
  - unfold u32, MaxTotalSlots. f_equal.
    apply Z.mod_mod_divide. by exists 1048576.
  - unfold MaxTotalSlots.
    pose proof (Z.mod_pos_bound (u32 (start + i - 1)) 4096). lia.
Qed.

Lemma cyc_slot_range start i : 1 <= cyc_slot start i <= MaxTotalSlots.
Proof using Type.
  unfold cyc_slot. pose proof (Z.mod_pos_bound (start + i - 1) MaxTotalSlots).
  unfold_layout. lia.
Qed.

(** Every slot is tried in one of the [MaxTotalSlots] rounds. *)
Lemma cyc_slot_onto start s :
  1 <= s <= MaxTotalSlots -> exists i, 0 <= i < MaxTotalSlots /\ cyc_slot start i = s.
Proof using Type.
  intros Hs. exists ((s - start) mod MaxTotalSlots). unfold cyc_slot. split.
  - apply Z.mod_pos_bound. unfold_layout. lia.
  - unfold_layout. Z.div_mod_to_equations. lia.
Qed.

Lemma alloc_slot_loop_spec n : forall i start m,
  0 <= start -> 0 <= i ->
  (exists j, i <= j < i + Z.of_nat n /\
     fread m c (SStatus (cyc_slot start j)) = StripeStatusIdle /\
     (forall k, i <= k < j -> fread m c (SStatus (cyc_slot start k)) <> StripeStatusIdle) /\
     alloc_slot_loop n i start m c =
       Ret (fwrite m c (SStatus (cyc_slot start j)) StripeStatusBusy,
            (cyc_slot start j, true))) \/
  ((forall k, i <= k < i + Z.of_nat n ->
      fread m c (SStatus (cyc_slot start k)) <> StripeStatusIdle) /\
   alloc_slot_loop n i start m c = Ret (m, (0, false))).
Proof using Hwf.
  induction n as [|n IH]; intros i start m Hs Hi.
  - right. split; [lia|done].
  - cbn [alloc_slot_loop]. rewrite cyc_slot_code by done.
    change (GetStripeEntryOffset ?s + STRIPE_OFF_STATUS) with (field_off (SStatus s)).
    pose proof (cyc_slot_range start i) as Hr.
    rewrite (casU32_field _ Hwf) by done. go_bind.
    destruct (decide (fread m c (SStatus (cyc_slot start i)) = StripeStatusIdle)) as [E|E].
    + left. exists i. split_and!; [lia|lia|done|lia|done].
    + destruct (IH (i + 1) start m Hs ltac:(lia)) as [(j & Hj & H1 & H2 & H3)|[H1 H2]].
      * left. exists j. split_and!; [lia|lia|done| |done].
        intros k Hk. destruct (decide (k = i)) as [->|]; [done|]. apply H2. lia.
      * right. split; [|done].
        intros k Hk. destruct (decide (k = i)) as [->|]; [done|]. apply H1. lia.
Qed.

(** Packing of a header's location into one word. *)
Lemma combined_header cid off :
  let h := Z.lor (u32 (Z.shiftl (u16 cid) 16)) (u16 off) in
  0 <= h < 4294967296 /\ u16 (Z.shiftr h 16) = u16 cid /\ u16 (Z.land h 65535) = u16 off.
Proof using Type.
  pose proof (u16_range cid). pose proof (u16_range off).
  rewrite Z.shiftl_mul_pow2 by lia. change (2 ^ 16) with 65536.
  rewrite u32_small by lia.
  rewrite lor_add_disjoint by
    (apply (land_low_high (u16 cid) (u16 off) 16); [lia|by change (2 ^ 16) with 65536]).
  cbv zeta. split; [lia|].
  change 65535 with (Z.ones 16). rewrite Z.land_ones, Z.shiftr_div_pow2 by lia.
  change (2 ^ 16) with 65536. split.
  - rewrite Z.div_add_l, Z.div_small by lia. rewrite Z.add_0_r. by apply u16_small.
  - rewrite Z.add_comm, Z.mod_add, Z.mod_small by lia. by apply u16_small.
Qed.

Lemma SetStripe_fields m s status cid off owner :
  1 <= s <= MaxTotalSlots ->
  SetStripe m c s status cid off owner =
  Ret (fwrite (fwrite (fwrite m c (SHeader s)
         (Z.lor (u32 (Z.shiftl (u16 cid) 16)) (u16 off))) c (SOwner s) owner)
         c (SStatus s) status).
Proof using Hwf.
  intros Hs. unfold SetStripe.
  change (GetStripeEntryOffset s + STRIPE_OFF_HEADER) with (field_off (SHeader s)).
  change (GetStripeEntryOffset s + STRIPE_OFF_OWNER) with (field_off (SOwner s)).
  change (GetStripeEntryOffset s + STRIPE_OFF_STATUS) with (field_off (SStatus s)).
  rewrite (writeU32_field _ Hwf) by done. go_bind.
  rewrite (writeU32_field _ Hwf) by done. go_bind.
  by rewrite (writeU32_field _ Hwf).
Qed.

Lemma GetStripeStatus_field m s :
  1 <= s <= MaxTotalSlots -> GetStripeStatus m c s = Ret (fread m c (SStatus s)).
Proof using Hwf. intros Hs. by apply (readU32_field _ Hwf m (SStatus s)). Qed.

Lemma GetStripeOwner_field m s :
  1 <= s <= MaxTotalSlots -> GetStripeOwner m c s = Ret (fread m c (SOwner s)).
Proof using Hwf. intros Hs. by apply (readU32_field _ Hwf m (SOwner s)). Qed.

Lemma GetStripeHeader_field m s :
  1 <= s <= MaxTotalSlots ->
  GetStripeHeader m c s =
  Ret (i16 (u16 (Z.shiftr (fread m c (SHeader s)) 16)),
       i16 (u16 (Z.land (fread m c (SHeader s)) 65535))).
Proof using Hwf.
  intros Hs. unfold GetStripeHeader.
  change (GetStripeEntryOffset s + STRIPE_OFF_HEADER) with (field_off (SHeader s)).
  by rewrite (readU32_field _ Hwf).
Qed.

Lemma FreeSlot_field m s :
  1 <= s <= MaxTotalSlots -> FreeSlot m c s = Ret (fwrite m c (SStatus s) StripeStatusIdle).
Proof using Hwf. intros Hs. by apply (writeU32_field _ Hwf m (SStatus s)). Qed.

Lemma SetStripeStatus_field m s v :
  1 <= s <= MaxTotalSlots -> SetStripeStatus m c s v = Ret (fwrite m c (SStatus s) v).
Proof using Hwf. intros Hs. by apply (writeU32_field _ Hwf m (SStatus s)). Qed.
(** [SetStripe] in full. *)
Lemma SetStripe_effect m s status cid off owner :
  1 <= s <= MaxTotalSlots -> 0 <= status < 4294967296 -> 0 <= owner < 4294967296 ->
  -32768 <= cid < 32768 -> -32768 <= off < 32768 ->
  exists m', SetStripe m c s status cid off owner = Ret m' /\
    fread m' c (SStatus s) = status /\ fread m' c (SOwner s) = owner /\
    GetStripeHeader m' c s = Ret (cid, off) /\
    mem_frame (touched c (slot_field s)) m m'.
Proof using Hwf.
  intros Hs Hst How Hcid Hoff. destruct (combined_header cid off) as (Hh & Hhi & Hlo).
  eexists. split; [by apply SetStripe_fields|]. rewrite GetStripeHeader_field by done.
  regs Hwf. rewrite Hhi, Hlo, !i16_u16, !i16_small by lia. split_and!; [done..|].
  repeat (eapply mem_frame_trans; [|apply fwrite_frame; done]). apply mem_frame_refl.
Qed.
End registry.

(** ** Initialisation *)
Section init.
Context (c : Control) (Hwf : ctrl_wf c).

Lemma zeroed_step (P Q : field -> Prop) m m' f :
  zeroed c P m m' -> field_ok f -> (forall g, field_ok g -> Q g <-> P g \/ g = f) ->
  zeroed c Q m (fwrite m' c f 0).
Proof using Hwf.
  intros [Hz Hf] Hok HQ. split.
  - intros g Hg HQg. destruct (decide (g = f)) as [->|Hne].
    + apply fread_fwrite_same. unfold field_val. destruct f; simpl; lia.
    + rewrite (fread_fwrite_other _ Hwf) by done. apply Hz; [done|].
      apply HQ in HQg as [|]; done.
  - apply mem_frame_trans with m'.
    + eapply mem_frame_mono; [|exact Hf]. intros a (g & ? & ? & ?).
      exists g. split_and!; try done; try lia. apply HQ; [done|]. by left.
    + apply fwrite_frame; [done|]. apply HQ; [done|]. by right.
Qed.

Lemma zeroed_ext (P Q : field -> Prop) m m' :
  (forall f, field_ok f -> P f <-> Q f) -> zeroed c P m m' -> zeroed c Q m m'.
Proof using Type.
  intros HPQ [Hz Hf]. split.
  - intros f Hok HQ. apply Hz; [done|]. by apply HPQ.
  - eapply mem_frame_mono; [|exact Hf]. intros a (g & ? & ? & ?).
    exists g. split_and!; try done; try lia. by apply HPQ.
Qed.

Lemma qptr_below_succ i g :
  0 <= i -> qptr_below (i + 1) g <-> (qptr_below i g \/ g = QHead i) \/ g = QTail i.
Proof using Type.
  intros Hi. destruct g as [k|k|k e|k|k|k]; simpl;
    try (intuition congruence); destruct (decide (k = i)) as [->|];
    intuition (lia || congruence).
Qed.

Lemma init_queues_zeroed n : forall i m0 m,
  0 <= i -> i + Z.of_nat n <= MaxNodes ->
  zeroed c (qptr_below i) m0 m ->
  exists m', init_queues n i m c = Ret m' /\ zeroed c (qptr_below (i + Z.of_nat n)) m0 m'.
Proof using Hwf.
  induction n as [|n IH]; intros i m0 m Hi Hn Hz.
  - exists m. split; [done|]. by rewrite Z.add_0_r.
  - cbn [init_queues].
    change (GetNodeReqQueueOffset i + Q_OFF_HEAD) with (field_off (QHead i)).
    change (GetNodeReqQueueOffset i + Q_OFF_TAIL) with (field_off (QTail i)).
    rewrite (writeU32_field _ Hwf) by field_side. go_bind.
    rewrite (writeU32_field _ Hwf) by field_side. go_bind.
    replace (i + Z.of_nat (S n)) with (i + 1 + Z.of_nat n) by lia.
    apply IH; [lia|lia|].
    eapply (zeroed_step (fun f => qptr_below i f \/ f = QHead i));
      [eapply zeroed_step; [exact Hz|field_side|done]|field_side|].
    intros g _. by apply qptr_below_succ.
Qed.

Lemma init_slots_zeroed n : forall i m0 m,
  0 <= i -> i + Z.of_nat n <= MaxTotalSlots ->
  zeroed c (ptr_or_slot_below i) m0 m ->
  exists m', init_slots n i m c = Ret m' /\
    zeroed c (ptr_or_slot_below (i + Z.of_nat n)) m0 m'.
Proof using Hwf.
  induction n as [|n IH]; intros i m0 m Hi Hn Hz.
  - exists m. split; [done|]. by rewrite Z.add_0_r.
  - cbn [init_slots]. replace (i + Z.of_nat (S n)) with (i + 1 + Z.of_nat n) by lia.
    destruct (decide (i = 0)) as [->|].
    + unfold writeU32. rewrite (slot0_pointer _ Hwf). go_bind.
      apply IH; [lia|lia|]. eapply zeroed_ext; [|exact Hz].
      intros f _. destruct f; simpl; try done. lia.
    + change (GetStripeEntryOffset i + STRIPE_OFF_STATUS) with (field_off (SStatus i)).
      rewrite (writeU32_field _ Hwf) by field_side. go_bind.
      apply IH; [lia|lia|].
      eapply zeroed_step; [exact Hz|field_side|].
      intros f _. destruct f; simpl; try (intuition congruence).
      split; [|intros [|[= ->]]; lia].
      intros ?. destruct (decide (slot = i)) as [->|]; [by right|left; lia].
Qed.

Lemma Init_zeroed m :
  exists m', Init m c = Ret m' /\ zeroed c (ptr_or_slot_below MaxTotalSlots) m m'.
Proof using Hwf.
  unfold Init.
  change (OFF_RESP_QUEUE + Q_OFF_HEAD) with (field_off (QHead 0)).
  change (OFF_RESP_QUEUE + Q_OFF_TAIL) with (field_off (QTail 0)).
  rewrite (writeU32_field _ Hwf) by done. go_bind.
  rewrite (writeU32_field _ Hwf) by done. go_bind.
  destruct (init_queues_zeroed (Z.to_nat MaxNodes) 0 m
    (fwrite (fwrite m c (QHead 0) 0) c (QTail 0) 0)) as (m1 & -> & Hz); [lia|done| |].
  { eapply (zeroed_step (fun f => f = QHead 0)); [|done|].
    - eapply (zeroed_step (fun _ => False)); [|done|intuition].
      split; [done|apply mem_frame_refl].
    - intros g _. destruct g; simpl; intuition (lia || congruence). }
  go_bind.
  destruct (init_slots_zeroed (Z.to_nat MaxTotalSlots) 0 m m1) as (m2 & -> & Hz');
    [lia|done| |by exists m2].
  eapply zeroed_ext; [|exact Hz].
  intros f Hf. destruct f; simpl in *; unfold_layout; tauto || lia.
Qed.
End init.

(** ** A concrete control stripe *)
Lemma lookup_first_blocks n i b :
  first_blocks n !! i = Some b <->
  Z.of_nat i < n /\ b = Slice (Z.of_nat i * BlockSize) BlockSize.
Proof.
  unfold first_blocks. rewrite list_lookup_fmap_Some. split.
  - intros (j & -> & Hj). apply lookup_seqZ in Hj as [-> Hj]. split; [lia|done].
  - intros [Hi ->]. exists (Z.of_nat i). split; [done|]. by apply lookup_seqZ.
Qed.

Lemma length_first_blocks n : length (first_blocks n) = Z.to_nat n.
Proof. unfold first_blocks. by rewrite length_fmap, length_seqZ. Qed.

Lemma first_blocks_wf n : 0 < n < 1048576 -> blocks_wf (first_blocks n).
Proof.
  intros Hn. split.
  - apply Forall_lookup. intros i b Hb. apply lookup_first_blocks in Hb as [_ ->]. done.
  - intros i j b d Hb Hd Hne.
    apply lookup_first_blocks in Hb as [_ ->]. apply lookup_first_blocks in Hd as [_ ->].
    simpl. unfold_layout. lia.
  - rewrite length_first_blocks. lia.
  - rewrite length_first_blocks. unfold_layout. lia.
Qed.

(** The first 256 blocks form a well-formed control stripe; node and hub
    both use them. *)
Lemma first_blocks_ctrl_wf seq n :
  ctrl_wf (NewControl (mkStripe seq n (first_blocks 256) 0)).
Proof.
  split; cbn [cstripe NewControl Blocks].
  - apply first_blocks_wf. lia.
  - by rewrite length_first_blocks.
Qed.

(** A memory that reads zero holds empty queues. *)
Lemma queue_repr_empty m c q :
  fread m c (QHead q) = 0 -> fread m c (QTail q) = 0 ->
  (forall i, 0 <= i < QueueSize -> fread m c (QEntry q i) = 0) ->
  queue_repr m c q 0 [].
Proof.
  intros Hh Ht He. split; simpl; [done|done|lia|unfold_layout; lia|done| |by constructor].
  intros k Hk. rewrite Z.mod_small by lia. by apply He.
Qed.

Lemma fread_empty c f : fread ∅ c f = 0.
Proof. unfold fread. by destruct f. Qed.

(** ** Theorems *)

(** C23: [Push] and [Pop] implement a bounded FIFO.  Whatever sequence of
    them runs on a queue, the results they return (the false of a full and of
    an empty queue included) and the contents left are those of a list of at
    most [QueueSize - 1] commands, and only words of that queue change.  The
    run must start before the counters have seen 2^32 commands. *)
Theorem queue_refines_fifo c q m head l os :
  ctrl_wf c -> 0 <= q < MaxNodes -> queue_repr m c q head l -> Forall qop_ok os ->
  head + Z.of_nat (length l) + Z.of_nat (length os) < 4294967296 ->
  exists m' head',
    qexec_all m c q os = Ret (m', (fifo_all l os).2) /\
    queue_repr m' c q head' (fifo_all l os).1 /\
    mem_frame (touched c (queue_field q)) m m'.
Proof.
  intros Hwf Hq Hr Hos. revert m head l Hr.
  induction Hos as [|o os Ho Hos IH]; intros m head l Hr Hw; simpl length in Hw.
  - exists m, head. split_and!; [done|done|apply mem_frame_refl].
  - destruct (qexec_refines c Hwf q Hq m head l o Hr Ho) as (m1 & h1 & E1 & Hr1 & Hl & Hf1);
      [lia|].
    destruct (IH m1 h1 _ Hr1) as (m2 & h2 & E2 & Hr2 & Hf2); [lia|].
    exists m2, h2. cbn [qexec_all fifo_all]. rewrite E1. go_bind. cbn [fst].
    rewrite E2. go_bind. destruct (fifo_step l o) as [l1 r1]. cbn [fst snd] in *.
    destruct (fifo_all l1 os) as [l2 rs]. cbn [fst snd] in *.
    split_and!; [done|done|]. by eapply mem_frame_trans.
Qed.

Lemma queue_refines_fifo_witness :
  exists m' head',
    qexec_all ∅ demo_control 1 [OPush 7 CMD_PROCESS; OPush 8 CMD_RELEASE; OPop; OPop; OPop] =
      Ret (m', [RPush true; RPush true; RPop (7, 1, true); RPop (8, 2, true);
                RPop (0, 0, false)]) /\
    queue_repr m' demo_control 1 head' [] /\
    mem_frame (touched demo_control (queue_field 1)) ∅ m'.
Proof.
  apply (queue_refines_fifo demo_control 1 ∅ 0 []
           [OPush 7 CMD_PROCESS; OPush 8 CMD_RELEASE; OPop; OPop; OPop]).
  - apply first_blocks_ctrl_wf.
  - unfold_layout. lia.
  - by apply queue_repr_empty.
  - repeat constructor; simpl; unfold CMD_PROCESS, CMD_RELEASE; lia.
  - simpl. lia.
Defined.

(** C39: The ring index [tail % QueueSize] is not continuous where the 32-bit
    counters wrap, because [QueueSize] does not divide 2^32.  In a queue with
    [k] unread commands whose tail has just wrapped to 0, with k between 256
    and 508, [Push] reports success and stores its entry over an unread one,
    the command number 2^32 - 256. *)
Theorem Push_wrap_overwrites c q m k slotID cmd :
  ctrl_wf c -> 0 <= q < MaxNodes -> 256 <= k < QueueSize - 1 ->
  fread m c (QHead q) = 4294967296 - k -> fread m c (QTail q) = 0 ->
  0 <= slotID < 4294967296 -> 0 <= cmd < 2147483648 ->
  exists m', Push m c (GetNodeReqQueueOffset q) slotID cmd = Ret (m', true) /\
    fread m' c (QHead q) <= 4294967296 - 256 /\
    fread m' c (QEntry q ((4294967296 - 256) mod QueueSize)) = pack slotID cmd.
Proof.
  intros Hwf Hq Hk Hh Ht Hs Hc. pose proof (pack_range slotID cmd Hs Hc).
  pose proof (entry_ok q Hq 0) as Hok.
  eexists. split; [|split].
  - apply (push_loop_room c Hwf q Hq 75) with (head := 4294967296 - k) (tail := 0);
      [done|done|lia|].
    replace (0 - (4294967296 - k)) with (k + (-1) * 4294967296) by lia.
    unfold u32. rewrite Z.mod_add, Z.mod_small by (unfold_layout; lia). lia.
  - rewrite !(fread_fwrite_other _ Hwf) by field_side. lia.
  - change ((4294967296 - 256) mod QueueSize) with (0 mod QueueSize).
    apply fread_fwrite_same. unfold field_val. simpl. lia.
Qed.

Lemma Push_wrap_overwrites_witness :
  exists m', Push (fwrite ∅ demo_control (QHead 1) (4294967296 - 300)) demo_control
      (GetNodeReqQueueOffset 1) 9 CMD_PROCESS = Ret (m', true) /\
    fread m' demo_control (QHead 1) <= 4294967296 - 256 /\
    fread m' demo_control (QEntry 1 ((4294967296 - 256) mod QueueSize)) = pack 9 CMD_PROCESS.
Proof.
  apply (Push_wrap_overwrites demo_control 1 _ 300).
  - apply first_blocks_ctrl_wf.
  - unfold_layout. lia.
  - unfold_layout. lia.
  - vm_compute. reflexivity.
  - vm_compute. reflexivity.
  - lia.
  - unfold CMD_PROCESS. lia.
Defined.

(** [AllocSlot] takes the first idle slot in cyclic order after the
    cursor and marks it busy, changing nothing else; it fails, changing
    nothing, exactly when no slot from 1 to 4096 is idle.  The wrap of the
    32-bit cursor is harmless. *)
Theorem AllocSlot_correct c m :
  ctrl_wf c -> 0 <= cursor c < 4294967296 ->
  let start := u32 (cursor c + 1) in
  let c' := mkControl start (cstripe c) in
  (exists j, 0 <= j < MaxTotalSlots /\ 1 <= cyc_slot start j <= MaxTotalSlots /\
     fread m c (SStatus (cyc_slot start j)) = StripeStatusIdle /\
     (forall k, 0 <= k < j -> fread m c (SStatus (cyc_slot start k)) <> StripeStatusIdle) /\
     AllocSlot m c = Ret (fwrite m c (SStatus (cyc_slot start j)) StripeStatusBusy, c',
                          (cyc_slot start j, true))) \/
  ((forall s, 1 <= s <= MaxTotalSlots -> fread m c (SStatus s) <> StripeStatusIdle) /\
   AllocSlot m c = Ret (m, c', (0, false))).
Proof.
  intros Hwf Hcur start c'. unfold AllocSlot. fold start. fold c'.
  assert (Hwf' : ctrl_wf c') by (split; apply Hwf).
  assert (Hs : 0 <= start) by (apply u32_range).
  destruct (alloc_slot_loop_spec c' Hwf' (Z.to_nat MaxTotalSlots) 0 start m Hs)
    as [(j & Hj & H1 & H2 & ->)|[H1 ->]]; [lia| |].
  - left. exists j. split_and!; try done; try lia; apply cyc_slot_range.
  - right. split; [|done]. intros s Hr.
    destruct (cyc_slot_onto start s Hr) as (i & Hi & <-). by apply H1.
Qed.

Lemma AllocSlot_correct_witness :
  let c := mkControl 4294967295 (cstripe demo_control) in
  let start := u32 (cursor c + 1) in
  let c' := mkControl start (cstripe c) in
  (exists j, 0 <= j < MaxTotalSlots /\ 1 <= cyc_slot start j <= MaxTotalSlots /\
     fread ∅ c (SStatus (cyc_slot start j)) = StripeStatusIdle /\
     (forall k, 0 <= k < j -> fread ∅ c (SStatus (cyc_slot start k)) <> StripeStatusIdle) /\
     AllocSlot ∅ c = Ret (fwrite ∅ c (SStatus (cyc_slot start j)) StripeStatusBusy, c',
                          (cyc_slot start j, true))) \/
  ((forall s, 1 <= s <= MaxTotalSlots -> fread ∅ c (SStatus s) <> StripeStatusIdle) /\
   AllocSlot ∅ c = Ret (∅, c', (0, false))).
Proof.
  apply (AllocSlot_correct (mkControl 4294967295 (cstripe demo_control)) ∅).
  - split; apply (first_blocks_ctrl_wf [] 256).
  - simpl. lia.
Defined.

(** What [SetStripe] registers is what the getters read back (the two
    int16 values through their packed word), and no word of another slot or
    of a queue changes; [FreeSlot] then makes the slot idle. *)
Theorem SetStripe_roundtrip c m s status cid off owner :
  ctrl_wf c -> 1 <= s <= MaxTotalSlots ->
  0 <= status < 4294967296 -> 0 <= owner < 4294967296 ->
  -32768 <= cid < 32768 -> -32768 <= off < 32768 ->
  exists m', SetStripe m c s status cid off owner = Ret m' /\
    GetStripeStatus m' c s = Ret status /\
    GetStripeHeader m' c s = Ret (cid, off) /\
    GetStripeOwner m' c s = Ret owner /\
    mem_frame (touched c (slot_field s)) m m' /\
    exists m'', FreeSlot m' c s = Ret m'' /\
      GetStripeStatus m'' c s = Ret StripeStatusIdle /\
      GetStripeHeader m'' c s = Ret (cid, off).
Proof.
  intros Hwf Hs Hst How Hcid Hoff.
  destruct (SetStripe_effect c Hwf m s status cid off owner Hs Hst How Hcid Hoff)
    as (m' & E & H1 & H2 & H3 & Hfr).
  exists m'. split; [done|]. rewrite (GetStripeStatus_field c Hwf), (GetStripeOwner_field c Hwf),
    (FreeSlot_field c Hwf), H1, H2 by done.
  split_and!; [done..|]. eexists. split; [done|].
  rewrite (GetStripeStatus_field c Hwf), fread_fwrite_same
    by (done || (unfold field_val; simpl; unfold StripeStatusIdle; lia)).
  split; [done|]. rewrite <- H3, !(GetStripeHeader_field c Hwf) by done.
  by rewrite (fread_fwrite_other _ Hwf) by field_side.
Qed.

Lemma SetStripe_roundtrip_witness :
  exists m', SetStripe ∅ demo_control 4096 StripeStatusReady (-1) 300 5 = Ret m' /\
    GetStripeStatus m' demo_control 4096 = Ret StripeStatusReady /\
    GetStripeHeader m' demo_control 4096 = Ret (-1, 300) /\
    GetStripeOwner m' demo_control 4096 = Ret 5 /\
    mem_frame (touched demo_control (slot_field 4096)) ∅ m' /\
    exists m'', FreeSlot m' demo_control 4096 = Ret m'' /\
      GetStripeStatus m'' demo_control 4096 = Ret StripeStatusIdle /\
      GetStripeHeader m'' demo_control 4096 = Ret (-1, 300).
Proof.
  apply (SetStripe_roundtrip demo_control ∅ 4096 StripeStatusReady (-1) 300 5).
  - apply first_blocks_ctrl_wf.
  - unfold_layout. lia.
  - unfold StripeStatusReady. lia.
  - lia.
  - lia.
  - lia.
Defined.

(** On a region whose queue entries read zero (a fresh memfd) [Init]
    leaves every queue empty and the slots 1 to 4095 idle.  Its slot loop
    runs from 0 to 4095 although slots are numbered from 1: the write for
    slot 0 falls outside the stripe and is dropped, and the status of slot
    4096, which [AllocSlot] hands out, keeps whatever value it had. *)
Theorem Init_correct c m :
  ctrl_wf c ->
  (forall q i, 0 <= q < MaxNodes -> 0 <= i < QueueSize -> fread m c (QEntry q i) = 0) ->
  exists m', Init m c = Ret m' /\
    (forall q, 0 <= q < MaxNodes -> queue_repr m' c q 0 []) /\
    (forall s, 1 <= s < MaxTotalSlots -> GetStripeStatus m' c s = Ret StripeStatusIdle) /\
    GetStripeStatus m' c MaxTotalSlots = GetStripeStatus m c MaxTotalSlots.
Proof.
  intros Hwf He. destruct (Init_zeroed c Hwf m) as (m' & E & Hz & Hf).
  exists m'. split_and!; [done| | |].
  - intros q Hq. apply queue_repr_empty; [apply Hz; simpl; lia..|].
    intros i Hi. rewrite (fread_frame _ _ _ _ _ Hwf Hf) by (simpl; tauto). by apply He.
  - intros s Hs. rewrite (GetStripeStatus_field c Hwf) by lia.
    by rewrite Hz by (simpl; lia).
  - rewrite !(GetStripeStatus_field c Hwf) by (unfold_layout; lia).
    by rewrite (fread_frame _ _ _ _ _ Hwf Hf) by (simpl; lia || (unfold_layout; lia)).
Qed.

Lemma Init_correct_witness :
  let m := fwrite ∅ demo_control (SStatus 4096) StripeStatusDone in
  exists m', Init m demo_control = Ret m' /\
    (forall q, 0 <= q < MaxNodes -> queue_repr m' demo_control q 0 []) /\
    (forall s, 1 <= s < MaxTotalSlots ->
       GetStripeStatus m' demo_control s = Ret StripeStatusIdle) /\
    GetStripeStatus m' demo_control MaxTotalSlots =
      GetStripeStatus m demo_control MaxTotalSlots.
Proof.
  apply (Init_correct demo_control (fwrite ∅ demo_control (SStatus 4096) StripeStatusDone)).
  - apply first_blocks_ctrl_wf.
  - intros q i Hq Hi.
    rewrite (fread_fwrite_other demo_control (first_blocks_ctrl_wf [] 256))
      by field_side.
    apply fread_empty.
Defined.
