(* ===== verification/Queue.v ===== *)
(** * The queues under concurrency

    control.go calls [Push] multi-producer safe and [Pop] single-consumer
    safe.  Here every atomic access of the two functions is one step, any
    number of producers and the consumer interleave freely, and the safety of
    the ring is an invariant of the reachable states.

    The step functions are written against [RegMem], what the control region
    promises to its clients: words that behave as independent registers.
    [Control] discharges the promise for the control stripe in shared memory,
    and the last section ties the steps to the sequential [Push] and [Pop]. *)
From stdpp Require Import base tactics list numbers option gmap relations.
From Stdlib Require Import ZArith Lia.
From S2P Require Import Prelude Memory Layout Protocol Stripe Control.
#[local] Open Scope Z_scope.

(** ** The interface *)
Class RegMem (M : Type) : Type := {
  rd : M -> field -> Z;
  wr : M -> field -> Z -> M;
}.

Class RegLaws (M : Type) `{!RegMem M} : Prop := {
  rd_wr_same : forall m f v, field_ok f -> field_val f v -> rd (wr m f v) f = v;
  rd_wr_other : forall m f g v, field_ok f -> field_ok g -> f <> g ->
    rd (wr m f v) g = rd m g;
}.

(** ** Program counters

    A value says which access comes next and carries the local variables
    still in use. *)
Inductive ppc : Type :=
| PIdle                                  (* not in a call *)
| PHead (slotID cmd spin : Z)            (* about to read head *)
| PTail (slotID cmd spin head : Z)       (* about to read tail *)
| PCas (slotID cmd spin tail : Z)        (* about to swap tail to tail+1 *)
| PStore (slotID cmd tail : Z)           (* about to store the entry *)
| PDone (ok : bool).                     (* returned *)

Inductive cpc : Type :=
| CIdle
| CHead                                  (* about to read head *)
| CTail (head : Z)                       (* about to read tail *)
| CWait (head : Z)                       (* about to load the entry *)
| CClear (head slotID cmd : Z)           (* about to store 0 in the entry *)
| CAdvance (head slotID cmd : Z)         (* about to write head+1 *)
| CDone (r : Z * Z * bool).              (* returned *)

(** ** Steps *)
Section steps.
Context {M : Type} `{!RegMem M} (q : Z).

(** One access of [Push] on queue [q]. *)
Definition prod_step (m : M) (pc : ppc) : M * ppc :=
  match pc with
  | PIdle => (m, PIdle)
  | PHead slotID cmd spin => (m, PTail slotID cmd spin (rd m (QHead q)))
  | PTail slotID cmd spin head =>
      let tail := rd m (QTail q) in
      if decide (u32 (tail - head) >= QueueSize - 1) then
        if decide (spin < 75) then (m, PHead slotID cmd (spin + 1))
        else (m, PDone false)
      else (m, PCas slotID cmd spin tail)
  | PCas slotID cmd spin tail =>
      if decide (rd m (QTail q) = tail)
      then (wr m (QTail q) (u32 (tail + 1)), PStore slotID cmd tail)
      else (m, PHead slotID cmd spin)
  | PStore slotID cmd tail =>
      (wr m (QEntry q (tail mod QueueSize)) (pack slotID cmd), PDone true)
  | PDone ok => (m, PDone ok)
  end.

(** One access of [Pop]. *)
Definition cons_step (m : M) (pc : cpc) : M * cpc :=
  match pc with
  | CIdle => (m, CIdle)
  | CHead => (m, CTail (rd m (QHead q)))
  | CTail head =>
      if decide (head = rd m (QTail q)) then (m, CDone (0, 0, false))
      else (m, CWait head)
  | CWait head =>
      let '(cmd, slotID) := unpack (rd m (QEntry q (head mod QueueSize))) in
      if decide (Z.land cmd Q_READY_BIT <> 0)
      then (m, CClear head slotID (Z.land cmd (u32 (Z.lnot Q_READY_BIT))))
      else (m, CWait head)
  | CClear head slotID cmd =>
      (wr m (QEntry q (head mod QueueSize)) 0, CAdvance head slotID cmd)
  | CAdvance head slotID cmd =>
      (wr m (QHead q) (u32 (head + 1)), CDone (slotID, cmd, true))
  | CDone r => (m, CDone r)
  end.

(** The whole system: memory, producers, consumer, and the history: commands
    in the order their places were reserved, and commands returned by [Pop]. *)
Record qstate : Type := mkQ {
  qmem : M;
  producers : list ppc;
  consumer : cpc;
  pushed : list (Z * Z);
  popped : list (Z * Z);
}.

(** What a step adds to the history. *)
Definition reserved (pc pc' : ppc) : list (Z * Z) :=
  match pc, pc' with
  | PCas _ _ _ _, PStore slotID cmd _ => [(slotID, cmd)]
  | _, _ => []
  end.

Definition taken (pc : cpc) : list (Z * Z) :=
  match pc with
  | CAdvance _ slotID cmd => [(slotID, cmd)]
  | _ => []
  end.

Definition p_returned (pc : ppc) : bool :=
  match pc with PIdle | PDone _ => true | _ => false end.
Definition c_returned (pc : cpc) : bool :=
  match pc with CIdle | CDone _ => true | _ => false end.

Inductive qstep : qstate -> qstate -> Prop :=
| step_push_call m ps c pu po i pc slotID cmd :
    ps !! i = Some pc -> p_returned pc = true -> qop_ok (OPush slotID cmd) ->
    qstep (mkQ m ps c pu po) (mkQ m (<[i := PHead slotID cmd 0]> ps) c pu po)
| step_producer m ps c pu po i pc m' pc' :
    ps !! i = Some pc -> prod_step m pc = (m', pc') ->
    qstep (mkQ m ps c pu po) (mkQ m' (<[i := pc']> ps) c (pu ++ reserved pc pc') po)
| step_pop_call m ps c pu po :
    c_returned c = true ->
    qstep (mkQ m ps c pu po) (mkQ m ps CHead pu po)
| step_consumer m ps c pu po m' c' :
    cons_step m c = (m', c') ->
    qstep (mkQ m ps c pu po) (mkQ m' ps c' pu (po ++ taken c)).

(** An empty queue, nobody in a call. *)
Definition qinit (m : M) (n : nat) : qstate :=
  mkQ m (replicate n PIdle) CIdle [] [].

Definition qempty (m : M) : Prop :=
  rd m (QHead q) = 0 /\ rd m (QTail q) = 0 /\
  forall i, 0 <= i < QueueSize -> rd m (QEntry q i) = 0.

Definition qreach (m : M) (n : nat) : qstate -> Prop := rtc qstep (qinit m n).

(** Executable schedules: who moves next. *)
Inductive sched : Type :=
| SPush (i : nat) (slotID cmd : Z)       (* producer [i] calls Push *)
| SProd (i : nat)                        (* producer [i] takes a step *)
| SPop                                   (* the consumer calls Pop *)
| SCons.                                 (* the consumer takes a step *)

Definition run1 (s : qstate) (a : sched) : option qstate :=
  let '(mkQ m ps c pu po) := s in
  match a with
  | SPush i slotID cmd =>
      pc ← ps !! i;
      if decide (p_returned pc = true /\ qop_ok (OPush slotID cmd))
      then Some (mkQ m (<[i := PHead slotID cmd 0]> ps) c pu po) else None
  | SProd i =>
      pc ← ps !! i;
      let '(m', pc') := prod_step m pc in
      Some (mkQ m' (<[i := pc']> ps) c (pu ++ reserved pc pc') po)
  | SPop => if c_returned c then Some (mkQ m ps CHead pu po) else None
  | SCons =>
      let '(m', c') := cons_step m c in Some (mkQ m' ps c' pu (po ++ taken c))
  end.

Fixpoint run (s : qstate) (l : list sched) : option qstate :=
  match l with
  | [] => Some s
  | a :: l' => s' ← run1 s a; run s' l'
  end.

(** ** The invariant *)
Definition hd (s : qstate) : Z := Z.of_nat (length (popped s)).
Definition tl (s : qstate) : Z := Z.of_nat (length (pushed s)).
Definition entry (m : M) (k : Z) : Z := rd m (QEntry q (k mod QueueSize)).

(** The consumer has cleared entry [k] and not yet advanced. *)
Definition clearing (c : cpc) (k : Z) : Prop :=
  match c with CAdvance h _ _ => h = k | _ => False end.

Definition p_inv (s : qstate) (pc : ppc) : Prop :=
  match pc with
  | PIdle | PDone _ => True
  | PHead slotID cmd _ => qop_ok (OPush slotID cmd)
  | PTail slotID cmd _ head => qop_ok (OPush slotID cmd) /\ 0 <= head <= hd s
  | PCas slotID cmd _ tail =>
      qop_ok (OPush slotID cmd) /\ 0 <= tail <= tl s /\ tail < hd s + (QueueSize - 1)
  | PStore slotID cmd tail =>
      qop_ok (OPush slotID cmd) /\ hd s <= tail < tl s /\
      pushed s !! Z.to_nat tail = Some (slotID, cmd) /\ entry (qmem s) tail = 0 /\
      ~ clearing (consumer s) tail
  end.

Definition c_inv (s : qstate) : Prop :=
  match consumer s with
  | CIdle | CHead | CDone _ => True
  | CTail head => head = hd s
  | CWait head => head = hd s /\ hd s < tl s
  | CClear head slotID cmd =>
      head = hd s /\ hd s < tl s /\
      pushed s !! Z.to_nat head = Some (slotID, cmd) /\
      entry (qmem s) head = pack slotID cmd
  | CAdvance head slotID cmd =>
      head = hd s /\ hd s < tl s /\
      pushed s !! Z.to_nat head = Some (slotID, cmd) /\ entry (qmem s) head = 0
  end.

(** Entry [k], reserved and not yet released: it holds its command, or is
    still empty and its producer is about to store, or has just been cleared. *)
Definition entry_inv (s : qstate) (k : Z) : Prop :=
  (exists x, pushed s !! Z.to_nat k = Some x /\ entry (qmem s) k = pack x.1 x.2) \/
  (entry (qmem s) k = 0 /\
   ((exists i slotID cmd, producers s !! i = Some (PStore slotID cmd k)) \/
    clearing (consumer s) k)).

Record qinv (s : qstate) : Prop := {
  qi_head : rd (qmem s) (QHead q) = hd s;
  qi_tail : rd (qmem s) (QTail q) = tl s;
  qi_size : hd s <= tl s <= hd s + (QueueSize - 1);
  qi_prefix : popped s = take (length (popped s)) (pushed s);
  qi_vals : Forall (fun x => qop_ok (OPush x.1 x.2)) (pushed s);
  qi_live : forall k, hd s <= k < tl s -> entry_inv s k;
  qi_free : forall k, tl s <= k < hd s + QueueSize -> entry (qmem s) k = 0;
  qi_prod : forall i pc, producers s !! i = Some pc -> p_inv s pc;
  qi_uniq : forall i j s1 c1 s2 c2 k,
    producers s !! i = Some (PStore s1 c1 k) ->
    producers s !! j = Some (PStore s2 c2 k) -> i = j;
  qi_cons : c_inv s;
}.
End steps.

(** Two producers race for the same position; the loser retries, and stores
    before the winner does. *)
Definition demo_schedule : list sched :=
  [SPush 0 7 CMD_PROCESS; SPush 1 8 CMD_PROCESS;
   SProd 0; SProd 1; SProd 0; SProd 1;          (* both have read tail 0 *)
   SProd 0; SProd 1;                            (* 0 reserves, 1 loses its swap *)
   SProd 1; SProd 1; SProd 1; SProd 1;          (* 1 retries, reserves, stores *)
   SPop; SCons; SCons; SCons;                   (* the consumer waits for 0 *)
   SProd 0; SCons; SCons; SCons].

(** ** Schedules are runs *)
Section schedules.
Context {M : Type} `{!RegMem M} (q : Z).

Lemma run1_step (s s' : qstate) a : run1 q s a = Some s' -> qstep q s s'.
Proof using Type.
  destruct s as [m ps c pu po], a as [i slotID cmd|i| |]; cbn [run1]; intros H.
  - destruct (ps !! i) as [pc|] eqn:Hi; [|done]. cbn in H.
    destruct (decide _) as [[Hr Hok]|]; [|done]. injection H as <-.
    by eapply step_push_call.
  - destruct (ps !! i) as [pc|] eqn:Hi; [|done]. cbn [mbind option_bind] in H.
    destruct (prod_step q m pc) as [m' pc'] eqn:E. injection H as <-.
    by eapply step_producer.
  - destruct (c_returned c) eqn:E; [|done]. injection H as <-. by apply step_pop_call.
  - destruct (cons_step q m c) as [m' c'] eqn:E. injection H as <-.
    by apply step_consumer.
Qed.

Lemma run_rtc l : forall s s' : qstate, run q s l = Some s' -> rtc (qstep q) s s'.
Proof using Type.
  induction l as [|a l IH]; intros s s'; cbn [run]; intros H.
  - injection H as ->. apply rtc_refl.
  - destruct (run1 q s a) as [s1|] eqn:E; [|done].
    eapply rtc_l; [by eapply run1_step|by apply IH].
Qed.
End schedules.

(** ** Preservation *)
Section invariant.
Context {M : Type} `{!RegMem M} `{!RegLaws M} (q : Z) (Hq : 0 <= q < MaxNodes).
#[local] Abbreviation qinv := (qinv (M:=M) q).

Lemma entry_wr_ptr m f v k :
  f = QHead q \/ f = QTail q -> entry q (wr m f v) k = entry q m k.
Proof using RegLaws0 Hq.
  intros Hf. unfold entry. pose proof (entry_ok q Hq k).
  apply rd_wr_other; [by destruct Hf as [-> | ->]|done|]. by destruct Hf as [-> | ->].
Qed.

Lemma entry_wr_same m t v :
  0 <= v < 18446744073709551616 -> entry q (wr m (QEntry q (t mod QueueSize)) v) t = v.
Proof using RegLaws0 Hq.
  intros Hv. unfold entry. apply rd_wr_same; [apply (entry_ok q Hq)|done].
Qed.

Lemma entry_wr_other m t v k :
  t mod QueueSize <> k mod QueueSize ->
  entry q (wr m (QEntry q (t mod QueueSize)) v) k = entry q m k.
Proof using RegLaws0 Hq.
  intros Hne. unfold entry.
  apply rd_wr_other; [apply (entry_ok q Hq)..|congruence].
Qed.

Lemma rd_wr_entry m t v f :
  f = QHead q \/ f = QTail q -> rd (wr m (QEntry q (t mod QueueSize)) v) f = rd m f.
Proof using RegLaws0 Hq.
  intros Hf. pose proof (entry_ok q Hq t).
  apply rd_wr_other; [done|by destruct Hf as [-> | ->]|by destruct Hf as [-> | ->]].
Qed.

(** Within a window of [QueueSize] positions the ring index is injective. *)
Lemma ring_inj h a b :
  h <= a < h + QueueSize -> h <= b < h + QueueSize ->
  a mod QueueSize = b mod QueueSize -> a = b.
Proof using RegLaws0 Hq.
  intros Ha Hb E. destruct (decide (a <= b)).
  - apply entry_mod_inj; [lia|done].
  - symmetry. apply entry_mod_inj; [lia|done].
Qed.

Definition is_store (pc : ppc) : bool := match pc with PStore _ _ _ => true | _ => false end.

(** A producer moves without touching memory. *)
Lemma inv_producer_local m ps c pu po i pc pc' :
  qinv (mkQ m ps c pu po) -> ps !! i = Some pc ->
  is_store pc = false -> is_store pc' = false ->
  p_inv q (mkQ m ps c pu po) pc' ->
  qinv (mkQ m (<[i := pc']> ps) c pu po).
Proof using RegLaws0 Hq.
  intros [] Hi Hs Hs' Hp. split; try done; simpl in *.
  - intros k Hk. destruct (qi_live0 k Hk) as [?|[? [(j & s1 & c1 & Hj)|?]]];
      [by left|right..]; split; try done; [left|by right].
    exists j, s1, c1. simpl in *. rewrite list_lookup_insert_ne; [done|].
    intros ->. rewrite Hi in Hj. by simplify_eq.
  - intros j pj Hj. destruct (decide (i = j)) as [->|Hne].
    + rewrite list_lookup_insert_eq in Hj by (by eapply lookup_lt_Some). by simplify_eq.
    + rewrite list_lookup_insert_ne in Hj by done. by eapply qi_prod0.
  - intros a b s1 c1 s2 c2 k Ha Hb.
    apply list_lookup_insert_Some in Ha as [(-> & -> & _)|[_ Ha]]; [done|].
    apply list_lookup_insert_Some in Hb as [(-> & -> & _)|[_ Hb]]; [done|].
    by eapply qi_uniq0.
Qed.

(** The consumer moves without touching memory. *)
Lemma inv_consumer_local m ps c c' pu po :
  qinv (mkQ m ps c pu po) ->
  (forall k, ~ clearing c k) -> (forall k, ~ clearing c' k) ->
  c_inv q (mkQ m ps c' pu po) -> qinv (mkQ m ps c' pu po).
Proof using RegLaws0 Hq.
  intros [] Hc Hc' Hi. split; try done; simpl in *.
  - intros k Hk. destruct (qi_live0 k Hk) as [?|[? [?|?]]]; [by left|right; split; [done|by left]|].
    by destruct (Hc k).
  - intros i pc Hpc. specialize (qi_prod0 i pc Hpc). destruct pc; simpl in *; naive_solver.
Qed.

(** A producer reserves the next position. *)
Lemma inv_reserve m ps c pu po i slotID cmd spin tail :
  qinv (mkQ m ps c pu po) -> ps !! i = Some (PCas slotID cmd spin tail) ->
  rd m (QTail q) = tail -> Z.of_nat (length pu) + 1 < 4294967296 ->
  qinv (mkQ (wr m (QTail q) (u32 (tail + 1))) (<[i := PStore slotID cmd tail]> ps) c
          (pu ++ [(slotID, cmd)]) po).
Proof using RegLaws0 Hq.
  intros [] Hi Ht Hb. pose proof (qi_prod0 _ _ Hi) as (Hok & Htl & Hroom).
  unfold hd, tl in *. simpl in *.
  assert (tail = Z.of_nat (length pu)) as -> by congruence.
  assert (Hn : forall k, 0 <= k < Z.of_nat (length pu) ->
    (pu ++ [(slotID, cmd)]) !! Z.to_nat k = pu !! Z.to_nat k)
    by (intros k Hk; apply lookup_app_l; lia).
  assert (Hlen : Z.of_nat (length (pu ++ [(slotID, cmd)])) = Z.of_nat (length pu) + 1)
    by (rewrite length_app; simpl; lia).
  rewrite u32_small by lia.
  split; unfold hd, tl in *; simpl; rewrite ?Hlen.
  - by rewrite rd_wr_other.
  - apply rd_wr_same; [done|]. unfold field_val. simpl. lia.
  - lia.
  - rewrite take_app_le by lia. done.
  - apply Forall_app. split; [done|]. by constructor.
  - intros k Hk. unfold entry_inv. simpl. rewrite entry_wr_ptr by auto.
    destruct (decide (k = Z.of_nat (length pu))) as [->|].
    + right. split; [apply qi_free0; lia|]. left. exists i, slotID, cmd.
      apply list_lookup_insert_eq. by eapply lookup_lt_Some.
    + rewrite Hn by lia.
      destruct (qi_live0 k ltac:(lia)) as [?|[? [(j & s1 & c1 & Hj)|?]]];
        [by left|right..]; split; try done; [left|by right].
      exists j, s1, c1. simpl in *. rewrite list_lookup_insert_ne; [done|].
      intros ->. rewrite Hi in Hj. by simplify_eq.
  - intros k Hk. rewrite entry_wr_ptr by auto. apply qi_free0. lia.
  - intros j pj Hj. destruct (decide (i = j)) as [->|Hne].
    + rewrite list_lookup_insert_eq in Hj by (by eapply lookup_lt_Some). simplify_eq.
      unfold p_inv, hd, tl. simpl. rewrite entry_wr_ptr, Hlen by auto.
      split_and!; try done; try lia.
      * rewrite Nat2Z.id, lookup_app_r, Nat.sub_diag by lia. done.
      * apply qi_free0. lia.
      * intros Hcl. unfold c_inv, hd, tl in qi_cons0. simpl in *.
        destruct c; simpl in *; try done. lia.
    + rewrite list_lookup_insert_ne in Hj by done. specialize (qi_prod0 _ _ Hj).
      unfold p_inv, hd, tl in *. destruct pj; simpl in *; rewrite ?Hlen; try done.
      * split_and!; naive_solver lia.
      * rewrite entry_wr_ptr, Hn by (auto || lia). split_and!; naive_solver lia.
  - intros a b s1 c1 s2 c2 k Ha Hb'.
    apply list_lookup_insert_Some in Ha as [(-> & Ha & _)|[Hna Ha]];
      apply list_lookup_insert_Some in Hb' as [(-> & Hb' & _)|[Hnb Hb']]; simplify_eq; try done.
    + pose proof (qi_prod0 _ _ Hb') as (_ & ? & _). unfold hd, tl in *. simpl in *. lia.
    + pose proof (qi_prod0 _ _ Ha) as (_ & ? & _). unfold hd, tl in *. simpl in *. lia.
    + by eapply qi_uniq0.
  - unfold c_inv, hd, tl in *. simpl in *.
    destruct c; simpl in *; rewrite ?Hlen, ?entry_wr_ptr by auto; try done.
    + naive_solver lia.
    + rewrite Hn by lia. naive_solver lia.
    + rewrite Hn by lia. naive_solver lia.
Qed.

Lemma pushed_positive (pu : list (Z * Z)) n x :
  Forall (fun x => qop_ok (OPush x.1 x.2)) pu -> pu !! n = Some x -> 0 < pack x.1 x.2.
Proof using Type.
  intros Hv Hx. rewrite Forall_lookup in Hv. apply Hv in Hx as [? ?].
  by apply pack_range.
Qed.

(** A producer stores its entry. *)
Lemma inv_store m ps c pu po i slotID cmd tail :
  qinv (mkQ m ps c pu po) -> ps !! i = Some (PStore slotID cmd tail) ->
  qinv (mkQ (wr m (QEntry q (tail mod QueueSize)) (pack slotID cmd))
          (<[i := PDone true]> ps) c pu po).
Proof using RegLaws0 Hq.
  intros [] Hi. pose proof (qi_prod0 _ _ Hi) as (Hok & Hr & Hx & He & Hcl).
  unfold hd, tl in *. simpl in *.
  pose proof (pack_range slotID cmd ltac:(apply Hok) ltac:(apply Hok)) as Hp.
  assert (Hsame : entry q (wr m (QEntry q (tail mod QueueSize)) (pack slotID cmd)) tail =
    pack slotID cmd) by (apply entry_wr_same; lia).
  assert (Hoth : forall k, Z.of_nat (length po) <= k < Z.of_nat (length po) + QueueSize ->
    k <> tail -> entry q (wr m (QEntry q (tail mod QueueSize)) (pack slotID cmd)) k =
    entry q m k).
  { intros k Hk Hne. apply entry_wr_other. intros E. apply Hne.
    eapply (ring_inj (Z.of_nat (length po))); [lia|lia|done]. }
  split; unfold hd, tl in *; simpl; try done.
  - by rewrite rd_wr_entry by auto.
  - by rewrite rd_wr_entry by auto.
  - intros k Hk. unfold entry_inv. simpl. destruct (decide (k = tail)) as [->|Hne].
    + left. exists (slotID, cmd). done.
    + rewrite Hoth by lia.
      destruct (qi_live0 k Hk) as [?|[? [(j & s1 & c1 & Hj)|?]]];
        [by left|right..]; split; try done; [left|by right].
      exists j, s1, c1. simpl in *. rewrite list_lookup_insert_ne; [done|].
      intros ->. rewrite Hi in Hj. by simplify_eq.
  - intros k Hk. rewrite Hoth by lia. apply qi_free0. lia.
  - intros j pj Hj. apply list_lookup_insert_Some in Hj as [(-> & <- & _)|[Hne Hj]]; [done|].
    specialize (qi_prod0 _ _ Hj). unfold p_inv, hd, tl in *.
    destruct pj; simpl in *; try done.
    assert (tail0 <> tail) by (intros ->; by destruct Hne; eapply qi_uniq0).
    rewrite Hoth by lia. done.
  - intros a b s1 c1 s2 c2 k Ha Hb'.
    apply list_lookup_insert_Some in Ha as [(-> & ? & _)|[_ Ha]]; [done|].
    apply list_lookup_insert_Some in Hb' as [(-> & ? & _)|[_ Hb']]; [done|].
    by eapply qi_uniq0.
  - unfold c_inv, hd, tl in *. simpl in *. destruct c; simpl in *; try done.
    + destruct qi_cons0 as (Hh & Hlt & Hx' & He').
      pose proof (pushed_positive _ _ _ qi_vals0 Hx') as Hpos. simpl in Hpos.
      assert (head <> tail) by (intros ->; lia).
      rewrite Hoth by lia. done.
    + rewrite Hoth by lia. done.
Qed.

(** The consumer clears the entry it has read. *)
Lemma inv_clear m ps pu po head slotID cmd :
  qinv (mkQ m ps (CClear head slotID cmd) pu po) ->
  qinv (mkQ (wr m (QEntry q (head mod QueueSize)) 0) ps (CAdvance head slotID cmd) pu po).
Proof using RegLaws0 Hq.
  intros []. destruct qi_cons0 as (Hh & Hlt & Hx & He). unfold hd, tl in *. simpl in *.
  pose proof (pushed_positive _ _ _ qi_vals0 Hx) as Hpk. simpl in Hpk.
  assert (Hsame : entry q (wr m (QEntry q (head mod QueueSize)) 0) head = 0)
    by (apply entry_wr_same; lia).
  assert (Hoth : forall k, Z.of_nat (length po) <= k < Z.of_nat (length po) + QueueSize ->
    k <> head -> entry q (wr m (QEntry q (head mod QueueSize)) 0) k = entry q m k).
  { intros k Hk Hne. apply entry_wr_other. intros E. apply Hne.
    eapply (ring_inj (Z.of_nat (length po))); [lia|lia|done]. }
  split; unfold hd, tl in *; simpl; try done.
  - by rewrite rd_wr_entry by auto.
  - by rewrite rd_wr_entry by auto.
  - intros k Hk. unfold entry_inv. simpl. destruct (decide (k = head)) as [->|Hne].
    + right. split; [done|]. by right.
    + rewrite Hoth by lia.
      destruct (qi_live0 k Hk) as [?|[? [(j & s1 & c1 & Hj)|?]]]; [by left| |done].
      right. split; [done|]. left. by exists j, s1, c1.
  - intros k Hk. rewrite Hoth by lia. apply qi_free0. lia.
  - intros j pj Hj. specialize (qi_prod0 _ _ Hj). unfold p_inv, hd, tl in *.
    destruct pj; simpl in *; try done.
    assert (tail <> head) by (intros ->; destruct qi_prod0 as (_ & _ & _ & ? & _); lia).
    rewrite Hoth by lia. destruct qi_prod0 as (? & ? & ? & ? & _).
    split_and!; try done; try lia.
Qed.

(** The consumer advances the head and returns. *)
Lemma inv_advance m ps pu po head slotID cmd :
  qinv (mkQ m ps (CAdvance head slotID cmd) pu po) -> Z.of_nat (length pu) < 4294967296 ->
  qinv (mkQ (wr m (QHead q) (u32 (head + 1))) ps (CDone (slotID, cmd, true)) pu
          (po ++ [(slotID, cmd)])).
Proof using RegLaws0 Hq.
  intros [] Hb. destruct qi_cons0 as (Hh & Hlt & Hx & He). unfold hd, tl in *. simpl in *.
  assert (Hlen : Z.of_nat (length (po ++ [(slotID, cmd)])) = Z.of_nat (length po) + 1)
    by (rewrite length_app; simpl; lia).
  rewrite u32_small by lia.
  split; unfold hd, tl in *; simpl; rewrite ?Hlen; try done.
  - rewrite Hh. apply rd_wr_same; [done|]. unfold field_val. simpl. lia.
  - by rewrite rd_wr_other.
  - lia.
  - rewrite length_app, qi_prefix0 at 1. simpl. rewrite Nat.add_1_r.
    erewrite take_S_r; [done|]. rewrite Hh, Nat2Z.id in Hx. done.
  - intros k Hk. unfold entry_inv. simpl. rewrite entry_wr_ptr by auto.
    destruct (qi_live0 k ltac:(lia)) as [?|[? [(j & s1 & c1 & Hj)|?]]]; [by left| |].
    + right. split; [done|]. left. by exists j, s1, c1.
    + simpl in *. lia.
  - intros k Hk. rewrite entry_wr_ptr by auto.
    destruct (decide (k = head + QueueSize)) as [->|].
    + unfold entry in *. rewrite <- He. do 2 f_equal.
      rewrite <- (Z.mul_1_l QueueSize) at 1. apply Z.mod_add. unfold_layout. lia.
    + apply qi_free0. lia.
  - intros j pj Hj. specialize (qi_prod0 _ _ Hj). unfold p_inv, hd, tl in *.
    destruct pj; simpl in *; rewrite ?Hlen; try done.
    + naive_solver lia.
    + naive_solver lia.
    + rewrite entry_wr_ptr by auto. destruct qi_prod0 as (? & ? & ? & ? & ?).
      split_and!; try done; try lia.
Qed.

Lemma inv_producer m ps c pu po i pc m' pc' :
  qinv (mkQ m ps c pu po) -> ps !! i = Some pc -> prod_step q m pc = (m', pc') ->
  Z.of_nat (length (pu ++ reserved pc pc')) < 4294967296 ->
  qinv (mkQ m' (<[i := pc']> ps) c (pu ++ reserved pc pc') po).
Proof using RegLaws0 Hq.
  intros Hinv Hi Hstep Hb. pose proof Hinv as Hinv0. destruct Hinv0.
  pose proof (qi_prod0 _ _ Hi) as Hp. unfold hd, tl in *. simpl in *.
  destruct pc; simpl in Hstep; simplify_eq; simpl; rewrite ?app_nil_r.
  - by rewrite list_insert_id.
  - eapply inv_producer_local; try done. simpl. unfold hd in *. simpl in *. split; [done|lia].
  - repeat case_decide; simplify_eq; simpl; rewrite ?app_nil_r;
      (eapply inv_producer_local; [done|done|done|done|]); simpl; unfold hd, tl in *;
      simpl in *; [naive_solver|done|].
    destruct Hp as [? Hh]. rewrite qi_tail0 in *.
    rewrite app_nil_r in Hb. unfold hd in Hh. simpl in Hh. rewrite u32_small in H by lia.
    split_and!; try done; lia.
  - case_decide; simplify_eq; simpl in *; rewrite ?app_nil_r in *.
    + eapply inv_reserve; try done. rewrite length_app in Hb. simpl in Hb. lia.
    + eapply inv_producer_local; try done. simpl. naive_solver.
  - by eapply inv_store.
  - by rewrite list_insert_id.
Qed.

(** An entry with the ready bit set holds the command at its position. *)
Lemma ready_entry s k :
  qinv s -> hd s <= k < tl s ->
  Z.land (unpack (entry q (qmem s) k)).1 Q_READY_BIT <> 0 ->
  exists x, pushed s !! Z.to_nat k = Some x /\ entry q (qmem s) k = pack x.1 x.2 /\
    unpack (entry q (qmem s) k) = (Q_READY_BIT + x.2, x.1) /\ qop_ok (OPush x.1 x.2).
Proof using RegLaws0 Hq.
  intros [] Hk Hr. destruct (qi_live0 k Hk) as [(x & Hx & E)|[E _]].
  - exists x. rewrite E. rewrite Forall_lookup in qi_vals0.
    pose proof (qi_vals0 _ _ Hx) as [? ?]. split_and!; try done.
    by apply unpack_pack.
  - rewrite E in Hr. by destruct Hr.
Qed.

Lemma inv_consumer m ps c pu po m' c' :
  qinv (mkQ m ps c pu po) -> cons_step q m c = (m', c') ->
  Z.of_nat (length pu) < 4294967296 ->
  qinv (mkQ m' ps c' pu (po ++ taken c)).
Proof using RegLaws0 Hq.
  intros Hinv Hstep Hb. pose proof (qi_cons _ _ Hinv) as Hc.
  pose proof (qi_head _ _ Hinv) as Hhd. pose proof (qi_tail _ _ Hinv) as Htl.
  pose proof (qi_size _ _ Hinv) as Hsz.
  unfold c_inv, hd, tl in *. simpl in *.
  destruct c; cbn [cons_step] in Hstep; cbn [taken]; rewrite ?app_nil_r.
  - by injection Hstep as <- <-.
  - injection Hstep as <- <-. eapply inv_consumer_local; [exact Hinv|..]; simpl; auto.
  - case_decide; injection Hstep as <- <-; (eapply inv_consumer_local; [exact Hinv|simpl; auto..|]);
      unfold c_inv, hd, tl; simpl; [done|lia].
  - pose proof (ready_entry _ head Hinv) as Hre.
    unfold hd, tl in Hre. cbn [qmem popped pushed] in Hre. fold (entry q m head) in Hstep.
    destruct (unpack (entry q m head)) as [cmd slotID]. cbn [fst] in Hre.
    destruct (decide (Z.land cmd Q_READY_BIT <> 0)) as [Hr|Hr];
      injection Hstep as <- <-; [|done].
    destruct (Hre ltac:(lia) Hr) as ([s1 c1] & Hx & He & Hu & Hok).
    injection Hu as -> ->. eapply inv_consumer_local; [exact Hinv|simpl; auto..|].
    unfold c_inv, hd, tl. cbn [consumer qmem popped pushed].
    rewrite land_ready_clear by apply Hok. split_and!; try done; lia.
  - injection Hstep as <- <-. by apply inv_clear.
  - injection Hstep as <- <-. by apply inv_advance.
  - by injection Hstep as <- <-.
Qed.

Lemma inv_step s s' :
  qstep q s s' -> qinv s -> Z.of_nat (length (pushed s')) < 4294967296 -> qinv s'.
Proof using RegLaws0 Hq.
  intros Hstep Hinv Hb.
  destruct Hstep as [m ps c pu po i pc slotID cmd Hi Hr Hok
                    |m ps c pu po i pc m' pc' Hi Hs|m ps c pu po Hr|m ps c pu po m' c' Hs];
    cbn [pushed] in Hb.
  - eapply inv_producer_local; [exact Hinv|exact Hi|by destruct pc|done|exact Hok].
  - by eapply inv_producer.
  - eapply inv_consumer_local; [exact Hinv|by destruct c; intros k ?|by intros k ?|done].
  - by eapply inv_consumer.
Qed.

Lemma inv_init m n : qempty q m -> qinv (qinit m n).
Proof using RegLaws0 Hq.
  intros (Hh & Ht & He). split; unfold hd, tl; simpl; try done.
  - unfold_layout. lia.
  - intros k Hk. unfold entry. rewrite Z.mod_small by lia. by apply He.
  - intros i pc Hi. apply lookup_replicate in Hi as [-> _]. done.
  - intros i j s1 c1 s2 c2 k Hi. by apply lookup_replicate in Hi as [? _].
Qed.

(** The history only grows. *)
Lemma pushed_grows (s s' : qstate) :
  rtc (qstep q) s s' -> (length (pushed s) <= length (pushed s'))%nat.
Proof using Type.
  induction 1 as [s|s s1 s' Hstep _ IH]; [done|].
  destruct Hstep; simpl in *; rewrite ?length_app in IH; lia.
Qed.

Lemma inv_reach m n s :
  qempty q m -> qreach q m n s -> Z.of_nat (length (pushed s)) < 4294967296 -> qinv s.
Proof using RegLaws0 Hq.
  intros He Hreach. unfold qreach in Hreach.
  pose proof (inv_init m n He) as Hinv. revert Hinv.
  induction Hreach as [s|s s1 s' Hstep Hrest IH]; intros Hinv Hb; [done|].
  apply IH; [|done]. eapply inv_step; [done|done|].
  pose proof (pushed_grows _ _ Hrest). lia.
Qed.
End invariant.

(** ** The control stripe implements the interface *)

(** Shared memory, as seen through the control stripe [c]. *)
Definition cmem (c : Control) : Type := mem.

#[export] Instance control_regs (c : Control) : RegMem (cmem c) := {|
  rd := fun m f => fread m c f;
  wr := fun m f v => fwrite m c f v;
|}.

Existing Class ctrl_wf.

#[export] Instance control_laws (c : Control) `{!ctrl_wf c} : RegLaws (cmem c).
Proof.
  split; simpl.
  - intros m f v _ Hv. by apply fread_fwrite_same.
  - intros m f g v Hf Hg Hne. by apply fread_fwrite_other.
Qed.

(** Runs of one thread alone. *)
Definition solo_push (c : Control) (q : Z) (n : nat) (m : mem) (pc : ppc) : mem * ppc :=
  Nat.iter n (fun s => prod_step (M:=cmem c) q s.1 s.2) (m, pc).

Definition solo_pop (c : Control) (q : Z) (n : nat) (m : mem) (pc : cpc) : mem * cpc :=
  Nat.iter n (fun s => cons_step (M:=cmem c) q s.1 s.2) (m, pc).

Section solo.
Context (c : Control) (Hwf : ctrl_wf c) (q : Z) (Hq : 0 <= q < MaxNodes).

Lemma solo_push_S n m pc :
  solo_push c q (S n) m pc =
  solo_push c q n (prod_step (M:=cmem c) q m pc).1 (prod_step (M:=cmem c) q m pc).2.
Proof using Type.
  unfold solo_push. rewrite Nat.iter_succ_r. cbn [fst snd]. by rewrite <- surjective_pairing.
Qed.

Lemma solo_pop_S n m pc :
  solo_pop c q (S n) m pc =
  solo_pop c q n (cons_step (M:=cmem c) q m pc).1 (cons_step (M:=cmem c) q m pc).2.
Proof using Type.
  unfold solo_pop. rewrite Nat.iter_succ_r. cbn [fst snd]. by rewrite <- surjective_pairing.
Qed.

(** A whole [push_loop] is a run of producer steps. *)
Lemma push_loop_solo fuel m slotID cmd spin :
  0 <= fread m c (QTail q) -> 0 <= spin <= 75 -> (Z.to_nat (75 - spin) < fuel)%nat ->
  exists n m' ok,
    push_loop fuel m c (GetNodeReqQueueOffset q) slotID cmd spin = Ret (m', ok) /\
    solo_push c q n m (PHead slotID cmd spin) = (m', PDone ok).
Proof using Hwf Hq.
  intros Ht. revert spin. induction fuel as [|fuel IH]; intros spin Hs Hf; [lia|].
  destruct (decide (u32 (fread m c (QTail q) - fread m c (QHead q)) >= QueueSize - 1))
    as [Hfull|Hroom].
  - destruct (decide (spin < 75)) as [Hlt|Hge].
    + destruct (IH (spin + 1)) as (n & m' & ok & E1 & E2); [lia|lia|].
      exists (S (S n)), m', ok. split.
      * rewrite <- E1. cbn [push_loop].
        change (GetNodeReqQueueOffset q + Q_OFF_HEAD) with (field_off (QHead q)).
        change (GetNodeReqQueueOffset q + Q_OFF_TAIL) with (field_off (QTail q)).
        rewrite !(readU32_field _ Hwf) by done. go_bind.
        by rewrite !decide_True by done.
      * rewrite !solo_push_S. cbn [prod_step fst snd]. cbn [rd control_regs].
        rewrite decide_True by done. by rewrite decide_True by done.
    + exists 2%nat, m, false. split.
      * apply (push_loop_full c Hwf q Hq); lia.
      * rewrite !solo_push_S. cbn [prod_step fst snd]. cbn [rd control_regs].
        rewrite decide_True by done. by rewrite decide_False by done.
  - exists 4%nat. eexists _, true. split.
    + eapply (push_loop_room c Hwf q Hq); [done|done|done|lia].
    + rewrite !solo_push_S. cbn [prod_step fst snd]. cbn [rd wr control_regs].
      rewrite decide_False by done. cbn [prod_step fst snd rd wr control_regs].
      by rewrite decide_True by done.
Qed.

Lemma Pop_solo m :
  0 <= fread m c (QHead q) ->
  fread m c (QHead q) = fread m c (QTail q) \/
  (exists slotID cmd, qop_ok (OPush slotID cmd) /\
     fread m c (QEntry q (fread m c (QHead q) mod QueueSize)) = pack slotID cmd) ->
  exists n m' r,
    Pop 1 m c (GetNodeReqQueueOffset q) = Ret (m', r) /\
    solo_pop c q n m CHead = (m', CDone r).
Proof using Hwf Hq.
  intros Hh0 Hcase.
  destruct (decide (fread m c (QHead q) = fread m c (QTail q))) as [E|E].
  - exists 2%nat, m, (0, 0, false). split; [by apply Pop_empty|].
    rewrite !solo_pop_S. cbn [cons_step fst snd]. cbn [rd control_regs].
    by rewrite decide_True by done.
  - destruct Hcase as [|(slotID & cmd & [Hs Hc] & He)]; [done|].
    exists 5%nat. eexists _, (slotID, cmd, true). split.
    + by apply (Pop_ready c Hwf q Hq 0).
    + rewrite !solo_pop_S. cbn [cons_step fst snd]. cbn [rd wr control_regs].
      rewrite decide_False by done. cbn [cons_step fst snd rd wr control_regs].
      rewrite He, unpack_pack by done.
      rewrite decide_True by (by apply land_ready_set).
      cbn [cons_step fst snd rd wr control_regs].
      by rewrite land_ready_clear by done.
Qed.
End solo.

(** ** Theorems *)

(** C8: The queues are safe for many producers and one consumer.  However
    the atomic accesses of any number of [Push] calls and of one [Pop] at a
    time interleave, starting from an empty queue, the commands popped are
    the commands reserved, in that order, none lost, repeated or invented; at
    most [QueueSize - 1] are outstanding; and the entry of every outstanding
    command either holds exactly that command, or its producer is about to
    store it there, or the consumer has just taken it.  This holds until 2^32
    commands have gone through the queue. *)
Theorem queue_concurrent_fifo c q m n s :
  ctrl_wf c -> 0 <= q < MaxNodes -> qempty (M:=cmem c) q m ->
  qreach (M:=cmem c) q m n s -> Z.of_nat (length (pushed s)) < 4294967296 ->
  popped s `prefix_of` pushed s /\
  Z.of_nat (length (pushed s)) - Z.of_nat (length (popped s)) <= QueueSize - 1 /\
  forall k x, pushed s !! k = Some x -> (length (popped s) <= k)%nat ->
    entry q (qmem s) (Z.of_nat k) = pack x.1 x.2 \/
    (exists i, producers s !! i = Some (PStore x.1 x.2 (Z.of_nat k))) \/
    clearing (consumer s) (Z.of_nat k).
Proof.
  intros Hwf Hq He Hr Hb. pose proof (inv_reach q Hq m n s He Hr Hb) as Hinv.
  split_and!.
  - rewrite (qi_prefix _ _ Hinv). apply prefix_take.
  - pose proof (qi_size _ _ Hinv). unfold hd, tl in *. lia.
  - intros k x Hx Hk. pose proof (lookup_lt_Some _ _ _ Hx).
    destruct (qi_live _ _ Hinv (Z.of_nat k)) as [(y & Hy & Hy')|[E [(i & s1 & c1 & Hi)|Hc]]].
    + unfold hd, tl. lia.
    + left. rewrite Nat2Z.id in Hy. by simplify_eq.
    + right. left. exists i. pose proof (qi_prod _ _ Hinv _ _ Hi) as (_ & _ & Hp & _).
      rewrite Nat2Z.id in Hp. simplify_eq. done.
    + by right; right.
Qed.

Lemma queue_concurrent_fifo_witness :
  exists s : qstate (M:=cmem demo_control),
    run (M:=cmem demo_control) 1 (qinit ∅ 2) demo_schedule = Some s /\
    popped s = [(7, 1)] /\ pushed s = [(7, 1); (8, 1)] /\
    popped s `prefix_of` pushed s /\
    Z.of_nat (length (pushed s)) - Z.of_nat (length (popped s)) <= QueueSize - 1 /\
    forall k x, pushed s !! k = Some x -> (length (popped s) <= k)%nat ->
      entry 1 (qmem s) (Z.of_nat k) = pack x.1 x.2 \/
      (exists i, producers s !! i = Some (PStore x.1 x.2 (Z.of_nat k))) \/
      clearing (consumer s) (Z.of_nat k).
Proof.
  assert (Hv : (fun s => (pushed s, popped s)) <$>
      run (M:=cmem demo_control) 1 (qinit ∅ 2) demo_schedule =
    Some ([(7, 1); (8, 1)], [(7, 1)])) by (vm_compute; reflexivity).
  destruct (run (M:=cmem demo_control) 1 (qinit ∅ 2) demo_schedule) as [s|] eqn:E;
    [|discriminate Hv].
  injection Hv as Hpu Hpo.
  exists s. split; [reflexivity|]. split; [exact Hpo|]. split; [exact Hpu|].
  apply (queue_concurrent_fifo demo_control 1 ∅ 2 s).
  - apply first_blocks_ctrl_wf.
  - unfold_layout. lia.
  - split_and!; [apply (fread_empty demo_control)..|].
    intros i Hi. apply (fread_empty demo_control).
  - eapply run_rtc. exact E.
  - rewrite Hpu. simpl. lia.
Defined.

(** C30: [Pop]'s unbounded wait always has a cause that resolves.  When the
    consumer waits at its head position, either the entry is ready and its
    next access takes it, or one particular producer is at its store for that
    very position, and once that single step has run the consumer takes the
    command it stored. *)
Theorem queue_wait_progress c q m n s h :
  ctrl_wf c -> 0 <= q < MaxNodes -> qempty (M:=cmem c) q m ->
  qreach (M:=cmem c) q m n s -> Z.of_nat (length (pushed s)) < 4294967296 ->
  consumer s = CWait h ->
  exists slotID cmd, pushed s !! Z.to_nat h = Some (slotID, cmd) /\
    (cons_step q (qmem s) (CWait h) = (qmem s, CClear h slotID cmd) \/
     exists i, producers s !! i = Some (PStore slotID cmd h) /\
       let m' := (prod_step q (qmem s) (PStore slotID cmd h)).1 in
       cons_step q m' (CWait h) = (m', CClear h slotID cmd)).
Proof.
  intros Hwf Hq He Hr Hb Hc. pose proof (inv_reach q Hq m n s He Hr Hb) as Hinv.
  pose proof (qi_cons _ _ Hinv) as Hci. unfold c_inv in Hci. rewrite Hc in Hci.
  destruct Hci as [-> Hlt].
  assert (Htake : forall (m1 : cmem c) slotID cmd, qop_ok (OPush slotID cmd) ->
    entry q m1 (hd s) = pack slotID cmd ->
    cons_step q m1 (CWait (hd s)) = (m1, CClear (hd s) slotID cmd)).
  { intros m1 slotID cmd [Hs Hcm] E. cbn [cons_step]. fold (entry q m1 (hd s)).
    rewrite E, unpack_pack by done. rewrite decide_True by (by apply land_ready_set).
    by rewrite land_ready_clear. }
  destruct (qi_live _ _ Hinv (hd s)) as [([s1 c1] & Hx & E)|[E [(i & s1 & c1 & Hi)|Hcl]]];
    [lia| | |by rewrite Hc in Hcl].
  - exists s1, c1. split; [done|]. left. apply Htake; [|done].
    pose proof (qi_vals _ _ Hinv) as Hv. rewrite Forall_lookup in Hv. by apply (Hv _ _ Hx).
  - pose proof (qi_prod _ _ Hinv _ _ Hi) as (Hok & _ & Hx & _).
    exists s1, c1. split; [done|]. right. exists i. split; [done|].
    cbn [prod_step fst]. apply Htake; [done|]. apply (entry_wr_same q Hq).
    pose proof (pack_range s1 c1 ltac:(apply Hok) ltac:(apply Hok)). lia.
Qed.

Lemma queue_wait_progress_witness :
  exists s : qstate (M:=cmem demo_control),
    run (M:=cmem demo_control) 1 (qinit ∅ 2) (take 16 demo_schedule) = Some s /\
    exists slotID cmd, pushed s !! Z.to_nat 0 = Some (slotID, cmd) /\
    (cons_step 1 (qmem s) (CWait 0) = (qmem s, CClear 0 slotID cmd) \/
     exists i, producers s !! i = Some (PStore slotID cmd 0) /\
       let m' := (prod_step 1 (qmem s) (PStore slotID cmd 0)).1 in
       cons_step 1 m' (CWait 0) = (m', CClear 0 slotID cmd)).
Proof.
  assert (Hv : (fun s => (consumer s, length (pushed s))) <$>
      run (M:=cmem demo_control) 1 (qinit ∅ 2) (take 16 demo_schedule) =
    Some (CWait 0, 2%nat)) by (vm_compute; reflexivity).
  destruct (run (M:=cmem demo_control) 1 (qinit ∅ 2) (take 16 demo_schedule)) as [s|] eqn:E;
    [|discriminate Hv].
  injection Hv as Hco Hle.
  exists s. split; [reflexivity|].
  apply (queue_wait_progress demo_control 1 ∅ 2 s 0).
  - apply first_blocks_ctrl_wf.
  - unfold_layout. lia.
  - split_and!; [apply (fread_empty demo_control)..|].
    intros i Hi. apply (fread_empty demo_control).
  - eapply run_rtc. exact E.
  - rewrite Hle. simpl. lia.
  - exact Hco.
Defined.

(** The atomic steps and the sequential functions agree.  On a quiet
    queue, from any memory, [Push] returns, and a run of producer steps ends
    in the same memory with the same result; likewise [Pop] with consumer
    steps, when the queue is empty or its head entry has been stored. *)
Theorem steps_refine_sequential c q m slotID cmd :
  ctrl_wf c -> 0 <= q < MaxNodes ->
  0 <= fread m c (QTail q) -> 0 <= fread m c (QHead q) ->
  (exists n m' ok, Push m c (GetNodeReqQueueOffset q) slotID cmd = Ret (m', ok) /\
     solo_push c q n m (PHead slotID cmd 0) = (m', PDone ok)) /\
  (fread m c (QHead q) = fread m c (QTail q) \/
   (exists s1 c1, qop_ok (OPush s1 c1) /\
      fread m c (QEntry q (fread m c (QHead q) mod QueueSize)) = pack s1 c1) ->
   exists n m' r, Pop 1 m c (GetNodeReqQueueOffset q) = Ret (m', r) /\
     solo_pop c q n m CHead = (m', CDone r)).
Proof.
  intros Hwf Hq Ht Hh. split.
  - apply (push_loop_solo c Hwf q Hq); [done|lia|simpl; lia].
  - by apply Pop_solo.
Qed.

Lemma steps_refine_sequential_witness :
  (exists n m' ok, Push ∅ demo_control (GetNodeReqQueueOffset 1) 7 1 = Ret (m', ok) /\
     solo_push demo_control 1 n ∅ (PHead 7 1 0) = (m', PDone ok)) /\
  exists n m' r, Pop 1 ∅ demo_control (GetNodeReqQueueOffset 1) = Ret (m', r) /\
     solo_pop demo_control 1 n ∅ CHead = (m', CDone r).
Proof.
  destruct (steps_refine_sequential demo_control 1 ∅ 7 1) as [H1 H2].
  - apply first_blocks_ctrl_wf.
  - unfold_layout. lia.
  - rewrite fread_empty. lia.
  - rewrite fread_empty. lia.
  - split; [exact H1|]. apply H2. left. by rewrite !fread_empty.
Defined.
