(* ===== verification/Wakeup.v ===== *)
(** * Wake-ups

    The event loops ([dispatchLoop] of go/hub/hub.go, [StartEventLoop] of
    go/node/node.go) pop their queue until it is empty and then sleep on an
    eventfd (go/sync/eventfd.go); a producer pushes and then notifies.  The
    machine of the queue is run here together with the eventfd and the loop,
    and no interleaving puts a loop to sleep on a command that nobody will
    announce.

    The eventfd is the kernel's: its two system calls are a parameter, with
    the documented behaviour the code relies on. *)
From stdpp Require Import base tactics list numbers option gmap relations.
From Stdlib Require Import ZArith Lia.
From S2P Require Import Prelude Memory Layout Protocol Stripe Control Queue.
#[local] Open Scope Z_scope.

(** ** The eventfd *)

(** [write] of 1 and [read]; [None] when the call blocks. *)
Class EventFd (E : Type) : Type := {
  efd_write : E -> option E;
  efd_read : E -> option E;
}.

(** eventfd(2): a read blocks exactly while nothing has been written since
    the last one. *)
Class EventFdLaws (E : Type) `{!EventFd E} (readable : E -> bool) : Prop := {
  efd_written : forall e e', efd_write e = Some e' -> readable e' = true;
  efd_blocks : forall e, efd_read e = None <-> readable e = false;
}.

Definition Notify {E} `{!EventFd E} (e : E) : option E := efd_write e.
Definition Wait {E} `{!EventFd E} (e : E) : option E := efd_read e.

(** The kernel's counter; its largest value is 2^64 - 2. *)
Definition counter : Type := N.

#[export] Instance counter_eventfd : EventFd counter := {|
  efd_write := fun n =>
    if decide (n < 18446744073709551614)%N then Some (n + 1)%N else None;
  efd_read := fun n => if decide (n = 0%N) then None else Some 0%N;
|}.

(** ** The machine *)
Section machine.
Context {M E : Type} `{!RegMem M} `{!EventFd E} (q : Z).

(** Where the event loop is: about to call [Pop], inside it or looking at its
    result, or about to wait. *)
Inductive lpc : Type := LCall | LRun | LWait.

(** [pending] marks the producers between a successful [Push] and the
    [Notify] after it. *)
Record wstate : Type := mkW {
  wq : qstate (M:=M);
  fd : E;
  pending : list bool;
  loop : lpc;
}.

(** One step of the event loop. *)
Definition loop_step (w : wstate) : option wstate :=
  match loop w with
  | LCall => q' ← run1 q (wq w) SPop; Some (mkW q' (fd w) (pending w) LRun)
  | LRun =>
      match consumer (wq w) with
      | CDone (_, _, true) => Some (mkW (wq w) (fd w) (pending w) LCall)
      | CDone (_, _, false) => Some (mkW (wq w) (fd w) (pending w) LWait)
      | _ => q' ← run1 q (wq w) SCons; Some (mkW q' (fd w) (pending w) LRun)
      end
  | LWait => e ← Wait (fd w); Some (mkW (wq w) e (pending w) LCall)
  end.

(** Producer [i] starts a [Push], takes a step of it, or notifies. *)
Definition push_call (w : wstate) (i : nat) (slotID cmd : Z) : option wstate :=
  if decide (pending w !! i = Some false)
  then q' ← run1 q (wq w) (SPush i slotID cmd); Some (mkW q' (fd w) (pending w) (loop w))
  else None.

Definition push_step (w : wstate) (i : nat) : option wstate :=
  pc ← producers (wq w) !! i;
  q' ← run1 q (wq w) (SProd i);
  Some (mkW q' (fd w)
          (match pc with PStore _ _ _ => <[i := true]> (pending w) | _ => pending w end)
          (loop w)).

Definition notify_step (w : wstate) (i : nat) : option wstate :=
  if decide (pending w !! i = Some true)
  then e ← Notify (fd w); Some (mkW (wq w) e (<[i := false]> (pending w)) (loop w))
  else None.

Inductive wstep (w w' : wstate) : Prop :=
| ws_loop : loop_step w = Some w' -> wstep w w'
| ws_call i slotID cmd : push_call w i slotID cmd = Some w' -> wstep w w'
| ws_push i : push_step w i = Some w' -> wstep w w'
| ws_notify i : notify_step w i = Some w' -> wstep w w'.

(** The hub's loop starts with a [Pop], the node's with a wait. *)
Definition winit (m : M) (n : nat) (e : E) (l : lpc) : wstate :=
  mkW (qinit m n) e (replicate n false) l.

(** Executable schedules. *)
Inductive wsched : Type := ALoop | ACall (i : nat) (slotID cmd : Z) | APush (i : nat) | ANotify (i : nat).

Definition wrun1 (w : wstate) (a : wsched) : option wstate :=
  match a with
  | ALoop => loop_step w
  | ACall i slotID cmd => push_call w i slotID cmd
  | APush i => push_step w i
  | ANotify i => notify_step w i
  end.

Fixpoint wrun (w : wstate) (l : list wsched) : option wstate :=
  match l with
  | [] => Some w
  | a :: l' => w' ← wrun1 w a; wrun w' l'
  end.

(** ** The invariant *)

(** The loop has found its queue empty and will wait, or waits. *)
Definition asleep (w : wstate) : Prop :=
  loop w = LWait \/ (loop w = LRun /\ exists a b, consumer (wq w) = CDone (a, b, false)).

(** Somebody is between its reservation and its notification. *)
Definition announcing (w : wstate) : Prop :=
  exists i, pending w !! i = Some true \/
    exists slotID cmd t, producers (wq w) !! i = Some (PStore slotID cmd t).

Record winv (readable : E -> bool) (w : wstate) : Prop := {
  wi_queue : qinv q (wq w);
  wi_len : length (pending w) = length (producers (wq w));
  wi_wake : asleep w -> hd (wq w) < tl (wq w) -> readable (fd w) = true \/ announcing w;
}.
End machine.

#[export] Instance counter_laws : EventFdLaws counter (fun n => negb (n =? 0)%N).
Proof.
  split; cbn.
  - intros e e' H. case_decide; [|done]. injection H as <-. destruct e; done.
  - intros e. case_decide; [by subst|]. split; [done|]. destruct e; done.
Qed.

(** ** Preservation *)
Section preservation.
Context {M E : Type} `{!RegMem M} `{!RegLaws M} `{!EventFd E} (readable : E -> bool).
Context `{!EventFdLaws E readable} (q : Z).
Implicit Types w : wstate (M:=M) (E:=E).

Lemma wstep_queue w w' : wstep q w w' -> wq w' = wq w \/ qstep q (wq w) (wq w').
Proof using Type.
  destruct w as [qs e pe l].
  intros [H|i slotID cmd H|i H|i H]; unfold loop_step, push_call, push_step, notify_step in H;
    cbn [wq fd pending loop] in H.
  - destruct l.
    + apply bind_Some in H as (q' & E1 & [= <-]). right. by eapply run1_step.
    + destruct (consumer qs) as [| | | | | |[[a b] [|]]];
        try (apply bind_Some in H as (q' & E1 & [= <-]); right; by eapply run1_step);
        injection H as <-; by left.
    + apply bind_Some in H as (e' & E1 & [= <-]). by left.
  - case_decide; [|done]. apply bind_Some in H as (q' & E1 & [= <-]). right. by eapply run1_step.
  - apply bind_Some in H as (pc & _ & H). apply bind_Some in H as (q' & E1 & [= <-]).
    right. by eapply run1_step.
  - case_decide; [|done]. apply bind_Some in H as (e' & E1 & [= <-]). by left.
Qed.

(** A producer that is not at its store announces nothing by itself. *)
Lemma announcing_keep w w' i pc pc' :
  producers (wq w) !! i = Some pc -> (forall s c t, pc <> PStore s c t) ->
  producers (wq w') = <[i := pc']> (producers (wq w)) -> pending w' = pending w ->
  announcing w -> announcing w'.
Proof using Type.
  intros Hi Hpc Hps Hpe (j & [Hj|(s & c & t & Hj)]); exists j; rewrite Hpe, Hps; [by left|right].
  exists s, c, t. rewrite list_lookup_insert_ne; [done|]. intros ->.
  rewrite Hi in Hj. injection Hj as ->. by eapply Hpc.
Qed.

(** The reservation of a place is the only step that adds a command. *)
Lemma prod_step_cases m pc m' pc' :
  prod_step q m pc = (m', pc') ->
  (exists s c t, pc = PStore s c t) \/ (exists s c t, pc' = PStore s c t) \/ reserved pc pc' = [].
Proof using Type.
  destruct pc; cbn [prod_step]; intros H; repeat case_decide; injection H as <- <-; cbn; eauto 8.
Qed.

Lemma wake_call w i slotID cmd w' :
  push_call q w i slotID cmd = Some w' -> winv q readable w -> asleep w' ->
  hd (wq w') < tl (wq w') -> readable (fd w') = true \/ announcing w'.
Proof using Type.
  unfold push_call. case_decide; [|done]. intros (q' & E1 & [= <-])%bind_Some Hinv Has Hlt.
  destruct (wq w) as [m ps c pu po] eqn:Ew. cbn [run1] in E1.
  apply bind_Some in E1 as (pc & Hi & E1). case_decide as Hr; [|done]. injection E1 as <-.
  destruct (wi_wake _ _ _ Hinv) as [Hf|Ha].
  - destruct Has as [Hl|(Hl & a & b & Hc)]; [by left|right; rewrite Ew; split; [exact Hl|by exists a, b]].
  - rewrite Ew. exact Hlt.
  - by left.
  - right. eapply (announcing_keep w); [by rewrite Ew|by destruct pc, Hr|by rewrite Ew|done|done].
Qed.

Lemma wake_push w i w' :
  push_step q w i = Some w' -> winv q readable w -> asleep w' ->
  hd (wq w') < tl (wq w') -> readable (fd w') = true \/ announcing w'.
Proof using Type.
  intros (pc & Hi & (q' & E1 & [= <-])%bind_Some)%bind_Some Hinv Has Hlt.
  pose proof (wi_len _ _ _ Hinv) as Hlen. pose proof (lookup_lt_Some _ _ _ Hi) as Hlti.
  pose proof (wi_wake _ _ _ Hinv) as Hwake. unfold asleep in Hwake.
  destruct (wq w) as [m ps c pu po] eqn:Ew. cbn [run1 producers] in *.
  rewrite Hi in E1. cbn [mbind option_bind] in E1.
  destruct (prod_step q m pc) as [m' pc'] eqn:Es. injection E1 as <-.
  destruct (prod_step_cases _ _ _ _ Es) as [(s & k & t & ->)|[(s & k & t & ->)|Hres]].
  - right. exists i. left. cbn [pending]. by rewrite list_lookup_insert_eq by lia.
  - right. exists i. right. cbn [wq producers]. exists s, k, t. by rewrite list_lookup_insert_eq.
  - rewrite Hres, app_nil_r in *. destruct Hwake as [Hf|Ha]; [exact Has|exact Hlt|by left|].
    destruct pc; try (right; eapply (announcing_keep w _ i);
      [by rewrite Ew|done|by rewrite Ew|done|done]).
    right. exists i. left. cbn [pending]. by rewrite list_lookup_insert_eq by lia.
Qed.

Lemma wake_loop w w' :
  loop_step q w = Some w' -> winv q readable w -> asleep w' ->
  hd (wq w') < tl (wq w') -> readable (fd w') = true \/ announcing w'.
Proof using Type.
  intros H Hinv Has Hlt. destruct w as [qs e pe l]. unfold loop_step in H. cbn [wq fd pending loop] in H.
  destruct l.
  - apply bind_Some in H as (q' & E1 & [= <-]). destruct qs as [m ps c pu po]. cbn [run1] in E1.
    destruct (c_returned c); [|done]. injection E1 as <-.
    destruct Has as [|(_ & a & b & ?)]; done.
  - assert (Hold : asleep (mkW qs e pe LRun) -> hd qs < tl qs ->
      readable e = true \/ announcing (mkW qs e pe LRun)) by apply (wi_wake _ _ _ Hinv).
    destruct (consumer qs) as [| |h|h|h s0 c0|h s0 c0|[[a b] [|]]] eqn:Ec.
    7: { injection H as <-. destruct Has as [|(? & _)]; done. }
    7: { injection H as <-. apply Hold; [|exact Hlt]. right. split; [done|]. by exists a, b. }
    all: apply bind_Some in H as (q' & E1 & [= <-]); pose proof (wi_queue _ _ _ Hinv) as Hqi;
      destruct qs as [m ps c pu po]; cbn [consumer] in Ec; subst c; cbn [run1 cons_step] in E1;
      destruct Has as [|(_ & a & b & Hc)]; try done; cbn [wq] in *.
    + injection E1 as <-. done.
    + injection E1 as <-. done.
    + case_decide as Hh; injection E1 as <-; [|done]. exfalso.
      pose proof (qi_cons _ _ Hqi) as Hci. cbn in Hci.
      pose proof (qi_tail _ _ Hqi) as Ht. cbn in Ht. unfold hd, tl in *. cbn in *.
      rewrite length_app in Hlt. cbn in Hlt. lia.
    + destruct (unpack _) as [cmd0 s0]. case_decide; injection E1 as <-; done.
    + injection E1 as <-. done.
    + injection E1 as <-. done.
  - apply bind_Some in H as (e' & E1 & [= <-]). destruct Has as [|(? & _)]; done.
Qed.

Lemma wake_notify w i w' :
  notify_step w i = Some w' -> readable (fd w') = true.
Proof using EventFdLaws0.
  unfold notify_step. case_decide; [|done]. intros (e & E1 & [= <-])%bind_Some.
  exact (efd_written _ _ E1).
Qed.

(** The lengths of the two producer tables agree. *)
Lemma wlen_step w w' : wstep q w w' -> length (pending w) = length (producers (wq w)) ->
  length (pending w') = length (producers (wq w')).
Proof using Type.
  destruct w as [[m ps c pu po] e pe l].
  intros [H|i slotID cmd H|i H|i H]; unfold loop_step, push_call, push_step, notify_step in H;
    cbn [wq fd pending loop consumer producers run1] in H |- *; intros Hl.
  - destruct l.
    + destruct (c_returned c); [|done]. by injection H as <-.
    + destruct c as [| | | | | |[[a b] [|]]];
        try (destruct (cons_step q m _) as [m' c'] in H; by injection H as <-);
        by injection H as <-.
    + apply bind_Some in H as (e' & E1 & [= <-]). done.
  - case_decide; [|done]. destruct (ps !! i); [|done]. cbn in H. case_decide; [|done].
    injection H as <-. cbn. by rewrite length_insert.
  - destruct (ps !! i) as [pc|]; [|done]. cbn in H.
    destruct (prod_step q m pc) as [m' pc'] in H. injection H as <-. cbn.
    destruct pc; by rewrite ?length_insert.
  - case_decide; [|done]. apply bind_Some in H as (e' & E1 & [= <-]). cbn.
    by rewrite length_insert.
Qed.

Lemma winv_step w w' :
  0 <= q < MaxNodes -> wstep q w w' -> winv q readable w ->
  Z.of_nat (length (pushed (wq w'))) < 4294967296 -> winv q readable w'.
Proof using EventFdLaws0 RegLaws0.
  intros Hq Hst Hinv Hb. split.
  - destruct (wstep_queue _ _ Hst) as [->|Hqs]; [apply Hinv|].
    by eapply inv_step; [exact Hq|exact Hqs|apply Hinv|].
  - eapply wlen_step; [exact Hst|apply Hinv].
  - intros Has Hlt. destruct Hst as [H|i slotID cmd H|i H|i H].
    + by eapply wake_loop.
    + by eapply wake_call.
    + by eapply wake_push.
    + left. by eapply wake_notify.
Qed.

Lemma wpushed_grows w w' :
  rtc (wstep q) w w' -> (length (pushed (wq w)) <= length (pushed (wq w')))%nat.
Proof using Type.
  induction 1 as [|w w1 w' Hst _ IH]; [done|].
  destruct (wstep_queue _ _ Hst) as [E1|Hqs]; [by rewrite <- E1|].
  pose proof (pushed_grows q _ _ (rtc_once _ _ Hqs)). lia.
Qed.

Lemma winv_reach m n e l w :
  0 <= q < MaxNodes -> qempty q m -> rtc (wstep q) (winit m n e l) w ->
  Z.of_nat (length (pushed (wq w))) < 4294967296 -> winv q readable w.
Proof using EventFdLaws0 RegLaws0.
  intros Hq He Hreach.
  assert (Hi : winv q readable (winit m n e l)).
  { split; [by apply inv_init|cbn; by rewrite !length_replicate|]. unfold hd, tl. cbn. lia. }
  revert Hi. induction Hreach as [w|w w1 w' Hst Hrest IH]; intros Hinv Hb; [done|].
  apply IH; [|done]. eapply winv_step; [done|exact Hst|done|].
  pose proof (wpushed_grows _ _ Hrest). lia.
Qed.

Lemma wrun_rtc l : forall w w', wrun q w l = Some w' -> rtc (wstep q) w w'.
Proof using Type.
  induction l as [|a l IH]; intros w w' H; cbn [wrun] in H; [by injection H as ->|].
  apply bind_Some in H as (w1 & E1 & H). eapply rtc_l; [|by apply IH].
  destruct a; cbn [wrun1] in E1; econstructor; exact E1.
Qed.
End preservation.

(** ** Theorems *)

(** C12: No wake-up is lost.  However the steps of any number of producers
    ([Push], then [Notify]) and of the event loop ([Pop] until the queue is
    empty, then [Wait]) interleave, whether the loop starts with a [Pop] as
    the hub's does or with a [Wait] as the node's does: when the loop is
    blocked in [Wait], every command ever pushed has been popped, or some
    producer is still between its reservation and its [Notify], which will
    wake the loop. *)
Theorem no_lost_wakeup E (readable : E -> bool) `{!EventFd E} c q m n e l w :
  EventFdLaws E readable -> ctrl_wf c -> 0 <= q < MaxNodes -> qempty (M:=cmem c) q m ->
  rtc (wstep (M:=cmem c) q) (winit m n e l) w ->
  Z.of_nat (length (pushed (wq w))) < 4294967296 ->
  loop w = LWait -> Wait (fd w) = None -> popped (wq w) = pushed (wq w) \/ announcing w.
Proof.
  intros Hlaws Hwf Hq He Hreach Hb Hl Hw.
  pose proof (winv_reach readable q m n e l w Hq He Hreach Hb) as Hinv.
  apply efd_blocks in Hw. pose proof (wi_queue _ _ _ Hinv) as Hqi.
  destruct (decide (hd (wq w) < tl (wq w))) as [Hlt|Hge].
  - destruct (wi_wake _ _ _ Hinv) as [Hf|Ha]; [by left|done|congruence|by right].
  - left. rewrite (qi_prefix _ _ Hqi). pose proof (qi_size _ _ Hqi). unfold hd, tl in *.
    apply take_ge. lia.
Qed.

(** Producer 0 pushes while the loop finds its queue empty; the loop blocks
    until the notification, and then finds the command. *)
Definition demo_wakeup : list wsched :=
  [ALoop; ALoop; ACall 0 7 CMD_PROCESS; APush 0; APush 0; ALoop; ALoop; APush 0; APush 0].

Lemma no_lost_wakeup_witness :
  exists w : wstate (M:=cmem demo_control) (E:=counter),
    wrun 1 (winit ∅ 1 0%N LCall) demo_wakeup = Some w /\
    loop w = LWait /\ popped (wq w) <> pushed (wq w) /\ announcing w.
Proof.
  assert (Hv : (fun w : wstate (M:=cmem demo_control) (E:=counter) =>
      (loop w, fd w, popped (wq w), pushed (wq w))) <$>
      wrun 1 (winit ∅ 1 0%N LCall) demo_wakeup = Some (LWait, 0%N, [], [(7, 1)]))
    by (vm_compute; reflexivity).
  destruct (wrun 1 (winit ∅ 1 0%N LCall) demo_wakeup) as [w|] eqn:Er; [|discriminate Hv].
  injection Hv as Hl Hf Hpo Hpu. exists w. split; [reflexivity|]. split; [exact Hl|].
  assert (Hne : popped (wq w) <> pushed (wq w)) 
    by (intros Heq; discriminate (eq_trans (eq_sym Hpo) (eq_trans Heq Hpu))).
  split; [exact Hne|].
  destruct (no_lost_wakeup counter (fun n => negb (n =? 0)%N) demo_control 1 ∅ 1 0%N LCall w)
    as [Heq|Ha].
  - exact counter_laws.
  - apply first_blocks_ctrl_wf.
  - unfold_layout. lia.
  - split_and!; [apply (fread_empty demo_control)..|]. intros i Hi. apply (fread_empty demo_control).
  - eapply wrun_rtc. exact Er.
  - pose proof (f_equal length Hpu) as Hlen. simpl in Hlen. lia.
  - exact Hl.
  - rewrite Hf. reflexivity.
  - exfalso. exact (Hne Heq).
  - exact Ha.
Defined.
