(* ===== verification/Attach.v ===== *)
(** * Opening a stripe from its header

    A stripe is shared between hub and nodes through its header block: one
    side publishes length, block count and sequence there, the other parses
    them and maps the sequence to memory again.  Hub and node use the same
    loop for it, with their own way of finding a chunk; here it is once, with
    the lookup as a parameter, and with what keeps the header current. *)
From stdpp Require Import base tactics list numbers option gmap.
From Stdlib Require Import ZArith Lia.
From S2P Require Import Prelude Memory Layout Protocol Stripe Bus.
#[local] Open Scope Z_scope.

(** [chunk.Data[off : off+BlockSize]] with [off = id * BlockSize]. *)
Definition block_at (chunk : Chunk) (id : Z) : outcome slice :=
  slice_sub (CData chunk) (id * BlockSize) (id * BlockSize + BlockSize).

(** The loop of [processSlot], [OnExpandComplete] and [refreshStripe]: entry
    [i] of the sequence is skipped below [l], after the chunk id in it has
    been noted. *)
Fixpoint attach_blocks (getChunk : Z -> outcome Chunk) (chunkID i l : Z) (seq : list Z)
  : outcome (list slice) :=
  match seq with
  | [] => Ret []
  | id :: seq' =>
      if decide (id < 0) then attach_blocks getChunk id (i + 1) l seq'
      else if decide (i < l) then attach_blocks getChunk chunkID (i + 1) l seq'
      else
        chunk ← getChunk chunkID;
        blk ← block_at chunk id;
        rest ← attach_blocks getChunk chunkID (i + 1) l seq';
        Ret (blk :: rest)
  end.

(** The hub finds chunks in its bus. *)
Definition hub_getChunk (b : Bus) (id : Z) : outcome Chunk :=
  match GetChunk b id with
  | Some c => Ret c
  | None => Panic                        (* chunk.Data of a nil chunk *)
  end.

(** ** Specification vocabulary *)

(** The header block of [s] parses to [s]. *)
Definition published (m : mem) (s : Stripe) : Prop :=
  exists hd, Blocks s !! 0%nat = Some hd /\ sl_len hd = BlockSize /\
    DecodeHeader m hd = Ret (DataLen s, BlockCount s, Sequence s).

(** A lookup that finds the chunks of the bus, each mapped at its place in
    shared memory: what a hub or a node must provide to open stripes. *)
Class ChunkView (b : Bus) (getChunk : Z -> outcome Chunk) : Prop :=
  chunk_view : forall g, managed b g ->
    exists c, getChunk (ParseBlockAddress g).1 = Ret c /\
      CData c = Slice (g / BlocksPerChunk * ChunkSize) ChunkSize.

(** The chunk current after a prefix of a sequence. *)
Definition seq_end (c : Z) (s : list Z) : Z :=
  default c (head (filter (fun v => v < 0) (reverse s))).

(** ** Attaching *)
Lemma cons_eq_inv {A} (x y : A) l k : x :: l = y :: k -> x = y /\ l = k.
Proof. by intros [= -> ->]. Qed.

Lemma block_at_ok c g :
  CData c = Slice (g / BlocksPerChunk * ChunkSize) ChunkSize -> 0 <= g < 65536 ->
  block_at c (ParseBlockAddress g).2 = Ret (blk_slice g).
Proof.
  intros Hc Hg. pose proof (blk_of_bounds g Hg) as [_ Hb].
  unfold blk_of in Hb. cbn [BlockIdx] in Hb.
  assert (Hv : (ParseBlockAddress g).2 = g mod 1024).
  { unfold ParseBlockAddress. cbn [snd]. unfold_layout.
    assert (0 <= g mod 1024 < 1024) by (apply Z.mod_pos_bound; lia).
    apply i16_small. lia. }
  unfold block_at, slice_sub, blk_slice. rewrite Hc, Hv in *. cbn [sl_base sl_len].
  rewrite decide_True by (unfold_layout; lia). do 2 f_equal; [|lia].
  unfold_layout. Z.div_mod_to_equations. lia.
Qed.

(** The block the registry points at is the header block. *)
Lemma registered_header b s gs cid off rest :
  bus_wf b -> stripe_backed b s gs -> Sequence s = cid :: off :: rest -> 0 <= off ->
  exists g gs', gs = g :: gs' /\ managed b g /\ ParseBlockAddress g = (cid, off) /\
    Blocks s !! 0%nat = Some (blk_slice g).
Proof.
  intros Hwf Hb Hs Hoff. pose proof (sb_seq _ _ _ Hb) as Hq. pose proof (sb_used _ _ _ Hb) as Hu.
  destruct gs as [|g gs']; [by destruct (sb_nonempty _ _ _ Hb)|].
  inversion Hu as [|?? [Hm _] _]; subst. exists g, gs'.
  pose proof (blk_of_bounds g (managed_small _ _ Hwf Hm)) as [Hbc _].
  unfold blk_of in Hbc. cbn [ChunkID] in Hbc.
  rewrite Hs, fmap_cons in Hq. cbn [seq_blocks] in Hq. split_and!; [done|done| |].
  - case_decide as Hc.
    + rewrite decide_False in Hq by lia. by apply cons_eq_inv in Hq as [-> _].
    + apply cons_eq_inv in Hq as [Hg _]. rewrite <- Hg in Hbc. cbn [fst] in Hbc. lia.
  - by rewrite (sb_blocks _ _ _ Hb).
Qed.

Section attach.
Context (b : Bus) (Hwf : bus_wf b) (getChunk : Z -> outcome Chunk) `{!ChunkView b getChunk}.

(** Past the skipped prefix every denoted block is mapped. *)
Lemma attach_rest seq : forall c i l gs,
  l <= i -> Forall (managed b) gs -> seq_blocks c seq = ParseBlockAddress <$> gs ->
  attach_blocks getChunk c i l seq = Ret (blk_slice <$> gs).
Proof using Hwf ChunkView0.
  induction seq as [|id seq IH]; intros c i l gs Hl Hm Hs; cbn [attach_blocks seq_blocks] in *.
  - destruct gs; [done|discriminate].
  - case_decide as Hid; [by apply IH; [lia|..]|].
    destruct gs as [|g gs]; [discriminate|]. rewrite fmap_cons in Hs.
    apply cons_eq_inv in Hs as [Hg Hs]. inversion Hm as [|?? Hmg Hmgs]; subst.
    rewrite decide_False by lia.
    destruct (chunk_view g Hmg) as (ch & Hch & Hd).
    rewrite <- Hg in Hch. cbn [fst] in Hch. rewrite Hch. go_bind.
    pose proof (block_at_ok ch g Hd (managed_small _ _ Hwf Hmg)) as Hb.
    rewrite <- Hg in Hb. cbn [snd] in Hb. rewrite Hb. go_bind.
    rewrite (IH c (i + 1) l gs) by (done || lia). done.
Qed.

(** The skipped prefix only matters through its last chunk id. *)
Lemma attach_skip s1 s2 : forall c i,
  attach_blocks getChunk c i (i + Z.of_nat (length s1)) (s1 ++ s2) =
  attach_blocks getChunk (seq_end c s1) (i + Z.of_nat (length s1))
    (i + Z.of_nat (length s1)) s2.
Proof using Type.
  induction s1 as [|v s1 IH]; intros c i; cbn [app attach_blocks length].
  - by rewrite Z.add_0_r.
  - replace (i + Z.of_nat (S (length s1))) with (i + 1 + Z.of_nat (length s1)) by lia.
    unfold seq_end. rewrite reverse_cons, filter_app.
    assert (forall l : list Z, head (l ++ filter (fun v => v < 0) [v]) =
      match head l with Some x => Some x | None => head (filter (fun v => v < 0) [v]) end) as Hh
      by (intros [|x l]; done).
    rewrite Hh. case_decide as Hv.
    + rewrite IH, filter_cons_True by done. unfold seq_end. simpl.
      by destruct (head (filter (fun v => v < 0) (reverse s1))).
    + rewrite decide_True by lia. rewrite IH, filter_cons_False by done. unfold seq_end. simpl.
      by destruct (head (filter (fun v => v < 0) (reverse s1))).
Qed.

(** Opening a whole stripe, and the blocks added to a stripe already open. *)
Lemma attach_stripe s gs c l :
  stripe_backed b s gs -> c = 0 \/ Some c = Sequence s !! 0%nat -> l <= 0 ->
  attach_blocks getChunk c 0 l (Sequence s) = Ret (Blocks s).
Proof using Hwf ChunkView0.
  intros Hb Hc Hl. rewrite (sb_blocks _ _ _ Hb). apply attach_rest; [done| |].
  - eapply Forall_impl; [apply (sb_used _ _ _ Hb)|]. naive_solver.
  - pose proof (sb_seq _ _ _ Hb) as Hs. destruct Hc as [->|Hc]; [done|].
    destruct (Sequence s) as [|v seq]; [done|]. injection Hc as ->.
    cbn [seq_blocks] in *. case_decide as Hv; [done|].
    (* a sequence that starts with a block index denotes chunk 0: no block has it *)
    destruct gs as [|g gs]; [by destruct (sb_nonempty _ _ _ Hb)|].
    pose proof (sb_used _ _ _ Hb) as Hu. inversion Hu as [|?? [Hm _] _]; subst.
    pose proof (blk_of_bounds g (managed_small _ _ Hwf Hm)) as [Hbc _].
    rewrite fmap_cons in Hs. apply cons_eq_inv in Hs as [Hg _]. unfold blk_of in Hbc.
    cbn [ChunkID] in Hbc. rewrite <- Hg in Hbc. cbn [fst] in Hbc. lia.
Qed.

(** The registered location leads to the header block. *)
Lemma locate_header s gs cid off rest hd :
  stripe_backed b s gs -> Sequence s = cid :: off :: rest -> 0 <= off ->
  Blocks s !! 0%nat = Some hd ->
  exists ch, getChunk cid = Ret ch /\ block_at ch off = Ret hd.
Proof using Hwf ChunkView0.
  intros Hb Hs Hoff Hhd.
  destruct (registered_header b s gs cid off rest Hwf Hb Hs Hoff) as (g & gs' & -> & Hm & Hp & Hb0).
  destruct (chunk_view g Hm) as (ch & Hch & Hd). rewrite Hp in Hch.
  pose proof (block_at_ok ch g Hd (managed_small _ _ Hwf Hm)) as Hblk. rewrite Hp in Hblk.
  assert (hd = blk_slice g) as -> by congruence. by exists ch.
Qed.

Lemma attach_extension s blks gs gs' :
  stripe_backed b (extend_stripe s blks) (gs ++ gs') -> length (Blocks s) = length gs ->
  seq_blocks 0 (Sequence s) = ParseBlockAddress <$> gs ->
  attach_blocks getChunk 0 0 (Z.of_nat (length (Sequence s)))
    (Sequence (extend_stripe s blks)) = Ret (blk_slice <$> gs').
Proof using Hwf ChunkView0.
  intros Hb Hlen Hs. cbn [extend_stripe Sequence].
  pose proof (attach_skip (Sequence s) (encode_seq (last_chunk (Sequence s)) blks) 0 0) as E.
  rewrite Z.add_0_l in E. rewrite E. apply attach_rest; [lia| |].
  - pose proof (sb_used _ _ _ Hb) as Hu. apply Forall_app in Hu as [_ Hu].
    eapply Forall_impl; [exact Hu|]. naive_solver.
  - pose proof (sb_seq _ _ _ Hb) as Hq. cbn [extend_stripe Sequence] in Hq.
    rewrite seq_blocks_app, fmap_app, Hs in Hq. by apply app_inv_head in Hq.
Qed.
End attach.

Existing Class bus_wf.

#[export] Instance hub_chunk_view (b : Bus) `{Hwf : !bus_wf b} : ChunkView b (hub_getChunk b).
Proof.
  intros g Hm. unfold hub_getChunk, GetChunk.
  pose proof (managed_small _ _ Hwf Hm) as Hs. pose proof (bus_chunks _ Hwf) as Hch.
  unfold managed in Hm.
  assert (Hid : go_not (ParseBlockAddress g).1 = g / 1024).
  { unfold ParseBlockAddress. cbn [fst]. rewrite go_not_invol. unfold_layout.
    apply i16_small. Z.div_mod_to_equations. lia. }
  rewrite Hid. rewrite decide_False by (unfold_layout; Z.div_mod_to_equations; lia).
  destruct (lookup_lt_is_Some_2 (chunks b) (Z.to_nat (g / 1024))) as [c Hc];
    [unfold_layout; Z.div_mod_to_equations; lia|].
  rewrite Hc. exists c. split; [done|]. rewrite (bus_data _ Hwf _ _ Hc). f_equal.
  rewrite Z2Nat.id by (Z.div_mod_to_equations; lia). done.
Qed.

(** ** Keeping the header current *)
Lemma get_le_ext m m' hd off n :
  (forall a, sl_base hd + off <= a < sl_base hd + off + Z.of_nat n -> load m' a = load m a) ->
  get_le m' hd off n = get_le m hd off n.
Proof.
  intros H. unfold get_le. case_decide; [|done]. f_equal. by apply load_le_ext.
Qed.

Lemma get_sequence_ext m m' hd n : forall i,
  0 <= i -> sl_len hd = BlockSize ->
  (forall a, sl_base hd + 4 <= a < sl_base hd + BlockSize -> load m' a = load m a) ->
  get_sequence m' hd i n = get_sequence m hd i n.
Proof.
  induction n as [|n IH]; intros i Hi Hl H; [done|]. cbn [get_sequence].
  case_decide as Hd; [done|]. rewrite Hl in Hd. rewrite (get_le_ext m m').
  - destruct (get_le m hd _ 2); go_bind; [|done..]. by rewrite IH by (done || lia).
  - intros a Ha. apply H. unfold_layout. lia.
Qed.

(** Only the first word of the header may differ: then only the length does. *)
Lemma DecodeHeader_len m m' hd dl bc seq :
  sl_len hd = BlockSize ->
  (forall a, sl_base hd + 4 <= a < sl_base hd + BlockSize -> load m' a = load m a) ->
  DecodeHeader m hd = Ret (dl, bc, seq) ->
  DecodeHeader m' hd = Ret (load_le m' (sl_base hd) 4, bc, seq).
Proof.
  intros Hl Hsame. unfold DecodeHeader.
  rewrite !(get_le_ok _ hd HEADER_DATA_LEN_OFF) by (rewrite ?Hl; unfold_layout; lia). go_bind.
  rewrite !(get_le_ext m m' hd HEADER_BLK_CNT_OFF), !(get_le_ext m m' hd HEADER_SEQ_LEN_OFF)
    by (intros a Ha; apply Hsame; unfold_layout; lia).
  destruct (get_le m hd HEADER_BLK_CNT_OFF 2) as [bc'| |]; go_bind; [|done..].
  destruct (get_le m hd HEADER_SEQ_LEN_OFF 2) as [n| |]; go_bind; [|done..].
  rewrite (get_sequence_ext m m') by (done || lia).
  destruct (get_sequence m hd 0 (Z.to_nat n)); go_bind; [|done..].
  intros [= _ -> ->]. unfold HEADER_DATA_LEN_OFF. by rewrite Z.add_0_r.
Qed.

(** A header update publishes the stripe, if its sequence fits. *)
Lemma UpdateStripeHeader_published m m' s :
  stripe_wf s -> BlockCount s = Z.of_nat (length (Blocks s)) -> BlockCount s < 65536 ->
  (length (Sequence s) <= max_seq)%nat -> Forall is_int16 (Sequence s) ->
  UpdateStripeHeader m s = Ret m' -> published m' s.
Proof.
  intros Hwf Hbc Hb Hl Hi E.
  destruct (header_block s (swf_blocks _ Hwf)) as (hd & Hhd & Lhd).
  exists hd. split_and!; [done|done|].
  pose proof (bwf_cap _ (swf_blocks _ Hwf)). pose proof (swf_len _ Hwf) as HD.
  unfold data_cap in HD. pose proof max_seq_Z.
  pose proof (decode_update m s hd Hhd Lhd ltac:(unfold_layout; lia) ltac:(lia) ltac:(lia) Hi) as D.
  rewrite E in D. go_bind. cbn [mbind outcome_bind] in D. rewrite D, take_ge by lia.
  replace (_ - _)%nat with 0%nat by lia. by rewrite app_nil_r.
Qed.

Lemma DecodeHeader_dataLen m hd dl bc seq :
  sl_len hd = BlockSize -> DecodeHeader m hd = Ret (dl, bc, seq) ->
  dl = load_le m (sl_base hd) 4.
Proof.
  intros Hl E. pose proof (DecodeHeader_len m m hd dl bc seq Hl ltac:(done) E) as E'.
  congruence.
Qed.

Lemma published_synced m s : published m s -> header_synced m s.
Proof.
  intros (hd & Hhd & Lhd & E). exists hd. split; [done|].
  by rewrite <- (DecodeHeader_dataLen _ _ _ _ _ Lhd E).
Qed.

(** Writes elsewhere do not matter to it. *)
Lemma published_ext m m' s :
  (forall hd a, Blocks s !! 0%nat = Some hd -> sl_base hd <= a < sl_base hd + BlockSize ->
     load m' a = load m a) ->
  published m s -> published m' s.
Proof.
  intros Hs (hd & Hhd & Lhd & E). exists hd. split_and!; [done|done|].
  erewrite (DecodeHeader_len m m' hd); [|exact Lhd| |exact E].
  - do 3 f_equal. rewrite (DecodeHeader_dataLen _ _ _ _ _ Lhd E).
    apply load_le_ext. intros a Ha. apply (Hs hd); [done|unfold_layout; lia].
  - intros a Ha. apply (Hs hd); [done|lia].
Qed.

(** Writes keep the header current. *)
Lemma WriteAt_published m s p off m' s' r :
  stripe_wf s -> 0 <= off -> off + BlockSize < 9223372036854775808 ->
  published m s -> WriteAt m s p off = Ret (m', s', r) -> published m' s'.
Proof.
  intros Hwf Hoff Hbig (hd & Hhd & Lhd & E) EW. pose proof (swf_blocks _ Hwf) as Hb.
  destruct (WriteAt_run m s p off Hb Hoff Hbig) as (m1 & b & Hw & Hb0 & EW').
  rewrite EW in EW'. simplify_eq.
  pose proof (fit_bounds s off (Z.of_nat (length p)) ltac:(lia)) as Hf1.
  pose proof (fit_cap s off (Z.of_nat (length p))) as Hf2.
  set (w := fit s off (Z.of_nat (length p))) in *.
  assert (Hsame : forall a, sl_base hd <= a < sl_base hd + BlockSize -> load m1 a = load m a).
  { intros a Ha. apply Hw. intros i Hi ->.
    pose proof (data_addr_not_header s Hb hd i Hhd ltac:(lia)). lia. }
  pose proof (bwf_cap _ Hb) as Hcap.
  case_decide as Hd; injection EW' as -> -> ->; exists hd; split_and!; try done.
  - cbn [with_DataLen DataLen BlockCount Sequence].
    erewrite (DecodeHeader_len m _ hd); [|exact Lhd| |exact E].
    + do 3 f_equal. apply load_store_le_same. unfold data_cap in *. simpl. unfold_layout. lia.
    + intros a Ha. rewrite load_store_le_out by lia. apply Hsame. lia.
  - erewrite (DecodeHeader_len m _ hd); [|exact Lhd|intros a Ha; apply Hsame; lia|exact E].
    do 3 f_equal. rewrite (DecodeHeader_dataLen _ _ _ _ _ Lhd E).
    apply load_le_ext. intros a Ha. apply Hsame. unfold_layout. lia.
Qed.

(** Growing a stripe publishes it again. *)
Lemma AllocBlocksForStripe_published mk m b s n m' b' s' :
  bus_wf b' -> AllocBlocksForStripe mk m b s n = Ret (m', b', s', None) ->
  (exists gs, stripe_backed b' s' gs /\ Z.of_nat (length gs) <= 1022) ->
  (length (Sequence s') <= max_seq)%nat -> published m' s'.
Proof.
  intros Hwf E (gs & Hb & Hl) Hseq. unfold AllocBlocksForStripe in E.
  destruct (AllocBlocks mk b n) as [[b1 [e|blks]]| |]; [discriminate| |discriminate..].
  cbn [mbind outcome_bind] in E.
  destruct (UpdateStripeHeader m (extend_stripe s blks)) as [m1| |] eqn:EU; [|discriminate..].
  cbn [mbind outcome_bind] in E. injection E as -> -> <-.
  eapply UpdateStripeHeader_published; [by eapply stripe_backed_wf| | |done|apply Hb|exact EU].
  - rewrite (sb_count _ _ _ Hb), (sb_blocks _ _ _ Hb), length_fmap. done.
  - rewrite (sb_count _ _ _ Hb). lia.
Qed.

(** The sequence of a stripe of [n] blocks has at most [2 n] entries. *)
Lemma length_extend_seq s blks :
  (length (Sequence (extend_stripe s blks)) <= length (Sequence s) + 2 * length blks)%nat.
Proof.
  cbn [extend_stripe Sequence]. rewrite length_app.
  pose proof (length_encode_seq (last_chunk (Sequence s)) blks). lia.
Qed.

(** ** Blocks as sets of addresses *)

(** Address [a] lies in one of the blocks [gs]. *)
Definition in_gs (gs : list Z) (a : Z) : Prop :=
  exists g, g ∈ gs /\ g * BlockSize <= a < g * BlockSize + BlockSize.

Lemma in_blocks_gs b s gs a : stripe_backed b s gs -> in_blocks s a -> in_gs gs a.
Proof.
  intros Hb Hi. unfold in_blocks in Hi. rewrite (sb_blocks _ _ _ Hb) in Hi.
  apply Exists_exists in Hi as (blk & Hin & Hr).
  apply list_elem_of_fmap in Hin as (g & -> & Hg). by exists g.
Qed.

(** A published header survives writes to other blocks. *)
Lemma published_frame b s gs gsc m m' :
  stripe_backed b s gs -> (forall g, g ∈ gs -> g ∈ gsc -> False) ->
  mem_frame (in_gs gsc) m m' -> published m s -> published m' s.
Proof.
  intros Hb Hd Hfr. apply published_ext. intros hd a Hhd Ha. apply Hfr.
  intros (g' & Hg' & Hr). rewrite (sb_blocks _ _ _ Hb) in Hhd.
  apply list_lookup_fmap_Some in Hhd as (g & -> & Hg).
  apply list_elem_of_lookup_2 in Hg. unfold blk_slice in Ha. cbn [sl_base] in Ha.
  assert (g = g') as -> by (unfold_layout; lia). by eapply Hd.
Qed.

(** Data bytes lie in the stripe's blocks. *)
Lemma data_bytes_frame b s gs gs0 m m' k :
  bus_wf b -> stripe_backed b s gs -> (forall g, g ∈ gs -> g ∈ gs0 -> False) ->
  mem_frame (in_gs gs0) m m' -> 0 <= k <= data_cap s ->
  data_bytes m' s 0 k = data_bytes m s 0 k.
Proof.
  intros Hwf Hb Hd Hfr Hk. unfold data_bytes. apply list_fmap_ext. intros j i Hi.
  apply lookup_seqZ in Hi as [-> Hi]. unfold data_byte. apply Hfr. intros (g & Hg & Hr).
  pose proof (stripe_backed_wf _ _ _ Hwf Hb) as Hswf.
  pose proof (data_addr_in_blocks s (swf_blocks _ Hswf) (0 + Z.of_nat j) ltac:(lia)) as Hin.
  eapply in_blocks_gs in Hin as (g' & Hg' & Hr'); [|exact Hb].
  assert (g' = g) as -> by (unfold_layout; lia). by eapply Hd.
Qed.

Lemma header_in_gs b s gs hd a :
  stripe_backed b s gs -> Blocks s !! 0%nat = Some hd ->
  sl_base hd <= a < sl_base hd + BlockSize -> in_gs gs a.
Proof.
  intros Hb Hhd Ha. rewrite (sb_blocks _ _ _ Hb) in Hhd.
  apply list_lookup_fmap_Some in Hhd as (g & -> & Hg). exists g.
  split; [by eapply list_elem_of_lookup_2|done].
Qed.

Lemma in_gs_app gs1 gs2 a : in_gs (gs1 ++ gs2) a <-> in_gs gs1 a \/ in_gs gs2 a.
Proof. unfold in_gs. setoid_rewrite elem_of_app. naive_solver. Qed.

Lemma in_gs_frame_l gs1 gs2 m m' : mem_frame (in_gs gs1) m m' -> mem_frame (in_gs (gs1 ++ gs2)) m m'.
Proof. apply mem_frame_mono. intros a Ha. apply in_gs_app. by left. Qed.

Lemma in_gs_frame_r gs1 gs2 m m' : mem_frame (in_gs gs2) m m' -> mem_frame (in_gs (gs1 ++ gs2)) m m'.
Proof. apply mem_frame_mono. intros a Ha. apply in_gs_app. by right. Qed.

(** A block in use is a block of the bus. *)
Lemma used_managed b g : bus_wf b -> 0 <= g -> used b g = true -> managed b g.
Proof.
  intros Hwf Hg Hu. unfold used in Hu. destruct (bitmap b !! Z.to_nat (g / 32)) as [w|] eqn:E; [|done].
  apply lookup_lt_Some in E. pose proof (bus_bitmap _ Hwf) as Hb. unfold managed. unfold_layout.
  Z.div_mod_to_equations. lia.
Qed.

(** A stripe stays backed as long as its blocks stay in use. *)
Lemma backed_kept b b' s gs :
  bus_wf b' -> (forall g, g ∈ gs -> used b' g = true) -> stripe_backed b s gs ->
  stripe_backed b' s gs.
Proof.
  intros Hwf Hu []. split; try done. rewrite Forall_forall in *. intros g Hg.
  destruct (sb_used g Hg) as [Hm _]. split; [|by apply Hu].
  apply used_managed; [done|unfold managed in Hm; lia|by apply Hu].
Qed.
