(* ===== verification/Conn.v ===== *)
(** * The hub's connection

    go/hub/conn.go: a [busConn] is a cursor over a stripe of the hub's bus.
    Writes grow the stripe when they need to; after a node has worked on the
    stripe the connection re-reads its header.  [Close] and [Next], which
    work on the whole hub, are in [Hub]. *)
From stdpp Require Import base tactics list numbers option gmap.
From Stdlib Require Import ZArith Lia.
From S2P Require Import Prelude Memory Layout Protocol Stripe Viewer Bus Attach.
#[local] Open Scope Z_scope.

(** [cnDone] names the channel the connection waits on. *)
Record busConn : Type := mkConn {
  cnStripe : option Stripe;
  readOff : Z;
  writeOff : Z;
  slotID : Z;
  cnDone : option Z;
}.

Definition with_stripe (c : busConn) (s : Stripe) : busConn :=
  mkConn (Some s) (readOff c) (writeOff c) (slotID c) (cnDone c).
Definition with_readOff (c : busConn) (off : Z) : busConn :=
  mkConn (cnStripe c) off (writeOff c) (slotID c) (cnDone c).
Definition with_writeOff (c : busConn) (off : Z) : busConn :=
  mkConn (cnStripe c) (readOff c) off (slotID c) (cnDone c).

(** [c.Stripe]; using a nil one panics. *)
Definition the_stripe (c : busConn) : outcome Stripe :=
  match cnStripe c with Some s => Ret s | None => Panic end.

(** ** Operations *)
Definition conn_DataLen (c : busConn) : outcome Z :=
  s ← the_stripe c; Ret (DataLen s).

Definition conn_View (m : mem) (c : busConn) (offset len : Z)
  (call : mem -> Viewer -> outcome (mem * option goerror))
  : outcome (mem * option goerror) :=
  s ← the_stripe c; View m s offset len call.

Definition ensureCapacity (mk : Z -> option Chunk) (m : mem) (b : Bus) (c : busConn)
  (needed : Z) : outcome (mem * Bus * busConn * option goerror) :=
  s ← the_stripe c;
  let userCap := (BlockCount s - 1) * BlockSize in
  if decide (needed <= userCap) then Ret (m, b, c, None)
  else
    let extraBytes := i64 (needed - userCap) in
    let blocksNeeded := Z.quot (i64 (extraBytes + BlockSize - 1)) BlockSize in
    r ← AllocBlocksForStripe mk m b s blocksNeeded;
    let '(m', b', s', err) := r in
    Ret (m', b', with_stripe c s', err).

Definition conn_WriteByte (mk : Z -> option Chunk) (m : mem) (b : Bus) (c : busConn)
  (v : Z) : outcome (mem * Bus * busConn * option goerror) :=
  r ← ensureCapacity mk m b c (i64 (writeOff c + 1));
  let '(m1, b1, c1, err) := r in
  match err with
  | Some e => Ret (m1, b1, c1, Some e)
  | None =>
      s ← the_stripe c1;
      w ← WriteByteAt m1 s v (writeOff c1);
      let '(m2, s2, err2) := w in
      let c2 := with_stripe c1 s2 in
      match err2 with
      | None => Ret (m2, b1, with_writeOff c2 (i64 (writeOff c2 + 1)), None)
      | Some e => Ret (m2, b1, c2, Some e)
      end
  end.

Definition conn_WriteAt (mk : Z -> option Chunk) (m : mem) (b : Bus) (c : busConn)
  (data : list Z) (off : Z) : outcome (mem * Bus * busConn * (Z * option goerror)) :=
  r ← ensureCapacity mk m b c (i64 (off + Z.of_nat (length data)));
  let '(m1, b1, c1, err) := r in
  match err with
  | Some e => Ret (m1, b1, c1, (0, Some e))
  | None =>
      s ← the_stripe c1;
      w ← WriteAt m1 s data off;
      let '(m2, s2, (n, err2)) := w in
      Ret (m2, b1, with_stripe c1 s2, (n, err2))
  end.

Definition conn_Write (mk : Z -> option Chunk) (m : mem) (b : Bus) (c : busConn)
  (data : list Z) : outcome (mem * Bus * busConn * (Z * option goerror)) :=
  r ← conn_WriteAt mk m b c data (writeOff c);
  let '(m1, b1, c1, (n, err)) := r in
  match err with
  | Some e => Ret (m1, b1, c1, (n, Some e))
  | None => Ret (m1, b1, with_writeOff c1 (i64 (writeOff c1 + n)), (n, None))
  end.

Definition conn_ReadByte (m : mem) (c : busConn) : outcome (busConn * (Z * option goerror)) :=
  s ← the_stripe c;
  r ← ReadByteAt m s (readOff c);
  let '(v, err) := r in
  match err with
  | None => Ret (with_readOff c (i64 (readOff c + 1)), (v, None))
  | Some e => Ret (c, (v, Some e))
  end.

Definition conn_ReadAt (m : mem) (c : busConn) (data : list Z) (off : Z)
  : outcome (Z * option goerror * list Z) :=
  s ← the_stripe c; ReadAt m s data off.

Definition conn_Read (m : mem) (c : busConn) (data : list Z)
  : outcome (busConn * (Z * option goerror * list Z)) :=
  r ← conn_ReadAt m c data (readOff c);
  let '(n, err, buf) := r in
  match err with
  | Some e => Ret (c, (n, Some e, buf))
  | None => Ret (with_readOff c (i64 (readOff c + n)), (n, None, buf))
  end.

(** Re-reads the header after a node may have grown or written the stripe. *)
Definition refreshStripe (m : mem) (b : Bus) (c : busConn)
  : outcome (busConn * option goerror) :=
  match cnStripe c with
  | None => Ret (c, Some ErrNoRequest)
  | Some s =>
      hd ← go_index (Blocks s) 0;
      h ← DecodeHeader m hd;
      let '(dataLen, blkCnt, seq) := h in
      if decide (blkCnt <> BlockCount s) then
        added ← attach_blocks (hub_getChunk b) 0 0 (Z.of_nat (length (Sequence s))) seq;
        Ret (with_stripe c (mkStripe seq blkCnt (Blocks s ++ added) dataLen), None)
      else Ret (with_stripe c (with_DataLen s dataLen), None)
  end.

(** ** Specification vocabulary *)

(** A connection over a live, published stripe of the blocks [gs]. *)
Record conn_ok (m : mem) (b : Bus) (c : busConn) (s : Stripe) (gs : list Z) : Prop := {
  co_stripe : cnStripe c = Some s;
  co_backed : stripe_backed b s gs;
  co_published : published m s;
  co_seq : (length (Sequence s) <= 2 * length gs)%nat;
  co_limit : Z.of_nat (length gs) <= 1022;
}.

(** A stripe on the blocks [gs] has taken the free blocks [gs'] in addition, and
    only memory of its own blocks has been written. *)
Record took (m : mem) (b : Bus) (s : Stripe) (gs : list Z)
  (m' : mem) (b' : Bus) (s' : Stripe) (gs' : list Z) : Prop := {
  tk_free : forall g, g ∈ gs' -> used b g = false;
  tk_used : forall g, 0 <= g -> used b' g = used b g || bool_decide (g ∈ gs');
  tk_seq : exists ext, Sequence s' = Sequence s ++ ext;
  tk_frame : mem_frame (in_gs (gs ++ gs')) m m';
}.

(** Bytes with [p] written over them from [off] on. *)
Definition splice (d : list Z) (off : nat) (p : list Z) : list Z :=
  take off d ++ p ++ drop (off + length p) d.

(** Several writes one after the other. *)
Fixpoint conn_Writes (mk : Z -> option Chunk) (m : mem) (b : Bus) (c : busConn)
  (ds : list (list Z)) : outcome (mem * Bus * busConn * option goerror) :=
  match ds with
  | [] => Ret (m, b, c, None)
  | d :: ds' =>
      r ← conn_Write mk m b c d;
      let '(m1, b1, c1, (n, err)) := r in
      match err with
      | Some e => Ret (m1, b1, c1, Some e)
      | None => conn_Writes mk m1 b1 c1 ds'
      end
  end.

(** ** Lemmas *)
Lemma backed_length b s gs : stripe_backed b s gs -> length (Blocks s) = length gs.
Proof. intros H. by rewrite (sb_blocks _ _ _ H), length_fmap. Qed.

Lemma backed_cap b s gs :
  stripe_backed b s gs -> data_cap s = (Z.of_nat (length gs) - 1) * BlockSize.
Proof. intros H. unfold data_cap. by rewrite (backed_length _ _ _ H). Qed.

Lemma backed_with_DataLen b s gs n :
  stripe_backed b s gs -> 0 <= n <= data_cap s -> stripe_backed b (with_DataLen s n) gs.
Proof. intros [] Hn. by split. Qed.

Section conn.
Context (mk : Z -> option Chunk) `{!ChunkSource mk}.

(** [ensureCapacity] leaves room for [needed] bytes, or reports the
    allocation error with everything as it was. *)
Lemma ensureCapacity_spec m b c s gs needed :
  bus_wf b -> conn_ok m b c s gs -> 0 <= needed <= 1021 * BlockSize ->
  exists m' b' c' err, ensureCapacity mk m b c needed = Ret (m', b', c', err) /\ bus_wf b' /\
    match err with
    | Some _ => m' = m /\ c' = c /\ (forall g, 0 <= g -> used b' g = used b g) /\
        Z.of_nat (length (free_list b)) * BlockSize < needed - data_cap s
    | None => exists s' gs', c' = with_stripe c s' /\ conn_ok m' b' c' s' (gs ++ gs') /\
        needed <= data_cap s' /\ data_cap s <= data_cap s' /\ DataLen s' = DataLen s /\
        data_bytes m' s' 0 (data_cap s) = stripe_area m s /\ took m b s gs m' b' s' gs'
    end.
Proof using ChunkSource0.
  intros Hwf [Hst Hbk Hpub Hsq Hlim] Hneed.
  pose proof (backed_cap _ _ _ Hbk) as Hcap. pose proof (sb_count _ _ _ Hbk) as Hbc.
  pose proof (sb_nonempty _ _ _ Hbk) as Hne.
  assert (0 < length gs)%nat by (destruct gs; [done|simpl; lia]).
  unfold ensureCapacity, the_stripe. rewrite Hst. go_bind.
  case_decide as Hd.
  { exists m, b, c, None. split_and!; [done|done|]. exists s, [].
    rewrite app_nil_r. split_and!; try done; try lia.
    - by destruct c; simpl in *; subst.
    - split; [by intros g Hg%not_elem_of_nil| |by exists []; rewrite app_nil_r|apply mem_frame_refl].
      intros g Hg. rewrite bool_decide_eq_false_2 by set_solver. by rewrite orb_false_r. }
  set (extra := needed - (BlockCount s - 1) * BlockSize) in *.
  assert (Hex : 0 < extra <= 1021 * BlockSize) by (unfold extra; unfold_layout; lia).
  rewrite !i64_small by (rewrite ?i64_small; unfold_layout; lia).
  set (n := Z.quot (extra + BlockSize - 1) BlockSize).
  assert (Hn : 0 < n /\ extra <= n * BlockSize < extra + BlockSize).
  { unfold n. rewrite Z.quot_div_nonneg by (unfold_layout; lia).
    unfold_layout. Z.div_mod_to_equations. lia. }
  destruct (AllocBlocksForStripe_spec mk m b s gs n Hwf Hbk ltac:(lia))
    as (m' & b' & s' & e & E & Hwf' & Hr).
  rewrite E. go_bind. exists m', b', (with_stripe c s'), e. split_and!; [done|done|].
  destruct e as [e|].
  { destruct Hr as (-> & -> & Hu). split_and!; [done| |done|].
    - by destruct c; simpl in *; subst.
    - pose proof (AllocBlocksForStripe_short mk m b s n _ _ _ _ Hwf ltac:(lia) E). unfold extra in *.
      unfold_layout. lia. }
  destruct Hr as (gs' & Hcl & Hl & Hbk' & Hsync & Hcap' & HD & Harea & Hs' & Hfr).
  pose proof (length_extend_seq s (blk_of <$> gs')) as Hsl.
  rewrite <- Hs', length_fmap in Hsl. pose proof max_seq_Z.
  assert (Hlen' : Z.of_nat (length (gs ++ gs')) <= 1022)
    by (rewrite length_app; unfold extra in *; unfold_layout; lia).
  exists s', gs'. split_and!; try done.
  - split; [done|done| |rewrite length_app; lia|done].
    eapply AllocBlocksForStripe_published; [exact Hwf'|exact E| |].
    + by exists (gs ++ gs').
    + rewrite length_app in Hlen'. lia.
  - unfold extra in *. lia.
  - unfold_layout. lia.
  - pose proof (cl_free _ _ _ Hcl) as Hf. rewrite Forall_forall in Hf. split.
    + intros g Hg. by apply Hf.
    + apply Hcl.
    + rewrite Hs'. by eexists.
    + apply in_gs_frame_l. eapply mem_frame_mono; [|exact Hfr].
      intros a (hd & Hhd & Ha). by eapply header_in_gs.
Qed.

(** A write within the size limit: everything is stored, or an allocation
    error is reported and nothing has changed. *)
Lemma conn_WriteAt_spec m b c s gs data off :
  bus_wf b -> conn_ok m b c s gs -> 0 <= off ->
  off + Z.of_nat (length data) <= 1021 * BlockSize ->
  exists m' b' c' n err, conn_WriteAt mk m b c data off = Ret (m', b', c', (n, err)) /\
    bus_wf b' /\
    match err with
    | Some _ => n = 0 /\ m' = m /\ c' = c /\ (forall g, 0 <= g -> used b' g = used b g) /\
        Z.of_nat (length (free_list b)) * BlockSize < off + Z.of_nat (length data) - data_cap s
    | None => n = Z.of_nat (length data) /\
        exists s' gs' A, c' = with_stripe c s' /\ conn_ok m' b' c' s' (gs ++ gs') /\
        DataLen s' = (if decide (n > 0) then Z.max (DataLen s) (off + n) else DataLen s) /\
        take (Z.to_nat (data_cap s)) A = stripe_area m s /\
        stripe_area m' s' = take (Z.to_nat off) A ++ data ++ drop (Z.to_nat (off + n)) A /\
        took m b s gs m' b' s' gs'
    end.
Proof using ChunkSource0.
  intros Hwf Hok Hoff Hlim. unfold conn_WriteAt.
  rewrite i64_small by (unfold_layout; lia).
  destruct (ensureCapacity_spec m b c s gs (off + Z.of_nat (length data)) Hwf Hok)
    as (m1 & b1 & c1 & err & E & Hwf1 & Hr); [lia|].
  rewrite E. go_bind. destruct err as [e|].
  { exists m1, b1, c1, 0, (Some e). split_and!; naive_solver. }
  destruct Hr as (s1 & gs' & -> & Hok1 & Hroom & Hmono & HD & Harea & Htook).
  pose proof Hok1 as [_ Hbk1 Hpub1 Hsq1 Hlim1].
  pose proof (stripe_backed_wf _ _ _ Hwf1 Hbk1) as Hswf.
  destruct (WriteAt_effect m1 s1 data off Hswf Hoff ltac:(unfold_layout; lia))
    as (m2 & s2 & E2 & Hs2 & Hswf2 & Harea2 & _ & Hfr2).
  assert (Hfit : fit s1 off (Z.of_nat (length data)) = Z.of_nat (length data))
    by (unfold fit; lia).
  rewrite Hfit in *. rewrite decide_False in E2 by lia.
  cbn [the_stripe with_stripe cnStripe]. go_bind. rewrite E2. go_bind.
  exists m2, b1, (with_stripe c s2), (Z.of_nat (length data)), None.
  split; [done|]. split; [done|]. split; [done|].
  exists s2, gs', (stripe_area m1 s1). split_and!; try done.
  - pose proof (WriteAt_published _ _ _ _ _ _ _ Hswf Hoff ltac:(unfold_layout; lia) Hpub1 E2).
    split; try done; try (rewrite Hs2; done).
    rewrite Hs2. apply backed_with_DataLen; [done|].
    pose proof (swf_len _ Hswf2) as Hl2. rewrite Hs2 in Hl2. exact Hl2.
  - rewrite Hs2. cbn [with_DataLen DataLen]. by rewrite HD.
  - rewrite <- Harea. unfold stripe_area.
    replace (data_cap s1) with (data_cap s + (data_cap s1 - data_cap s)) by lia.
    pose proof (sb_len _ _ _ (co_backed _ _ _ _ _ Hok)) as Hsl.
    rewrite data_bytes_app by lia.
    rewrite <- (length_data_bytes s1 m1 0 (data_cap s)). apply take_app_length.
  - rewrite (take_ge data) in Harea2 by lia. done.
  - destruct Htook as [H1 H2 H3 H4]. split; [done|done|by rewrite Hs2|].
    eapply mem_frame_trans; [exact H4|]. eapply mem_frame_mono; [|exact Hfr2].
    intros a. by eapply in_blocks_gs.
Qed.

(** [Write] at the current offset. *)
Lemma conn_Write_spec m b c s gs data :
  bus_wf b -> conn_ok m b c s gs -> 0 <= writeOff c ->
  writeOff c + Z.of_nat (length data) <= 1021 * BlockSize ->
  exists m' b' c' n err, conn_Write mk m b c data = Ret (m', b', c', (n, err)) /\ bus_wf b' /\
    match err with
    | Some _ => m' = m /\ c' = c /\ forall g, 0 <= g -> used b' g = used b g
    | None => exists s' gs', conn_ok m' b' c' s' (gs ++ gs') /\ took m b s gs m' b' s' gs' /\
        writeOff c' = writeOff c + Z.of_nat (length data) /\ slotID c' = slotID c
    end.
Proof using ChunkSource0.
  intros Hwf Hok Hoff Hlim.
  destruct (conn_WriteAt_spec m b c s gs data (writeOff c) Hwf Hok Hoff Hlim)
    as (m' & b' & c' & n & err & E & Hwf' & Hr).
  unfold conn_Write. rewrite E, bind_ret. destruct err as [e|].
  { eexists _, _, _, _, _. split; [reflexivity|]. split; [done|]. naive_solver. }
  destruct Hr as (-> & s' & gs' & A & -> & Hok' & _ & _ & _ & Htk).
  eexists _, _, _, _, _. split; [reflexivity|]. split; [done|]. exists s', gs'.
  split; [by destruct Hok'|]. split; [done|]. cbn. split; [|done].
  apply i64_small. unfold_layout. lia.
Qed.

(** A write at the end of the data appends. *)
Lemma conn_Write_appends m b c s gs data :
  bus_wf b -> conn_ok m b c s gs -> writeOff c = DataLen s ->
  DataLen s + Z.of_nat (length data) <= 1021 * BlockSize ->
  exists m' b' c' n err, conn_Write mk m b c data = Ret (m', b', c', (n, err)) /\
    bus_wf b' /\
    match err with
    | Some _ => n = 0 /\ m' = m /\ c' = c
    | None => n = Z.of_nat (length data) /\
        exists s' gs', conn_ok m' b' c' s' (gs ++ gs') /\ writeOff c' = DataLen s' /\
        readOff c' = readOff c /\ DataLen s' = DataLen s + n /\
        stripe_data m' s' = stripe_data m s ++ data
    end.
Proof using ChunkSource0.
  intros Hwf Hok Hw Hlim.
  pose proof (sb_len _ _ _ (co_backed _ _ _ _ _ Hok)) as Hsl.
  destruct (conn_WriteAt_spec m b c s gs data (writeOff c) Hwf Hok)
    as (m' & b' & c' & n & err & E & Hwf' & Hr); [lia|lia|].
  unfold conn_Write. rewrite E. go_bind. destruct err as [e|].
  { exists m', b', c', n, (Some e). split_and!; try done; naive_solver. }
  destruct Hr as (-> & s' & gs' & A & -> & Hok' & HD & HA & Harea & _).
  eexists m', b', _, (Z.of_nat (length data)), None. split; [done|]. split; [done|].
  split; [done|]. exists s', gs'.
  assert (HD' : DataLen s' = DataLen s + Z.of_nat (length data))
    by (rewrite HD, Hw; case_decide; lia).
  pose proof (stripe_backed_wf _ _ _ Hwf' (co_backed _ _ _ _ _ Hok')) as Hswf'.
  pose proof (stripe_backed_wf _ _ _ Hwf (co_backed _ _ _ _ _ Hok)) as Hswf.
  split_and!.
  - destruct Hok'. by split.
  - cbn [with_writeOff with_stripe writeOff]. rewrite i64_small; [lia|].
    unfold_layout. lia.
  - done.
  - done.
  - rewrite !(stripe_data_area _ _) by done. rewrite Harea, Hw, HD', <- HA.
    rewrite take_take, Nat.min_l by lia.
    assert (HlA : (Z.to_nat (data_cap s) <= length A)%nat).
    { apply (f_equal length) in HA. rewrite length_take in HA.
      unfold stripe_area in HA. rewrite length_data_bytes in HA. lia. }
    rewrite app_assoc. rewrite take_app_le, take_ge; [done| |];
      rewrite length_app, length_take; lia.
Qed.

(** A write inside or at the end of the data replaces what is there and
    appends the rest. *)
Lemma conn_Write_splices m b c s gs data :
  bus_wf b -> conn_ok m b c s gs -> 0 <= writeOff c <= DataLen s ->
  writeOff c + Z.of_nat (length data) <= 1021 * BlockSize ->
  exists m' b' c' n err, conn_Write mk m b c data = Ret (m', b', c', (n, err)) /\ bus_wf b' /\
    match err with
    | Some _ => m' = m /\ c' = c /\ (forall g, 0 <= g -> used b' g = used b g) /\
        Z.of_nat (length (free_list b)) * BlockSize < writeOff c + Z.of_nat (length data) - data_cap s
    | None => exists s' gs', conn_ok m' b' c' s' (gs ++ gs') /\ took m b s gs m' b' s' gs' /\
        writeOff c' = writeOff c + Z.of_nat (length data) /\ slotID c' = slotID c /\
        readOff c' = readOff c /\ cnDone c' = cnDone c /\
        stripe_data m' s' = splice (stripe_data m s) (Z.to_nat (writeOff c)) data
    end.
Proof using ChunkSource0.
  intros Hwf Hok Hoff Hlim. pose proof (sb_len _ _ _ (co_backed _ _ _ _ _ Hok)) as Hsl.
  destruct (conn_WriteAt_spec m b c s gs data (writeOff c) Hwf Hok ltac:(lia) Hlim)
    as (m' & b' & c' & n & err & E & Hwf' & Hr).
  unfold conn_Write. rewrite E, bind_ret. destruct err as [e|].
  { eexists _, _, _, _, _. split; [reflexivity|]. split; [done|]. naive_solver. }
  destruct Hr as (-> & s' & gs' & A & -> & Hok' & HD & HA & Harea & Htk).
  eexists _, _, _, _, _. split; [reflexivity|]. split; [done|]. exists s', gs'.
  split; [by destruct Hok'|]. split; [done|]. cbn.
  split; [apply i64_small; unfold_layout; lia|]. do 3 (split; [done|]).
  pose proof (stripe_backed_wf _ _ _ Hwf' (co_backed _ _ _ _ _ Hok')) as Hswf'.
  pose proof (stripe_backed_wf _ _ _ Hwf (co_backed _ _ _ _ _ Hok)) as Hswf.
  assert (HlA : (Z.to_nat (data_cap s) <= length A)%nat).
  { apply (f_equal length) in HA. rewrite length_take in HA.
    unfold stripe_area in HA. rewrite length_data_bytes in HA. lia. }
  rewrite !(stripe_data_area _ _) by done. rewrite Harea, <- HA. unfold splice.
  rewrite !take_take, (Nat.min_l (Z.to_nat (DataLen s)) (Z.to_nat (data_cap s))) by lia.
  rewrite !Nat.min_l by lia. rewrite skipn_firstn_comm, !app_assoc.
  rewrite take_app_ge by (rewrite length_app, length_take; case_decide; lia).
  rewrite length_app, length_take. f_equal.
  replace (Z.to_nat (writeOff c + Z.of_nat (length data)))
    with (Z.to_nat (writeOff c) + length data)%nat by lia.
  f_equal. rewrite HD. case_decide; lia.
Qed.

Lemma conn_Writes_append ds : forall m b c s gs,
  bus_wf b -> conn_ok m b c s gs -> writeOff c = DataLen s ->
  DataLen s + Z.of_nat (length (concat ds)) <= 1021 * BlockSize ->
  exists m' b' c' err, conn_Writes mk m b c ds = Ret (m', b', c', err) /\ bus_wf b' /\
    (err = None -> exists s' gs', conn_ok m' b' c' s' (gs ++ gs') /\
       writeOff c' = DataLen s' /\ readOff c' = readOff c /\
       stripe_data m' s' = stripe_data m s ++ concat ds).
Proof using ChunkSource0.
  induction ds as [|d ds IH]; intros m b c s gs Hwf Hok Hw Hlim.
  - exists m, b, c, None. split_and!; [done|done|]. intros _.
    exists s, []. by rewrite !app_nil_r.
  - cbn [concat conn_Writes] in *. rewrite length_app in Hlim.
    destruct (conn_Write_appends m b c s gs d Hwf Hok Hw ltac:(lia))
      as (m1 & b1 & c1 & n & err & E & Hwf1 & Hr). rewrite E. go_bind.
    destruct err as [e|]; [by exists m1, b1, c1, (Some e)|].
    destruct Hr as (-> & s1 & gs1 & Hok1 & Hw1 & Hro & HD1 & Hdata).
    destruct (IH m1 b1 c1 s1 (gs ++ gs1) Hwf1 Hok1 Hw1 ltac:(lia))
      as (m2 & b2 & c2 & err & E2 & Hwf2 & Hr2).
    exists m2, b2, c2, err. split_and!; [done|done|]. intros He.
    destruct (Hr2 He) as (s2 & gs2 & Hok2 & Hw2 & Hro2 & Hdata2).
    exists s2, (gs1 ++ gs2). rewrite app_assoc. split_and!; try done; [congruence|].
    by rewrite Hdata2, Hdata, app_assoc.
Qed.
End conn.

(** A write that fits the blocks there are takes no new ones. *)
Lemma conn_Write_fits mk m b c s gs data :
  bus_wf b -> conn_ok m b c s gs -> writeOff c = DataLen s ->
  DataLen s + Z.of_nat (length data) <= data_cap s ->
  let s' := with_DataLen s (DataLen s + Z.of_nat (length data)) in
  let c' := with_writeOff (with_stripe c s') (DataLen s + Z.of_nat (length data)) in
  exists m', conn_Write mk m b c data = Ret (m', b, c', (Z.of_nat (length data), None)) /\
    conn_ok m' b c' s' gs /\ stripe_data m' s' = stripe_data m s ++ data /\
    mem_frame (in_gs gs) m m'.
Proof.
  intros Hwf Hok Hw Hfit s' c'. pose proof (co_backed _ _ _ _ _ Hok) as Hb.
  pose proof (stripe_backed_wf _ _ _ Hwf Hb) as Hswf. pose proof (sb_len _ _ _ Hb) as Hl.
  pose proof (backed_cap _ _ _ Hb) as Hcap. pose proof (bwf_cap _ (swf_blocks _ Hswf)) as Hbig.
  pose proof (backed_length _ _ _ Hb) as Hlen.
  destruct (WriteAt_effect m s data (DataLen s) Hswf ltac:(lia) ltac:(unfold_layout; lia))
    as (m' & s1 & E & Hs1 & Hswf1 & Har & _ & Hfr).
  assert (Hft : fit s (DataLen s) (Z.of_nat (length data)) = Z.of_nat (length data))
    by (unfold fit; lia).
  rewrite Hft in *. rewrite decide_False in E by lia.
  assert (s1 = s') as -> by (rewrite Hs1; unfold s'; f_equal; case_decide; lia).
  exists m'. split.
  { unfold conn_Write, conn_WriteAt, ensureCapacity, the_stripe.
    rewrite Hw, (co_stripe _ _ _ _ _ Hok), bind_ret, (sb_count _ _ _ Hb).
    rewrite i64_small, decide_True by (unfold data_cap in *; rewrite ?Hlen in *; unfold_layout; lia).
    rewrite bind_ret, (co_stripe _ _ _ _ _ Hok), bind_ret, E, !bind_ret.
    cbn [writeOff with_stripe]. rewrite Hw, i64_small by (unfold_layout; lia). done. }
  split; [|split].
  - split; [done|by apply backed_with_DataLen; [|lia]| |apply Hok|apply Hok].
    eapply WriteAt_published; [exact Hswf| | |apply Hok|exact E]; [lia|unfold_layout; lia].
  - rewrite !stripe_data_area, Har by done. cbn [s' with_DataLen DataLen].
    rewrite (take_ge data) by lia. rewrite app_assoc, take_app_le, take_ge; [done| |];
      rewrite length_app, length_take; unfold stripe_area; rewrite length_data_bytes; lia.
  - eapply mem_frame_mono; [|exact Hfr]. intros a. by eapply in_blocks_gs.
Qed.

(** ** Reading *)
Lemma conn_Read_stripe m c s buf :
  cnStripe c = Some s -> stripe_wf s -> 0 <= readOff c < DataLen s ->
  let n := Z.min (Z.of_nat (length buf)) (DataLen s - readOff c) in
  conn_Read m c buf =
  Ret (with_readOff c (readOff c + n),
       (n, None, take (Z.to_nat n) (drop (Z.to_nat (readOff c)) (stripe_data m s)) ++
                 drop (Z.to_nat n) buf)).
Proof.
  intros Hs Hswf Hr n. unfold conn_Read, conn_ReadAt, the_stripe. rewrite Hs. go_bind.
  rewrite ReadAt_effect by (done || lia). fold n. go_bind.
  pose proof (bwf_cap _ (swf_blocks _ Hswf)). pose proof (swf_len _ Hswf).
  rewrite i64_small by (unfold data_cap in *; unfold_layout; lia).
  rewrite data_bytes_sub by lia. done.
Qed.

Lemma conn_Read_data m b c s gs buf :
  bus_wf b -> conn_ok m b c s gs -> 0 <= readOff c < DataLen s ->
  let n := Z.min (Z.of_nat (length buf)) (DataLen s - readOff c) in
  conn_Read m c buf =
  Ret (with_readOff c (readOff c + n),
       (n, None, take (Z.to_nat n) (drop (Z.to_nat (readOff c)) (stripe_data m s)) ++
                 drop (Z.to_nat n) buf)).
Proof.
  intros Hwf Hok. apply conn_Read_stripe; [apply Hok|].
  by apply (stripe_backed_wf b s gs), Hok.
Qed.

Lemma extend_stripe_nil s : extend_stripe s [] = s.
Proof.
  destruct s. unfold extend_stripe. simpl. by rewrite !app_nil_r, Z.add_0_r.
Qed.

Lemma extend_backed_blocks b s gs gs' d :
  length (Blocks s) = length gs ->
  stripe_backed b (with_DataLen (extend_stripe s (blk_of <$> gs')) d) (gs ++ gs') ->
  stripe_backed b (extend_stripe s (blk_of <$> gs')) (gs ++ gs') \/
  ~ (0 <= DataLen s <= data_cap (extend_stripe s (blk_of <$> gs'))).
Proof.
  intros Hl Hb. destruct (decide (0 <= DataLen s <= data_cap (extend_stripe s (blk_of <$> gs'))));
    [left|by right].
  destruct Hb. by split.
Qed.

(** The connection a [Request] for [n] blocks starts from. *)
Lemma AllocStripe_conn_ok mk `{!ChunkSource mk} m b n c m' b' s :
  bus_wf b -> 0 < n <= 1022 -> AllocStripe mk m b n = Ret (m', b', inr s) ->
  cnStripe c = Some s ->
  bus_wf b' /\ DataLen s = 0 /\ exists gs, conn_ok m' b' c s gs /\ Z.of_nat (length gs) = n.
Proof.
  intros Hwf Hn E Hc.
  destruct (AllocStripe_spec mk m b n Hwf ltac:(lia)) as (m1 & b1 & r & E1 & Hwf1 & Hr).
  rewrite E in E1. injection E1 as <- <- <-.
  destruct Hr as (gs & Hcl & Hl & Hbk & HD & Hsync & Hfr & Hsq).
  split_and!; [done|done|]. exists gs. split; [|done].
  pose proof (length_encode_seq 0 (blk_of <$> gs)) as Hle. rewrite length_fmap, <- Hsq in Hle.
  pose proof max_seq_Z. split; [done|done| |done|lia].
  unfold AllocStripe in E. destruct (AllocBlocks mk b n) as [[b1' [e|blks]]| |];
    [discriminate| |discriminate..].
  cbn [mbind outcome_bind] in E. set (s0 := mkStripe _ _ _ _) in E.
  destruct (UpdateStripeHeader m s0) as [m0| |] eqn:EU; try discriminate.
  cbn [mbind outcome_bind] in E. injection E as -> -> <-.
  eapply UpdateStripeHeader_published; [by eapply stripe_backed_wf| | |lia|apply Hbk|exact EU].
  - by rewrite (backed_length _ _ _ Hbk), (sb_count _ _ _ Hbk).
  - rewrite (sb_count _ _ _ Hbk). lia.
Qed.

(** A refresh takes over what the header describes. *)
Lemma refreshStripe_ok m b c s gs gs' d :
  let s2 := with_DataLen (extend_stripe s (blk_of <$> gs')) d in
  bus_wf b -> cnStripe c = Some s -> stripe_backed b s gs -> stripe_backed b s2 (gs ++ gs') ->
  published m s2 ->
  refreshStripe m b c = Ret (with_stripe c s2, None).
Proof.
  intros s2 Hwf Hc Hb Hb2 (hd & Hhd & Lhd & E). unfold refreshStripe. rewrite Hc.
  assert (Hhd0 : Blocks s !! 0%nat = Some hd).
  { unfold s2 in Hhd. cbn [with_DataLen extend_stripe Blocks] in Hhd.
    rewrite lookup_app_l in Hhd; [done|]. rewrite (backed_length _ _ _ Hb).
    pose proof (sb_nonempty _ _ _ Hb). destruct gs; [done|simpl; lia]. }
  rewrite (go_index_lookup _ 0 hd) by done. go_bind. rewrite E. go_bind.
  change (Sequence s2) with (Sequence (extend_stripe s (blk_of <$> gs'))).
  case_decide as Hd.
  - rewrite (attach_extension b Hwf (hub_getChunk b) s (blk_of <$> gs') gs gs').
    + go_bind. unfold s2. unfold with_DataLen, extend_stripe. cbn [Sequence BlockCount Blocks DataLen].
      by rewrite blk_of_data.
    + destruct (extend_backed_blocks b s gs gs' d (backed_length _ _ _ Hb) Hb2) as [|Hn]; [done|].
      destruct Hn. pose proof (sb_len _ _ _ Hb). unfold data_cap in *.
      cbn [extend_stripe Blocks]. rewrite length_app. unfold_layout. lia.
    + by apply (backed_length _ _ _ Hb).
    + apply Hb.
  - assert (gs' = []) as ->.
    { unfold s2 in Hd. cbn [with_DataLen extend_stripe BlockCount] in Hd.
      rewrite length_fmap in Hd. destruct gs'; [done|simpl in Hd; lia]. }
    unfold s2. by rewrite fmap_nil, extend_stripe_nil.
Qed.

(** ** Theorems *)

(** C19: A connection is a byte stream over a growing stripe.  Any sequence of
    [Write] calls on a fresh connection (up to the 1021 data blocks a header
    can describe) returns, growing the stripe as needed; if none reports an
    allocation error, one [Read] of the total length gives back exactly the
    concatenation of what was written. *)
Theorem conn_stream_roundtrip mk m b c s gs ds buf :
  ChunkSource mk -> bus_wf b -> conn_ok m b c s gs ->
  DataLen s = 0 -> writeOff c = 0 -> readOff c = 0 ->
  0 < Z.of_nat (length (concat ds)) <= 1021 * BlockSize ->
  length buf = length (concat ds) ->
  exists m' b' c' err, conn_Writes mk m b c ds = Ret (m', b', c', err) /\ bus_wf b' /\
    (err = None -> exists c'',
       conn_Read m' c' buf = Ret (c'', (Z.of_nat (length (concat ds)), None, concat ds))).
Proof.
  intros Hmk Hwf Hok HD Hw Hr Hl Hbuf.
  destruct (conn_Writes_append mk ds m b c s gs Hwf Hok)
    as (m' & b' & c' & err & E & Hwf' & Hres); [congruence|lia|].
  exists m', b', c', err. split_and!; [done|done|]. intros He.
  destruct (Hres He) as (s' & gs' & Hok' & Hw' & Hr' & Hdata).
  assert (stripe_data m s = []) as Hnil by (unfold stripe_data; by rewrite HD).
  rewrite Hnil, app_nil_l in Hdata.
  assert (HDs : DataLen s' = Z.of_nat (length (concat ds))).
  { apply (f_equal length) in Hdata. unfold stripe_data in Hdata.
    rewrite length_data_bytes in Hdata.
    pose proof (sb_len _ _ _ (co_backed _ _ _ _ _ Hok')). lia. }
  eexists. rewrite (conn_Read_data m' b' c' s' (gs ++ gs')) by (done || lia).
  rewrite Hr', Hr, Hbuf, HDs, Hdata. rewrite Z.sub_0_r, Z.min_id, Nat2Z.id.
  rewrite drop_0, firstn_all, <- Hbuf, drop_all, app_nil_r. done.
Qed.

Lemma conn_stream_roundtrip_witness :
  exists m b s m' b' c' c'',
    AllocStripe demo_mk ∅ demo_bus 2 = Ret (m, b, inr s) /\
    conn_Writes demo_mk m b (mkConn (Some s) 0 0 0 None) [replicate 4096 1; [7; 8]] =
      Ret (m', b', c', None) /\
    conn_Read m' c' (replicate 4098 0) =
      Ret (c'', (4098, None, replicate 4096 1 ++ [7; 8])).
Proof.
  destruct (AllocStripe demo_mk ∅ demo_bus 2) as [[[m b] [e|s]]| |] eqn:E;
    [vm_compute in E; discriminate E| |vm_compute in E; discriminate E..].
  destruct (AllocStripe_conn_ok demo_mk ∅ demo_bus 2 (mkConn (Some s) 0 0 0 None) m b s
              demo_bus_wf ltac:(lia) E eq_refl) as (Hwf & HD & gs & Hok & Hl).
  destruct (conn_stream_roundtrip demo_mk m b (mkConn (Some s) 0 0 0 None) s gs
    [replicate 4096 1; [7; 8]] (replicate 4098 0) demo_mk_source Hwf Hok HD eq_refl eq_refl)
    as (m' & b' & c' & err & E2 & _ & Hr); [vm_compute; split; [reflexivity|discriminate]
                                           |vm_compute; reflexivity|].
  assert (Hf : (r ← AllocStripe demo_mk ∅ demo_bus 2;
      match r with
      | (m1, b1, inr s1) =>
          w ← conn_Writes demo_mk m1 b1 (mkConn (Some s1) 0 0 0 None)
                [replicate 4096 1; [7; 8]]; Ret (Some w.2)
      | _ => Ret None
      end) = Ret (Some None)) by (vm_compute; reflexivity).
  rewrite E in Hf. cbn [mbind outcome_bind] in Hf. rewrite E2 in Hf.
  cbn [mbind outcome_bind snd] in Hf. injection Hf as ->.
  destruct (Hr eq_refl) as (c'' & Er).
  exists m, b, s, m', b', c', c''. split; [reflexivity|]. split; [exact E2|exact Er].
Defined.

(** After a node has grown the stripe by the blocks [gs'] and set its
    length, and the header says so, [refreshStripe] brings the connection up
    to date: it then holds exactly the stripe the header describes, old
    blocks kept in place and the new ones mapped behind them (and with no
    growth only the length changes). *)
Theorem refreshStripe_syncs m b c s gs gs' d :
  let s2 := with_DataLen (extend_stripe s (blk_of <$> gs')) d in
  bus_wf b -> cnStripe c = Some s -> stripe_backed b s gs -> stripe_backed b s2 (gs ++ gs') ->
  published m s2 ->
  refreshStripe m b c = Ret (with_stripe c s2, None).
Proof. apply refreshStripe_ok. Qed.

Lemma refreshStripe_syncs_witness :
  exists m1 b1 s1 m2 b2 s2,
    AllocStripe demo_mk ∅ demo_bus 3 = Ret (m1, b1, inr s1) /\
    AllocBlocksForStripe demo_mk m1 b1 s1 2 = Ret (m2, b2, s2, None) /\
    refreshStripe m2 b2 (mkConn (Some s1) 0 0 0 None) = Ret (mkConn (Some s2) 0 0 0 None, None).
Proof.
  destruct (AllocStripe demo_mk ∅ demo_bus 3) as [[[m1 b1] [e|s1]]| |] eqn:E;
    [vm_compute in E; discriminate E| |vm_compute in E; discriminate E..].
  destruct (AllocStripe_conn_ok demo_mk ∅ demo_bus 3 (mkConn (Some s1) 0 0 0 None) m1 b1 s1
              demo_bus_wf ltac:(lia) E eq_refl) as (Hwf & HD & gs & Hok & Hl).
  destruct (AllocBlocksForStripe_spec demo_mk m1 b1 s1 gs 2 Hwf (co_backed _ _ _ _ _ Hok)
              ltac:(lia)) as (m2 & b2 & s2 & [e|] & E2 & Hwf2 & Hr).
  { exfalso. vm_compute in E. injection E as <- <- <-. vm_compute in E2. discriminate E2. }
  destruct Hr as (gs' & Hcl & Hl' & Hb2 & _ & _ & HD2 & _ & Hs2 & _).
  exists m1, b1, s1, m2, b2, s2. split; [reflexivity|]. split; [exact E2|].
  assert (Hs2' : s2 = with_DataLen (extend_stripe s1 (blk_of <$> gs')) (DataLen s2))
    by (rewrite Hs2; by destruct s1).
  assert (Hpub : published m2 s2).
  { eapply AllocBlocksForStripe_published; [exact Hwf2|exact E2| |].
    - exists (gs ++ gs'). split; [exact Hb2|]. rewrite length_app. lia.
    - pose proof (length_extend_seq s1 (blk_of <$> gs')) as Hx. rewrite <- Hs2, length_fmap in Hx.
      pose proof (co_seq _ _ _ _ _ Hok). pose proof max_seq_Z. lia. }
  rewrite Hs2' at 1.
  apply (refreshStripe_syncs m2 b2 (mkConn (Some s1) 0 0 0 None) s1 gs gs' (DataLen s2)).
  - exact Hwf2.
  - reflexivity.
  - destruct Hok as [_ [Q1 Q2 Q3 Q4 Q5 Q6 Q7 Q8] _ _ _]. split; try done.
    eapply claimed_mono; eauto using claimed_chunkCount.
  - rewrite <- Hs2'. exact Hb2.
  - rewrite <- Hs2'. exact Hpub.
Defined.
