(* ===== verification/Copy.v ===== *)
(** * Draining a connection

    [WriteTo] of go/hub/conn.go, with what it uses of the standard library:
    [io.LimitReader] and the loop of [io.Copy]. *)
From stdpp Require Import base tactics list numbers option gmap.
From Stdlib Require Import ZArith Lia.
From S2P Require Import Prelude Memory Layout Protocol Stripe Viewer Bus Attach Conn.
#[local] Open Scope Z_scope.

(** ** The writer

    An [io.Writer] (without a [ReadFrom] of its own) is a state and its
    [Write]: the new state, the count and the error. *)
Class Writer (W : Type) : Type := write : W -> list Z -> W * (Z * option goerror).

(** A writer that takes everything; [got] is what it has received. *)
Class Sink (W : Type) `{!Writer W} (got : W -> list Z) : Prop := {
  sink_result : forall w p, (write w p).2 = (Z.of_nat (length p), None);
  sink_got : forall w p, got (write w p).1 = got w ++ p;
}.

(** A [bytes.Buffer]. *)
#[export] Instance buffer_writer : Writer (list Z) :=
  fun w p => (w ++ p, (Z.of_nat (length p), None)).

Section copy.
Context {W : Type} `{!Writer W}.

(** [LimitedReader.Read] over the connection: the connection, what is left of
    the limit, and the result of the read with the caller's buffer. *)
Definition LimitedReader_Read (m : mem) (c : busConn) (N : Z) (p : list Z)
  : outcome (busConn * Z * (Z * option goerror * list Z)) :=
  if decide (N <= 0) then Ret (c, N, (0, Some ErrEOF, p))
  else
    let k := if decide (Z.of_nat (length p) > N) then Z.to_nat N else length p in
    r ← conn_Read m c (take k p);
    let '(c1, (n, err, q)) := r in
    Ret (c1, i64 (N - n), (n, err, q ++ drop k p)).

(** The loop of [io.Copy]. *)
Fixpoint copy_loop (fuel : nat) (m : mem) (w : W) (c : busConn) (N : Z) (buf : list Z)
  (written : Z) : outcome (busConn * W * (Z * option goerror)) :=
  match fuel with
  | O => Diverge
  | S fuel' =>
      r ← LimitedReader_Read m c N buf;
      let '(c1, N1, (nr, er, buf1)) := r in
      let '(w1, written1, stop) :=
        if decide (nr > 0) then
          let '(w1, (nw, ew)) := write w (take (Z.to_nat nr) buf1) in
          let '(nw, ew) :=
            if decide (nw < 0 \/ nr < nw)
            then (0, match ew with None => Some ErrInvalidWrite | Some e => Some e end)
            else (nw, ew) in
          (w1, i64 (written + nw),
           match ew with
           | Some e => Some e
           | None => if decide (nr <> nw) then Some ErrShortWrite else None
           end)
        else (w, written, None) in
      match stop with
      | Some e => Ret (c1, w1, (written1, Some e))
      | None =>
          match er with
          | Some e => Ret (c1, w1, (written1, if decide (e = ErrEOF) then None else Some e))
          | None => copy_loop fuel' m w1 c1 N1 buf1 written1
          end
      end
  end.

(** The buffer [io.Copy] makes for a limited reader of [N] bytes. *)
Definition copy_size (N : Z) : Z :=
  if decide (32768 > N) then if decide (N < 1) then 1 else N else 32768.

Definition WriteTo (fuel : nat) (m : mem) (w : W) (c : busConn)
  : outcome (busConn * W * (Z * option goerror)) :=
  dataLen ← conn_DataLen c;
  copy_loop fuel m w c dataLen (replicate (Z.to_nat (copy_size dataLen)) 0) 0.

(** ** Specification vocabulary *)

(** Rounds that are enough for a given length: one per full buffer, one for
    the rest and one that finds the end. *)
Definition copy_fuel (dataLen : Z) : nat := S (S (Z.to_nat (dataLen / 32768))).

(** ** Lemmas *)
Lemma copy_size_pos N : 1 <= copy_size N <= 32768.
Proof using Type. unfold copy_size. repeat case_decide; lia. Qed.

Lemma copy_size_rounds N : 0 <= N -> N <= (1 + N / 32768) * copy_size N.
Proof using Type.
  intros HN. unfold copy_size. pose proof (Z.div_pos N 32768 HN).
  repeat case_decide; [nia..|]. pose proof (Z.mul_succ_div_gt N 32768). lia.
Qed.

(** One read through the limit, while there is data. *)
Lemma LimitedReader_Read_data m c s N p :
  cnStripe c = Some s -> stripe_wf s -> 0 <= readOff c < DataLen s ->
  DataLen s - readOff c <= N < 4294967296 ->
  let n := Z.min (Z.of_nat (length p)) (DataLen s - readOff c) in
  exists p', length p' = length p /\
    LimitedReader_Read m c N p =
      Ret (with_readOff c (readOff c + n), N - n, (n, None, p')) /\
    take (Z.to_nat n) p' = take (Z.to_nat n) (drop (Z.to_nat (readOff c)) (stripe_data m s)).
Proof using Type.
  intros Hs Hwf Hr HN n. unfold LimitedReader_Read. rewrite decide_False by lia.
  set (k := if decide _ then _ else _).
  assert (Hk : Z.of_nat k = Z.min (Z.of_nat (length p)) N) by (unfold k; case_decide; lia).
  rewrite (conn_Read_stripe m c s (take k p) Hs Hwf Hr). rewrite length_take_le by lia.
  replace (Z.min (Z.of_nat k) (DataLen s - readOff c)) with n by (unfold n; lia). go_bind.
  rewrite i64_small by lia.
  assert (Hd : length (stripe_data m s) = Z.to_nat (DataLen s)) by apply length_data_bytes.
  assert (Hl : length (take (Z.to_nat n) (drop (Z.to_nat (readOff c)) (stripe_data m s)))
               = Z.to_nat n) by (rewrite length_take, length_drop, Hd; unfold n; lia).
  eexists. split; [|split; [reflexivity|]].
  - rewrite !length_app, Hl, !length_drop, length_take. lia.
  - rewrite <- app_assoc, take_app_le by lia. by rewrite take_take, Nat.min_id.
Qed.

Context (got : W -> list Z) `{!Sink W got}.

Lemma write_sink w p : exists w', write w p = (w', (Z.of_nat (length p), None)) /\ got w' = got w ++ p.
Proof using Type*.
  pose proof (sink_result w p). pose proof (sink_got w p).
  destruct (write w p) as [w' r]. cbn [fst snd] in *. subst r. by exists w'.
Qed.

(** At the end of the data the loop stops without an error. *)
Lemma copy_loop_end m s fuel w c N buf written :
  cnStripe c = Some s -> 0 <= readOff c -> DataLen s <= readOff c ->
  copy_loop (S fuel) m w c N buf written = Ret (c, w, (written, None)).
Proof using Type.
  intros Hs Hr Hge. cbn [copy_loop]. unfold LimitedReader_Read. case_decide; [done|].
  unfold conn_Read, conn_ReadAt, the_stripe, ReadAt. rewrite Hs. go_bind.
  rewrite (decide_False (P := readOff c < 0)), (decide_True (P := readOff c >= _)) by lia. done.
Qed.

Lemma copy_loop_drains m s fuel : forall w c N buf written,
  cnStripe c = Some s -> stripe_wf s -> 0 <= readOff c ->
  DataLen s - readOff c <= N < 4294967296 -> (0 < length buf)%nat ->
  DataLen s - readOff c <= Z.of_nat fuel * Z.of_nat (length buf) ->
  0 <= written -> written + Z.max 0 (DataLen s - readOff c) < 4294967296 ->
  exists c' w',
    copy_loop (S fuel) m w c N buf written =
      Ret (c', w', (written + Z.max 0 (DataLen s - readOff c), None)) /\
    got w' = got w ++ drop (Z.to_nat (readOff c)) (stripe_data m s) /\
    c' = with_readOff c (Z.max (readOff c) (DataLen s)).
Proof using Type*.
  induction fuel as [|fuel IH]; intros w c N buf written Hs Hwf Hr HN Hb Hf Hw Hw2;
    (destruct (decide (readOff c < DataLen s)) as [Hlt|Hge]; [|
      rewrite (copy_loop_end m s) by (done || lia); exists c, w;
      rewrite drop_ge by (unfold stripe_data; rewrite length_data_bytes; lia);
      rewrite app_nil_r, !Z.max_l by lia; rewrite Z.add_0_r; split_and!; [done|done|by destruct c]]).
  - lia.
  - remember (S fuel) as fuel1. cbn [copy_loop]. subst fuel1.
    destruct (LimitedReader_Read_data m c s N buf Hs Hwf ltac:(lia) HN) as (p & Hp & -> & Ht).
    set (n := Z.min _ _) in *. go_bind. rewrite decide_True by lia.
    destruct (write_sink w (take (Z.to_nat n) p)) as (w1 & -> & Hg1).
    rewrite length_take, Hp, Nat.min_l by lia. rewrite Z2Nat.id by lia.
    rewrite (decide_False (P := n < 0 \/ n < n)) by lia.
    rewrite (decide_False (P := n <> n)) by lia. rewrite i64_small by lia.
    edestruct (IH w1 (with_readOff c (readOff c + n)) (N - n) p (written + n))
      as (c' & w' & E & Hg & Hc'); try (cbn [readOff with_readOff]; rewrite ?Hp; done || lia).
    cbn [readOff with_readOff] in *. exists c', w'. rewrite E.
    split; [do 3 f_equal; lia|]. split.
    + rewrite Hg, Hg1, Ht, <- app_assoc. f_equal. rewrite Z2Nat.inj_add by lia.
      rewrite <- drop_drop. apply take_drop.
    + rewrite Hc'. unfold with_readOff. cbn. f_equal. lia.
Qed.
End copy.

#[export] Instance buffer_sink : Sink (list Z) id.
Proof. by split. Qed.

(** ** Theorems *)

(** C27: [WriteTo] terminates and drains the connection: within one round per
    32 KiB and two more, a writer that accepts what it is given has received
    exactly the unread data, in order; the count is its length, the error is
    nil and nothing is left to read. *)
Theorem WriteTo_drains {W : Type} `{!Writer W} (got : W -> list Z) `{!Sink W got} m w c s :
  cnStripe c = Some s -> stripe_wf s -> 0 <= readOff c ->
  exists c' w',
    WriteTo (copy_fuel (DataLen s)) m w c =
      Ret (c', w', (Z.max 0 (DataLen s - readOff c), None)) /\
    got w' = got w ++ drop (Z.to_nat (readOff c)) (stripe_data m s) /\
    c' = with_readOff c (Z.max (readOff c) (DataLen s)).
Proof.
  intros Hs Hwf Hr. unfold WriteTo, conn_DataLen, the_stripe. rewrite Hs. go_bind.
  pose proof (copy_size_pos (DataLen s)). pose proof (swf_len _ Hwf) as Hl.
  pose proof (copy_size_rounds (DataLen s) ltac:(lia)).
  pose proof (Z.div_pos (DataLen s) 32768 ltac:(lia)).
  pose proof (bwf_cap _ (swf_blocks _ Hwf)). unfold data_cap in Hl.
  assert (DataLen s < 4294967296) by (unfold_layout; lia).
  destruct (copy_loop_drains got m s (S (Z.to_nat (DataLen s / 32768))) w c (DataLen s)
    (replicate (Z.to_nat (copy_size (DataLen s))) 0) 0) as (c' & w' & E & Hr');
    rewrite ?length_replicate; try (done || lia).
  exists c', w'. unfold copy_fuel. by rewrite E.
Qed.

Lemma WriteTo_drains_witness :
  exists c' w',
    WriteTo 2 (store_bytes ∅ 8192 [7; 8; 9]) [1] (mkConn (Some demo_stripe) 1 0 0 None) =
      Ret (c', w', (9, None)) /\
    w' = [1] ++ [8; 9; 0; 0; 0; 0; 0; 0; 0] /\ readOff c' = 10.
Proof.
  destruct (WriteTo_drains id (store_bytes ∅ 8192 [7; 8; 9]) [1]
              (mkConn (Some demo_stripe) 1 0 0 None) demo_stripe eq_refl demo_stripe_wf)
    as (c' & w' & E & Hw & Hc); [cbn; lia|].
  exists c', w'. split; [exact E|]. split; [|by rewrite Hc].
  change (id w') with w' in Hw. rewrite Hw. vm_compute. reflexivity.
Defined.
