(* ===== verification/Message.v ===== *)
(** * Messages of the control socket and the node's handshake

    go/sync/message.go, the message types of internal/netutil, and the
    handshake of go/node/node.go.  The socket and the system calls are
    parameters: what was received, and what mapping a descriptor gives. *)
From stdpp Require Import base tactics list numbers option gmap.
From Stdlib Require Import ZArith Lia.
From S2P Require Import Prelude Memory Layout Protocol Stripe Bus Control Attach.
#[local] Open Scope Z_scope.

(** ** Messages *)
Definition MsgHandshake : Z := 1.
Definition MsgNewChunk : Z := 2.
Definition MsgHeartbeat : Z := 3.
Definition MsgRelease : Z := 4.

Definition CONN_HEADER : list Z := [77; 77; 70; 71].   (* "MMFG" *)
Definition CONN_VERSION : Z := 2.

Definition HandshakeMessage (nodeID : Z) : list Z :=
  CONN_HEADER ++ [CONN_VERSION; u8 MsgHandshake; u8 nodeID].
Definition NewChunkMessage : list Z := [u8 MsgNewChunk].
Definition HeartbeatMessage : list Z := [u8 MsgHeartbeat].
Definition ReleaseMessage : list Z := [u8 MsgRelease].

(** [IsMMFG], given what the peek of at most 4 bytes returned: the bytes, or
    an error. *)
Definition IsMMFG (peeked : goerror + list Z) : bool * option goerror :=
  match peeked with
  | inl e => (false, Some e)
  | inr buf =>
      if decide (Z.of_nat (length buf) < Z.of_nat (length CONN_HEADER)) then (false, None)
      else (bool_decide (buf = CONN_HEADER), None)
  end.

(** ** Chunks

    [mmap fd] is the mapping the system gives for a descriptor. *)
Section system.
Context (mmap : Z -> option slice).

Definition AttachChunk (fd : Z) : goerror + Chunk :=
  match mmap fd with
  | None => inl ErrSys
  | Some data => inr (mkChunk data fd)
  end.

(** [NewChunk]: [memfd] is the result of [MemfdCreate], [trunc] whether
    [Ftruncate] succeeded.  The second component lists the descriptors
    closed again. *)
Definition NewChunk (memfd : option Z) (trunc : bool) : (goerror + Chunk) * list Z :=
  match memfd with
  | None => (inl ErrSys, [])
  | Some fdNum =>
      if trunc then
        match AttachChunk fdNum with
        | inl e => (inl e, [fdNum])
        | inr chunk => (inr chunk, [])
        end
      else (inl ErrSys, [fdNum])
  end.

(** ** Handshake *)
Record nodeSession : Type := mkSession {
  NodeID : Z;
  NodeEv : Z;
  HubEv : Z;
  ControlStripe : Stripe;
  Chunks : list Chunk;
}.

(** The chunks mapped for the descriptors after the first two; stops at the
    first failure, with what has been mapped so far. *)
Fixpoint attach_fds (fds : list Z) (acc : list Chunk) : option goerror * list Chunk :=
  match fds with
  | [] => (None, acc)
  | fd :: fds' =>
      match AttachChunk fd with
      | inl e => (Some e, acc)
      | inr chunk => attach_fds fds' (acc ++ [mkChunk (CData chunk) (-1)])
      end
  end.

Fixpoint control_blocks (chunk : Chunk) (js : list Z) : outcome (list slice) :=
  match js with
  | [] => Ret []
  | j :: js' =>
      blk ← block_at chunk j;
      rest ← control_blocks chunk js';
      Ret (blk :: rest)
  end.

(** Result of [handshake]: the session or the error, the descriptors closed,
    and the mappings undone. *)
Definition hs_result : Type := (goerror + nodeSession) * list Z * list slice.

(** The checks on the 7 header bytes. *)
Definition check_header (n : Z) (header : list Z) : goerror + Z :=
  if decide (n <> 7) then inl ErrShortHeader
  else if decide (take 4 header <> CONN_HEADER) then inl ErrBadHeader
  else if decide (header !! 4%nat <> Some CONN_VERSION) then inl ErrVersion
  else
    let nodeID := default 0 (header !! 6%nat) in
    if decide (nodeID <= 0 \/ nodeID >= MaxNodes) then inl ErrNodeID
    else inr nodeID.

(** [recv] is what [ReceiveMsgWithFDs] returned: the count, the filled
    7-byte buffer and the descriptors.  The deferred functions close every
    descriptor on an error, and only those of the chunks on success. *)
Definition handshake (recv : option (Z * list Z * list Z)) : outcome hs_result :=
  match recv with
  | None => Ret (inl ErrSys, [], [])
  | Some (n, header, fds) =>
      match check_header n header with
      | inl e => Ret (inl e, fds, [])
      | inr nodeID =>
          match fds with
          | nodeEv :: hubEv :: ((_ :: _) as chunkFds) =>
              match attach_fds chunkFds [] with
              | (Some e, cs) => Ret (inl e, fds, CData <$> cs)
              | (None, cs) =>
                  let blkCnt := ControlStripeSize / BlockSize in
                  first ← go_index cs 0;
                  blks ← control_blocks first (seqZ 0 blkCnt);
                  Ret (inr (mkSession nodeID nodeEv hubEv
                              (mkStripe [] blkCnt blks 0) cs), chunkFds, [])
              end
          | _ => Ret (inl ErrFds, fds, [])
          end
      end
  end.
End system.

(** ** Lemmas *)
Section handshakes.
Context (mmap : Z -> option slice).

Lemma attach_fds_all fds ds : forall acc,
  Forall2 (fun fd d => mmap fd = Some d) fds ds ->
  attach_fds mmap fds acc = (None, acc ++ ((fun d => mkChunk d (-1)) <$> ds)).
Proof using Type.
  intros acc H. revert acc. induction H as [|fd d fds ds Hfd _ IH]; intros acc; cbn [attach_fds].
  - by rewrite app_nil_r.
  - unfold AttachChunk. rewrite Hfd. cbn [CData]. by rewrite IH, <- app_assoc.
Qed.

Lemma control_blocks_ok c js :
  CData c = Slice 0 ChunkSize -> Forall (fun j => 0 <= j < BlocksPerChunk) js ->
  control_blocks c js = Ret ((fun j => Slice (j * BlockSize) BlockSize) <$> js).
Proof using Type.
  intros Hc. induction 1 as [|j js Hj Hjs IH]; cbn [control_blocks]; [done|].
  unfold block_at at 1, slice_sub. rewrite Hc. cbn [sl_base sl_len].
  rewrite decide_True by (unfold_layout; lia). go_bind. rewrite IH. go_bind.
  rewrite fmap_cons. do 3 f_equal; lia.
Qed.

Lemma check_header_ok id :
  1 <= id < MaxNodes -> check_header 7 (HandshakeMessage id) = inr id.
Proof using Type.
  intros Hid. unfold check_header, HandshakeMessage. rewrite (u8_small id) by (unfold_layout; lia).
  do 3 rewrite decide_False by (intros Hn; by apply Hn).
  change (default 0 _) with id. by rewrite decide_False by (unfold_layout; lia).
Qed.

(** A good message whose descriptors can all be mapped, the first of them at
    the start of the store. *)
Lemma handshake_ok id nodeEv hubEv fds ds :
  1 <= id < MaxNodes -> Forall2 (fun fd d => mmap fd = Some d) fds (Slice 0 ChunkSize :: ds) ->
  handshake mmap (Some (7, HandshakeMessage id, nodeEv :: hubEv :: fds)) =
  Ret (inr (mkSession id nodeEv hubEv (mkStripe [] 256 (first_blocks 256) 0)
              ((fun d => mkChunk d (-1)) <$> Slice 0 ChunkSize :: ds)), fds, []).
Proof using Type.
  intros Hid Hall. unfold handshake. rewrite check_header_ok by done.
  destruct fds as [|f0 fs]; [by inversion Hall|].
  rewrite (attach_fds_all _ _ [] Hall), app_nil_l, fmap_cons.
  set (c0 := mkChunk (Slice 0 ChunkSize) (-1)).
  change (go_index (c0 :: _) 0) with (Ret c0). go_bind.
  rewrite control_blocks_ok; [go_bind; done|done|].
  apply Forall_lookup. intros i j Hj. apply lookup_seqZ in Hj as [-> Hj].
  change (ControlStripeSize / BlockSize) with 256 in Hj. unfold_layout. lia.
Qed.
End handshakes.

(** The hub's control stripe: the first allocation on a new bus takes the
    first 256 blocks. *)
Lemma control_stripe_blocks mk m fd :
  exists m' b' s,
    AllocStripe mk m (mkBus 0 1 (replicate (Z.to_nat (BlocksPerChunk / 32)) 0)
                        [mkChunk (Slice 0 ChunkSize) fd] []) (ControlStripeSize / BlockSize) =
      Ret (m', b', inr s) /\
    Blocks s = first_blocks 256 /\ DataLen s = 0.
Proof.
  unfold AllocStripe.
  set (r := AllocBlocks _ _ _).
  assert (Hr : exists b', r = Ret (b', inr (blk_of <$> seqZ 0 256)))
    by (eexists; vm_compute; reflexivity).
  destruct Hr as (b' & ->). go_bind.
  set (s := mkStripe _ _ _ _).
  assert (Hb : Blocks s = first_blocks 256) by (vm_compute; reflexivity).
  destruct (UpdateStripeHeader_ok m s) as (m' & hd & -> & _).
  { split; [rewrite Hb; apply first_blocks_wf; lia|].
    unfold data_cap. rewrite Hb, length_first_blocks. cbn [s DataLen]. unfold_layout. lia. }
  go_bind. by exists m', b', s.
Qed.

(** ** Theorems *)

(** The handshake agrees at both ends.  From the message and descriptors
    the hub sends, a node whose mappings succeed gets the id the hub chose,
    its two eventfds and all chunks in order, and keeps open exactly the
    eventfds.  Its control stripe lies on the first 256 blocks of chunk 0,
    the very blocks the hub's own control stripe has when the hub allocates
    it from a new bus, so both read and write the same queues and slots. *)
Theorem handshake_agrees mmap mk m fd id nodeEv hubEv chunkFds :
  1 <= id < MaxNodes -> chunkFds <> [] ->
  (forall k f, chunkFds !! k = Some f ->
     mmap f = Some (Slice (Z.of_nat k * ChunkSize) ChunkSize)) ->
  exists cs m' b' hubStripe,
    handshake mmap (Some (7, HandshakeMessage id, nodeEv :: hubEv :: chunkFds)) =
      Ret (inr (mkSession id nodeEv hubEv (mkStripe [] 256 (first_blocks 256) 0) cs),
           chunkFds, []) /\
    length cs = length chunkFds /\
    (forall k c, cs !! k = Some c -> CData c = Slice (Z.of_nat k * ChunkSize) ChunkSize) /\
    (b ← match NewBus (Some (mkChunk (Slice 0 ChunkSize) fd)) true with
         | inr b => Ret b | inl _ => Panic end;
     AllocStripe mk m b (ControlStripeSize / BlockSize)) = Ret (m', b', inr hubStripe) /\
    Blocks hubStripe = first_blocks 256 /\
    forall f m1, fread m1 (NewControl hubStripe) f =
                 fread m1 (NewControl (mkStripe [] 256 (first_blocks 256) 0)) f.
Proof.
  intros Hid Hne Hmap.
  destruct chunkFds as [|f0 fs]; [by destruct Hne|].
  set (ds := (fun k => Slice (k * ChunkSize) ChunkSize) <$> seqZ 1 (Z.of_nat (length fs))).
  assert (Hall : Forall2 (fun fd d => mmap fd = Some d) (f0 :: fs) (Slice 0 ChunkSize :: ds)).
  { constructor; [by rewrite (Hmap 0%nat f0 eq_refl)|].
    apply Forall2_same_length_lookup_2; [unfold ds; rewrite length_fmap, length_seqZ; lia|].
    intros i f d Hf Hd. apply list_lookup_fmap_Some in Hd as (k & -> & Hk).
    apply lookup_seqZ in Hk as [-> _]. rewrite (Hmap (S i) f Hf). do 2 f_equal. lia. }
  destruct (control_stripe_blocks mk m fd) as (m' & b' & s & Ea & Hb & HD).
  eexists _, m', b', s. split_and!.
  - by apply handshake_ok.
  - cbn. unfold ds. rewrite !length_fmap, length_seqZ. lia.
  - intros [|k] c Hk; [by injection Hk as <-|]. cbn in Hk.
    apply list_lookup_fmap_Some in Hk as (d & -> & Hk).
    apply list_lookup_fmap_Some in Hk as (i & -> & Hk). apply lookup_seqZ in Hk as [-> _].
    cbn [CData]. f_equal. lia.
  - exact Ea.
  - exact Hb.
  - intros f m1. unfold fread, field_addr, NewControl, GetPointer. cbn [cstripe Blocks].
    by rewrite Hb.
Qed.

Lemma handshake_agrees_witness :
  exists cs m' b' hubStripe,
    handshake (fun fd => Some (Slice ((fd - 12) * ChunkSize) ChunkSize))
      (Some (7, HandshakeMessage 5, [10; 11; 12; 13])) =
      Ret (inr (mkSession 5 10 11 (mkStripe [] 256 (first_blocks 256) 0) cs), [12; 13], []) /\
    length cs = 2%nat /\
    (forall k c, cs !! k = Some c -> CData c = Slice (Z.of_nat k * ChunkSize) ChunkSize) /\
    (b ← match NewBus (Some (mkChunk (Slice 0 ChunkSize) 12)) true with
         | inr b => Ret b | inl _ => Panic end;
     AllocStripe demo_mk ∅ b (ControlStripeSize / BlockSize)) = Ret (m', b', inr hubStripe) /\
    Blocks hubStripe = first_blocks 256 /\
    forall f m1, fread m1 (NewControl hubStripe) f =
                 fread m1 (NewControl (mkStripe [] 256 (first_blocks 256) 0)) f.
Proof.
  apply (handshake_agrees (fun fd => Some (Slice ((fd - 12) * ChunkSize) ChunkSize))
           demo_mk ∅ 12 5 10 11 [12; 13]).
  - unfold_layout. lia.
  - discriminate.
  - intros [|[|k]] f Hf; simpl in Hf; try discriminate; injection Hf as <-; reflexivity.
Defined.
