(* ===== verification/Node.v ===== *)
(** * The node

    go/node/node.go: the session state of a node, the life of one slot
    (open the stripe, run the handler, answer the hub), the connection the
    handler works on, and the dispatch of the hub's commands.  The handler is
    a parameter, and so is the hub's answer to an expansion request, which
    arrives from another process. *)
From stdpp Require Import base tactics list numbers option gmap.
From Stdlib Require Import ZArith Lia.
From S2P Require Import Prelude Memory Layout Protocol Stripe Viewer Bus Control Attach Message.
#[local] Open Scope Z_scope.

(** [nwaiters] are the slots with a handler waiting for an expansion. *)
Record Node : Type := mkNode {
  nodeID : Z;
  nctrl : Control;
  nodeEv : Z;
  hubEv : Z;
  nchunks : list Chunk;
  nwaiters : gset Z;
}.

Definition with_waiters (n : Node) (w : gset Z) : Node :=
  mkNode (nodeID n) (nctrl n) (nodeEv n) (hubEv n) (nchunks n) w.
Definition with_chunks (n : Node) (cs : list Chunk) : Node :=
  mkNode (nodeID n) (nctrl n) (nodeEv n) (hubEv n) cs (nwaiters n).

Record nodeConn : Type := mkNConn {
  stripe : Stripe;
  nreadOff : Z;
  nwriteOff : Z;
  nslotID : Z;
  failed : bool;
}.

Definition set_stripe (c : nodeConn) (s : Stripe) : nodeConn :=
  mkNConn s (nreadOff c) (nwriteOff c) (nslotID c) (failed c).
Definition set_readOff (c : nodeConn) (off : Z) : nodeConn :=
  mkNConn (stripe c) off (nwriteOff c) (nslotID c) (failed c).
Definition set_writeOff (c : nodeConn) (off : Z) : nodeConn :=
  mkNConn (stripe c) (nreadOff c) off (nslotID c) (failed c).
Definition set_failed (c : nodeConn) : nodeConn :=
  mkNConn (stripe c) (nreadOff c) (nwriteOff c) (nslotID c) true.

(** ** Session *)

(** An [Eventfd] is its descriptor, -1 once closed. *)
Definition AttachEventfd (fd : Z) : Z := fd.

Definition loadSession (n : Node) (s : nodeSession) : Node :=
  mkNode (NodeID s) (NewControl (ControlStripe s)) (AttachEventfd (NodeEv s))
    (AttachEventfd (HubEv s)) (Chunks s)
    (nwaiters n).

(** One message of the hub: [recv] is its type byte and descriptors, [None] a
    receive error.  Returns the error, the descriptors closed and the
    mappings undone. *)
Definition handleMessage (mmap : Z -> option slice) (n : Node)
  (recv : option (Z * list Z)) : Node * option goerror * list Z * list slice :=
  match recv with
  | None => (n, Some ErrSys, [], [])
  | Some (msgType, fds) =>
      if decide (msgType = MsgNewChunk) then
        match attach_fds mmap fds [] with
        | (Some e, cs) => (n, Some e, fds, CData <$> cs)
        | (None, cs) => (with_chunks n (nchunks n ++ cs), None, fds, [])
        end
      else (n, None, fds, [])
  end.

(** Waits until the chunk has been announced; on a fixed list of chunks the
    wait does not end. *)
Definition getChunk (cs : list Chunk) (cid : Z) : outcome Chunk :=
  let realCID := go_not cid in
  if decide (realCID < Z.of_nat (length cs)) then go_index cs realCID else Diverge.

(** ** Processing a slot *)

(** The part of [processSlot] before the handler. *)
Definition open_stripe (m : mem) (n : Node) (slot : Z) : outcome Stripe :=
  h ← GetStripeHeader m (nctrl n) slot;
  let '(cid, off) := h in
  headerChunk ← getChunk (nchunks n) cid;
  headerBlk ← block_at headerChunk off;
  d ← DecodeHeader m headerBlk;
  let '(dataLen, blkCnt, seq) := d in
  blks ← attach_blocks (getChunk (nchunks n)) cid 0 0 seq;
  Ret (mkStripe seq blkCnt blks dataLen).

(** Retries for ever on a full queue; then rings the hub's eventfd. *)
Fixpoint pushResponse (fuel : nat) (m : mem) (c : Control) (slot : Z) : outcome mem :=
  match fuel with
  | O => Diverge
  | S fuel' =>
      r ← Push m c (GetNodeReqQueueOffset 0) slot CMD_PROCESS;
      if r.2 : bool then Ret r.1 else pushResponse fuel' r.1 c slot
  end.

(** A handler's run: the memory and connection it leaves, and whether it
    panicked. *)
Definition Handler : Type := mem -> nodeConn -> mem * nodeConn * bool.

Definition finish_slot (fuel : nat) (m : mem) (n : Node) (slot : Z) : outcome (mem * bool) :=
  m1 ← SetStripeStatus m (nctrl n) slot StripeStatusDone;
  m2 ← pushResponse fuel m1 (nctrl n) slot;
  Ret (m2, true).

(** The boolean says whether the hub was notified.  A panic, in opening the
    stripe or in the handler, is recovered and answered like a success. *)
Definition processSlot (fuel : nat) (handler : option Handler) (m : mem) (n : Node) (slot : Z)
  : outcome (mem * bool) :=
  match open_stripe m n slot with
  | Diverge => Diverge
  | Panic => finish_slot fuel m n slot
  | Ret s =>
      let conn := mkNConn s 0 0 slot false in
      let '(m1, conn1, panicked) :=
        match handler with Some h => h m conn | None => (m, conn, false) end in
      if panicked : bool then finish_slot fuel m1 n slot
      else if failed conn1 then Ret (m1, false)
      else finish_slot fuel m1 n slot
  end.

(** ** The handler's connection *)
Section connection.
(** The hub's side while a handler waits: the memory it leaves and its
    answer; [None] if there is none. *)
Context (hub : mem -> Z -> mem * option bool).

(** The event loop removes the waiter when it delivers the answer. *)
Definition RequestExpand (m : mem) (n : Node) (c : nodeConn)
  : outcome (mem * Node * nodeConn * option goerror) :=
  let n1 := with_waiters n ({[nslotID c]} ∪ nwaiters n) in
  r ← Push m (nctrl n) OFF_RESP_QUEUE (nslotID c) CMD_REQUEST_EXPAND;
  let '(m1, ok) := r in
  if ok : bool then
    match hub m1 (nslotID c) with
    | (m2, Some true) => Ret (m2, with_waiters n1 (nwaiters n1 ∖ {[nslotID c]}), c, None)
    | (m2, Some false) =>
        Ret (m2, with_waiters n1 (nwaiters n1 ∖ {[nslotID c]}), set_failed c, Some ErrExpand)
    | (_, None) => Diverge
    end
  else Ret (m1, n1, c, Some ErrPushExpand).

(** Takes over the new blocks and sequence; the block count stays. *)
Definition OnExpandComplete (m : mem) (n : Node) (c : nodeConn) : outcome nodeConn :=
  h ← GetStripeHeader m (nctrl n) (nslotID c);
  let '(cid, off) := h in
  headerChunk ← getChunk (nchunks n) cid;
  headerData ← block_at headerChunk off;
  d ← DecodeHeader m headerData;
  let newSequence := d.2 in
  let s := stripe c in
  added ← attach_blocks (getChunk (nchunks n)) 0 0 (Z.of_nat (length (Sequence s))) newSequence;
  Ret (set_stripe c (mkStripe newSequence (BlockCount s) (Blocks s ++ added) (DataLen s))).

(** The loop of [WriteAt] and [WriteByte]. *)
Fixpoint expand_loop (fuel : nat) (m : mem) (n : Node) (c : nodeConn) (needCap : Z)
  : outcome (mem * Node * nodeConn * option goerror) :=
  let totalCap := BlockCount (stripe c) * BlockSize in
  let userCap := totalCap - BlockSize in
  if decide (needCap > userCap) then
    match fuel with
    | O => Diverge
    | S fuel' =>
        r ← RequestExpand m n c;
        let '(m1, n1, c1, err) := r in
        match err with
        | Some e => Ret (m1, n1, c1, Some e)
        | None =>
            c2 ← OnExpandComplete m1 n1 c1;
            expand_loop fuel' m1 n1 c2 needCap
        end
    end
  else Ret (m, n, c, None).

Definition node_WriteAt (fuel : nat) (m : mem) (n : Node) (c : nodeConn) (p : list Z) (off : Z)
  : outcome (mem * Node * nodeConn * (Z * option goerror)) :=
  let needCap := i64 (off + Z.of_nat (length p)) in
  if decide (needCap > StripeDataSizeLimit) then Ret (m, n, c, (0, Some ErrLimit))
  else
    r ← expand_loop fuel m n c needCap;
    let '(m1, n1, c1, err) := r in
    match err with
    | Some e => Ret (m1, n1, c1, (0, Some e))
    | None =>
        w ← WriteAt m1 (stripe c1) p off;
        let '(m2, s2, res) := w in
        Ret (m2, n1, set_stripe c1 s2, res)
    end.

Definition node_Write (fuel : nat) (m : mem) (n : Node) (c : nodeConn) (p : list Z)
  : outcome (mem * Node * nodeConn * (Z * option goerror)) :=
  r ← node_WriteAt fuel m n c p (nwriteOff c);
  let '(m1, n1, c1, (k, err)) := r in
  match err with
  | Some e => Ret (m1, n1, c1, (0, Some e))
  | None => Ret (m1, n1, set_writeOff c1 (i64 (nwriteOff c1 + k)), (k, None))
  end.

(** [WriteByte] leaves [writeOff] where it is. *)
Definition node_WriteByte (fuel : nat) (m : mem) (n : Node) (c : nodeConn) (v : Z)
  : outcome (mem * Node * nodeConn * option goerror) :=
  let needCap := i64 (nwriteOff c + 1) in
  if decide (needCap > StripeDataSizeLimit) then Ret (m, n, c, Some ErrLimit)
  else
    r ← expand_loop fuel m n c needCap;
    let '(m1, n1, c1, err) := r in
    match err with
    | Some e => Ret (m1, n1, c1, Some e)
    | None =>
        w ← WriteByteAt m1 (stripe c1) v (nwriteOff c1);
        let '(m2, s2, e2) := w in
        Ret (m2, n1, set_stripe c1 s2, e2)
    end.
End connection.

Definition node_DataLen (c : nodeConn) : Z := DataLen (stripe c).

Definition node_View (m : mem) (c : nodeConn) (offset len : Z)
  (call : mem -> Viewer -> outcome (mem * option goerror))
  : outcome (mem * option goerror) :=
  View m (stripe c) offset len call.

Definition node_ReadByte (m : mem) (c : nodeConn) : outcome (nodeConn * (Z * option goerror)) :=
  r ← ReadByteAt m (stripe c) (nreadOff c);
  let '(v, err) := r in
  match err with
  | None => Ret (set_readOff c (i64 (nreadOff c + 1)), (v, None))
  | Some e => Ret (c, (v, Some e))
  end.

Definition node_ReadAt (m : mem) (c : nodeConn) (p : list Z) (off : Z)
  : outcome (Z * option goerror * list Z) :=
  ReadAt m (stripe c) p off.

Definition node_Read (m : mem) (c : nodeConn) (p : list Z)
  : outcome (nodeConn * (Z * option goerror * list Z)) :=
  r ← ReadAt m (stripe c) p (nreadOff c);
  let '(k, err, buf) := r in
  match err with
  | Some e => Ret (c, (k, Some e, buf))
  | None => Ret (set_readOff c (i64 (nreadOff c + k)), (k, None, buf))
  end.

(** ** Dispatch *)

(** What the event loop does with one popped command, besides the change of
    state: start a goroutine for the slot, or answer a waiting handler. *)
Inductive action : Type :=
| Spawn (slot : Z)
| Answer (slot : Z) (ok : bool)
| Nothing.

Definition dispatch (m : mem) (n : Node) (slot cmd : Z) : outcome (mem * Node * action) :=
  if decide (cmd = CMD_PROCESS) then Ret (m, n, Spawn slot)
  else if decide (cmd = CMD_RELEASE) then
    m1 ← FreeSlot m (nctrl n) slot; Ret (m1, n, Nothing)
  else if decide (cmd = CMD_EXPAND_READY \/ cmd = CMD_EXPAND_ERROR) then
    if decide (slot ∈ nwaiters n)
    then Ret (m, with_waiters n (nwaiters n ∖ {[slot]}),
              Answer slot (bool_decide (cmd = CMD_EXPAND_READY)))
    else Ret (m, n, Nothing)
  else Ret (m, n, Nothing).

(** The inner loop of [StartEventLoop]: pop until the queue is empty. *)
Fixpoint drain_commands (fuel : nat) (m : mem) (n : Node) : outcome (mem * Node * list action) :=
  match fuel with
  | O => Diverge
  | S fuel' =>
      r ← Pop 1 m (nctrl n) (GetNodeReqQueueOffset (nodeID n));
      let '(m1, (slot, cmd, ok)) := r in
      if ok : bool then
        d ← dispatch m1 n slot cmd;
        let '(m2, n2, a) := d in
        rest ← drain_commands fuel' m2 n2;
        let '(m3, n3, l) := rest in
        Ret (m3, n3, a :: l)
      else Ret (m1, n, [])
  end.

(** ** Specification vocabulary *)

(** The node has mapped every chunk of the bus, in order. *)
Definition chunks_mapped (b : Bus) (cs : list Chunk) : Prop :=
  forall k, 0 <= k < chunkCount b ->
    exists c, cs !! Z.to_nat k = Some c /\ CData c = Slice (k * ChunkSize) ChunkSize.

(** ** Lemmas *)
Lemma node_chunk_view b cs : bus_wf b -> chunks_mapped b cs -> ChunkView b (getChunk cs).
Proof.
  intros Hwf Hcs g Hm. pose proof (managed_small _ _ Hwf Hm) as Hs. unfold managed in Hm.
  assert (Hid : go_not (ParseBlockAddress g).1 = g / 1024).
  { unfold ParseBlockAddress. cbn [fst]. rewrite go_not_invol. unfold_layout.
    apply i16_small. Z.div_mod_to_equations. lia. }
  unfold getChunk. rewrite Hid.
  destruct (Hcs (g / 1024)) as (c & Hc & Hd); [unfold_layout; Z.div_mod_to_equations; lia|].
  pose proof (lookup_lt_Some _ _ _ Hc) as Hlt. exists c. split; [|done].
  rewrite decide_True by (Z.div_mod_to_equations; lia).
  apply go_index_lookup; [Z.div_mod_to_equations; lia|done].
Qed.

Lemma open_stripe_ok b m n slot s gs :
  bus_wf b -> chunks_mapped b (nchunks n) -> stripe_backed b s gs -> published m s ->
  registered m (nctrl n) slot s -> open_stripe m n slot = Ret s.
Proof.
  intros Hwf Hcs Hb (hd & Hhd & Lhd & E) (cid & off & rest & Hs & Hoff & Hg).
  pose proof (node_chunk_view b _ Hwf Hcs) as Hv.
  destruct (locate_header b Hwf (getChunk (nchunks n)) s gs cid off rest hd Hb Hs Hoff Hhd)
    as (ch & Hch & Hblk).
  unfold open_stripe. rewrite Hg. go_bind. rewrite Hch. go_bind. rewrite Hblk. go_bind.
  rewrite E. go_bind.
  rewrite (attach_stripe b Hwf (getChunk (nchunks n)) s gs cid 0);
    [|done|right; by rewrite Hs|lia].
  go_bind. by destruct s.
Qed.

(** Registry writes do not disturb a queue. *)
Lemma status_keeps_queue m c slot v q head l :
  ctrl_wf c -> 1 <= slot <= MaxTotalSlots -> 0 <= q < MaxNodes ->
  queue_repr m c q head l -> queue_repr (fwrite m c (SStatus slot) v) c q head l.
Proof.
  intros Hwf Hslot Hq Hr. eapply queue_repr_ext; [done| |exact Hr].
  intros f Hf Hqf. apply (fread_fwrite_other _ Hwf); [done|done|]. by intros <-.
Qed.

Lemma pushResponse_ok m c slot head l :
  ctrl_wf c -> 1 <= slot <= MaxTotalSlots ->
  queue_repr m c 0 head l -> Z.of_nat (length l) < QueueSize - 1 ->
  head + Z.of_nat (length l) + 1 < 4294967296 ->
  exists m', pushResponse 1 m c slot = Ret m' /\
    queue_repr m' c 0 head (l ++ [(slot, CMD_PROCESS)]) /\
    mem_frame (touched c (queue_field 0)) m m'.
Proof.
  intros Hwf Hslot Hr Hroom Hw.
  destruct (Push_room c Hwf 0 ltac:(unfold_layout; lia) m head l slot CMD_PROCESS)
    as (m' & E & Hr' & Hfr); [done|done|split; unfold CMD_PROCESS; unfold_layout; lia|done|].
  exists m'. cbn [pushResponse]. rewrite E. done.
Qed.

Lemma finish_slot_ok m n slot head l :
  ctrl_wf (nctrl n) -> 1 <= slot <= MaxTotalSlots ->
  queue_repr m (nctrl n) 0 head l -> Z.of_nat (length l) < QueueSize - 1 ->
  head + Z.of_nat (length l) + 1 < 4294967296 ->
  exists m', finish_slot 1 m n slot = Ret (m', true) /\
    GetStripeStatus m' (nctrl n) slot = Ret StripeStatusDone /\
    queue_repr m' (nctrl n) 0 head (l ++ [(slot, CMD_PROCESS)]) /\
    mem_frame (touched (nctrl n) (fun f => f = SStatus slot \/ queue_field 0 f)) m m'.
Proof.
  intros Hwf Hslot Hr Hroom Hw.
  pose proof (fwrite_frame (nctrl n) (fun f => f = SStatus slot \/ queue_field 0 f) m (SStatus slot)
    StripeStatusDone Hslot (or_introl eq_refl)) as Hf1.
  pose proof (status_keeps_queue m (nctrl n) slot StripeStatusDone 0 head l Hwf Hslot
    ltac:(unfold_layout; lia) Hr) as Hr1.
  pose proof (fread_fwrite_same (nctrl n) m (SStatus slot) StripeStatusDone ltac:(done)) as Hst.
  unfold finish_slot. rewrite (SetStripeStatus_field _ Hwf), bind_ret by done.
  revert Hr1 Hst Hf1. generalize (fwrite m (nctrl n) (SStatus slot) StripeStatusDone).
  intros m1 Hr1 Hst Hf1.
  destruct (pushResponse_ok m1 (nctrl n) slot head l Hwf Hslot Hr1 Hroom Hw)
    as (m2 & -> & Hr2 & Hfr).
  rewrite bind_ret. exists m2. split_and!; [done| |done|].
  - rewrite (GetStripeStatus_field _ Hwf) by done.
    rewrite (fread_frame _ _ _ _ _ Hwf Hfr) by (simpl; tauto || done). by rewrite Hst.
  - eapply mem_frame_trans; [exact Hf1|]. eapply mem_frame_mono; [|exact Hfr].
    intros a (f & Hf & Hqf & Ha). exists f. auto.
Qed.

(** An expansion never changes the block count a connection works with. *)
Lemma OnExpandComplete_count m n c c' :
  OnExpandComplete m n c = Ret c' -> BlockCount (stripe c') = BlockCount (stripe c).
Proof.
  unfold OnExpandComplete. intros ([cid off] & _ & E)%bind_ret_inv.
  apply bind_ret_inv in E as (ch & _ & E). apply bind_ret_inv in E as (hd & _ & E).
  apply bind_ret_inv in E as (d & _ & E). apply bind_ret_inv in E as (added & _ & E).
  by injection E as <-.
Qed.

Lemma RequestExpand_result hub m n c m' n' c' e :
  RequestExpand hub m n c = Ret (m', n', c', e) ->
  stripe c' = stripe c /\ (e = None \/ e = Some ErrPushExpand \/ e = Some ErrExpand).
Proof.
  unfold RequestExpand. intros ([m0 [|]] & _ & E)%bind_ret_inv.
  - destruct (hub m0 (nslotID c)) as [m2 [[|]|]]; [..|discriminate E];
      injection E as _ _ <- <-; auto.
  - injection E as _ _ <- <-. auto.
Qed.

Lemma expand_loop_error hub fuel : forall m n c needCap m' n' c' err,
  needCap > BlockCount (stripe c) * BlockSize - BlockSize ->
  expand_loop hub fuel m n c needCap = Ret (m', n', c', err) ->
  err = Some ErrPushExpand \/ err = Some ErrExpand.
Proof.
  induction fuel as [|fuel IH]; intros m n c needCap m' n' c' err Hneed E; cbn [expand_loop] in E;
    rewrite decide_True in E by done; [discriminate|].
  apply bind_ret_inv in E as ([[[m1 n1] c1] e] & ER & E).
  apply RequestExpand_result in ER as [Hc1 He].
  destruct e as [e|]; [injection E as _ _ _ <-; by destruct He as [|]|].
  apply bind_ret_inv in E as (c2 & EO & E). apply OnExpandComplete_count in EO.
  eapply IH; [|exact E]. by rewrite EO, Hc1.
Qed.

(** ** A concrete system

    A bus of one chunk, a stripe of three blocks registered in slot 1, and a
    node attached to it, with the control stripe in a chunk of its own. *)
Definition demo_ctrl : Control :=
  NewControl (mkStripe [] 256
    ((fun j => Slice (ChunkSize + j * BlockSize) BlockSize) <$> seqZ 0 256) 0).

Definition demo_node : Node :=
  mkNode 1 demo_ctrl 10 11 [mkChunk (Slice 0 ChunkSize) (-1)] ∅.

Definition demo_slot_bus : Bus :=
  mkBus 0 1 (7 :: replicate 31 0) [mkChunk (Slice 0 ChunkSize) 12] [].

Definition demo_slot_stripe : Stripe :=
  mkStripe [-1; 0; 1; 2] 3 (blk_slice <$> [0; 1; 2]) 0.

Definition demo_slot_mem : mem :=
  match (m1 ← UpdateStripeHeader ∅ demo_slot_stripe;
         SetStripe m1 demo_ctrl 1 StripeStatusReady (-1) 0 0) with
  | Ret m => m
  | _ => ∅
  end.

Lemma demo_slot_bus_wf : bus_wf demo_slot_bus.
Proof.
  split; cbn.
  - unfold_layout. lia.
  - done.
  - done.
  - repeat constructor; lia.
  - intros [|k] c Hk; simpl in Hk; [by injection Hk as <-|done].
Qed.

Lemma demo_slot_backed : stripe_backed demo_slot_bus demo_slot_stripe [0; 1; 2].
Proof.
  split; cbn.
  - apply (bool_decide_unpack _). vm_compute. exact I.
  - done.
  - repeat constructor; unfold managed; cbn; unfold_layout; lia.
  - done.
  - repeat constructor; unfold is_int16; lia.
  - done.
  - done.
  - unfold data_cap. cbn. unfold_layout. lia.
Qed.

Lemma demo_slot_published : published demo_slot_mem demo_slot_stripe.
Proof. exists (Slice 0 BlockSize). vm_compute. auto. Qed.

Lemma demo_slot_registered : registered demo_slot_mem demo_ctrl 1 demo_slot_stripe.
Proof. exists (-1), 0, [1; 2]. vm_compute. split; [done|]. split; [discriminate|done]. Qed.

Lemma demo_slot_queue : queue_repr demo_slot_mem demo_ctrl 0 0 [].
Proof.
  assert (Hz : forallb (fun i => Z.eqb (fread demo_slot_mem demo_ctrl (QEntry 0 i)) 0)
            (seqZ 0 QueueSize) = true) by (vm_compute; reflexivity).
  apply queue_repr_empty; [vm_compute; reflexivity..|].
  intros i Hi. rewrite forallb_forall in Hz. apply Z.eqb_eq, Hz.
  apply list_elem_of_In, elem_of_seqZ. lia.
Qed.

Lemma demo_ctrl_wf : ctrl_wf demo_ctrl.
Proof.
  assert (Hl : forall i b, Blocks (cstripe demo_ctrl) !! i = Some b ->
    b = Slice (ChunkSize + Z.of_nat i * BlockSize) BlockSize).
  { intros i b Hb. unfold demo_ctrl in Hb. cbn [cstripe NewControl Blocks] in Hb.
    apply list_lookup_fmap_Some in Hb as (j & -> & Hj). apply lookup_seqZ in Hj as [-> _].
    do 2 f_equal. }
  assert (Hlen : length (Blocks (cstripe demo_ctrl)) = 256%nat) by reflexivity.
  split; [split|].
  - apply Forall_lookup. intros i b Hb. by rewrite (Hl i b Hb).
  - intros i j b d Hb Hd Hne. rewrite (Hl i b Hb), (Hl j d Hd). cbn [sl_base].
    unfold_layout. lia.
  - rewrite Hlen. lia.
  - rewrite Hlen. unfold_layout. lia.
  - by rewrite Hlen.
Qed.

(** ** Theorems *)

(** C24: A node that takes a slot works on the hub's own stripe and answers.
    If slot [slot] points at the header of a published stripe [s] of the bus
    and the node has mapped the bus's chunks, then opening it gives exactly
    [s] (sequence, block count, length, and the same blocks of shared
    memory), which is what the handler is called with.  Afterwards the slot is
    done and one response for it is queued for the hub, whether the handler
    returned or panicked; only a handler whose expansion failed leaves slot
    and queue alone. *)
Theorem processSlot_correct b m n slot s gs h m1 c1 panicked head l :
  bus_wf b -> chunks_mapped b (nchunks n) -> ctrl_wf (nctrl n) ->
  1 <= slot <= MaxTotalSlots ->
  stripe_backed b s gs -> published m s -> registered m (nctrl n) slot s ->
  h m (mkNConn s 0 0 slot false) = (m1, c1, panicked) ->
  queue_repr m1 (nctrl n) 0 head l -> Z.of_nat (length l) < QueueSize - 1 ->
  head + Z.of_nat (length l) + 1 < 4294967296 ->
  open_stripe m n slot = Ret s /\
  if negb panicked && failed c1 then processSlot 1 (Some h) m n slot = Ret (m1, false)
  else exists m', processSlot 1 (Some h) m n slot = Ret (m', true) /\
    GetStripeStatus m' (nctrl n) slot = Ret StripeStatusDone /\
    queue_repr m' (nctrl n) 0 head (l ++ [(slot, CMD_PROCESS)]).
Proof.
  intros Hwf Hcs Hc Hslot Hb Hpub Hreg Hh Hr Hroom Hw.
  pose proof (open_stripe_ok b m n slot s gs Hwf Hcs Hb Hpub Hreg) as Ho.
  split; [done|].
  destruct (finish_slot_ok m1 n slot head l Hc Hslot Hr Hroom Hw) as (m' & Hf & Hst & Hq & _).
  unfold processSlot. rewrite Ho, Hh.
  destruct panicked; simpl negb; cbn [andb]; [by exists m'|].
  destruct (failed c1); [reflexivity|by exists m'].
Qed.

Lemma processSlot_correct_witness :
  open_stripe demo_slot_mem demo_node 1 = Ret demo_slot_stripe /\
  exists m', processSlot 1 (Some (fun m c => (m, c, true))) demo_slot_mem demo_node 1 =
      Ret (m', true) /\
    GetStripeStatus m' demo_ctrl 1 = Ret StripeStatusDone /\
    queue_repr m' demo_ctrl 0 0 [(1, CMD_PROCESS)].
Proof.
  apply (processSlot_correct demo_slot_bus demo_slot_mem demo_node 1 demo_slot_stripe [0; 1; 2]
           (fun m c => (m, c, true)) demo_slot_mem (mkNConn demo_slot_stripe 0 0 1 false)
           true 0 []).
  - exact demo_slot_bus_wf.
  - intros k Hk. cbn in Hk. assert (k = 0) as -> by lia.
    exists (mkChunk (Slice 0 ChunkSize) (-1)). split; reflexivity.
  - exact demo_ctrl_wf.
  - unfold_layout. lia.
  - exact demo_slot_backed.
  - exact demo_slot_published.
  - exact demo_slot_registered.
  - reflexivity.
  - exact demo_slot_queue.
  - vm_compute. reflexivity.
  - vm_compute. reflexivity.
Defined.

(** C38: A node's write can never make its stripe grow.  When the bytes do not
    fit in the blocks the connection counts, every expansion the hub grants
    leaves that count as it was, so the loop asks again; the only way out is
    an error of the request itself.  [WriteAt] thus reports an error without
    writing, or, if the hub keeps granting, does not return. *)
Theorem node_write_cannot_grow hub fuel m n c p off m' n' c' r :
  (BlockCount (stripe c) - 1) * BlockSize < off + Z.of_nat (length p) <= StripeDataSizeLimit ->
  0 <= BlockCount (stripe c) ->
  node_WriteAt hub fuel m n c p off = Ret (m', n', c', r) ->
  r = (0, Some ErrPushExpand) \/ r = (0, Some ErrExpand).
Proof.
  intros Hneed Hbc E. unfold node_WriteAt in E.
  rewrite i64_small in E by (unfold_layout; lia). rewrite decide_False in E by lia.
  apply bind_ret_inv in E as ([[[m1 n1] c1] err] & EL & E).
  apply expand_loop_error in EL; [|unfold_layout; lia].
  destruct EL as [-> | ->]; injection E as <- <- <- <-; auto.
Qed.

(** A hub that refuses the request. *)
Lemma node_write_cannot_grow_witness :
  exists m' n' c' r,
    node_WriteAt (fun m _ => (m, Some false)) 3 demo_slot_mem demo_node
      (mkNConn demo_slot_stripe 0 0 1 false) [1; 2] 8191 = Ret (m', n', c', r) /\
    (r = (0, Some ErrPushExpand) \/ r = (0, Some ErrExpand)).
Proof.
  assert (Hr : (fun _ => tt) <$> node_WriteAt (fun m _ => (m, Some false)) 3 demo_slot_mem
      demo_node (mkNConn demo_slot_stripe 0 0 1 false) [1; 2] 8191 = Ret tt)
    by (vm_compute; reflexivity).
  destruct (node_WriteAt (fun m _ => (m, Some false)) 3 demo_slot_mem demo_node
      (mkNConn demo_slot_stripe 0 0 1 false) [1; 2] 8191) as [[[[m' n'] c'] r]| |] eqn:E;
    [|discriminate Hr..].
  exists m', n', c', r. split; [reflexivity|].
  apply (node_write_cannot_grow (fun m _ => (m, Some false)) 3 demo_slot_mem demo_node
    (mkNConn demo_slot_stripe 0 0 1 false) [1; 2] 8191 m' n' c' r).
  - vm_compute. split; [reflexivity|discriminate].
  - vm_compute. discriminate.
  - exact E.
Defined.
