(* ===== verification/Session.v ===== *)
(** * The life of a node's session

    [HandleConn] of go/node/node.go with [ReceiveMsgWithFDs] of
    internal/netutil, [Chunk.Close] of go/shm/chunk.go and the descriptor
    side of go/sync/eventfd.go.  Descriptors and mappings are tracked from
    the moment the kernel installs them to their release; what the kernel
    delivers and maps is a parameter. *)
From stdpp Require Import base tactics list numbers option gmap.
From Stdlib Require Import ZArith Lia.
From S2P Require Import Prelude Memory Layout Protocol Stripe Bus Control Attach Message Node.
#[local] Open Scope Z_scope.

(** ** Receiving *)

(** The loop over the control messages; [None] is one that does not parse. *)
Fixpoint parse_rights (scms : list (option (list Z))) (fds : list Z) : option (list Z) :=
  match scms with
  | [] => Some fds
  | None :: _ => None
  | Some scmFDs :: scms' => parse_rights scms' (fds ++ scmFDs)
  end.

(** What [ReadMsgUnix] delivered: the count, the message bytes and the control
    messages, [inr] as [ParseSocketControlMessage] returns them, or [inl] if
    their framing is broken, with the descriptors the kernel installed all the
    same.  A control message that is not of descriptors ([None]) has none. *)
Definition packet : Type := option (Z * list Z * (list Z + list (option (list Z)))).

(** The second component lists the descriptors closed.  Every error return
    names [nil] for [fds], so the deferred function, which runs after the
    results are set, finds none to close. *)
Definition ReceiveMsgWithFDs (p : packet) : option (Z * list Z * list Z) * list Z :=
  match p with
  | None => (None, [])
  | Some (n, msg, inl _) => (None, [])
  | Some (n, msg, inr scms) =>
      match parse_rights scms [] with
      | Some fds => (Some (n, msg, fds), [])
      | None => (None, [])
      end
  end.

(** ** Releasing *)

(** [Chunk.Close]: the chunk after it, the mappings undone and the
    descriptors closed. *)
Definition Chunk_Close (c : Chunk) : Chunk * list slice * list Z :=
  let '(data, un) := if decide (CData c <> nil_slice) then (nil_slice, [CData c])
                     else (CData c, []) in
  if decide (Fd c >= 0) then (mkChunk data (-1), un, [Fd c]) else (mkChunk data (Fd c), un, []).

Definition Eventfd_Close (e : Z) : Z * list Z := if decide (e >= 0) then (-1, [e]) else (e, []).

(** The deferred function of [HandleConn]. *)
Definition end_session (n : Node) : Node * list Z * list slice :=
  let cs := Chunk_Close <$> nchunks n in
  let '(ev1, c1) := Eventfd_Close (nodeEv n) in
  let '(ev2, c2) := Eventfd_Close (hubEv n) in
  (mkNode (nodeID n) (nctrl n) ev1 ev2 [] (nwaiters n),
   concat (snd <$> cs) ++ c1 ++ c2, concat ((fun r => r.1.2) <$> cs)).

(** ** The session *)

(** [NewNode]; the handler is an argument of [processSlot].  The pointers that
    are nil before a session starts are not followed until it has replaced
    them. *)
Definition NewNode : Node := mkNode 0 (NewControl (mkStripe [] 0 [] 0)) (-1) (-1) [] ∅.

Section session.
Context (mmap : Z -> option slice).

(** One message off the socket. *)
Definition next_message (n : Node) (p : packet) : Node * option goerror * list Z * list slice :=
  let '(r, closed) := ReceiveMsgWithFDs p in
  let '(n', err, cl, un) :=
    handleMessage mmap n (match r with
                          | Some (_, msg, fds) => Some (default 0 (head msg), fds)
                          | None => None
                          end) in
  (n', err, closed ++ cl, un).

(** The receive loop; [None] while the connection stays open.  The last
    component counts the messages received. *)
Fixpoint message_loop (n : Node) (ps : list packet) : option (Node * list Z * list slice * nat) :=
  match ps with
  | [] => None
  | p :: ps' =>
      let '(n1, err, cl, un) := next_message n p in
      match err with
      | Some _ => Some (n1, cl, un, 1%nat)
      | None =>
          match message_loop n1 ps' with
          | None => None
          | Some (n2, cl2, un2, k) => Some (n2, cl ++ cl2, un ++ un2, S k)
          end
      end
  end.

Definition HandleConn (n : Node) (first : packet) (ps : list packet)
  : outcome (option (Node * list Z * list slice * nat)) :=
  let '(r, closed) := ReceiveMsgWithFDs first in
  hs ← handshake mmap r;
  let '(res, cl, un) := hs in
  match res with
  | inl _ => Ret (Some (n, closed ++ cl, un, 0%nat))
  | inr s =>
      match message_loop (loadSession n s) ps with
      | None => Ret None
      | Some (n1, cl1, un1, k) =>
          let '(n2, cl2, un2) := end_session n1 in
          Ret (Some (n2, closed ++ cl ++ cl1 ++ cl2, un ++ un1 ++ un2, k))
      end
  end.

(** ** Specification vocabulary *)

(** The descriptors the kernel installs with a packet. *)
Definition delivered (p : packet) : list Z :=
  match p with
  | None => []
  | Some (_, _, inl fds) => fds
  | Some (_, _, inr scms) => concat (default [] <$> scms)
  end.

(** Those that [ReceiveMsgWithFDs] hands on, and those that it forgets. *)
Definition returned (p : packet) : list Z :=
  match (ReceiveMsgWithFDs p).1 with Some (_, _, fds) => fds | None => [] end.
Definition dropped (p : packet) : list Z :=
  match (ReceiveMsgWithFDs p).1 with Some _ => [] | None => delivered p end.

(** The regions mapped for a list of chunk descriptors, up to a failure. *)
Definition mapped (fds : list Z) : list slice := CData <$> (attach_fds mmap fds []).2.

Definition message_maps (p : packet) : list slice :=
  match (ReceiveMsgWithFDs p).1 with
  | Some (_, msg, fds) =>
      if decide (default 0 (head msg) = MsgNewChunk) then mapped fds else []
  | None => []
  end.

Definition handshake_maps (p : packet) : list slice :=
  match (ReceiveMsgWithFDs p).1 with
  | Some (n, header, fds) =>
      match check_header n header with
      | inl _ => []
      | inr _ => if decide (2 < length fds)%nat then mapped (drop 2 fds) else []
      end
  | None => []
  end.

(** ** Lemmas *)

Lemma ReceiveMsgWithFDs_closed (p : packet) : (ReceiveMsgWithFDs p).2 = [].
Proof using Type.
  destruct p as [[[k msg] [fds|scms]]|]; cbn; [done| |done]. by destruct (parse_rights scms []).
Qed.

Lemma parse_rights_all scms : forall acc fds,
  parse_rights scms acc = Some fds -> fds = acc ++ concat (default [] <$> scms).
Proof using Type.
  induction scms as [|[x|] scms IH]; intros acc fds H; cbn [parse_rights] in H; [|by rewrite (IH _ _ H), <- app_assoc|done].
  injection H as <-. by rewrite app_nil_r.
Qed.

(** Nothing else becomes of a descriptor. *)
Lemma delivered_split (p : packet) : delivered p = returned p ++ dropped p.
Proof using Type.
  unfold returned, dropped. destruct p as [[[k msg] [fds|scms]]|]; cbn; [done| |done].
  destruct (parse_rights scms []) as [fds|] eqn:E; cbn; [|done].
  rewrite app_nil_r. symmetry. exact (parse_rights_all _ _ _ E).
Qed.

Lemma delivered_all (ps : list packet) :
  concat (delivered <$> ps) ≡ₚ concat (returned <$> ps) ++ concat (dropped <$> ps).
Proof using Type.
  induction ps as [|p ps IH]; [done|]. cbn [fmap list_fmap concat]. rewrite IH, delivered_split, <- !app_assoc.
  f_equiv. apply Permutation_app_swap_app.
Qed.

Lemma delivered_nonneg (p : packet) : Forall (fun fd => 0 <= fd) (delivered p) -> Forall (fun fd => 0 <= fd) (returned p).
Proof using Type. rewrite delivered_split. by intros [? _]%Forall_app. Qed.

(** A new mapping is a whole chunk. *)
Context (Hmmap : forall fd d, mmap fd = Some d -> sl_len d = ChunkSize).

(** A chunk of a session: mapped, its descriptor already closed. *)
Definition session_chunk (c : Chunk) : Prop := CData c <> nil_slice /\ Fd c = -1.

Lemma attach_fds_chunks fds : forall acc,
  Forall session_chunk acc -> Forall session_chunk (attach_fds mmap fds acc).2.
Proof using Hmmap.
  induction fds as [|fd fds IH]; intros acc Ha; cbn [attach_fds]; [done|].
  unfold AttachChunk. destruct (mmap fd) as [d|] eqn:E; [|done]. apply IH.
  apply Forall_app. split; [done|]. constructor; [|done]. split; [|done]. cbn. intros ->.
  pose proof (Hmmap _ _ E) as Hl. by vm_compute in Hl.
Qed.

Lemma close_session_chunks cs :
  Forall session_chunk cs ->
  concat (snd <$> (Chunk_Close <$> cs)) = [] /\
  concat ((fun r => r.1.2) <$> (Chunk_Close <$> cs)) = CData <$> cs.
Proof using Type.
  induction 1 as [|c cs [Hd Hf] _ [IH1 IH2]]; [done|].
  cbn [fmap list_fmap concat]. unfold Chunk_Close at 1 3. rewrite decide_True by done.
  rewrite decide_False by lia. cbn [fst snd app]. by rewrite IH1, IH2.
Qed.

(** One message: its descriptors are closed, and what it mapped is either
    added to the session or unmapped again. *)
Lemma next_message_ok n p n' err cl un :
  Forall session_chunk (nchunks n) -> next_message n p = (n', err, cl, un) ->
  Forall session_chunk (nchunks n') /\ nodeEv n' = nodeEv n /\ hubEv n' = hubEv n /\
  cl = returned p /\ (err = None -> dropped p = []) /\
  (CData <$> nchunks n) ++ message_maps p = (CData <$> nchunks n') ++ un.
Proof using Hmmap.
  intros Hcs H. unfold next_message in H. unfold returned, dropped, message_maps.
  pose proof (ReceiveMsgWithFDs_closed p) as Hcl.
  destruct (ReceiveMsgWithFDs p) as [[[[k msg] fds]|] closed]; cbn [fst snd] in *; subst closed.
  2: { cbn in H. injection H as <- <- <- <-. split_and!; try done; by rewrite !app_nil_r. }
  unfold handleMessage in H. destruct (decide (default 0 (head msg) = MsgNewChunk)).
  - pose proof (attach_fds_chunks fds [] ltac:(done)) as Hnew. unfold mapped.
    destruct (attach_fds mmap fds []) as [[er|] cs]; cbn [snd] in *;
      injection H as <- <- <- <-; cbn [nchunks with_chunks app]; split_and!; try done.
    + by apply Forall_app.
    + by rewrite fmap_app, app_nil_r.
  - injection H as <- <- <- <-. split_and!; try done; by rewrite !app_nil_r.
Qed.

Lemma message_loop_ok ps : forall n n' cl un k,
  Forall session_chunk (nchunks n) -> message_loop n ps = Some (n', cl, un, k) ->
  Forall session_chunk (nchunks n') /\ nodeEv n' = nodeEv n /\ hubEv n' = hubEv n /\
  cl = concat (returned <$> take k ps) /\ concat (dropped <$> take (pred k) ps) = [] /\
  (CData <$> nchunks n) ++ concat (message_maps <$> take k ps) ≡ₚ (CData <$> nchunks n') ++ un.
Proof using Hmmap.
  induction ps as [|p ps IH]; intros n n' cl un k Hcs H; cbn [message_loop] in H; [done|].
  destruct (next_message n p) as [[[n1 err] cl1] un1] eqn:E1.
  destruct (next_message_ok _ _ _ _ _ _ Hcs E1) as (Hcs1 & Hn1 & Hh1 & -> & Hd1 & Hm1).
  destruct err as [er|].
  - injection H as <- <- <- <-. cbn [take fmap list_fmap concat pred]. rewrite !app_nil_r, Hm1. done.
  - destruct (message_loop n1 ps) as [[[[n2 cl2] un2] k2]|] eqn:E2; [|done].
    injection H as <- <- <- <-.
    destruct (IH n1 n2 cl2 un2 k2 Hcs1 E2) as (Hcs2 & Hn2 & Hh2 & -> & Hd2 & Hm2).
    split; [done|]. split; [congruence|]. split; [congruence|].
    cbn [take fmap list_fmap concat pred]. split; [done|].
    split; [destruct k2; [done|]; cbn [take fmap list_fmap concat]; cbn [pred] in Hd2; by rewrite Hd1, Hd2|].
    rewrite app_assoc, Hm1. rewrite (Permutation_app_comm un1), app_assoc, <- Hm2.
    rewrite <- !app_assoc. apply Permutation_app_head, Permutation_app_comm.
Qed.

(** Every received error ends the loop. *)
Lemma message_loop_ends ps : forall n,
  Exists (fun p => (ReceiveMsgWithFDs p).1 = None) ps -> is_Some (message_loop n ps).
Proof using Type.
  induction ps as [|p ps IH]; intros n H; [by apply Exists_nil in H|].
  cbn [message_loop]. destruct (next_message n p) as [[[n1 err] cl1] un1] eqn:E1.
  destruct err as [er|]; [by eexists|]. apply Exists_cons in H as [H|H].
  - unfold next_message in E1. destruct (ReceiveMsgWithFDs p) as [r closed].
    cbn in H. subst r. by cbn in E1.
  - destruct (IH n1 H) as [[[[n2 cl2] un2] k] ->]. by eexists.
Qed.

Lemma control_blocks_Ret c js :
  sl_len (CData c) = ChunkSize ->
  Forall (fun j => 0 <= j < BlocksPerChunk) js -> exists blks, control_blocks c js = Ret blks.
Proof using Type.
  intros Hc. induction 1 as [|j js Hj _ [blks IH]]; [by eexists|].
  cbn [control_blocks]. unfold block_at at 1, slice_sub. rewrite Hc.
  rewrite decide_True by (unfold_layout; lia). go_bind. rewrite IH. go_bind. by eexists.
Qed.

Lemma attach_fds_lengths fds : forall acc,
  Forall (fun c => sl_len (CData c) = ChunkSize) acc ->
  Forall (fun c => sl_len (CData c) = ChunkSize) (attach_fds mmap fds acc).2 /\
  ((attach_fds mmap fds acc).1 = None ->
     length (attach_fds mmap fds acc).2 = (length acc + length fds)%nat).
Proof using Hmmap.
  induction fds as [|fd fds IH]; intros acc Ha; cbn [attach_fds]; [simpl; split; [done|lia]|].
  unfold AttachChunk. destruct (mmap fd) as [d|] eqn:E; [|done].
  destruct (IH (acc ++ [mkChunk d (-1)])) as [IH1 IH2].
  { apply Forall_app. split; [done|]. constructor; [|done]. by apply (Hmmap _ _ E). }
  cbn [CData]. split; [done|]. intros H. rewrite IH2 by done. rewrite length_app. simpl. lia.
Qed.

(** The handshake's two results: an error, with every descriptor closed and
    every mapping undone, or a session that holds the eventfds and all the
    mappings. *)
Lemma handshake_cases p :
  exists res cl un,
    handshake mmap (ReceiveMsgWithFDs p).1 = Ret (res, cl, un) /\
    match res with
    | inl _ => cl = returned p /\ un = handshake_maps p
    | inr s => NodeEv s :: HubEv s :: cl = returned p /\ dropped p = [] /\ un = [] /\
               handshake_maps p = CData <$> Chunks s /\ Forall session_chunk (Chunks s)
    end.
Proof using Hmmap.
  unfold handshake, returned, dropped, handshake_maps.
  destruct (ReceiveMsgWithFDs p).1 as [[[k header] fds]|]; [|by do 3 eexists].
  destruct (check_header k header) as [er|id]; [by do 3 eexists|].
  destruct fds as [|ev1 [|ev2 [|fd fds]]]; try by do 3 eexists.
  cbn [length drop]. rewrite decide_True by lia. unfold mapped.
  pose proof (attach_fds_chunks (fd :: fds) [] ltac:(done)) as Hcs.
  destruct (attach_fds_lengths (fd :: fds) [] ltac:(done)) as [Hlen Hcnt].
  destruct (attach_fds mmap (fd :: fds) []) as [[er|] cs]; cbn [fst snd] in *; [by do 3 eexists|].
  specialize (Hcnt eq_refl). destruct cs as [|c cs]; [done|].
  destruct (control_blocks_Ret c (seqZ 0 (ControlStripeSize / BlockSize))) as [blks Hb].
  { by inversion_clear Hlen. }
  { apply Forall_seqZ. intros j. change (ControlStripeSize / BlockSize) with 256. unfold_layout. lia. }
  change (go_index (c :: cs) 0) with (Ret c). go_bind. rewrite Hb. go_bind. by do 3 eexists.
Qed.

Lemma end_session_ok n :
  Forall session_chunk (nchunks n) -> 0 <= nodeEv n -> 0 <= hubEv n ->
  exists n', end_session n = (n', [nodeEv n; hubEv n], CData <$> nchunks n) /\
    nchunks n' = [] /\ nodeEv n' = -1 /\ hubEv n' = -1.
Proof using Type.
  intros Hcs H1 H2. unfold end_session, Eventfd_Close.
  destruct (close_session_chunks (nchunks n) Hcs) as [-> ->].
  rewrite !decide_True by lia. by eexists.
Qed.
End session.

(** ** Theorems *)

(** C14: What becomes of the descriptors and mappings of a node's session.
    Once the connection fails, [HandleConn] returns.  Of the descriptors that
    the kernel installed with the handshake and with the messages received,
    each was then closed exactly once, except those that came with a message
    whose control data does not parse: [ReceiveMsgWithFDs] forgets these, and
    such a message is the last of the session.  The mappings undone are
    exactly those that were made.  A rejected handshake leaves the node as it
    was, otherwise the node holds no chunk and no eventfd. *)
Theorem session_balanced mmap n first ps :
  (forall fd d, mmap fd = Some d -> sl_len d = ChunkSize) ->
  Forall (fun fd => 0 <= fd) (delivered first) ->
  Exists (fun p => (ReceiveMsgWithFDs p).1 = None) ps ->
  exists n' closed unmapped k,
    HandleConn mmap n first ps = Ret (Some (n', closed, unmapped, k)) /\
    delivered first ++ concat (delivered <$> take k ps) ≡ₚ
      closed ++ dropped first ++ concat (dropped <$> take k ps) /\
    (0 < k -> dropped first = [])%nat /\ concat (dropped <$> take (pred k) ps) = [] /\
    unmapped ≡ₚ handshake_maps mmap first ++ concat (message_maps mmap <$> take k ps) /\
    (k = 0%nat /\ n' = n \/ nchunks n' = [] /\ nodeEv n' = -1 /\ hubEv n' = -1).
Proof.
  intros Hm Hfd%delivered_nonneg Hend. unfold HandleConn.
  destruct (handshake_cases mmap Hm first) as (res & cl & un & Hh & Hres).
  pose proof (ReceiveMsgWithFDs_closed first) as Hcl.
  destruct (ReceiveMsgWithFDs first) as [r closed] eqn:Er. cbn [fst snd] in *. subst closed.
  rewrite Hh. go_bind. rewrite delivered_split. destruct res as [er|s].
  - destruct Hres as [-> ->]. exists n, (returned first), (handshake_maps mmap first), 0%nat.
    cbn [app take fmap list_fmap concat pred]. rewrite !app_nil_r. split_and!; try done; [lia|by left].
  - destruct Hres as (Hd & Hdr & -> & -> & Hs). rewrite <- Hd in *.
    destruct (message_loop_ends mmap ps (loadSession n s) Hend) as [[[[n1 cl1] un1] k] El].
    rewrite El.
    destruct (message_loop_ok mmap Hm ps (loadSession n s) _ _ _ _ Hs El)
      as (Hcs & Hev1 & Hev2 & -> & Hlast & Hmaps).
    cbn [loadSession nodeEv hubEv nchunks] in *. unfold AttachEventfd in *.
    destruct (end_session_ok n1) as (n2 & -> & Hn2); [done|rewrite ?Hev1, ?Hev2; by decompose_Forall_hyps..|].
    do 4 eexists. split; [reflexivity|]. split_and!.
    + rewrite Hev1, Hev2, Hdr, app_nil_r, delivered_all, app_assoc. f_equiv; [|done]. cbn [app].
      symmetry. by rewrite app_assoc, Permutation_app_comm.
    + done.
    + done.
    + cbn [app]. rewrite Hmaps. apply Permutation_app_comm.
    + by right.
Qed.

Lemma session_balanced_witness :
  exists n' closed unmapped k,
    HandleConn (fun fd => Some (Slice (fd * ChunkSize) ChunkSize)) NewNode
      (Some (7, HandshakeMessage 3, inr [Some [10; 11; 12]; Some [13]]))
      [Some (1, [MsgNewChunk], inr [Some [14]]); Some (1, [MsgRelease], inr [Some [15]; None])] =
      Ret (Some (n', closed, unmapped, k)) /\ k = 2%nat /\ [10; 11; 12; 13; 14; 15] ≡ₚ closed ++ [15].
Proof.
  destruct (session_balanced (fun fd => Some (Slice (fd * ChunkSize) ChunkSize)) NewNode
      (Some (7, HandshakeMessage 3, inr [Some [10; 11; 12]; Some [13]]))
      [Some (1, [MsgNewChunk], inr [Some [14]]); Some (1, [MsgRelease], inr [Some [15]; None])])
    as (n' & closed & unmapped & k & E & Hc & _).
  - intros fd d [= <-]. reflexivity.
  - repeat constructor; lia.
  - right. left. reflexivity.
  - exists n', closed, unmapped, k. split; [exact E|].
    assert (k = 2%nat) as -> by (vm_compute in E; by injection E as _ _ _ <-).
    split; [reflexivity|exact Hc].
Defined.

(** What is lost: when an earlier control message carried descriptors and a
    later one does not parse, [ReceiveMsgWithFDs] neither returns nor closes
    them. *)
Theorem receive_drops_fds n msg pre fds post :
  Forall is_Some pre ->
  let p := Some (n, msg, inr (pre ++ Some fds :: None :: post)) in
  ReceiveMsgWithFDs p = (None, []) /\ forall fd, fd ∈ fds -> fd ∈ dropped p.
Proof.
  intros Hpre p.
  assert (E : ReceiveMsgWithFDs p = (None, [])).
  { unfold ReceiveMsgWithFDs, p.
    assert (forall acc, parse_rights (pre ++ Some fds :: None :: post) acc = None) as ->; [|done].
    induction Hpre as [|? ? [? ->] _ IH]; intros acc; [done|]. apply IH. }
  split; [done|]. intros fd Hfd. unfold dropped. rewrite E. cbn. rewrite fmap_app, concat_app.
  apply elem_of_app. right. cbn. apply elem_of_app. by left.
Qed.
