(* ===== verification/Serve.v ===== *)
(** * A node and its connections

    [Serve] of go/node/node.go hands every accepted connection to
    [HandleConn], and all of them work on the one [Node].  The goroutines are
    steps here: a handshake, a message, and the end of a session, which
    releases what the node holds at that moment.  Descriptors and mappings are
    booked when they arrive and when they are released. *)
From stdpp Require Import base tactics list numbers option gmap relations.
From Stdlib Require Import ZArith Lia.
From S2P Require Import Prelude Memory Layout Protocol Stripe Bus Control Attach Message Node Session.
#[local] Open Scope Z_scope.

(** A connection before its handshake, in its session, and closed. *)
Inductive cstat : Type := CWait | COpen | CEnd.

#[export] Instance cstat_eq_dec : EqDecision cstat.
Proof. solve_decision. Defined.

(** The shared node, the connections, the descriptors the kernel installed,
    closed and forgotten on receipt, and the mappings made and undone. *)
Record serving : Type := mkServing {
  sv_node : Node;
  sv_conns : list cstat;
  sv_got : list Z;
  sv_closed : list Z;
  sv_lost : list Z;
  sv_made : list slice;
  sv_undone : list slice;
}.

(** ** Steps *)
Section serve.
Context (mmap : Z -> option slice).

(** What [Accept] can return: an error, a connection of another kind, or a
    Unix connection. *)
Inductive accepted : Type := AcceptError | OtherConn | UnixConn.

(** One round of the loop of [Serve]. *)
Definition accept (s : serving) (a : accepted) : option serving :=
  match a with
  | AcceptError | OtherConn => Some s
  | UnixConn => Some (mkServing (sv_node s) (sv_conns s ++ [CWait]) (sv_got s) (sv_closed s)
                        (sv_lost s) (sv_made s) (sv_undone s))
  end.

(** The handshake of connection [i] on the packet [p]. *)
Definition shake (s : serving) (i : nat) (p : packet) : option serving :=
  if decide (sv_conns s !! i = Some CWait) then
    let '(r, closed) := ReceiveMsgWithFDs p in
    match handshake mmap r with
    | Ret (res, cl, un) =>
        let '(n, st) := match res with
                        | inl _ => (sv_node s, CEnd)
                        | inr ses => (loadSession (sv_node s) ses, COpen)
                        end in
        Some (mkServing n (<[i := st]> (sv_conns s)) (sv_got s ++ delivered p)
                (sv_closed s ++ closed ++ cl) (sv_lost s ++ dropped p) (sv_made s ++ handshake_maps mmap p)
                (sv_undone s ++ un))
    | _ => None
    end
  else None.

(** A message on connection [i]; an error ends the session. *)
Definition on_message (s : serving) (i : nat) (p : packet) : option serving :=
  if decide (sv_conns s !! i = Some COpen) then
    let '(n1, err, cl, un) := next_message mmap (sv_node s) p in
    let '(n2, st, cl2, un2) := match err with
                               | None => (n1, COpen, [], [])
                               | Some _ => let '(n2, cl2, un2) := end_session n1 in (n2, CEnd, cl2, un2)
                               end in
    Some (mkServing n2 (<[i := st]> (sv_conns s)) (sv_got s ++ delivered p)
            (sv_closed s ++ cl ++ cl2) (sv_lost s ++ dropped p) (sv_made s ++ message_maps mmap p)
            (sv_undone s ++ un ++ un2))
  else None.

Inductive sact : Type :=
| Accept (a : accepted)
| Shake (i : nat) (p : packet)
| Message (i : nat) (p : packet).

Definition srun1 (s : serving) (a : sact) : option serving :=
  match a with
  | Accept a => accept s a
  | Shake i p => shake s i p
  | Message i p => on_message s i p
  end.

Fixpoint srun (s : serving) (l : list sact) : option serving :=
  match l with
  | [] => Some s
  | a :: l' => s' ← srun1 s a; srun s' l'
  end.

Definition serve_init : serving := mkServing NewNode [] [] [] [] [] [].

(** ** Specification vocabulary *)

(** One hub at a time: a handshake is made only while no session is open; all
    descriptors are non-negative. *)
Definition polite (s : serving) (a : sact) : Prop :=
  match a with
  | Accept _ => True
  | Shake _ p => (COpen ∉ sv_conns s) /\ Forall (fun fd => 0 <= fd) (delivered p)
  | Message _ p => True
  end.

#[export] Instance polite_dec s a : Decision (polite s a).
Proof. destruct a; cbn; apply _. Defined.

(** A run all of whose steps are polite. *)
Fixpoint prun (s : serving) (l : list sact) : option serving :=
  match l with
  | [] => Some s
  | a :: l' => if decide (polite s a) then (s' ← srun1 s a; prun s' l') else None
  end.

(** The packets of a run. *)
Definition packet_of (a : sact) : option packet :=
  match a with Accept _ => None | Shake _ p | Message _ p => Some p end.

(** ** The books *)

(** While a session is open the node holds its eventfds and mappings,
    otherwise nothing is held. *)
Definition held_fds (n : Node) (cs : list cstat) : list Z :=
  if decide (COpen ∈ cs) then [nodeEv n; hubEv n] else [].
Definition held_maps (n : Node) (cs : list cstat) : list slice :=
  if decide (COpen ∈ cs) then CData <$> nchunks n else [].

Record books (s : serving) : Prop := {
  bk_one : forall i j, sv_conns s !! i = Some COpen -> sv_conns s !! j = Some COpen -> i = j;
  bk_chunks : COpen ∈ sv_conns s -> Forall session_chunk (nchunks (sv_node s)) /\
    0 <= nodeEv (sv_node s) /\ 0 <= hubEv (sv_node s);
  bk_fds : sv_got s ≡ₚ sv_closed s ++ sv_lost s ++ held_fds (sv_node s) (sv_conns s);
  bk_maps : sv_made s ≡ₚ sv_undone s ++ held_maps (sv_node s) (sv_conns s);
}.

Lemma perm_booking {A} (lost held ret drop : list A) :
  lost ++ held ++ ret ++ drop ≡ₚ ret ++ lost ++ drop ++ held.
Proof using Type.
  rewrite (Permutation_app_swap_app held ret), (Permutation_app_comm held drop). apply Permutation_app_swap_app.
Qed.

Lemma perm_closing {A} (lost held ret drop : list A) :
  lost ++ held ++ ret ++ drop ≡ₚ ret ++ held ++ lost ++ drop.
Proof using Type.
  rewrite perm_booking, (Permutation_app_comm drop held). f_equiv. apply Permutation_app_swap_app.
Qed.

(** A new mapping is a whole chunk. *)
Context (Hmmap : forall fd d, mmap fd = Some d -> sl_len d = ChunkSize).

(** ** Lemmas *)
Lemma open_insert (l : list cstat) i st :
  (forall j, l !! j = Some COpen -> i = j) -> (i < length l)%nat -> st <> COpen ->
  COpen ∉ <[i := st]> l.
Proof using Type.
  intros Hone Hi Hst Hin. apply list_elem_of_lookup in Hin as [j Hj].
  destruct (decide (i = j)) as [<-|Hne].
  - rewrite list_lookup_insert_eq in Hj by done. congruence.
  - rewrite list_lookup_insert_ne in Hj by done. by apply Hne, Hone.
Qed.

Lemma books_accept s a s' : books s -> accept s a = Some s' -> books s'.
Proof using Type.
  intros Hb H. destruct a; cbn in H; injection H as <-; [done|done|].
  assert (Hin : COpen ∈ sv_conns s ++ [CWait] <-> COpen ∈ sv_conns s).
  { rewrite elem_of_app, list_elem_of_singleton. naive_solver. }
  destruct Hb as [H1 H2 H3 H4]. split; cbn.
  - intros i j [Hi|[_ Hi]]%lookup_app_Some [Hj|[_ Hj]]%lookup_app_Some;
      try (apply list_lookup_singleton_Some in Hi as [_ Hi]; done);
      try (apply list_lookup_singleton_Some in Hj as [_ Hj]; done). by apply H1.
  - intros Ho. by apply H2, Hin.
  - unfold held_fds in *. case_decide; [rewrite decide_True by tauto|rewrite decide_False by tauto]; done.
  - unfold held_maps in *. case_decide; [rewrite decide_True by tauto|rewrite decide_False by tauto]; done.
Qed.

Lemma books_shake s i p s' : books s -> polite s (Shake i p) -> shake s i p = Some s' -> books s'.
Proof using Hmmap.
  intros [H1 _ H3 H4] [Hno Hfd] H. unfold shake in H. case_decide as Hi; [|done].
  pose proof (lookup_lt_Some _ _ _ Hi) as Hlt.
  destruct (handshake_cases mmap Hmmap p) as (res & cl & un & Eh & Hres).
  pose proof (ReceiveMsgWithFDs_closed p) as Hcl.
  destruct (ReceiveMsgWithFDs p) as [r closed]. cbn [fst snd] in Eh, Hcl. subst closed.
  rewrite Eh in H. unfold held_fds in H3. unfold held_maps in H4. rewrite decide_False in H3 by done.
  rewrite decide_False in H4 by done.
  rewrite app_nil_r in H3, H4. apply delivered_nonneg in Hfd.
  assert (Hnone : forall j, sv_conns s !! j <> Some COpen)
    by (intros j Hj; by eapply Hno, list_elem_of_lookup_2).
  destruct res as [er|ses]; injection H as <-.
  - destruct Hres as [-> ->].
    assert (Hno' : COpen ∉ <[i := CEnd]> (sv_conns s))
      by (apply open_insert; [intros j Hj; by destruct (Hnone j)|done|done]).
    split; cbn; unfold held_fds, held_maps; rewrite ?decide_False by done; try done.
    + intros j k Hj. by apply list_elem_of_lookup_2 in Hj.
    + rewrite app_nil_r, H3, delivered_split, <- !app_assoc. f_equiv. apply Permutation_app_swap_app.
    + by rewrite app_nil_r, H4.
  - destruct Hres as (Hd & Hdr & -> & Hm & Hcs). rewrite <- Hd in *. rewrite Hm.
    assert (Hin : COpen ∈ <[i := COpen]> (sv_conns s))
      by (eapply list_elem_of_lookup_2, list_lookup_insert_eq; done).
    split; cbn; unfold held_fds, held_maps; rewrite ?decide_True by done.
    + intros j k Hj Hk. destruct (decide (i = j)) as [<-|Hij], (decide (i = k)) as [<-|Hik]; try done;
        [rewrite list_lookup_insert_ne in Hk by done|rewrite list_lookup_insert_ne in Hj by done..];
        by edestruct Hnone.
    + intros _. split; [exact Hcs|]. unfold AttachEventfd. by decompose_Forall_hyps.
    + rewrite H3, delivered_split, <- Hd, Hdr, !app_nil_r, <- !app_assoc. f_equiv. unfold AttachEventfd.
      change (NodeEv ses :: HubEv ses :: cl) with ([NodeEv ses; HubEv ses] ++ cl).
      by rewrite (Permutation_app_swap_app cl), (Permutation_app_comm cl).
    + by rewrite app_nil_r, H4.
Qed.

Lemma books_message s i p s' : books s -> on_message s i p = Some s' -> books s'.
Proof using Hmmap.
  intros [H1 H2 H3 H4] H. unfold on_message in H. case_decide as Hi; [|done].
  pose proof (lookup_lt_Some _ _ _ Hi) as Hlt. pose proof (list_elem_of_lookup_2 _ _ _ Hi) as Hin.
  destruct (H2 Hin) as (Hcs & He1 & He2).
  unfold held_fds in H3. unfold held_maps in H4. rewrite decide_True in H3 by done.
  rewrite decide_True in H4 by done.
  destruct (next_message mmap (sv_node s) p) as [[[n1 err] cl] un] eqn:E.
  destruct (next_message_ok mmap Hmmap _ _ _ _ _ _ Hcs E) as (Hcs1 & Hn1 & Hh1 & -> & _ & Hm1).
  destruct err as [er|].
  - destruct (end_session_ok n1 Hcs1) as (n2 & Ee & _); [lia|lia|]. rewrite Ee in H.
    injection H as <-.
    assert (Hno' : COpen ∉ <[i := CEnd]> (sv_conns s)) by (apply open_insert; auto).
    split; cbn; unfold held_fds, held_maps; rewrite ?decide_False by done; try done.
    + intros j k Hj. by apply list_elem_of_lookup_2 in Hj.
    + rewrite app_nil_r, H3, Hn1, Hh1, delivered_split, <- !app_assoc. f_equiv. apply perm_closing.
    + rewrite app_nil_r, H4, <- app_assoc, Hm1. f_equiv. apply Permutation_app_comm.
  - injection H as <-. rewrite list_insert_id by done.
    split; cbn; unfold held_fds, held_maps; rewrite ?decide_True by done.
    + done.
    + intros _. rewrite Hn1, Hh1. done.
    + rewrite app_nil_r, H3, Hn1, Hh1, delivered_split, <- !app_assoc. f_equiv. apply perm_booking.
    + rewrite app_nil_r, H4, <- !app_assoc, Hm1. f_equiv. apply Permutation_app_comm.
Qed.

Lemma books_init : books serve_init.
Proof using Type. split; cbn; try done. intros Hin. by apply elem_of_nil in Hin. Qed.

(** What was installed and what was lost follows from the packets. *)
Lemma prun_books l : forall s s', books s -> prun s l = Some s' ->
  books s' /\ sv_got s' = sv_got s ++ concat (delivered <$> omap packet_of l) /\
  sv_lost s' = sv_lost s ++ concat (dropped <$> omap packet_of l).
Proof using Hmmap.
  induction l as [|a l IH]; intros s s' Hb H; cbn [prun] in H.
  { injection H as <-. by rewrite !app_nil_r. }
  case_decide as Hp; [|done]. apply bind_Some in H as (s1 & E & H).
  assert (Hb1 : books s1) by (destruct a; [by eapply books_accept|by eapply books_shake|by eapply books_message]).
  destruct (IH s1 s' Hb1 H) as (Hb' & Hg & Hl). split; [done|]. rewrite Hg, Hl.
  destruct a as [a|i p|i p]; cbn [srun1 omap list_omap packet_of fmap list_fmap concat] in *.
  - destruct a; injection E as <-; done.
  - unfold shake in E. case_decide; [|done]. destruct (ReceiveMsgWithFDs p) as [r closed].
    destruct (handshake mmap r) as [[[[?|?] cl] un]| |]; try done; injection E as <-; cbn; by rewrite <- !app_assoc.
  - unfold on_message in E. case_decide; [|done]. destruct (next_message mmap (sv_node s) p) as [[[n1 [?|]] cl] un];
      [destruct (end_session n1) as [[n2 cl2] un2]|]; injection E as <-; cbn; by rewrite <- !app_assoc.
Qed.
End serve.

(** The two steps of a session's life, on any node. *)
Lemma shake_opens mmap s i p ses cl :
  (forall fd d, mmap fd = Some d -> sl_len d = ChunkSize) -> sv_conns s !! i = Some CWait ->
  handshake mmap (ReceiveMsgWithFDs p).1 = Ret (inr ses, cl, []) ->
  shake mmap s i p = Some (mkServing (loadSession (sv_node s) ses) (<[i := COpen]> (sv_conns s))
    (sv_got s ++ NodeEv ses :: HubEv ses :: cl) (sv_closed s ++ cl) (sv_lost s)
    (sv_made s ++ (CData <$> Chunks ses)) (sv_undone s)) /\ Forall session_chunk (Chunks ses).
Proof.
  intros Hm Hi E. destruct (handshake_cases mmap Hm p) as (r & c & u & E' & H). rewrite E in E'.
  injection E' as <- <- <-. destruct H as (Hd & Hdr & _ & Hmp & Hcs). split; [|exact Hcs].
  pose proof (ReceiveMsgWithFDs_closed p) as Hc. unfold shake.
  rewrite decide_True, delivered_split, <- Hd, Hdr, Hmp, app_nil_r by done.
  destruct (ReceiveMsgWithFDs p) as [q closed]. cbn [fst snd] in *. subst closed. rewrite E.
  by rewrite !app_nil_r.
Qed.

Lemma broken_ends mmap s i n cl un :
  sv_conns s !! i = Some COpen -> end_session (sv_node s) = (n, cl, un) ->
  on_message mmap s i None = Some (mkServing n (<[i := CEnd]> (sv_conns s)) (sv_got s)
    (sv_closed s ++ cl) (sv_lost s) (sv_made s) (sv_undone s ++ un)).
Proof.
  intros Hi E. unfold on_message. rewrite decide_True by done. cbn [next_message ReceiveMsgWithFDs].
  cbn [handleMessage]. rewrite E. cbn [delivered dropped message_maps ReceiveMsgWithFDs fst app].
  by rewrite !app_nil_r.
Qed.

(** ** Theorems *)

(** C15: The books of a node that serves one hub after another.  In any run
    of accepted connections, handshakes and messages in which no handshake is
    made during a session, the descriptors that the kernel installed with all
    the packets are, each exactly once: closed, or one of the two eventfds of
    the open session, or lost with a packet whose control data does not parse.
    The mappings made are those undone and the chunks the node holds.  With no
    session open all of them have been released, but for the lost
    descriptors. *)
Theorem serve_balanced mmap l s :
  (forall fd d, mmap fd = Some d -> sl_len d = ChunkSize) -> prun mmap serve_init l = Some s ->
  let fds := concat (delivered <$> omap packet_of l) in
  let lost := concat (dropped <$> omap packet_of l) in
  fds ≡ₚ sv_closed s ++ lost ++ held_fds (sv_node s) (sv_conns s) /\
  sv_made s ≡ₚ sv_undone s ++ held_maps (sv_node s) (sv_conns s) /\
  ((COpen ∉ sv_conns s) -> fds ≡ₚ sv_closed s ++ lost /\ sv_made s ≡ₚ sv_undone s).
Proof.
  intros Hm Hr fds lost. destruct (prun_books mmap Hm l serve_init s books_init Hr) as ([_ _ H3 H4] & Hg & Hl).
  cbn [serve_init sv_got sv_lost app] in Hg, Hl. rewrite Hg, Hl in H3. fold fds lost in H3.
  split; [done|]. split; [done|].
  intros Hno. unfold held_fds in H3. unfold held_maps in H4.
  rewrite decide_False, app_nil_r in H3 by done.
  rewrite decide_False, app_nil_r in H4 by done. done.
Qed.

(** Two sessions one after the other, the second with a chunk that arrives
    late. *)
Definition demo_mmap (fd : Z) : option slice := Some (Slice (fd * ChunkSize) ChunkSize).
Definition demo_hello (ev : Z) : packet :=
  Some (7, HandshakeMessage 3, inr [Some [ev; ev + 1; ev + 2]]).
Definition demo_acts : list sact :=
  [Accept UnixConn; Accept AcceptError; Shake 0 (demo_hello 10); Message 0 None;
   Accept UnixConn; Shake 1 (demo_hello 20);
   Message 1 (Some (1, [MsgNewChunk], inr [Some [25]])); Message 1 (Some (1, [MsgNewChunk], inr [Some [26]; None]))].

Lemma serve_balanced_witness :
  exists s, prun demo_mmap serve_init demo_acts = Some s /\ sv_conns s = [CEnd; CEnd] /\
    [10; 11; 12; 20; 21; 22; 25; 26] ≡ₚ sv_closed s ++ [26] /\ sv_made s ≡ₚ sv_undone s.
Proof.
  destruct (prun demo_mmap serve_init demo_acts) as [s|] eqn:E; [|vm_compute in E; discriminate].
  exists s. split; [reflexivity|].
  assert (Hc : sv_conns <$> prun demo_mmap serve_init demo_acts = Some [CEnd; CEnd])
    by (vm_compute; reflexivity).
  rewrite E in Hc. injection Hc as Hc. split; [exact Hc|].
  destruct (serve_balanced demo_mmap demo_acts s) as (_ & _ & H).
  - intros fd d [= <-]. reflexivity.
  - exact E.
  - apply H. rewrite Hc. intros Hin.
    repeat (apply elem_of_cons in Hin as [Hin|Hin]; [discriminate Hin|]). by apply elem_of_nil in Hin.
Defined.

(** C36: Sessions that overlap are not kept apart.  If a second hub's handshake
    succeeds while the first session is open, and then both connections
    break, every connection is over, but only the second session's mappings
    have been undone and only its eventfds closed: those of the first are
    lost. *)
Theorem serve_overlap_leaks mmap p1 p2 s1 s2 cl1 cl2 :
  (forall fd d, mmap fd = Some d -> sl_len d = ChunkSize) ->
  handshake mmap (ReceiveMsgWithFDs p1).1 = Ret (inr s1, cl1, []) ->
  handshake mmap (ReceiveMsgWithFDs p2).1 = Ret (inr s2, cl2, []) ->
  0 <= NodeEv s2 -> 0 <= HubEv s2 ->
  exists s, srun mmap serve_init [Accept UnixConn; Accept UnixConn; Shake 0 p1; Shake 1 p2;
      Message 0 None; Message 1 None] = Some s /\
    sv_conns s = [CEnd; CEnd] /\
    sv_got s = (NodeEv s1 :: HubEv s1 :: cl1) ++ (NodeEv s2 :: HubEv s2 :: cl2) /\
    sv_closed s = cl1 ++ cl2 ++ [NodeEv s2; HubEv s2] /\
    sv_made s = (CData <$> Chunks s1) ++ (CData <$> Chunks s2) /\
    sv_undone s = CData <$> Chunks s2.
Proof.
  intros Hm E1 E2 Hn Hh.
  set (i2 := mkServing NewNode [CWait; CWait] [] [] [] [] []).
  change (srun mmap serve_init _) with (srun mmap i2 [Shake 0 p1; Shake 1 p2; Message 0 None; Message 1 None]).
  destruct (shake_opens mmap i2 0 p1 s1 cl1 Hm eq_refl E1) as [F1 _]. cbn [srun srun1]. rewrite F1.
  cbn [mbind option_bind]. set (i3 := mkServing _ _ _ _ _ _ _).
  destruct (shake_opens mmap i3 1 p2 s2 cl2 Hm eq_refl E2) as [F2 Hcs]. rewrite F2.
  cbn [mbind option_bind]. set (i4 := mkServing _ _ _ _ _ _ _).
  destruct (end_session_ok (sv_node i4)) as (n5 & F3 & Hc5 & He5 & Hh5); [done|done|done|].
  rewrite (broken_ends mmap i4 0 _ _ _ eq_refl F3). cbn [mbind option_bind].
  set (i5 := mkServing _ _ _ _ _ _ _).
  assert (F4 : exists n6, end_session (sv_node i5) = (n6, [], [])).
  { unfold end_session, Eventfd_Close. cbn [sv_node i5]. rewrite Hc5, He5, Hh5. by eexists. }
  destruct F4 as [n6 F4]. rewrite (broken_ends mmap i5 1 _ _ _ eq_refl F4). cbn [mbind option_bind].
  eexists. split; [reflexivity|].
  cbn [i5 i4 i3 i2 sv_conns sv_got sv_closed sv_made sv_undone app insert list_insert loadSession
    sv_node nodeEv hubEv nchunks]. rewrite !app_nil_r. unfold AttachEventfd.
  rewrite <- app_assoc. done.
Qed.

Lemma serve_overlap_leaks_witness :
  exists s, srun demo_mmap serve_init [Accept UnixConn; Accept UnixConn; Shake 0 (demo_hello 10);
      Shake 1 (demo_hello 20); Message 0 None; Message 1 None] = Some s /\
    sv_conns s = [CEnd; CEnd] /\ sv_got s = [10; 11; 12; 20; 21; 22] /\
    sv_closed s = [12; 22; 20; 21].
Proof.
  destruct (handshake demo_mmap (ReceiveMsgWithFDs (demo_hello 10)).1)
    as [[[[?|s1] cl1] un1]| |] eqn:E1; try (vm_compute in E1; discriminate).
  destruct (handshake demo_mmap (ReceiveMsgWithFDs (demo_hello 20)).1)
    as [[[[?|s2] cl2] un2]| |] eqn:E2; try (vm_compute in E2; discriminate).
  pose proof E1 as V1. pose proof E2 as V2. vm_compute in V1, V2.
  injection V1 as V1 <- <-. injection V2 as V2 <- <-.
  destruct (serve_overlap_leaks demo_mmap (demo_hello 10) (demo_hello 20) s1 s2 [12] [22])
    as (s & E & Hc & Hg & Hcl & _).
  - intros fd d [= <-]. reflexivity.
  - exact E1.
  - exact E2.
  - rewrite <- V2. vm_compute. discriminate.
  - rewrite <- V2. vm_compute. discriminate.
  - exists s. split; [exact E|]. split; [exact Hc|]. rewrite Hg, Hcl, <- V1, <- V2. split; reflexivity.
Defined.
