(* ===== verification/Delivery.v ===== *)
(** * Delivery of responses

    Connections call [Next] and [Close] (go/hub/conn.go) in goroutines of
    their own, the dispatch loop and the goroutines of [handleExpandRequest]
    (go/hub/hub.go) wake them through the waiter table and through channels
    that [donePool] recycles.  Each access to shared state is a step here.
    The waiter table holds pointers to the field [done] of a connection, as in
    the code, and the field is read when the message is sent.

    The queues are lists, as the queue's own refinement theorems allow, and
    the way of a command through a request queue and the node's event loop is
    part of the step that causes it.  A node runs [processSlot] on a slot it
    was handed: its handler may ask for blocks, return or panic, also after an
    expansion was refused, when [failed] is set and a return no longer
    answers.  A [RequestExpand] that finds the queue full returns an error and
    changes nothing here.  The theorems on delivery are about handlers that
    return once an expansion was refused ([obedient]); what the others can do
    to the hub is shown at the end.  The nodes stay connected here; what is
    done when one goes is the subject of Cleanup.v. *)
From stdpp Require Import base tactics list numbers option gmap relations.
From Stdlib Require Import ZArith Lia.
From S2P Require Import Prelude Layout.
#[local] Open Scope Z_scope.

(** ** State *)

(** Where a connection is: outside [Next], at one of its steps, or at one of
    the steps of [Close]. *)
Inductive npc : Type :=
| NIdle | NPoll | NSet | NClear | NStore | NSubmit | NWait
| NUnwait | NPut | NFree | NNil | NClosed.

(** [cg_res] is what [Next] last received. *)
Record conn_g : Type := mkCG {
  cg_slot : Z;
  cg_done : option nat;
  cg_pc : npc;
  cg_res : option (option goerror);
}.

(** The dispatch loop: about to pop, about to swap the waiter of a slot, about
    to read the field of a connection, about to send. *)
Inductive dpc : Type := DPop | DSwap (s : Z) | DField (i : nat) | DSend (ch : nat).

(** [handleExpandRequest]: before the allocation, and the steps of the error
    report. *)
Inductive epc : Type :=
| EReq (s : Z) | ELoad (s : Z) | EField (i : nat) | ESend (ch : nat) | EEnd.

(** A slot in the hands of a node: its handler works, waits for blocks, works
    on after a refusal ([conn.failed]), or has ended and is about to answer.
    [HAsk] keeps whether an earlier expansion was refused. *)
Inductive hpc : Type :=
| HRun (s : Z) | HAsk (s : Z) (failed : bool) | HFailed (s : Z) | HDone (s : Z) | HEnd.

(** [mail] is what the channels contain; channel numbers are below [fresh]. *)
Record vstate : Type := mkD {
  conns : list conn_g;
  dwaiters : gmap Z nat;
  mail : list (nat * option goerror);
  pool : list nat;
  fresh : nat;
  status : gmap Z Z;
  handlers : list hpc;
  respq : list (Z * Z);
  disp : dpc;
  expanders : list epc;
}.

Definition vinit : vstate := mkD [] ∅ [] [] 0 ∅ [] [] DPop [].

#[export] Instance npc_eq_dec : EqDecision npc.
Proof. solve_decision. Defined.
#[export] Instance dpc_eq_dec : EqDecision dpc.
Proof. solve_decision. Defined.
#[export] Instance hpc_eq_dec : EqDecision hpc.
Proof. solve_decision. Defined.
#[export] Instance epc_eq_dec : EqDecision epc.
Proof. solve_decision. Defined.

Definition set_conns (d : vstate) (l : list conn_g) : vstate :=
  mkD l (dwaiters d) (mail d) (pool d) (fresh d) (status d) (handlers d) (respq d) (disp d) (expanders d).
Definition set_dwaiters (d : vstate) (w : gmap Z nat) : vstate :=
  mkD (conns d) w (mail d) (pool d) (fresh d) (status d) (handlers d) (respq d) (disp d) (expanders d).
Definition set_mail (d : vstate) (l : list (nat * option goerror)) : vstate :=
  mkD (conns d) (dwaiters d) l (pool d) (fresh d) (status d) (handlers d) (respq d) (disp d) (expanders d).
Definition set_pool (d : vstate) (l : list nat) (n : nat) : vstate :=
  mkD (conns d) (dwaiters d) (mail d) l n (status d) (handlers d) (respq d) (disp d) (expanders d).
Definition set_status (d : vstate) (s v : Z) : vstate :=
  mkD (conns d) (dwaiters d) (mail d) (pool d) (fresh d) (<[s := v]> (status d)) (handlers d) (respq d)
    (disp d) (expanders d).
Definition set_handlers (d : vstate) (l : list hpc) : vstate :=
  mkD (conns d) (dwaiters d) (mail d) (pool d) (fresh d) (status d) l (respq d) (disp d) (expanders d).
Definition set_respq (d : vstate) (l : list (Z * Z)) : vstate :=
  mkD (conns d) (dwaiters d) (mail d) (pool d) (fresh d) (status d) (handlers d) l (disp d) (expanders d).
Definition set_disp (d : vstate) (p : dpc) : vstate :=
  mkD (conns d) (dwaiters d) (mail d) (pool d) (fresh d) (status d) (handlers d) (respq d) p (expanders d).
Definition set_expanders (d : vstate) (l : list epc) : vstate :=
  mkD (conns d) (dwaiters d) (mail d) (pool d) (fresh d) (status d) (handlers d) (respq d) (disp d) l.

Definition goto (d : vstate) (i : nat) (c : conn_g) (p : npc) : vstate :=
  set_conns d (<[i := mkCG (cg_slot c) (cg_done c) p (cg_res c)]> (conns d)).

(** ** Channels *)

(** A channel of capacity one takes a message when it is empty. *)
Definition post (d : vstate) (ch : nat) (v : option goerror) : option vstate :=
  if decide (ch ∈ (mail d).*1) then None else Some (set_mail d (mail d ++ [(ch, v)])).

Fixpoint receive (ch : nat) (l : list (nat * option goerror))
  : option (option goerror * list (nat * option goerror)) :=
  match l with
  | [] => None
  | (c, v) :: l' =>
      if decide (c = ch) then Some (v, l')
      else r ← receive ch l'; Some (r.1, (c, v) :: r.2)
  end.

Definition drain_mail (ch : nat) (l : list (nat * option goerror)) : list (nat * option goerror) :=
  filter (fun x => x.1 <> ch) l.

Definition slot_status (d : vstate) (s : Z) : Z := default StripeStatusIdle (status d !! s).

(** ** The connections *)

(** A request: a slot that was idle, and a channel of the pool (its position)
    or a new one. *)
Definition open_conn (d : vstate) (s : Z) (k : option nat) : option vstate :=
  if decide (1 <= s <= MaxTotalSlots /\ slot_status d s = StripeStatusIdle) then
    r ← match k with
        | None => Some (fresh d, pool d, S (fresh d))
        | Some k => ch ← pool d !! k; Some (ch, delete k (pool d), fresh d)
        end;
    let '(ch, p, n) := r in
    Some (set_status (set_pool (set_conns d (conns d ++ [mkCG s (Some ch) NIdle None])) p n)
            s StripeStatusReady)
  else None.

(** One step of [Next] of connection [i]; [None] while it waits. *)
Definition next_step (d : vstate) (i : nat) (c : conn_g) : option vstate :=
  match cg_pc c with
  | NPoll =>
      if decide (slot_status d (cg_slot c) = StripeStatusDone \/
                 slot_status d (cg_slot c) = StripeStatusReady)
      then Some (goto d i c NSet) else None
  | NSet => Some (goto (set_status d (cg_slot c) StripeStatusBusy) i c NClear)
  | NClear => ch ← cg_done c; Some (goto (set_mail d (drain_mail ch (mail d))) i c NStore)
  | NStore => Some (goto (set_dwaiters d (<[cg_slot c := i]> (dwaiters d))) i c NSubmit)
  | NSubmit => Some (goto (set_handlers d (handlers d ++ [HRun (cg_slot c)])) i c NWait)
  | NWait =>
      ch ← cg_done c; r ← receive ch (mail d);
      Some (set_conns (set_mail d r.2)
              (<[i := mkCG (cg_slot c) (cg_done c) NIdle (Some r.1)]> (conns d)))
  | _ => None
  end.

(** One step of [Close], after the blocks were freed. *)
Definition close_step (d : vstate) (i : nat) (c : conn_g) : option vstate :=
  match cg_pc c with
  | NUnwait => Some (goto (set_dwaiters d (delete (cg_slot c) (dwaiters d))) i c NPut)
  | NPut => ch ← cg_done c; Some (goto (set_pool d (pool d ++ [ch]) (fresh d)) i c NFree)
  | NFree => Some (goto (set_status d (cg_slot c) StripeStatusIdle) i c NNil)
  | NNil => Some (set_conns d (<[i := mkCG (cg_slot c) None NClosed (cg_res c)]> (conns d)))
  | _ => None
  end.

Definition conn_step (d : vstate) (i : nat) : option vstate :=
  c ← conns d !! i;
  match cg_pc c with
  | NIdle | NClosed => None
  | NUnwait | NPut | NFree | NNil => close_step d i c
  | _ => next_step d i c
  end.

(** A call of [Next], of [Close], and a [Next] that gives up polling. *)
Definition enter (d : vstate) (i : nat) (from to : npc) : option vstate :=
  c ← conns d !! i;
  if decide (cg_pc c = from) then Some (goto d i c to) else None.

(** ** The hub *)

Definition dispatch_step (d : vstate) : option vstate :=
  match disp d with
  | DPop =>
      match respq d with
      | [] => None
      | (s, cmd) :: q =>
          if decide (cmd = CMD_PROCESS) then Some (set_disp (set_respq d q) (DSwap s))
          else if decide (cmd = CMD_REQUEST_EXPAND) then
            Some (set_expanders (set_respq d q) (expanders d ++ [EReq s]))
          else Some (set_respq d q)
      end
  | DSwap s =>
      Some (set_disp (set_dwaiters d (delete s (dwaiters d)))
              match dwaiters d !! s with Some i => DField i | None => DPop end)
  | DField i => c ← conns d !! i; ch ← cg_done c; Some (set_disp d (DSend ch))
  | DSend ch => d' ← post d ch None; Some (set_disp d' DPop)
  end.

(** The error report of an expansion. *)
Definition expander_step (d : vstate) (e : nat) : option vstate :=
  p ← expanders d !! e;
  match p with
  | EReq _ | EEnd => None
  | ELoad s =>
      Some (set_expanders d
              (<[e := match dwaiters d !! s with Some i => EField i | None => EEnd end]> (expanders d)))
  | EField i => c ← conns d !! i; ch ← cg_done c; Some (set_expanders d (<[e := ESend ch]> (expanders d)))
  | ESend ch => d' ← post d ch (Some ErrAlloc); Some (set_expanders d' (<[e := EEnd]> (expanders d')))
  end.

(** The decision on the request of handler [k]. *)
Definition decide_expand (d : vstate) (e k : nat) (refuse : bool) : option vstate :=
  p ← expanders d !! e;
  h ← handlers d !! k;
  match p, h with
  | EReq s, HAsk s' failed =>
      if decide (s = s') then
        Some (if refuse then
                set_handlers (set_expanders d (<[e := ELoad s]> (expanders d))) (<[k := HFailed s]> (handlers d))
              else
                set_handlers (set_expanders d (<[e := EEnd]> (expanders d)))
                  (<[k := if failed : bool then HFailed s else HRun s]> (handlers d)))
      else None
  | _, _ => None
  end.

(** ** The nodes *)

(** The end of [processSlot] with an answer: the handler returns and no
    expansion was refused, or it panics. *)
Definition handler_step (d : vstate) (k : nat) : option vstate :=
  h ← handlers d !! k;
  match h with
  | HRun s | HFailed s => Some (set_handlers (set_status d s StripeStatusDone) (<[k := HDone s]> (handlers d)))
  | HDone s =>
      if decide (Z.of_nat (length (respq d)) < QueueSize - 1) then
        Some (set_handlers (set_respq d (respq d ++ [(s, CMD_PROCESS)])) (<[k := HEnd]> (handlers d)))
      else None
  | HAsk _ _ | HEnd => None
  end.

(** Its end without one: the handler returns after a refused expansion. *)
Definition leave_step (d : vstate) (k : nat) : option vstate :=
  h ← handlers d !! k;
  match h with
  | HFailed _ => Some (set_handlers d (<[k := HEnd]> (handlers d)))
  | _ => None
  end.

Definition ask (d : vstate) (k : nat) (s : Z) (failed : bool) : option vstate :=
  if decide (Z.of_nat (length (respq d)) < QueueSize - 1) then
    Some (set_handlers (set_respq d (respq d ++ [(s, CMD_REQUEST_EXPAND)])) (<[k := HAsk s failed]> (handlers d)))
  else None.

(** [RequestExpand], also by a handler that goes on after a refusal. *)
Definition ask_step (d : vstate) (k : nat) : option vstate :=
  h ← handlers d !! k;
  match h with
  | HRun s => ask d k s false
  | HFailed s => ask d k s true
  | _ => None
  end.

(** ** Runs *)
Inductive vact : Type :=
| Open (s : Z) (k : option nat)
| Call (i : nat)
| TimeOut (i : nat)
| Shut (i : nat)
| Conn (i : nat)
| Dispatch
| Expander (e : nat)
| Grant (e k : nat)
| Refuse (e k : nat)
| Handle (k : nat)
| Leave (k : nat)
| Ask (k : nat).

Definition vrun1 (d : vstate) (a : vact) : option vstate :=
  match a with
  | Open s k => open_conn d s k
  | Call i => enter d i NIdle NPoll
  | TimeOut i => enter d i NPoll NIdle
  | Shut i => enter d i NIdle NUnwait
  | Conn i => conn_step d i
  | Dispatch => dispatch_step d
  | Expander e => expander_step d e
  | Grant e k => decide_expand d e k false
  | Refuse e k => decide_expand d e k true
  | Handle k => handler_step d k
  | Leave k => leave_step d k
  | Ask k => ask_step d k
  end.

Fixpoint vrun (d : vstate) (l : list vact) : option vstate :=
  match l with
  | [] => Some d
  | a :: l' => d' ← vrun1 d a; vrun d' l'
  end.

(** ** Specification vocabulary *)

(** Handler [k] goes on after a refused expansion. *)
Definition refused (d : vstate) (k : nat) : bool :=
  match handlers d !! k with Some (HFailed _) => true | _ => false end.

(** A handler whose expansion was refused returns: it neither panics nor asks
    again. *)
Definition obedient (d : vstate) (a : vact) : Prop :=
  match a with Handle k | Ask k => refused d k = false | _ => True end.

#[export] Instance obedient_dec d a : Decision (obedient d a).
Proof. destruct a; cbn; apply _. Defined.

Definition obedient_step (d d' : vstate) : Prop := exists a, obedient d a /\ vrun1 d a = Some d'.

(** All the actions of a run are obedient. *)
Fixpoint obeys (d : vstate) (l : list vact) : bool :=
  match l with
  | [] => true
  | a :: l' => bool_decide (obedient d a) && match vrun1 d a with Some d' => obeys d' l' | None => true end
  end.

(** What will wake a connection, named by the slot, the connection or the
    channel it has got to, and whether it stands for a response. *)
Inductive target : Type := TSlot (s : Z) | TConn (i : nat) | TChan (ch : nat).
Definition token : Type := target * bool.

Definition htok (h : hpc) : option token :=
  match h with
  | HRun s | HAsk s false => Some (TSlot s, false)
  | HDone s => Some (TSlot s, true)
  | HAsk _ true | HFailed _ | HEnd => None
  end.
Definition rtok (x : Z * Z) : option token :=
  if decide (x.2 = CMD_PROCESS) then Some (TSlot x.1, true) else None.
Definition dtok (p : dpc) : option token :=
  match p with
  | DPop => None
  | DSwap s => Some (TSlot s, true)
  | DField i => Some (TConn i, true)
  | DSend ch => Some (TChan ch, true)
  end.
Definition etok (p : epc) : option token :=
  match p with
  | EReq _ | EEnd => None
  | ELoad s => Some (TSlot s, false)
  | EField i => Some (TConn i, false)
  | ESend ch => Some (TChan ch, false)
  end.
Definition mtok (x : nat * option goerror) : token := (TChan x.1, bool_decide (x.2 = None)).

Definition tokens (d : vstate) : list token :=
  omap htok (handlers d) ++ omap rtok (respq d) ++ option_list (dtok (disp d)) ++
  omap etok (expanders d) ++ (mtok <$> mail d).

Definition belongs (i : nat) (c : conn_g) (t : target) : Prop :=
  match t with
  | TSlot s => cg_slot c = s
  | TConn j => j = i
  | TChan ch => cg_done c = Some ch
  end.

#[export] Instance belongs_dec i c t : Decision (belongs i c t).
Proof. destruct t; cbn; apply _. Defined.

(** How many things under way will wake connection [i]. *)
Definition inflight (d : vstate) (i : nat) (c : conn_g) : nat :=
  length (filter (fun t : token => belongs i c t.1) (tokens d)).

(** ** Invariants *)

Definition owns_slot (c : conn_g) : Prop := cg_pc c <> NNil /\ cg_pc c <> NClosed.
Definition owns_chan (c : conn_g) : Prop := owns_slot c /\ cg_pc c <> NFree.

(** Slots and channels have one owner each. *)
Record sinv (d : vstate) : Prop := {
  si_slots : forall i j c c', conns d !! i = Some c -> conns d !! j = Some c' ->
    owns_slot c -> owns_slot c' -> cg_slot c = cg_slot c' -> i = j;
  si_busy : forall i c, conns d !! i = Some c -> owns_slot c ->
    slot_status d (cg_slot c) <> StripeStatusIdle;
  si_chans : forall i j c c', conns d !! i = Some c -> conns d !! j = Some c' ->
    owns_chan c -> owns_chan c' -> cg_done c = cg_done c' -> i = j;
  si_owned : forall i c, conns d !! i = Some c -> owns_chan c ->
    exists ch, cg_done c = Some ch /\ (ch ∉ pool d) /\ (ch < fresh d)%nat;
  si_pool : NoDup (pool d) /\ Forall (fun ch => (ch < fresh d)%nat) (pool d);
  si_sub : forall i c, conns d !! i = Some c -> cg_pc c = NSubmit -> dwaiters d !! cg_slot c = Some i;
}.

(** A token leads to the connection it belongs to. *)
Record good (d : vstate) (i : nat) (c : conn_g) (t : token) : Prop := {
  gd_wait : cg_pc c = NWait;
  gd_own : belongs i c t.1;
  gd_done : t.2 = true -> slot_status d (cg_slot c) = StripeStatusDone;
  gd_ptr : forall s, t.1 = TSlot s -> dwaiters d !! s = Some i;
}.

Definition vals (O : gmap nat token) : list token := (map_to_list O).*2.

(** Each waiting connection has one token, and there are no others. *)
Record tinv (d : vstate) (O : gmap nat token) : Prop := {
  ti_all : tokens d ≡ₚ vals O;
  ti_good : forall i t, O !! i = Some t -> exists c, conns d !! i = Some c /\ good d i c t;
  ti_wait : forall i c, conns d !! i = Some c -> cg_pc c = NWait -> is_Some (O !! i);
}.

(** The handlers that wait for blocks are those whose requests are in the
    queue or being decided; none of them was refused blocks before. *)
Definition asks (h : hpc) : option Z := match h with HAsk s _ => Some s | _ => None end.
Definition asked (x : Z * Z) : option Z := if decide (x.2 = CMD_REQUEST_EXPAND) then Some x.1 else None.
Definition asking (p : epc) : option Z := match p with EReq s => Some s | _ => None end.

Record ainv (d : vstate) : Prop := {
  ai_asks : omap asks (handlers d) ≡ₚ omap asked (respq d) ++ omap asking (expanders d);
  ai_once : Forall (fun h => forall s, h <> HAsk s true) (handlers d);
}.

(** ** Lists *)

Lemma omap_insert_perm {A B} (f : A -> option B) l k x :
  l !! k = Some x ->
  exists R, omap f l ≡ₚ option_list (f x) ++ R /\
    forall y, omap f (<[k := y]> l) ≡ₚ option_list (f y) ++ R.
Proof.
  intros Hk. exists (omap f (take k l) ++ omap f (drop (S k) l)).
  assert (H : forall y, omap f (<[k := y]> l) ≡ₚ
    option_list (f y) ++ omap f (take k l) ++ omap f (drop (S k) l)).
  { intros y. rewrite insert_take_drop by (by eapply lookup_lt_Some). rewrite omap_app.
    cbn [omap list_omap]. destruct (f y); cbn [option_list]; [|done].
    by rewrite <- Permutation_middle. }
  split; [|done]. specialize (H x). by rewrite list_insert_id in H.
Qed.

Lemma vals_remove O t R :
  t :: R ≡ₚ vals O -> exists i, O !! i = Some t /\ R ≡ₚ vals (delete i O).
Proof.
  intros H. assert (Hin : t ∈ vals O) by (rewrite <- H; apply list_elem_of_here).
  unfold vals in Hin. apply list_elem_of_fmap in Hin as ([i t'] & -> & Hin).
  apply elem_of_map_to_list in Hin. exists i. split; [done|]. cbn [snd] in H.
  apply (Permutation_cons_inv (a := t')). rewrite H. unfold vals.
  by rewrite <- (map_to_list_delete O i t' Hin).
Qed.

Lemma vals_insert O i t : O !! i = None -> vals (<[i := t]> O) ≡ₚ t :: vals O.
Proof. intros H. unfold vals. by rewrite map_to_list_insert. Qed.

Lemma receive_perm ch l v l' :
  receive ch l = Some (v, l') -> l ≡ₚ (ch, v) :: l'.
Proof.
  revert l'. induction l as [|[c w] l IH]; intros l' H; cbn [receive] in H; [done|].
  case_decide as Hc; [subst; by injection H as -> ->|].
  apply bind_Some in H as ([v' l1] & E & [= <- <-]). cbn [fst snd] in *.
  rewrite (IH l1 E). constructor.
Qed.

Lemma drain_mail_absent ch l : ch ∉ l.*1 -> drain_mail ch l = l.
Proof.
  unfold drain_mail. induction l as [|x l IH]; intros H; [done|]. cbn [fmap list_fmap] in H.
  apply not_elem_of_cons in H as [Hx H]. rewrite filter_cons_True by done. by rewrite IH.
Qed.

(** ** Preservation *)

(** A step that moves one token on, under the connections as they are. *)
Lemma tinv_move d d' O t t' R :
  tinv d O -> tokens d ≡ₚ t :: R -> tokens d' ≡ₚ t' :: R -> conns d' = conns d ->
  (forall i c, conns d !! i = Some c -> good d i c t -> good d' i c t' /\
    forall j cj u, conns d !! j = Some cj -> j <> i -> good d j cj u -> good d' j cj u) ->
  exists O', tinv d' O'.
Proof.
  intros [Hall Hgood Hwait] Ht Ht' Hc Hg. rewrite Ht in Hall.
  destruct (vals_remove O t R Hall) as (i & Hi & HR). destruct (Hgood _ _ Hi) as (c & Hci & Hgi).
  destruct (Hg _ _ Hci Hgi) as [Hgi' Hrest].
  exists (<[i := t']> (delete i O)). split.
  - rewrite Ht', vals_insert by apply lookup_delete_eq. by rewrite HR.
  - intros j u. rewrite insert_delete_eq, Hc. destruct (decide (j = i)) as [->|Hne].
    + rewrite lookup_insert_eq. intros [= <-]. by exists c.
    + rewrite lookup_insert_ne by done. intros Hj. destruct (Hgood _ _ Hj) as (cj & Hcj & Hgj).
      exists cj. split; [done|]. by eapply Hrest.
  - intros j cj. rewrite Hc, insert_delete_eq. intros Hj Hw. destruct (decide (j = i)) as [->|Hne].
    + rewrite lookup_insert_eq. by eexists.
    + rewrite lookup_insert_ne by done. by eapply Hwait.
Qed.

(** A step of a connection outside its wait. *)
Lemma tinv_quiet d d' O i c c' :
  tinv d O -> conns d !! i = Some c -> cg_pc c <> NWait -> cg_pc c' <> NWait ->
  conns d' = <[i := c']> (conns d) -> tokens d' ≡ₚ tokens d ->
  (forall j cj u, conns d !! j = Some cj -> j <> i -> good d j cj u -> good d' j cj u) -> tinv d' O.
Proof.
  intros [Hall Hgood Hwait] Hi Hp Hp' Hc Ht Hrest.
  pose proof (lookup_lt_Some _ _ _ Hi) as Hlt. split; [by rewrite Ht|..]; rewrite Hc; intros j.
  - intros u Hj. destruct (Hgood _ _ Hj) as (cj & Hcj & Hgj).
    destruct (decide (j = i)) as [->|Hne]; [pose proof (gd_wait _ _ _ _ Hgj); congruence|].
    exists cj. rewrite list_lookup_insert_ne by done. split; [done|]. by eapply Hrest.
  - intros cj Hj Hw. destruct (decide (j = i)) as [->|Hne].
    + rewrite list_lookup_insert_eq in Hj by done. congruence.
    + rewrite list_lookup_insert_ne in Hj by done. by eapply Hwait.
Qed.

(** A connection that starts, or ends, its wait. *)
Lemma tinv_start d d' O i c c' t :
  tinv d O -> conns d !! i = Some c -> cg_pc c <> NWait -> conns d' = <[i := c']> (conns d) ->
  tokens d' ≡ₚ t :: tokens d -> good d' i c' t ->
  (forall j cj u, conns d !! j = Some cj -> j <> i -> good d j cj u -> good d' j cj u) ->
  tinv d' (<[i := t]> O).
Proof.
  intros [Hall Hgood Hwait] Hi Hp Hc Ht Hg Hrest. pose proof (lookup_lt_Some _ _ _ Hi) as Hlt.
  assert (HO : O !! i = None).
  { destruct (O !! i) as [u|] eqn:E; [|done]. destruct (Hgood _ _ E) as (ci & Hci & Hgi).
    pose proof (gd_wait _ _ _ _ Hgi). congruence. }
  split; [by rewrite Ht, vals_insert, Hall|..]; rewrite Hc; intros j.
  - intros u. destruct (decide (j = i)) as [->|Hne].
    + rewrite lookup_insert_eq, list_lookup_insert_eq by done. intros [= <-]. by exists c'.
    + rewrite lookup_insert_ne, list_lookup_insert_ne by done. intros Hj.
      destruct (Hgood _ _ Hj) as (cj & Hcj & Hgj). exists cj. split; [done|]. by eapply Hrest.
  - intros cj Hj Hw. destruct (decide (j = i)) as [->|Hne].
    + rewrite lookup_insert_eq. by eexists.
    + rewrite lookup_insert_ne by done. rewrite list_lookup_insert_ne in Hj by done. by eapply Hwait.
Qed.

Lemma tinv_finish d d' O i c c' t :
  tinv d O -> conns d !! i = Some c -> cg_pc c' <> NWait -> conns d' = <[i := c']> (conns d) ->
  tokens d ≡ₚ t :: tokens d' ->
  (forall j cj, conns d !! j = Some cj -> good d j cj t -> j = i) ->
  (forall j cj u, conns d !! j = Some cj -> good d j cj u -> good d' j cj u) ->
  tinv d' (delete i O).
Proof.
  intros [Hall Hgood Hwait] Hi Hp' Hc Ht Hown Hrest. rewrite Ht in Hall.
  pose proof (lookup_lt_Some _ _ _ Hi) as Hlt.
  destruct (vals_remove O t _ Hall) as (k & Hk & HR). destruct (Hgood _ _ Hk) as (ck & Hck & Hgk).
  rewrite (Hown _ _ Hck Hgk) in *. split; [done|..]; rewrite Hc; intros j.
  - intros u. rewrite lookup_delete_Some. intros [Hne Hj].
    rewrite list_lookup_insert_ne by done. destruct (Hgood _ _ Hj) as (cj & Hcj & Hgj).
    exists cj. split; [done|]. by eapply Hrest.
  - intros cj Hj Hw. destruct (decide (j = i)) as [->|Hne].
    + rewrite list_lookup_insert_eq in Hj by done. congruence.
    + rewrite list_lookup_insert_ne in Hj by done. rewrite lookup_delete_ne by done. by eapply Hwait.
Qed.

(** What another connection's slot goes through does not matter. *)
Lemma good_other d d' i c j cj u :
  sinv d -> conns d !! i = Some c -> owns_slot c -> conns d !! j = Some cj -> j <> i ->
  good d j cj u ->
  (forall s, s <> cg_slot c -> slot_status d' s = slot_status d s /\ dwaiters d' !! s = dwaiters d !! s) ->
  good d' j cj u.
Proof.
  intros Hs Hi Ho Hj Hne [H1 H2 H3 H4] Hsame.
  assert (Hsl : cg_slot cj <> cg_slot c).
  { intros E. apply Hne. eapply (si_slots _ Hs); try done. by split; rewrite H1. }
  destruct (Hsame _ Hsl) as [Hst Hw]. split; [done|done|by rewrite Hst|].
  intros s Es. rewrite Es in H2. cbn in H2. rewrite <- H2 in *. rewrite Hw. by apply H4.
Qed.

(** A step of a connection touches its own slot and channel. *)
Lemma sinv_conn d d' i c c' :
  sinv d -> conns d !! i = Some c -> conns d' = <[i := c']> (conns d) -> cg_slot c' = cg_slot c ->
  (owns_slot c' -> owns_slot c) -> (owns_chan c' -> owns_chan c /\ cg_done c' = cg_done c) ->
  (forall s, (owns_slot c -> s <> cg_slot c) ->
     slot_status d' s = slot_status d s /\ dwaiters d' !! s = dwaiters d !! s) ->
  (owns_slot c' -> slot_status d' (cg_slot c) <> StripeStatusIdle) -> fresh d' = fresh d ->
  (pool d' = pool d \/ exists ch, cg_done c = Some ch /\ owns_chan c /\ ~ owns_chan c' /\
     pool d' = pool d ++ [ch]) ->
  (cg_pc c' = NSubmit -> dwaiters d' !! cg_slot c = Some i) -> sinv d'.
Proof.
  intros Hs Hi Hc Hsl Hos Hoc Hsame Hst Hf Hp Hsub. pose proof (lookup_lt_Some _ _ _ Hi) as Hlt.
  assert (Hcases : forall j cj, conns d' !! j = Some cj ->
    (j = i /\ cj = c') \/ (j <> i /\ conns d !! j = Some cj)).
  { intros j cj. rewrite Hc. destruct (decide (j = i)) as [->|Hne].
    - rewrite list_lookup_insert_eq by done. intros [= <-]. by left.
    - rewrite list_lookup_insert_ne by done. by right. }
  assert (Hoth : forall j cj, j <> i -> conns d !! j = Some cj -> owns_slot cj ->
    slot_status d' (cg_slot cj) = slot_status d (cg_slot cj) /\
    dwaiters d' !! cg_slot cj = dwaiters d !! cg_slot cj).
  { intros j cj Hne Hj Ho. apply Hsame. intros Hoi E. apply Hne. by eapply (si_slots _ Hs). }
  assert (Hpool : forall j cj ch, j <> i -> conns d !! j = Some cj -> owns_chan cj ->
    cg_done cj = Some ch -> ch ∉ pool d -> ch ∉ pool d').
  { intros j cj ch Hne Hj Ho Hd Hin. destruct Hp as [->|(ch' & Hd' & Hoi & _ & ->)]; [done|].
    rewrite elem_of_app, list_elem_of_singleton. intros [?| ->]; [done|]. apply Hne.
    eapply (si_chans _ Hs); try done. congruence. }
  split.
  - intros j k cj ck [[-> ->]|[Hj Hcj]]%Hcases [[-> ->]|[Hk Hck]]%Hcases Ho1 Ho2 E; try done;
      rewrite ?Hsl in E; eapply (si_slots _ Hs); eauto.
  - intros j cj [[-> ->]|[Hj Hcj]]%Hcases Ho; [rewrite Hsl; by apply Hst|].
    destruct (Hoth j cj Hj Hcj Ho) as [-> _]. by eapply (si_busy _ Hs).
  - intros j k cj ck [[-> ->]|[Hj Hcj]]%Hcases [[-> ->]|[Hk Hck]]%Hcases Ho1 Ho2 E; try done.
    + destruct (Hoc Ho1) as [Ho Hd]. rewrite Hd in E. by eapply (si_chans _ Hs).
    + destruct (Hoc Ho2) as [Ho Hd]. rewrite Hd in E. by eapply (si_chans _ Hs).
    + by eapply (si_chans _ Hs).
  - intros j cj [[-> ->]|[Hj Hcj]]%Hcases Ho; rewrite Hf.
    + destruct (Hoc Ho) as [Ho' ->]. destruct (si_owned _ Hs _ _ Hi Ho') as (ch & Hd & Hn & Hb).
      exists ch. split; [done|]. split; [|done]. destruct Hp as [->|(? & _ & _ & ? & _)]; done.
    + destruct (si_owned _ Hs _ _ Hcj Ho) as (ch & Hd & Hn & Hb). exists ch.
      split; [done|]. split; [|done]. by eapply Hpool.
  - destruct (si_pool _ Hs) as [Hnd Hb]. rewrite Hf.
    destruct Hp as [->|(ch & Hd & Ho & _ & ->)]; [done|].
    destruct (si_owned _ Hs _ _ Hi Ho) as (ch' & Hd' & Hn & Hlt'). rewrite Hd in Hd'.
    injection Hd' as <-. split.
    + apply NoDup_app. split; [done|]. split; [|apply NoDup_singleton].
      intros x Hx ->%list_elem_of_singleton. done.
    + apply Forall_app. split; [done|]. by constructor.
  - intros j cj [[-> ->]|[Hj Hcj]]%Hcases Hpc; [rewrite Hsl; by apply Hsub|].
    assert (Ho : owns_slot cj) by (by split; rewrite Hpc).
    destruct (Hoth j cj Hj Hcj Ho) as [_ ->]. by apply (si_sub _ Hs).
Qed.

(** A step elsewhere leaves slots and channels as they are. *)
Lemma sinv_same d d' :
  sinv d -> conns d' = conns d -> pool d' = pool d -> fresh d' = fresh d ->
  (forall i c, conns d !! i = Some c -> owns_slot c -> slot_status d (cg_slot c) <> StripeStatusIdle ->
     slot_status d' (cg_slot c) <> StripeStatusIdle) ->
  (forall i c, conns d !! i = Some c -> cg_pc c = NSubmit ->
     dwaiters d' !! cg_slot c = dwaiters d !! cg_slot c) -> sinv d'.
Proof.
  intros [H1 H2 H3 H4 H5 H6] Hc Hp Hf Hst Hw.
  split; rewrite ?Hc, ?Hp, ?Hf; try done.
  - intros i c Hi Ho. eapply Hst; eauto.
  - intros i c Hi Hpc. erewrite Hw by done. by apply H6.
Qed.

Definition rinv (d : vstate) : Prop := sinv d /\ (exists O, tinv d O) /\ ainv d.

#[export] Instance owns_slot_dec c : Decision (owns_slot c).
Proof. unfold owns_slot. apply _. Defined.

Lemma slot_status_set d s v s' :
  slot_status (set_status d s v) s' = if decide (s' = s) then v else slot_status d s'.
Proof.
  unfold slot_status. cbn [status set_status]. case_decide as E; [subst; by rewrite lookup_insert_eq|].
  by rewrite lookup_insert_ne.
Qed.

(** Any step of a connection other than the start and the end of its wait. *)
Lemma rinv_quiet d d' i c c' :
  rinv d -> conns d !! i = Some c -> conns d' = <[i := c']> (conns d) -> cg_slot c' = cg_slot c ->
  cg_pc c <> NWait -> cg_pc c' <> NWait ->
  (owns_slot c' -> owns_slot c) -> (owns_chan c' -> owns_chan c /\ cg_done c' = cg_done c) ->
  (forall s, (owns_slot c -> s <> cg_slot c) ->
     slot_status d' s = slot_status d s /\ dwaiters d' !! s = dwaiters d !! s) ->
  (owns_slot c' -> slot_status d' (cg_slot c) <> StripeStatusIdle) -> fresh d' = fresh d ->
  (pool d' = pool d \/ exists ch, cg_done c = Some ch /\ owns_chan c /\ ~ owns_chan c' /\
     pool d' = pool d ++ [ch]) ->
  (cg_pc c' = NSubmit -> dwaiters d' !! cg_slot c = Some i) ->
  tokens d' = tokens d -> handlers d' = handlers d -> respq d' = respq d -> expanders d' = expanders d ->
  rinv d'.
Proof.
  intros (Hs & [O HO] & Ha1 & Ha2) Hi Hc Hsl Hp Hp' Hos Hoc Hsame Hst Hf Hpo Hsub Ht Hh Hr He.
  split; [by eapply sinv_conn|]. split; [|split; by rewrite Hh, ?Hr, ?He].
  exists O. eapply tinv_quiet; try done; [by rewrite Ht|]. intros j cj u Hj Hne Hg.
  destruct (decide (owns_slot c)) as [Ho|Hno].
  - eapply (good_other d d' i c); try done. intros s Hne'. by apply Hsame.
  - destruct Hg as [G1 G2 G3 G4]. split; try done.
    + destruct (Hsame (cg_slot cj)) as [-> _]; done.
    + intros s Es. destruct (Hsame s) as [_ ->]; [done|]. by apply G4.
Qed.

(** Nothing is under way for a connection that does not wait. *)
Lemma no_mail d i c ch :
  rinv d -> conns d !! i = Some c -> cg_pc c <> NWait -> owns_chan c -> cg_done c = Some ch ->
  ch ∉ (mail d).*1.
Proof.
  intros (Hs & [O HO] & _) Hi Hp Ho Hd Hin. apply list_elem_of_fmap in Hin as ([ch' v] & -> & Hin).
  assert (Ht : mtok (ch', v) ∈ tokens d).
  { unfold tokens. rewrite !elem_of_app. do 4 right. apply list_elem_of_fmap. by exists (ch', v). }
  rewrite (ti_all _ _ HO) in Ht. unfold vals in Ht.
  apply list_elem_of_fmap in Ht as ([j t] & E & Hj%elem_of_map_to_list). cbn in E. subst t.
  destruct (ti_good _ _ HO _ _ Hj) as (cj & Hcj & [G1 G2 _ _]). cbn in *.
  assert (j = i) as ->; [|congruence].
  eapply (si_chans _ Hs); try done; [|congruence]. by split; [split|]; rewrite G1.
Qed.

Ltac quiet c :=
  eapply (rinv_quiet _ _ _ c); [eassumption|eassumption|reflexivity|reflexivity|..];
  unfold owns_chan, owns_slot in *; cbn [cg_pc cg_done cg_slot] in *;
  try (intuition congruence).

Lemma rinv_enter d i from to d' :
  rinv d -> enter d i from to = Some d' -> from <> NWait -> to <> NWait -> to <> NSubmit ->
  owns_slot (mkCG 0 None from None) -> owns_chan (mkCG 0 None from None) -> rinv d'.
Proof.
  intros Hd H Hf Ht Hsub Ho Hoc. unfold enter in H. apply bind_Some in H as (c & Hi & H).
  case_decide as Hpc; [|done]. injection H as <-.
  quiet c; rewrite ?Hpc; try done.
  intros _. eapply (si_busy d); [apply Hd|done|]. split; rewrite Hpc; apply Ho.
Qed.

Lemma waits_owns c : cg_pc c = NWait -> owns_chan c.
Proof. intros H. by split; [split|]; rewrite H. Qed.

(** The start of the wait: the request is handed to the node. *)
Lemma rinv_submit d i c :
  rinv d -> conns d !! i = Some c -> cg_pc c = NSubmit ->
  rinv (goto (set_handlers d (handlers d ++ [HRun (cg_slot c)])) i c NWait).
Proof.
  intros (Hs & [O HO] & Ha1 & Ha2) Hi Hp.
  assert (Ho : owns_chan c) by (by split; [split|]; rewrite Hp).
  split; [|split].
  - eapply (sinv_conn d _ i c); try done.
    + intros _. apply Ho.
    + intros _. by eapply (si_busy _ Hs); [|apply Ho].
    + by left.
  - exists (<[i := (TSlot (cg_slot c), false)]> O).
    eapply (tinv_start d _ O i c); try done.
    + by rewrite Hp.
    + unfold tokens. cbn [handlers goto set_conns set_handlers respq disp expanders mail].
      rewrite omap_app. cbn [omap list_omap htok]. rewrite <- app_assoc. cbn [app]. by rewrite <- Permutation_middle.
    + split; try done. cbn [fst]. intros s [= <-]. by apply (si_sub _ Hs).
    + intros j cj u Hj Hne [G1 G2 G3 G4]. by split.
  - split; cbn [handlers goto set_conns set_handlers respq expanders].
    + rewrite omap_app. cbn [omap list_omap asks]. by rewrite app_nil_r.
    + apply Forall_app. split; [done|]. by repeat constructor.
Qed.

(** Its end: the message was for this connection. *)
Lemma rinv_receive d i c ch v l :
  rinv d -> conns d !! i = Some c -> cg_pc c = NWait -> cg_done c = Some ch ->
  receive ch (mail d) = Some (v, l) ->
  rinv (set_conns (set_mail d l) (<[i := mkCG (cg_slot c) (cg_done c) NIdle (Some v)]> (conns d))).
Proof.
  intros (Hs & [O HO] & Ha1 & Ha2) Hi Hp Hd Hr. apply receive_perm in Hr.
  pose proof (waits_owns c Hp) as Ho. split; [|split].
  - eapply (sinv_conn d _ i c); try done.
    + intros _. apply Ho.
    + intros _. by eapply (si_busy _ Hs); [|apply Ho].
    + by left.
  - exists (delete i O).
    eapply (tinv_finish d _ O i c _ (mtok (ch, v))); try done.
    + by cbn.
    + unfold tokens. cbn [handlers set_conns set_mail respq disp expanders mail].
      assert (Hm : mtok <$> mail d ≡ₚ mtok (ch, v) :: (mtok <$> l)) by (by rewrite Hr).
      rewrite Hm, !app_assoc. by rewrite <- Permutation_middle.
    + intros j cj Hj [G1 G2 _ _]. cbn in G2. eapply (si_chans _ Hs); try done; [|congruence].
      by apply waits_owns.
    + intros j cj u Hj [G1 G2 G3 G4]. by split.
  - by split.
Qed.

Lemma rinv_conn d i d' : rinv d -> conn_step d i = Some d' -> rinv d'.
Proof.
  intros Hd H. unfold conn_step, next_step, close_step in H. apply bind_Some in H as (c & Hi & H).
  assert (Hb : owns_slot c -> slot_status d (cg_slot c) <> StripeStatusIdle)
    by (eapply (si_busy d); [apply Hd|done]).
  destruct (cg_pc c) eqn:Hp; try done.
  - case_decide; [|done]. injection H as <-. quiet c; try done.
  - injection H as <-. quiet c; try done.
    + intros s Hs. change (slot_status (goto ?x _ _ _) s) with (slot_status x s).
      rewrite slot_status_set, decide_False by (apply Hs; by rewrite Hp). done.
    + intros _. change (slot_status (goto ?x _ _ _)) with (slot_status x).
      by rewrite slot_status_set, decide_True.
  - apply bind_Some in H as (ch & Hch & [= <-]). quiet c; try done.
    rewrite drain_mail_absent; [by destruct d|].
    eapply no_mail; try done; [by rewrite Hp|by split; [split|]; rewrite Hp].
  - injection H as <-. quiet c; try done.
    + intros s Hs. split; [done|]. cbn. apply lookup_insert_ne. symmetry. apply Hs. by rewrite Hp.
    + intros _. cbn. apply lookup_insert_eq.
  - injection H as <-. by apply rinv_submit.
  - apply bind_Some in H as (ch & Hch & H). apply bind_Some in H as ([v l] & Hr & [= <-]).
    by apply (rinv_receive d i c ch).
  - injection H as <-. quiet c; try done.
    intros s Hs. split; [done|]. cbn. apply lookup_delete_ne. symmetry. apply Hs. by rewrite Hp.
  - apply bind_Some in H as (ch & Hch & [= <-]). quiet c; try done.
    right. exists ch. rewrite Hp. split_and!; try done. intros [_ []]; done.
  - injection H as <-. quiet c; try done.
    intros s Hs. change (slot_status (goto ?x _ _ _) s) with (slot_status x s).
    rewrite slot_status_set, decide_False by (apply Hs; by rewrite Hp). done.
  - injection H as <-. quiet c; try done.
Qed.

(** ** The hub and the nodes *)

Lemma token_owner d t : rinv d -> t ∈ tokens d -> exists i c, conns d !! i = Some c /\ good d i c t.
Proof.
  intros (_ & [O HO] & _) Ht. rewrite (ti_all _ _ HO) in Ht. unfold vals in Ht.
  apply list_elem_of_fmap in Ht as ([j u] & -> & Hj%elem_of_map_to_list).
  destruct (ti_good _ _ HO _ _ Hj) as (c & Hc & Hg). by exists j, c.
Qed.

(** A step that keeps the connections, and moves a token on or leaves the
    tokens as they are. *)
Lemma rinv_still d d' :
  rinv d -> conns d' = conns d -> dwaiters d' = dwaiters d -> status d' = status d ->
  pool d' = pool d -> fresh d' = fresh d -> tokens d' ≡ₚ tokens d -> ainv d' -> rinv d'.
Proof.
  intros (Hs & [O HO] & _) Hc Hw Hst Hp Hf Ht Ha.
  assert (Hss : forall s, slot_status d' s = slot_status d s) by (intros; unfold slot_status; by rewrite Hst).
  split; [|split; [|done]].
  - eapply sinv_same; try done; intros; by rewrite ?Hss, ?Hw.
  - exists O. destruct HO as [H1 H2 H3]. split; [by rewrite Ht|..]; rewrite Hc; [|done].
    intros i t Hi. destruct (H2 _ _ Hi) as (c & Hci & [G1 G2 G3 G4]). exists c. split; [done|].
    split; rewrite ?Hss, ?Hw; done.
Qed.

Lemma rinv_move d d' t t' R :
  rinv d -> tokens d ≡ₚ t :: R -> tokens d' ≡ₚ t' :: R -> conns d' = conns d ->
  dwaiters d' = dwaiters d -> status d' = status d -> pool d' = pool d -> fresh d' = fresh d ->
  t'.2 = t.2 -> (forall s, t'.1 <> TSlot s) ->
  (forall i c, conns d !! i = Some c -> good d i c t -> belongs i c t'.1) -> ainv d' -> rinv d'.
Proof.
  intros (Hs & [O HO] & _) Ht Ht' Hc Hw Hst Hp Hf Hb Hns Hown Ha.
  assert (Hss : forall s, slot_status d' s = slot_status d s) by (intros; unfold slot_status; by rewrite Hst).
  split; [|split; [|done]].
  - eapply sinv_same; try done; intros; by rewrite ?Hss, ?Hw.
  - eapply (tinv_move d d' O t t' R); try done. intros i c Hi Hg.
    specialize (Hown i c Hi Hg). split.
    + destruct Hg as [G1 G2 G3 G4]. split; rewrite ?Hss, ?Hb; try done. intros s E. by destruct (Hns s).
    + intros j cj u Hj Hne [G1 G2 G3 G4]. split; rewrite ?Hss, ?Hw; done.
Qed.

Lemma ainv_same d d' :
  ainv d -> handlers d' = handlers d -> respq d' = respq d -> expanders d' = expanders d -> ainv d'.
Proof. intros [H1 H2] Hh Hr He. by split; rewrite Hh, ?Hr, ?He. Qed.

(** The tokens, with those of one component in front. *)
Definition sans_disp (d : vstate) : list token :=
  omap htok (handlers d) ++ omap rtok (respq d) ++ omap etok (expanders d) ++ (mtok <$> mail d).
Definition sans_exp (d : vstate) : list token :=
  omap htok (handlers d) ++ omap rtok (respq d) ++ option_list (dtok (disp d)) ++ (mtok <$> mail d).
Definition sans_hdl (d : vstate) : list token :=
  omap rtok (respq d) ++ option_list (dtok (disp d)) ++ omap etok (expanders d) ++ (mtok <$> mail d).

Lemma tokens_disp d : tokens d ≡ₚ option_list (dtok (disp d)) ++ sans_disp d.
Proof.
  unfold tokens, sans_disp.
  rewrite (Permutation_app_swap_app (omap rtok (respq d))), (Permutation_app_swap_app (omap htok (handlers d))).
  done.
Qed.

Lemma tokens_exp d : tokens d ≡ₚ omap etok (expanders d) ++ sans_exp d.
Proof.
  unfold tokens, sans_exp.
  rewrite (Permutation_app_swap_app (option_list (dtok (disp d)))),
    (Permutation_app_swap_app (omap rtok (respq d))), (Permutation_app_swap_app (omap htok (handlers d))).
  done.
Qed.

Lemma post_Some d ch v d' : post d ch v = Some d' -> d' = set_mail d (mail d ++ [(ch, v)]).
Proof. unfold post. case_decide; [done|]. by intros [= <-]. Qed.

Lemma rinv_pop d s cmd q d' :
  rinv d -> disp d = DPop -> respq d = (s, cmd) :: q -> dispatch_step d = Some d' -> rinv d'.
Proof.
  intros Hd Hp Hq H. unfold dispatch_step in H. rewrite Hp, Hq in H. pose proof Hd as (_ & _ & [Ha1 Ha2]).
  rewrite Hq in Ha1. cbn [omap list_omap] in Ha1.
  assert (Hr : omap rtok (respq d) =
    option_list (if decide (cmd = CMD_PROCESS) then Some (TSlot s, true) else None) ++ omap rtok q).
  { rewrite Hq. cbn [omap list_omap]. unfold rtok at 1. cbn [fst snd]. by case_decide. }
  case_decide as Hc; [|case_decide as Hc2];
    injection H as <-; apply (rinv_still d); try done.
  - rewrite !tokens_disp, Hp. unfold sans_disp. rewrite Hr.
    cbn [handlers respq disp expanders mail set_disp set_respq dtok]. unfold option_list.
    cbn [option_rect app]. by rewrite <- Permutation_middle.
  - split; [|done]. subst cmd. exact Ha1.
  - unfold tokens. cbn [handlers respq disp expanders mail set_expanders set_respq].
    rewrite Hr, omap_app. cbn [omap list_omap etok]. by rewrite app_nil_r.
  - split; [|done]. cbn [handlers respq expanders set_expanders set_respq].
    unfold asked at 1 in Ha1. cbn [fst snd] in Ha1. rewrite decide_True in Ha1 by done.
    rewrite Ha1, omap_app. cbn [omap list_omap asking]. by rewrite app_assoc, <- Permutation_cons_append.
  - unfold tokens. cbn [handlers respq disp expanders mail set_respq]. by rewrite Hr.
  - split; [|done]. unfold asked at 1 in Ha1. cbn [fst snd] in Ha1. by rewrite decide_False in Ha1.
Qed.

Lemma rinv_swap d s d' :
  rinv d -> disp d = DSwap s -> dispatch_step d = Some d' -> rinv d'.
Proof.
  intros Hd Hp H. unfold dispatch_step in H. rewrite Hp in H. injection H as <-.
  pose proof (tokens_disp d) as Ht. rewrite Hp in Ht. cbn [dtok option_list app] in Ht.
  destruct (token_owner d (TSlot s, true)) as (i & c & Hi & Hg); [done|rewrite Ht; apply list_elem_of_here|].
  pose proof (gd_ptr _ _ _ _ Hg s eq_refl) as Hw. pose proof (gd_own _ _ _ _ Hg) as Ho. cbn in Ho.
  rewrite Hw. destruct Hd as (Hs & [O HO] & Ha).
  pose proof (proj1 (waits_owns c (gd_wait _ _ _ _ Hg))) as Hoc. split; [|split].
  - eapply sinv_same; try done. intros j cj Hj Hpc. cbn. apply lookup_delete_ne. intros ->.
    assert (i = j) as -> by (eapply (si_slots _ Hs); try done; by split; rewrite Hpc).
    pose proof (gd_wait _ _ _ _ Hg). congruence.
  - eapply (tinv_move d _ O _ (TConn i, true)); [done|exact Ht| |done|].
    + rewrite tokens_disp. done.
    + intros j cj Hj [G1 G2 G3 G4]. pose proof (G4 s eq_refl) as Hw'. split.
      * split; try done. cbn. congruence.
      * intros k ck u Hk Hne [F1 F2 F3 F4]. split; try done. intros s' E. cbn.
        rewrite lookup_delete_ne; [by apply F4|]. intros <-. apply Hne. specialize (F4 _ E). congruence.
  - by apply (ainv_same d).
Qed.

Lemma rinv_dispatch d d' : rinv d -> dispatch_step d = Some d' -> rinv d'.
Proof.
  intros Hd H. destruct (disp d) as [|s|i|ch] eqn:Hp.
  - destruct (respq d) as [|[s cmd] q] eqn:Hq; [unfold dispatch_step in H; by rewrite Hp, Hq in H|].
    by eapply rinv_pop.
  - by eapply rinv_swap.
  - unfold dispatch_step in H. rewrite Hp in H. apply bind_Some in H as (c & Hi & H).
    apply bind_Some in H as (ch & Hch & [= <-]). pose proof (tokens_disp d) as Ht. rewrite Hp in Ht.
    eapply (rinv_move d _ _ (TChan ch, true)); [done|exact Ht|by rewrite tokens_disp|..]; try done.
    + intros j cj Hj [_ G2 _ _]. cbn in *. subst j. congruence.
    + by apply (ainv_same d); [apply Hd|..].
  - unfold dispatch_step in H. rewrite Hp in H. apply bind_Some in H as (d1 & E & [= <-]).
    apply post_Some in E as ->.
    apply (rinv_still d); try done; [|by apply (ainv_same d); [apply Hd|..]].
    rewrite (tokens_disp d), Hp. unfold tokens, sans_disp, option_list.
    cbn [handlers respq disp expanders mail set_disp set_mail dtok option_rect app].
    rewrite fmap_app, !app_assoc. cbn [fmap list_fmap]. by rewrite <- Permutation_cons_append.
Qed.

Lemma rinv_expander d e d' : rinv d -> expander_step d e = Some d' -> rinv d'.
Proof.
  intros Hd H. unfold expander_step in H. apply bind_Some in H as (p & He & H).
  destruct (omap_insert_perm etok (expanders d) e p He) as (R & HR & Hins).
  destruct (omap_insert_perm asking (expanders d) e p He) as (Q & HQ & Hask).
  pose proof (tokens_exp d) as Ht. rewrite HR in Ht. unfold option_list in *.
  assert (Hai : forall y, asking p = None -> asking y = None -> forall ml,
    ainv (set_expanders (set_mail d ml) (<[e := y]> (expanders d)))).
  { intros y Hp Hy ml. destruct Hd as (_ & _ & [Ha1 Ha2]). split; [|done].
    cbn [handlers respq expanders set_expanders set_mail]. rewrite Hask, Hy, Ha1, HQ, Hp. done. }
  destruct p as [s|s|i|ch|]; try done; cbn [etok option_rect app] in *.
  - injection H as <-.
    destruct (token_owner d (TSlot s, false)) as (i & c & Hi & Hg); [done|rewrite Ht; apply list_elem_of_here|].
    rewrite (gd_ptr _ _ _ _ Hg s eq_refl).
    eapply (rinv_move d _ _ (TConn i, false)); [done|exact Ht| |..]; try done.
    + rewrite tokens_exp. cbn [expanders set_expanders]. by rewrite Hins.
    + intros j cj Hj [_ _ _ G4]. specialize (G4 s eq_refl). pose proof (gd_ptr _ _ _ _ Hg s eq_refl).
      cbn. congruence.
    + by apply (Hai (EField i) eq_refl eq_refl (mail d)).
  - apply bind_Some in H as (c & Hi & H). apply bind_Some in H as (ch & Hch & [= <-]).
    eapply (rinv_move d _ _ (TChan ch, false)); [done|exact Ht| |..]; try done.
    + rewrite tokens_exp. cbn [expanders set_expanders]. by rewrite Hins.
    + intros j cj Hj [_ G2 _ _]. cbn in *. subst j. congruence.
    + by apply (Hai (ESend ch) eq_refl eq_refl (mail d)).
  - apply bind_Some in H as (d1 & E & [= <-]). apply post_Some in E as ->.
    apply (rinv_still d); try done; [|by apply (Hai EEnd)].
    rewrite (tokens_exp d), HR, (tokens_exp (set_expanders _ _)). unfold sans_exp.
    cbn [handlers respq disp expanders mail set_expanders set_mail]. rewrite Hins, fmap_app.
    cbn [etok fmap list_fmap app]. rewrite !app_assoc. by rewrite <- Permutation_cons_append.
Qed.

Lemma perm_front {A} (l1 l2 l3 l4 l5 : list A) :
  l1 ++ l2 ++ l3 ++ l4 ++ l5 ≡ₚ l4 ++ l1 ++ l2 ++ l3 ++ l5.
Proof.
  rewrite (Permutation_app_swap_app l3 l4), (Permutation_app_swap_app l2 l4),
    (Permutation_app_swap_app l1 l4). done.
Qed.

(** A request for blocks is decided. *)
Lemma rinv_decide d e k refuse d' : rinv d -> decide_expand d e k refuse = Some d' -> rinv d'.
Proof.
  intros Hd H. unfold decide_expand in H. apply bind_Some in H as (p & He & H).
  apply bind_Some in H as (h & Hk & H). destruct p as [s| | | |]; try done. destruct h as [|s' f| | |]; try done.
  case_decide as Hs; [|done]. subst s'. injection H as <-. pose proof Hd as (_ & _ & [Ha1 Ha2]).
  assert (f = false) as ->.
  { eapply Forall_lookup in Ha2; [|exact Hk]. destruct f; [|done]. by destruct (Ha2 s). }
  destruct (omap_insert_perm etok _ e _ He) as (R & HR & Hins).
  destruct (omap_insert_perm asking _ e _ He) as (Q & HQ & Hask).
  destruct (omap_insert_perm htok _ k _ Hk) as (R2 & HR2 & Hins2).
  destruct (omap_insert_perm asks _ k _ Hk) as (Q2 & HQ2 & Hask2).
  rewrite HQ, HQ2 in Ha1. unfold option_list in *.
  cbn [etok htok asks asking option_rect app] in *. rewrite <- Permutation_middle in Ha1.
  apply Permutation_cons_inv in Ha1. destruct refuse; apply (rinv_still d); try done;
    rewrite ?(tokens_exp d), ?HR; unfold tokens, sans_exp;
    cbn [handlers respq disp expanders mail set_handlers set_expanders];
    try (split; cbn [handlers respq disp expanders mail set_handlers set_expanders];
         rewrite ?Hask, ?Hask2; [exact Ha1|by apply Forall_insert]);
    rewrite Hins, Hins2, HR2; cbn [etok htok option_rect app].
  - etransitivity; [apply (perm_front R2 _ _ ((TSlot s, false) :: R))|]. cbn [app]. by rewrite <- Permutation_middle.
  - rewrite (perm_front R2 _ _ R _). by rewrite <- Permutation_middle.
Qed.

(** The handler's steps. *)
Lemma rinv_handler d k d' : rinv d -> refused d k = false -> handler_step d k = Some d' -> rinv d'.
Proof.
  intros Hd Hf H. unfold handler_step in H. apply bind_Some in H as (h & Hk & H).
  destruct (omap_insert_perm htok _ k _ Hk) as (R2 & HR2 & Hins2).
  destruct (omap_insert_perm asks _ k _ Hk) as (Q2 & HQ2 & Hask2).
  pose proof Hd as (Hs & [O HO] & [Ha1 Ha2]). unfold option_list in *.
  assert (Ht : tokens d ≡ₚ option_rect _ (fun x => [x]) [] (htok h) ++ R2 ++ sans_hdl d)
    by (unfold tokens, sans_hdl; rewrite HR2; by rewrite <- !app_assoc).
  unfold refused in Hf. rewrite Hk in Hf.
  destruct h as [s|s f|s|s|]; try done; cbn [htok asks option_rect app] in *.
  - injection H as <-. destruct (token_owner d (TSlot s, false)) as (i & c & Hi & Hg);
      [done|rewrite Ht; apply list_elem_of_here|].
    pose proof (gd_own _ _ _ _ Hg) as Ho. cbn in Ho.
    pose proof (proj1 (waits_owns c (gd_wait _ _ _ _ Hg))) as Hoc. split; [|split].
    + eapply sinv_same; try done. intros j cj Hj Hoj Hst.
      change (slot_status (set_handlers ?x _)) with (slot_status x). rewrite slot_status_set. by case_decide.
    + eapply (tinv_move d _ O _ (TSlot s, true)); [done|exact Ht| |done|].
      * unfold tokens, sans_hdl. cbn [handlers respq disp expanders mail set_handlers set_status].
        rewrite Hins2. by rewrite <- app_assoc.
      * intros j cj Hj Hgj. destruct Hgj as [G1 G2 G3 G4]. cbn in G2. split.
        -- split; try done. intros _. change (slot_status (set_handlers ?x _)) with (slot_status x).
           by rewrite slot_status_set, decide_True.
        -- intros k' ck u Hk' Hne Hgk. eapply (good_other d _ j cj); try done.
           { by apply waits_owns. }
           intros s' Hs'. change (slot_status (set_handlers ?x _)) with (slot_status x).
           rewrite slot_status_set, decide_False by congruence. done.
    + split; cbn [handlers respq expanders set_handlers set_status];
        [by rewrite Hask2, <- Ha1, HQ2|by apply Forall_insert].
  - case_decide; [|done]. injection H as <-. apply (rinv_still d); try done.
    + rewrite Ht. unfold tokens, sans_hdl. cbn [handlers respq disp expanders mail set_handlers set_respq].
      rewrite Hins2, omap_app. change (omap rtok [(s, CMD_PROCESS)]) with [(TSlot s, true)].
      rewrite (Permutation_app_comm (omap rtok (respq d))). cbn [htok option_rect app]. by rewrite <- Permutation_middle.
    + split; cbn [handlers respq expanders set_handlers set_respq]; [|by apply Forall_insert].
      rewrite Hask2, omap_app. change (omap asked [(s, CMD_PROCESS)]) with (@nil Z).
      cbn [asks option_rect app]. rewrite app_nil_r. by rewrite <- Ha1, HQ2.
Qed.

(** A handler that was refused blocks goes. *)
Lemma rinv_leave d k d' : rinv d -> leave_step d k = Some d' -> rinv d'.
Proof.
  intros Hd H. unfold leave_step in H. apply bind_Some in H as (h & Hk & H). destruct h as [| |s| |]; try done.
  injection H as <-. destruct (omap_insert_perm htok _ k _ Hk) as (R2 & HR2 & Hins2).
  destruct (omap_insert_perm asks _ k _ Hk) as (Q2 & HQ2 & Hask2).
  pose proof Hd as (_ & _ & [Ha1 Ha2]). unfold option_list in *. apply (rinv_still d); try done.
  - unfold tokens. cbn [handlers respq disp expanders mail set_handlers]. by rewrite Hins2, HR2.
  - split; cbn [handlers respq expanders set_handlers]; [|by apply Forall_insert].
    by rewrite Hask2, <- Ha1, HQ2.
Qed.

Lemma rinv_ask d k d' : rinv d -> refused d k = false -> ask_step d k = Some d' -> rinv d'.
Proof.
  intros Hd Hf H. unfold ask_step, ask in H. apply bind_Some in H as (h & Hk & H).
  unfold refused in Hf. rewrite Hk in Hf. destruct h as [s| | | |]; try done.
  case_decide; [|done]. injection H as <-.
  destruct (omap_insert_perm htok _ k _ Hk) as (R2 & HR2 & Hins2).
  destruct (omap_insert_perm asks _ k _ Hk) as (Q2 & HQ2 & Hask2).
  pose proof Hd as (_ & _ & [Ha1 Ha2]). unfold option_list in *. apply (rinv_still d); try done.
  - unfold tokens. cbn [handlers respq disp expanders mail set_handlers set_respq].
    rewrite Hins2, HR2, omap_app. change (omap rtok [(s, CMD_REQUEST_EXPAND)]) with (@nil token). by rewrite app_nil_r.
  - split; cbn [handlers respq expanders set_handlers set_respq]; [|by apply Forall_insert].
    rewrite Hask2, omap_app. change (omap asked [(s, CMD_REQUEST_EXPAND)]) with [s].
    rewrite <- app_assoc. cbn [asks option_rect app]. rewrite <- Permutation_middle, <- Ha1, HQ2. done.
Qed.

(** A new connection. *)
Lemma rinv_open d s k d' : rinv d -> open_conn d s k = Some d' -> rinv d'.
Proof.
  intros (Hs & [O HO] & Ha) H. unfold open_conn in H. case_decide as Hc; [|done]. destruct Hc as [_ Hidle].
  apply bind_Some in H as ([[ch p] n] & E & [= <-]).
  assert (Hp : NoDup p /\ Forall (fun x => (x < n)%nat) p /\ (ch ∉ p) /\ (ch < n)%nat /\
    (fresh d <= n)%nat /\ (forall x, x ∈ p -> x ∈ pool d) /\
    forall i c, conns d !! i = Some c -> owns_chan c -> cg_done c <> Some ch).
  { destruct (si_pool _ Hs) as [Hnd Hb]. destruct k as [k|].
    - apply bind_Some in E as (ch' & Hk & [= <- <- <-]).
      rewrite (delete_Permutation _ _ _ Hk) in Hnd, Hb. apply NoDup_cons in Hnd as [Hin Hnd].
      apply Forall_cons in Hb as [Hlt Hb]. split_and!; try done.
      + intros x Hx. rewrite (delete_Permutation _ _ _ Hk). by right.
      + intros i c Hi Ho Hd. destruct (si_owned _ Hs _ _ Hi Ho) as (x & Hx & Hnx & _).
        apply Hnx. apply list_elem_of_lookup. exists k. congruence.
    - injection E as <- <- <-. split_and!; try done; try lia.
      + eapply Forall_impl; [exact Hb|]. cbn. lia.
      + intros Hin. rewrite Forall_forall in Hb. specialize (Hb _ Hin). lia.
      + intros i c Hi Ho Hd. destruct (si_owned _ Hs _ _ Hi Ho) as (x & Hx & _ & Hlt).
        rewrite Hd in Hx. injection Hx as Hx. lia. }
  destruct Hp as (Hnd & Hb & Hin & Hlt & Hfr & Hsub & Hfresh).
  set (c0 := mkCG s (Some ch) NIdle None).
  set (d' := set_status _ _ _).
  assert (Hst : forall s', slot_status d' s' = if decide (s' = s) then StripeStatusReady else slot_status d s').
  { intros s'. unfold d'. by rewrite slot_status_set. }
  assert (Hne : forall i c, conns d !! i = Some c -> owns_slot c -> cg_slot c <> s).
  { intros i c Hi Ho E'. apply (si_busy _ Hs i c Hi Ho). by rewrite E'. }
  assert (Hcases : forall i c, conns d' !! i = Some c ->
    (conns d !! i = Some c) \/ (i = length (conns d) /\ c = c0)).
  { intros i c [Hi|[Hge Hi]]%lookup_app_Some; [by left|].
    apply list_lookup_singleton_Some in Hi as [Hi <-]. right. split; [lia|done]. }
  split; [|split; [|by apply (ainv_same d)]].
  - split; try done.
    + intros i j c c' [Hi|[-> ->]]%Hcases [Hj|[-> ->]]%Hcases Ho Ho' E'; try done;
        [by eapply (si_slots _ Hs)|by destruct (Hne _ _ Hi Ho)|by destruct (Hne _ _ Hj Ho')].
    + intros i c [Hi|[-> ->]]%Hcases Ho; rewrite Hst; case_decide; try done. by eapply (si_busy _ Hs).
    + intros i j c c' [Hi|[-> ->]]%Hcases [Hj|[-> ->]]%Hcases Ho Ho' E'; try done;
        [by eapply (si_chans _ Hs)|by destruct (Hfresh _ _ Hi Ho)|by destruct (Hfresh _ _ Hj Ho')].
    + intros i c [Hi|[-> ->]]%Hcases Ho; [|by exists ch].
      destruct (si_owned _ Hs _ _ Hi Ho) as (x & Hx & Hnx & Hlx). exists x. cbn.
      split; [done|]. split; [naive_solver|lia].
    + intros i c [Hi|[-> ->]]%Hcases Hpc; [by apply (si_sub _ Hs)|done].
  - exists O. destruct HO as [H1 H2 H3]. split; [done|..].
    + intros i t Hi. destruct (H2 _ _ Hi) as (c & Hci & [G1 G2 G3 G4]). exists c.
      split; [by apply lookup_app_l_Some|]. split; try done. intros Ht. rewrite Hst, decide_False; [by apply G3|].
      eapply Hne; [done|by apply waits_owns].
    + intros i c [Hi|[-> ->]]%Hcases Hpc; [by eapply H3|done].
Qed.

Lemma rinv_step d d' : rinv d -> obedient_step d d' -> rinv d'.
Proof.
  intros Hd (a & Ho & H). destruct a; cbn [vrun1] in H.
  - by eapply rinv_open.
  - by eapply rinv_enter.
  - by eapply rinv_enter.
  - by eapply rinv_enter.
  - by eapply rinv_conn.
  - by eapply rinv_dispatch.
  - by eapply rinv_expander.
  - by eapply rinv_decide.
  - by eapply rinv_decide.
  - by eapply rinv_handler.
  - by eapply rinv_leave.
  - by eapply rinv_ask.
Qed.

Lemma rinv_init : rinv vinit.
Proof.
  split; [|split].
  - split; cbn; try done. split; [apply NoDup_nil_2|constructor].
  - exists ∅. split; [unfold vals; by rewrite map_to_list_empty|done..].
  - by split.
Qed.

Lemma rinv_reach d : rtc obedient_step vinit d -> rinv d.
Proof.
  intros H. pose proof rinv_init as Hi. revert Hi. induction H as [|d d1 d2 Hs _ IH]; [done|].
  intros Hd. apply IH. by eapply rinv_step.
Qed.

(** ** One token per waiting connection *)

Lemma owner_unique d O i c j t :
  sinv d -> tinv d O -> conns d !! i = Some c -> owns_chan c -> O !! j = Some t ->
  belongs i c t.1 -> j = i.
Proof.
  intros Hs HO Hi Ho Hj Hb. destruct (ti_good _ _ HO _ _ Hj) as (cj & Hcj & [G1 G2 _ _]).
  pose proof (waits_owns cj G1) as Hoj. destruct t as [[s|i'|ch] b]; cbn in *.
  - eapply (si_slots _ Hs); [done|done|apply Hoj|apply Ho|congruence].
  - congruence.
  - eapply (si_chans _ Hs); [done|done|done|done|congruence].
Qed.

Lemma filter_absent {A} (P : A -> Prop) `{!forall x, Decision (P x)} l :
  (forall x, x ∈ l -> ~ P x) -> filter P l = [].
Proof.
  induction l as [|x l IH]; intros Hl; [done|]. rewrite filter_cons_False by (apply Hl; left).
  apply IH. intros y Hy. apply Hl. by right.
Qed.

Lemma inflight_waiting d i c :
  rinv d -> conns d !! i = Some c -> owns_chan c ->
  inflight d i c = if decide (cg_pc c = NWait) then 1%nat else 0%nat.
Proof.
  intros (Hs & [O HO] & _) Hi Ho. unfold inflight. rewrite (ti_all _ _ HO).
  assert (Hoth : forall O', (forall j t, O' !! j = Some t -> O !! j = Some t /\ j <> i) ->
    filter (fun t : token => belongs i c t.1) (vals O') = []).
  { intros O' HO'. apply filter_absent. intros t Ht Hb. unfold vals in Ht.
    apply list_elem_of_fmap in Ht as ([j u] & -> & Hj%elem_of_map_to_list).
    destruct (HO' _ _ Hj) as [Hj' Hne]. apply Hne. by eapply owner_unique. }
  case_decide as Hp.
  - destruct (ti_wait _ _ HO _ _ Hi Hp) as [t Ht]. unfold vals.
    rewrite <- (map_to_list_delete O i t Ht). cbn [fmap list_fmap snd].
    destruct (ti_good _ _ HO _ _ Ht) as (c' & Hc' & [_ G2 _ _]). assert (c' = c) as -> by congruence.
    rewrite filter_cons_True by done. cbn [length]. f_equal. apply length_zero_iff_nil, (Hoth (delete i O)).
    intros j u. rewrite lookup_delete_Some. naive_solver.
  - rewrite Hoth; [done|]. intros j t Hj. split; [done|]. intros ->.
    destruct (ti_good _ _ HO _ _ Hj) as (c' & Hc' & [G1 _ _ _]). congruence.
Qed.

(** A sender finds the field set and the channel empty. *)
Lemma sender_free d ch b R :
  rinv d -> tokens d ≡ₚ (TChan ch, b) :: R -> (forall x, x ∈ mtok <$> mail d -> x ∈ R) -> ch ∉ (mail d).*1.
Proof.
  intros Hd Ht HR Hin. apply list_elem_of_fmap in Hin as (x & -> & Hx).
  assert (Hx' : mtok x ∈ R) by (apply HR, list_elem_of_fmap; by exists x).
  destruct (token_owner d (TChan x.1, b)) as (i & c & Hi & [G1 G2 _ _]);
    [done|rewrite Ht; apply list_elem_of_here|].
  apply list_elem_of_split in Hx' as (R1 & R2 & ->).
  pose proof (inflight_waiting d i c Hd Hi (waits_owns c G1)) as H1. unfold inflight in H1.
  rewrite decide_True in H1 by done. rewrite Ht, <- Permutation_middle in H1.
  rewrite !filter_cons_True in H1 by done. cbn in H1. lia.
Qed.

Lemma field_set d i b :
  rinv d -> (TConn i, b) ∈ tokens d -> exists c ch, conns d !! i = Some c /\ cg_done c = Some ch.
Proof.
  intros Hd Ht. destruct (token_owner d _ Hd Ht) as (j & c & Hj & [G1 G2 _ _]). cbn in G2. subst j.
  destruct (si_owned _ (proj1 Hd) _ _ Hj (waits_owns c G1)) as (ch & Hch & _). by exists c, ch.
Qed.

Lemma dispatch_free d : rinv d -> disp d <> DPop -> is_Some (dispatch_step d).
Proof.
  intros Hd Hp. pose proof (tokens_disp d) as Ht. unfold dispatch_step.
  destruct (disp d) as [|s|i|ch]; [done|by eexists|..]; cbn [dtok] in Ht; unfold option_list in Ht;
    cbn [option_rect app] in Ht.
  - destruct (field_set d i true) as (c & ch & -> & Hc); [done|rewrite Ht; apply list_elem_of_here|].
    cbn. rewrite Hc. by eexists.
  - unfold post. rewrite decide_False; [by eexists|].
    eapply sender_free; [done|exact Ht|]. intros x Hx. unfold sans_disp. rewrite !elem_of_app. by do 3 right.
Qed.

Lemma expander_free d e p :
  rinv d -> expanders d !! e = Some p -> is_Some (etok p) -> is_Some (expander_step d e).
Proof.
  intros Hd He Hp. destruct (omap_insert_perm etok _ e _ He) as (R & HR & _).
  pose proof (tokens_exp d) as Ht. rewrite HR in Ht. unfold option_list in Ht. unfold expander_step.
  rewrite He. cbn [mbind option_bind]. destruct p as [s|s|i|ch|]; cbn [etok option_rect app] in *.
  - by destruct Hp.
  - by eexists.
  - destruct (field_set d i false) as (c & ch & -> & Hc); [done|rewrite Ht; apply list_elem_of_here|].
    cbn. rewrite Hc. by eexists.
  - unfold post. rewrite decide_False; [by eexists|].
    eapply sender_free; [done|exact Ht|]. intros x Hx. unfold sans_exp. rewrite !elem_of_app. by do 4 right.
  - by destruct Hp.
Qed.

Lemma receive_absent ch l : receive ch l = None -> ch ∉ l.*1.
Proof.
  induction l as [|[c v] l IH]; cbn [receive]; intros H; [apply not_elem_of_nil|].
  case_decide; [done|]. destruct (receive ch l); [done|]. cbn [fmap list_fmap fst].
  apply not_elem_of_cons. split; [congruence|by apply IH].
Qed.

(** Messages for a connection come from its own request. *)
Lemma mail_done d i c ch v l :
  rinv d -> conns d !! i = Some c -> cg_pc c = NWait -> cg_done c = Some ch ->
  receive ch (mail d) = Some (v, l) -> v = None -> slot_status d (cg_slot c) = StripeStatusDone.
Proof.
  intros Hd Hi Hp Hch Hr ->. pose proof Hd as (Hs & _).
  assert (Ht : (TChan ch, true) ∈ tokens d).
  { unfold tokens. rewrite !elem_of_app. do 4 right. apply list_elem_of_fmap. exists (ch, None).
    split; [done|]. rewrite (receive_perm _ _ _ _ Hr). apply list_elem_of_here. }
  destruct (token_owner d _ Hd Ht) as (j & cj & Hj & [G1 G2 G3 _]). cbn in G2.
  assert (j = i) as ->; [|assert (cj = c) as -> by congruence; by apply G3].
  eapply (si_chans _ Hs); [done|done|by apply waits_owns|by apply waits_owns|congruence].
Qed.

(** ** Theorems *)

(** C3: Every response finds its connection, provided a handler returns once
    an expansion was refused to it.  Under any interleaving of connections
    that call [Next] and [Close], of the dispatch loop, of expansion
    goroutines and of such handlers: exactly one message is under way for a
    connection that waits in [Next] and none for one that does not, whatever
    slots and channels were used before; the dispatch loop and the error
    reports never block on a channel; and a [Next] that is about to return
    without an error finds its slot marked done by the node. *)
Theorem Next_delivers d :
  rtc obedient_step vinit d ->
  (forall i c, conns d !! i = Some c -> owns_chan c ->
     inflight d i c = if decide (cg_pc c = NWait) then 1%nat else 0%nat) /\
  (disp d <> DPop -> is_Some (dispatch_step d)) /\
  (forall e p, expanders d !! e = Some p -> is_Some (etok p) -> is_Some (expander_step d e)) /\
  (forall i c ch l, conns d !! i = Some c -> cg_pc c = NWait -> cg_done c = Some ch ->
     receive ch (mail d) = Some (None, l) -> slot_status d (cg_slot c) = StripeStatusDone).
Proof.
  intros Hr%rinv_reach. split_and!.
  - intros i c. by apply inflight_waiting.
  - by apply dispatch_free.
  - intros e p. by apply expander_free.
  - intros i c ch l Hi Hp Hch Hm. by eapply mail_done.
Qed.

Lemma vrun_rtc l : forall d d', obeys d l = true -> vrun d l = Some d' -> rtc obedient_step d d'.
Proof.
  induction l as [|a l IH]; intros d d' Ho H; cbn [vrun obeys] in *; [injection H as <-; apply rtc_refl|].
  apply andb_prop in Ho as [Ha%bool_decide_eq_true_1 Ho]. apply bind_Some in H as (d1 & E & H).
  rewrite E in Ho. apply rtc_l with d1; [by exists a|by apply IH].
Qed.

(** Two connections: the first is served, with an expansion, and closed; the
    second takes over its slot and its channel, its expansion is refused, and
    it waits. *)
Definition demo_run : list vact :=
  [Open 1 None; Open 2 None; Call 0; Conn 0; Conn 0; Conn 0; Conn 0; Conn 0; Ask 0; Dispatch; Grant 0 0;
   Handle 0; Handle 0; Dispatch; Dispatch; Dispatch; Dispatch; Conn 0; Shut 0; Conn 0; Conn 0; Conn 0; Conn 0;
   Open 1 (Some 0%nat); Call 2; Conn 2; Conn 2; Conn 2; Conn 2; Conn 2; Ask 1; Dispatch; Refuse 1 1; Leave 1;
   Expander 1; Expander 1].

Lemma demo_run_obeys : obeys vinit demo_run = true.
Proof. vm_compute. reflexivity. Qed.

Lemma Next_delivers_witness :
  exists d c, vrun vinit demo_run = Some d /\ conns d !! 2%nat = Some c /\ cg_pc c = NWait /\
    inflight d 2 c = 1%nat.
Proof.
  destruct (vrun vinit demo_run) as [d|] eqn:E; [|vm_compute in E; discriminate].
  destruct (Next_delivers d (vrun_rtc demo_run vinit d demo_run_obeys E)) as (H & _).
  pose proof E as V. vm_compute in V. injection V as <-.
  eexists _, _. split; [reflexivity|]. split; [reflexivity|]. split; [reflexivity|].
  rewrite H; [reflexivity|reflexivity|]. repeat split; discriminate.
Defined.

(** ** A handler that panics *)

(** A request whose expansion is refused; [Next] returns the error, and the
    handler's panic makes the node answer as well. *)
Definition late_run : list vact :=
  [Open 1 None; Call 0; Conn 0; Conn 0; Conn 0; Conn 0; Conn 0; Ask 0; Dispatch; Refuse 0 0;
   Expander 0; Expander 0; Expander 0].

(** The dispatch loop waits for a channel that a closed connection had. *)
Definition stopped (d : vstate) : Prop :=
  exists i c, disp d = DField i /\ conns d !! i = Some c /\ cg_pc c = NClosed /\ cg_done c = None.

Lemma conns_other d d' i j c x :
  conns d !! i = Some c -> conns d !! j = Some x -> cg_pc x <> cg_pc c ->
  (exists y, conns d' = <[j := y]> (conns d)) -> conns d' !! i = Some c.
Proof. intros Hi Hj Hne [y ->]. rewrite list_lookup_insert_ne; [done|]. intros ->. congruence. Qed.

Lemma stopped_enter d d' j from to i c :
  enter d j from to = Some d' -> conns d !! i = Some c -> from <> cg_pc c ->
  disp d' = disp d /\ conns d' !! i = Some c.
Proof.
  intros H Hi Hne. unfold enter in H. apply bind_Some in H as (x & Hx & H). case_decide as E; [|done].
  injection H as <-. split; [done|]. eapply (conns_other d); [done|exact Hx|congruence|by eexists].
Qed.

Lemma stopped_step d d' a : stopped d -> vrun1 d a = Some d' -> stopped d'.
Proof.
  intros (i & c & Hp & Hi & Hc & Hn) H.
  assert (Hsuff : disp d' = disp d -> conns d' !! i = Some c -> stopped d')
    by (intros Hd Hi'; exists i, c; by rewrite Hd).
  destruct a; cbn [vrun1] in H.
  - unfold open_conn in H. case_decide; [|done]. apply bind_Some in H as ([[ch p] n] & _ & [= <-]).
    apply Hsuff; [done|]. by apply lookup_app_l_Some.
  - destruct (stopped_enter d d' _ _ _ i c H Hi); [congruence|by apply Hsuff].
  - destruct (stopped_enter d d' _ _ _ i c H Hi); [congruence|by apply Hsuff].
  - destruct (stopped_enter d d' _ _ _ i c H Hi); [congruence|by apply Hsuff].
  - unfold conn_step, next_step, close_step in H. apply bind_Some in H as (x & Hx & H).
    assert (Hne : cg_pc x <> cg_pc c) by (intros E; rewrite E, Hc in H; done).
    destruct (cg_pc x) eqn:E; try done; try case_decide; try done;
      try (apply bind_Some in H as (ch & _ & H)); try (apply bind_Some in H as (r & _ & H));
      injection H as <-; (apply Hsuff; [done|]);
      (eapply (conns_other d); [done|exact Hx|congruence|by eexists]).
  - unfold dispatch_step in H. rewrite Hp, Hi in H. cbn in H. by rewrite Hn in H.
  - unfold expander_step in H. apply bind_Some in H as (p & _ & H).
    destruct p; try done; repeat (apply bind_Some in H as (? & ? & H)); injection H as <-;
      try (match goal with E : post _ _ _ = Some _ |- _ => apply post_Some in E as -> end); by apply Hsuff.
  - unfold decide_expand in H. apply bind_Some in H as (p & _ & H). apply bind_Some in H as (h & _ & H).
    destruct p, h; try done. case_decide; [|done]. injection H as <-. by apply Hsuff.
  - unfold decide_expand in H. apply bind_Some in H as (p & _ & H). apply bind_Some in H as (h & _ & H).
    destruct p, h; try done. case_decide; [|done]. injection H as <-. by apply Hsuff.
  - unfold handler_step in H. apply bind_Some in H as (h & _ & H).
    destruct h; try done; try (case_decide; [|done]); injection H as <-; by apply Hsuff.
  - unfold leave_step in H. apply bind_Some in H as (h & _ & H). destruct h; try done. injection H as <-. by apply Hsuff.
  - unfold ask_step, ask in H. apply bind_Some in H as (h & _ & H).
    destruct h; try done; (case_decide; [|done]); injection H as <-; by apply Hsuff.
Qed.

(** C35: A late response can stop the hub.  When a handler panics after its
    expansion was refused, the node answers although the refusal was already
    reported; if the connection is closed while the dispatch loop holds the
    pointer to its channel, the loop reads the field after [Close] has cleared
    it, sends on a nil channel and blocks: whatever happens afterwards, it
    never dispatches again. *)
Theorem late_response_stops_dispatch :
  exists d, vrun vinit (late_run ++ [Conn 0; Handle 0; Handle 0; Dispatch; Dispatch; Shut 0; Conn 0; Conn 0;
      Conn 0; Conn 0]) = Some d /\
    forall l d', vrun d l = Some d' -> dispatch_step d' = None.
Proof.
  eexists. split; [vm_compute; reflexivity|]. match goal with |- forall l d', vrun ?x l = _ -> _ => set (d := x) end.
  assert (Hd : stopped d) by (eexists 0%nat, _; repeat split; reflexivity). clearbody d. intros l.
  revert d Hd. induction l as [|a l IH]; intros d Hd d' H; cbn [vrun] in H.
  - injection H as <-. destruct Hd as (i & c & Hp & Hi & _ & Hn). unfold dispatch_step. rewrite Hp, Hi.
    cbn. by rewrite Hn.
  - apply bind_Some in H as (d1 & E & H). eapply IH; [|exact H]. by eapply stopped_step.
Qed.

(** The late response can also end up with the next user of the channel: its
    [Next] returns without an error while the node still works on its slot. *)
Lemma late_response_misdelivered :
  exists d c, vrun vinit (late_run ++ [Conn 0; Handle 0; Handle 0; Dispatch; Dispatch; Dispatch; Shut 0;
      Conn 0; Conn 0; Open 2 (Some 0%nat); Call 1; Conn 1; Conn 1; Conn 1; Conn 1; Conn 1; Dispatch;
      Conn 1]) = Some d /\
    conns d !! 1%nat = Some c /\ cg_pc c = NIdle /\ cg_res c = Some None /\
    handlers d !! 1%nat = Some (HRun (cg_slot c)) /\ slot_status d (cg_slot c) = StripeStatusBusy.
Proof. eexists _, _. split; [vm_compute; reflexivity|]. repeat split; reflexivity. Qed.
