(* ===== verification/Fairness.v ===== *)
(** * Liveness of Next

    Delivery.v says what holds in every state; here are the executions, which
    go on for ever, and what must happen in them.  An execution is a function
    from the natural numbers to states, with the action that is taken at each
    position or none.  The goroutines of the hub and the connections are
    treated fairly: what one of them could do from some point on, it does.
    For the handlers of the nodes the assumption is the stronger one that
    what a handler could do again and again it does at some time: a handler
    does not ask for blocks for ever, and [pushResponse], which polls a full
    queue, at some time finds room.  Under these assumptions every [Next] that
    has handed its slot to a node returns. *)
From stdpp Require Import base tactics list numbers option gmap relations.
From Stdlib Require Import ZArith Lia Classical_Prop.
From S2P Require Import Prelude Layout Delivery.

(** ** Executions and fairness *)

Section Fair.
Context {St Act : Type} (ok : St -> Act -> Prop) (step : St -> Act -> option St).
Context (σ : nat -> St) (α : nat -> option Act).

Definition execution : Prop := forall n,
  match α n with
  | None => σ (S n) = σ n
  | Some a => ok (σ n) a /\ step (σ n) a = Some (σ (S n))
  end.

(** One of the actions [F] can be taken, is taken. *)
Definition enabled (F : Act -> Prop) (d : St) : Prop := exists a d', F a /\ ok d a /\ step d a = Some d'.
Definition taken (F : Act -> Prop) (n : nat) : Prop := exists a, α n = Some a /\ F a.

Definition weakly_fair (F : Act -> Prop) : Prop := forall n,
  (forall m, n <= m -> enabled F (σ m)) -> exists m, n <= m /\ taken F m.
Definition strongly_fair (F : Act -> Prop) : Prop := forall n,
  (forall m, n <= m -> exists k, m <= k /\ enabled F (σ k)) -> exists m, n <= m /\ taken F m.

(** From position [n] on, [P] is followed by [Q]. *)
Definition leads (n : nat) (P Q : St -> Prop) : Prop :=
  forall m, n <= m -> P (σ m) -> exists k, m <= k /\ Q (σ k).

Lemma leads_trans n P Q R : leads n P Q -> leads n Q R -> leads n P R.
Proof.
  intros H1 H2 m Hm Hp. destruct (H1 m Hm Hp) as (k & Hk & Hq).
  destruct (H2 k ltac:(lia) Hq) as (j & Hj & Hr). exists j. split; [lia|done].
Qed.

Lemma leads_or n (P P' Q : St -> Prop) : leads n P Q -> leads n P' Q -> leads n (fun d => P d \/ P' d) Q.
Proof. intros H H' m Hm [Hp|Hp]; [by apply H|by apply H']. Qed.

Hypothesis (Hex : execution).

(** What the fair actions bring nearer and no action takes away comes. *)
Lemma weak_leads (J : St -> Prop) (F : Act -> Prop) (P : nat -> St -> Prop) (Q : St -> Prop) n :
  weakly_fair F -> (forall m, n <= m -> J (σ m)) ->
  (forall d w, J d -> P w d -> enabled F d /\
     forall a d', ok d a -> step d a = Some d' -> J d' ->
       Q d' \/ exists w', P w' d' /\ w' <= w /\ (F a -> w' < w)) ->
  leads n (fun d => exists w, P w d) Q.
Proof.
  intros Hf HJ Hstep m Hm [w Hp]. revert m Hm Hp. induction w as [w IH] using lt_wf_ind. intros m Hm Hp.
  apply NNPP. intros Hno.
  assert (Hq : forall k, m <= k -> ~ Q (σ k)) by (intros k Hk Hq; apply Hno; by exists k).
  assert (Hlt : forall k w', m <= k -> w' < w -> ~ P w' (σ k)).
  { intros k w' Hk Hw Hp'. destruct (IH w' Hw k ltac:(lia) Hp') as (j & Hj & HQ). by apply (Hq j); [lia|]. }
  assert (Hall : forall k, m <= k -> P w (σ k)).
  { intros k Hk. induction Hk as [|k Hk IHk]; [done|]. specialize (Hex k). destruct (α k) as [a|]; [|by rewrite Hex].
    destruct Hex as [Ho Hs]. destruct (Hstep _ _ (HJ k ltac:(lia)) IHk) as [_ Hn].
    destruct (Hn a _ Ho Hs (HJ (S k) ltac:(lia))) as [HQ|(w' & Hw' & Hle & _)]; [by destruct (Hq (S k)); [lia|]|].
    destruct (decide (w' = w)) as [->|Hne]; [done|]. exfalso. apply (Hlt (S k) w'); [lia|lia|done]. }
  destruct (Hf m) as (k & Hk & a & Ha & HF).
  { intros k Hk. by apply (Hstep _ w (HJ k ltac:(lia)) (Hall k Hk)). }
  pose proof (Hex k) as Hs. rewrite Ha in Hs. destruct Hs as [Ho Hs].
  destruct (Hstep _ _ (HJ k ltac:(lia)) (Hall k Hk)) as [_ Hn].
  destruct (Hn a _ Ho Hs (HJ (S k) ltac:(lia))) as [HQ|(w' & Hw' & _ & Hw)].
  - by apply (Hq (S k)); [lia|].
  - by apply (Hlt (S k) w'); [lia|apply Hw|].
Qed.

(** What keeps one kind of actions possible again and again, until they
    happen. *)
Lemma strong_leads (J : St -> Prop) (F : Act -> Prop) (P Q : St -> Prop) n :
  strongly_fair F -> (forall m, n <= m -> J (σ m)) ->
  (forall m, n <= m -> (forall k, m <= k -> P (σ k)) -> exists k, m <= k /\ (enabled F (σ k) \/ Q (σ k))) ->
  (forall d a d', J d -> P d -> ok d a -> step d a = Some d' -> J d' -> Q d' \/ (P d' /\ ~ F a)) ->
  leads n P Q.
Proof.
  intros Hf HJ Hen Hstep m Hm Hp. apply NNPP. intros Hno.
  assert (Hq : forall k, m <= k -> ~ Q (σ k)) by (intros k Hk Hq; apply Hno; by exists k).
  assert (Hall : forall k, m <= k -> P (σ k)).
  { intros k Hk. induction Hk as [|k Hk IHk]; [done|]. specialize (Hex k). destruct (α k) as [a|]; [|by rewrite Hex].
    destruct Hex as [Ho Hs].
    destruct (Hstep _ a _ (HJ k ltac:(lia)) IHk Ho Hs (HJ (S k) ltac:(lia))) as [HQ|[HP _]]; [|done].
    by destruct (Hq (S k)); [lia|]. }
  destruct (Hf m) as (k & Hk & a & Ha & HF).
  { intros k Hk. destruct (Hen k ltac:(lia)) as (j & Hj & [He|HQ]); [|by exists j|by destruct (Hq j); [lia|]].
    intros j Hj. apply Hall. lia. }
  pose proof (Hex k) as Hs. rewrite Ha in Hs. destruct Hs as [Ho Hs].
  destruct (Hstep _ a _ (HJ k ltac:(lia)) (Hall k Hk) Ho Hs (HJ (S k) ltac:(lia))) as [HQ|[_ HF']]; [|done].
  by apply (Hq (S k)); [lia|].
Qed.

End Fair.

(** ** What the steps of the others leave alone *)

(** The response queue takes another command. *)
Definition room (d : vstate) : Prop := (Z.of_nat (length (respq d)) < QueueSize - 1)%Z.

#[export] Instance room_dec d : Decision (room d).
Proof. unfold room. apply _. Defined.

(** Actions on handler [k], decisions of expansion goroutine [e]. *)
Definition on_handler (k : nat) (a : vact) : Prop :=
  match a with Handle k' | Leave k' | Ask k' | Grant _ k' | Refuse _ k' => k' = k | _ => False end.
Definition decides (e : nat) (a : vact) : Prop :=
  match a with Grant e' _ | Refuse e' _ => e' = e | _ => False end.

Ltac unfold_steps H :=
  unfold open_conn, enter, conn_step, next_step, close_step, dispatch_step, expander_step, decide_expand,
    handler_step, leave_step, ask_step, ask, post in H.
Ltac step_cases H :=
  unfold_steps H; repeat (case_match || simplify_option_eq || apply bind_Some in H as (? & ? & H)).

Lemma others_disp d a d' :
  vrun1 d a = Some d' -> a <> Dispatch ->
  disp d' = disp d /\ exists l, respq d' = respq d ++ l /\ (l <> [] -> room d).
Proof.
  intros H Hne. destruct a; try done; cbn [vrun1] in H; step_cases H;
    (split; [done|]); first [by exists []; rewrite app_nil_r | by eexists].
Qed.

Lemma others_handler d a d' k h :
  vrun1 d a = Some d' -> handlers d !! k = Some h -> ~ on_handler k a -> handlers d' !! k = Some h.
Proof.
  intros H Hk Hne. destruct a; cbn [vrun1 on_handler] in *; step_cases H; cbn; try done;
    first [by rewrite list_lookup_insert_ne | by apply lookup_app_l_Some].
Qed.

Lemma others_expander d a d' e p :
  vrun1 d a = Some d' -> expanders d !! e = Some p -> a <> Expander e -> ~ decides e a ->
  expanders d' !! e = Some p.
Proof.
  intros H He Hne Hd. destruct a; cbn [vrun1 decides] in *; step_cases H; cbn; try done;
    first [by apply lookup_app_l_Some | rewrite list_lookup_insert_ne; [done|congruence]].
Qed.

Lemma drain_other x ch l : x <> ch -> ch ∈ l.*1 -> ch ∈ (drain_mail x l).*1.
Proof.
  intros Hne Hin. apply list_elem_of_fmap in Hin as (y & -> & Hy). apply list_elem_of_fmap. exists y.
  split; [done|]. unfold drain_mail. apply list_elem_of_filter. split; [by intros E; apply Hne|done].
Qed.

Lemma receive_other x ch l r : receive x l = Some r -> x <> ch -> ch ∈ l.*1 -> ch ∈ r.2.*1.
Proof.
  destruct r as [v l']. intros Hr%receive_perm Hne Hin. rewrite Hr in Hin. cbn in Hin.
  apply elem_of_cons in Hin as [->|?]; done.
Qed.

Ltac open_chan := unfold owns_chan, owns_slot; intuition congruence.

(** ** The dispatch loop *)

(** The steps until the loop pops again. *)
Definition dwork (p : dpc) : nat := match p with DPop => 0 | DSend _ => 1 | DField _ => 2 | DSwap _ => 3 end.

(** Commands come nearer to the front, and only [Dispatch] moves them. *)
Lemma dispatch_nearer d d' l1 x l2 :
  dispatch_step d = Some d' -> respq d = l1 ++ x :: l2 -> (disp d = DPop -> l1 <> []) ->
  exists l1', respq d' = l1' ++ x :: l2 /\
    4 * length l1' + dwork (disp d') < 4 * length l1 + dwork (disp d).
Proof.
  intros H Hq Hne. unfold dispatch_step in H. destruct (disp d) as [|s|j|y] eqn:Hp.
  - destruct l1 as [|[s cmd] l1]; [by destruct Hne|]. rewrite Hq in H. exists l1. cbn [app] in H.
    repeat case_decide; injection H as <-; (split; [done|]); cbn; rewrite ?Hp; cbn; lia.
  - injection H as <-. exists l1. split; [done|]. cbn. destruct (dwaiters d !! s); cbn; lia.
  - apply bind_Some in H as (? & _ & H). apply bind_Some in H as (? & _ & [= <-]). exists l1. split; [done|cbn; lia].
  - apply bind_Some in H as (? & E & [= <-]). apply post_Some in E as ->. exists l1. split; [done|cbn; lia].
Qed.

Lemma dispatch_shrinks d d' :
  dispatch_step d = Some d' -> 4 * length (respq d') + dwork (disp d') < 4 * length (respq d) + dwork (disp d).
Proof.
  intros H. unfold dispatch_step in H. destruct (disp d) as [|s|j|y] eqn:Hp.
  - destruct (respq d) as [|[s cmd] q]; [done|].
    repeat case_decide; injection H as <-; cbn; rewrite ?Hp; cbn; lia.
  - injection H as <-. cbn. destruct (dwaiters d !! s); cbn; lia.
  - apply bind_Some in H as (? & _ & H). apply bind_Some in H as (? & _ & [= <-]). cbn. lia.
  - apply bind_Some in H as (? & E & [= <-]). apply post_Some in E as ->. cbn. lia.
Qed.

Lemma others_nearer d a d' l1 x l2 :
  vrun1 d a = Some d' -> a <> Dispatch -> respq d = l1 ++ x :: l2 ->
  disp d' = disp d /\ exists l2', respq d' = l1 ++ x :: l2'.
Proof.
  intros H Hne Hq. destruct (others_disp d a d' H Hne) as (Hd & l & Hl & _). split; [done|].
  exists (l2 ++ l). by rewrite Hl, Hq, <- app_assoc.
Qed.

Lemma dispatch_ready d :
  rinv d -> (disp d = DPop -> respq d <> []) -> enabled obedient vrun1 (eq Dispatch) d.
Proof.
  intros Hd Hq. enough (is_Some (dispatch_step d)) as [d' H] by (by exists Dispatch, d').
  destruct (decide (disp d = DPop)) as [Hp|Hp]; [|by apply dispatch_free].
  unfold dispatch_step. rewrite Hp. destruct (respq d) as [|[s cmd] q]; [by destruct Hq|].
  repeat case_decide; by eexists.
Qed.

(** ** Fair executions *)

(** The dispatch loop, the goroutine of each expansion and each connection are
    treated fairly, the handlers strongly so. *)
Record fair (σ : nat -> vstate) (α : nat -> option vact) : Prop := {
  fair_dispatch : weakly_fair obedient vrun1 σ α (eq Dispatch);
  fair_expander : forall e, weakly_fair obedient vrun1 σ α (fun a => a = Expander e \/ decides e a);
  fair_conn : forall i, weakly_fair obedient vrun1 σ α (eq (Conn i));
  fair_handler : forall k, strongly_fair obedient vrun1 σ α (eq (Handle k));
}.

(** ** A connection that waits *)

Section Waiting.
Context (i : nat) (c : conn_g) (ch : nat).
Hypothesis (Hch : cg_done c = Some ch).

Definition waiting (d : vstate) : Prop := rinv d /\ conns d !! i = Some c /\ cg_pc c = NWait.

(** Its message is in its channel. *)
Definition mailed (d : vstate) : Prop := ch ∈ (mail d).*1.

Lemma own_step d d' : waiting d -> vrun1 d (Conn i) = Some d' -> ~ waiting d'.
Proof.
  intros (_ & Hi & Hp) H (_ & Hi' & _). cbn [vrun1] in H. unfold conn_step, next_step in H.
  rewrite Hi in H. cbn [mbind option_bind] in H. rewrite Hp in H.
  apply bind_Some in H as (x & _ & H). apply bind_Some in H as (r & _ & [= <-]). cbn in Hi'.
  rewrite list_lookup_insert_eq in Hi' by (by eapply lookup_lt_Some).
  injection Hi' as E. by rewrite <- E in Hp.
Qed.

Lemma mailed_stays d a d' : waiting d -> waiting d' -> vrun1 d a = Some d' -> mailed d -> mailed d'.
Proof.
  intros Hw Hw' H. assert (Hne : a <> Conn i) by (intros ->; by apply (own_step d d')).
  destruct Hw as ((Hs & _) & Hi & Hp). unfold mailed.
  assert (Hoth : forall j cj x, conns d !! j = Some cj -> Conn j <> Conn i -> owns_chan cj ->
    cg_done cj = Some x -> x <> ch).
  { intros j cj x Hj Hji Ho Hx ->. apply Hji. f_equal.
    eapply (si_chans _ Hs); [done|done|done|by apply waits_owns|congruence]. }
  destruct a; cbn [vrun1] in H; step_cases H; cbn [mail set_mail set_conns goto set_disp set_expanders
    set_handlers set_status set_dwaiters set_respq set_pool]; try done.
  1, 3: intros Hin; apply drain_other; [|done]; eapply Hoth; [eassumption|done| |eassumption]; open_chan.
  1, 2: intros Hin; eapply receive_other; [eassumption| |done]; eapply Hoth; [eassumption|done| |eassumption]; open_chan.
  all: intros Hin; rewrite fmap_app, elem_of_app; by left.
Qed.

Lemma slot_waiter d b :
  waiting d -> (TSlot (cg_slot c), b) ∈ tokens d -> dwaiters d !! cg_slot c = Some i.
Proof.
  intros (Hr & Hi & Hp) Ht. destruct (token_owner d _ Hr Ht) as (j & cj & Hj & [G1 G2 _ G4]). cbn in G2.
  rewrite (G4 _ eq_refl). f_equal.
  eapply (si_slots _ (proj1 Hr)); [done|done|by apply waits_owns|by apply waits_owns|done].
Qed.

(** The response on its way: in the queue, then in the hands of the loop. *)
Definition answered (w : nat) (d : vstate) : Prop :=
  (exists l1 l2, respq d = l1 ++ (cg_slot c, CMD_PROCESS) :: l2 /\ w = 4 * S (length l1) + dwork (disp d)) \/
  (dwork (disp d) = w /\
   match disp d with DPop => False | DSwap s => s = cg_slot c | DField j => j = i | DSend x => x = ch end).

Lemma answered_dispatch d d' w :
  waiting d -> answered w d -> dispatch_step d = Some d' ->
  mailed d' \/ exists w', answered w' d' /\ w' < w.
Proof.
  intros Hw Ha H. pose proof Hw as (Hr & Hi & Hp). pose proof (tokens_disp d) as Ht.
  destruct Ha as [(l1 & l2 & Hq & ->)|[<- Hd]].
  - right. destruct (decide (disp d = DPop /\ l1 = [])) as [[Hd ->]|Hne].
    + unfold dispatch_step in H. rewrite Hd, Hq in H. cbn [app] in H. rewrite decide_True in H by done.
      injection H as <-. exists 3. split; [by right|]. rewrite Hd. cbn. lia.
    + destruct (dispatch_nearer d d' l1 _ l2 H Hq) as (l1' & Hq' & Hlt); [by intros ? ->; apply Hne|].
      eexists. split; [left; by exists l1', l2|]. lia.
  - unfold dispatch_step in H. destruct (disp d) as [|s|j|x]; [done|subst..].
    + injection H as <-. right. exists 2. split; [|cbn; lia]. right. cbn [disp set_disp].
      rewrite (slot_waiter d true Hw) by (rewrite Ht; apply list_elem_of_here). done.
    + rewrite Hi in H. cbn [mbind option_bind] in H. rewrite Hch in H. injection H as <-.
      right. exists 1. split; [by right|cbn; lia].
    + apply bind_Some in H as (d1 & E & [= <-]). apply post_Some in E as ->. left. unfold mailed.
      cbn. rewrite fmap_app, elem_of_app. right. apply list_elem_of_here.
Qed.

(** The stages before: a handler at work, waiting for blocks, done, and the
    report of a refusal. *)
Definition running (k : nat) (d : vstate) : Prop := handlers d !! k = Some (HRun (cg_slot c)).
Definition asks_at (k : nat) (d : vstate) : Prop := handlers d !! k = Some (HAsk (cg_slot c) false).
Definition done_at (k : nat) (d : vstate) : Prop := handlers d !! k = Some (HDone (cg_slot c)).
Definition reporting_at (e w : nat) (d : vstate) : Prop :=
  (w = 3 /\ expanders d !! e = Some (ELoad (cg_slot c))) \/ (w = 2 /\ expanders d !! e = Some (EField i)) \/
  (w = 1 /\ expanders d !! e = Some (ESend ch)).
Definition reporting (d : vstate) : Prop := exists e w, reporting_at e w d.

(** What a request for blocks comes to. *)
Lemma decided d e k refuse d' :
  decide_expand d e k refuse = Some d' -> handlers d !! k = Some (HAsk (cg_slot c) false) ->
  running k d' \/ reporting d'.
Proof.
  intros H Hk. unfold decide_expand in H. apply bind_Some in H as (p & He & H). rewrite Hk in H.
  cbn [mbind option_bind] in H. destruct p as [s| | | |]; try done. case_decide as Hs; [|done]. subst s.
  destruct refuse; injection H as <-.
  - right. exists e, 3. left. split; [done|]. cbn. apply list_lookup_insert_eq. by eapply lookup_lt_Some.
  - left. unfold running. cbn. apply list_lookup_insert_eq. by eapply lookup_lt_Some.
Qed.

Lemma asks_moves d a d' k :
  vrun1 d a = Some d' -> asks_at k d -> asks_at k d' \/ running k d' \/ reporting d'.
Proof.
  intros H Hk. destruct (classic (on_handler k a)) as [Ho|Ho]; [|left; by eapply others_handler].
  unfold asks_at in Hk. right. destruct a; try done; cbn [on_handler vrun1] in *; subst k0.
  - by eapply decided.
  - by eapply decided.
  - unfold handler_step in H. by rewrite Hk in H.
  - unfold leave_step in H. by rewrite Hk in H.
  - unfold ask_step in H. by rewrite Hk in H.
Qed.

Lemma running_moves d a d' k :
  vrun1 d a = Some d' -> running k d ->
  (a <> Handle k /\ (running k d' \/ asks_at k d')) \/ done_at k d'.
Proof.
  intros H Hk. destruct (classic (on_handler k a)) as [Ho|Ho].
  2: { left. split; [intros ->; by apply Ho|]. left. by eapply others_handler. }
  pose proof (lookup_lt_Some _ _ _ Hk) as Hlt.
  unfold running, asks_at, done_at in *. destruct a; try done; cbn [on_handler vrun1] in *; subst k0.
  - unfold decide_expand in H. apply bind_Some in H as (p & _ & H). rewrite Hk in H. by destruct p.
  - unfold decide_expand in H. apply bind_Some in H as (p & _ & H). rewrite Hk in H. by destruct p.
  - unfold handler_step in H. rewrite Hk in H. injection H as <-. right. cbn. by apply list_lookup_insert_eq.
  - unfold leave_step in H. by rewrite Hk in H.
  - unfold ask_step, ask in H. rewrite Hk in H. cbn [mbind option_bind] in H. case_decide; [|done].
    injection H as <-. left. split; [done|]. right. cbn. by apply list_lookup_insert_eq.
Qed.

(** One handler works for the connection. *)
Lemma handler_unique d k k' h h' b b' :
  waiting d -> handlers d !! k = Some h -> handlers d !! k' = Some h' ->
  htok h = Some (TSlot (cg_slot c), b) -> htok h' = Some (TSlot (cg_slot c), b') -> k = k'.
Proof.
  intros (Hr & Hi & Hp) Hk Hk' Hh Hh'. destruct (decide (k = k')) as [|Hne]; [done|exfalso].
  destruct (omap_insert_perm htok _ k _ Hk) as (R & HR & HE). specialize (HE HEnd).
  destruct (omap_insert_perm htok (<[k := HEnd]> (handlers d)) k' h') as (R' & HR' & _);
    [by rewrite list_lookup_insert_ne|].
  rewrite HE in HR'. cbn [htok] in HR'. unfold option_list in *. rewrite Hh in HR. rewrite Hh' in HR'.
  cbn [option_rect app] in *. rewrite HR' in HR.
  pose proof (inflight_waiting d i c Hr Hi (waits_owns c Hp)) as H1. unfold inflight, tokens in H1.
  rewrite decide_True, HR in H1 by done. cbn [app] in H1. rewrite !filter_cons_True in H1 by done. cbn in H1. lia.
Qed.

(** Somebody is about to decide its request, or will be told to. *)
Lemma asks_asked d k :
  waiting d -> asks_at k d ->
  (cg_slot c, CMD_REQUEST_EXPAND) ∈ respq d \/ exists e, expanders d !! e = Some (EReq (cg_slot c)).
Proof.
  intros ((_ & _ & [Ha _]) & _) Hk.
  assert (Hin : cg_slot c ∈ omap asks (handlers d)).
  { apply list_elem_of_omap. exists (HAsk (cg_slot c) false). split; [by eapply list_elem_of_lookup_2|done]. }
  rewrite Ha in Hin. apply elem_of_app in Hin as [Hin|Hin]; apply list_elem_of_omap in Hin as (x & Hx & Hs).
  - left. unfold asked in Hs. case_decide as E; [|done]. destruct x as [s cmd]. cbn in *. by simplify_eq.
  - right. destruct x; try done. injection Hs as ->. apply list_elem_of_lookup in Hx as [e He]. by exists e.
Qed.

Lemma ereq_moves d a d' e k :
  waiting d -> vrun1 d a = Some d' -> asks_at k d -> expanders d !! e = Some (EReq (cg_slot c)) ->
  (running k d' \/ reporting d') \/
  (asks_at k d' /\ expanders d' !! e = Some (EReq (cg_slot c)) /\ ~ (a = Expander e \/ decides e a)).
Proof.
  intros Hw H Hk He. destruct (asks_moves d a d' k H Hk) as [Hk'|?]; [|by left].
  destruct (classic (a = Expander e \/ decides e a)) as [Hd|Hd].
  2: { right. split_and!; try done. eapply others_expander; try done; naive_solver. }
  left. destruct Hd as [->|Hd].
  { cbn [vrun1] in H. unfold expander_step in H. by rewrite He in H. }
  assert (Hex : exists k' refuse, decide_expand d e k' refuse = Some d').
  { destruct a; try done; cbn [decides vrun1] in *; subst; by eexists _, _. }
  destruct Hex as (k' & refuse & Hdec). pose proof Hdec as Hdec'. unfold decide_expand in Hdec.
  rewrite He in Hdec. cbn [mbind option_bind] in Hdec. apply bind_Some in Hdec as (h & Hh & Hdec).
  destruct h as [|s f| | |]; try done. case_decide as Hs; [|done]. subst s.
  destruct Hw as (Hr & Hi & Hp). pose proof Hr as (_ & _ & [_ Ha]).
  assert (f = false) as ->.
  { eapply Forall_lookup in Ha; [|exact Hh]. destruct f; [|done]. by destruct (Ha (cg_slot c)). }
  assert (k = k') as -> by (by eapply (handler_unique d k k')). by eapply decided.
Qed.

Lemma done_moves d a d' k :
  vrun1 d a = Some d' -> done_at k d ->
  (exists w, answered w d') \/ (done_at k d' /\ Handle k <> a).
Proof.
  intros H Hk. destruct (classic (on_handler k a)) as [Ho|Ho].
  2: { right. split; [by eapply others_handler|]. intros <-. by apply Ho. }
  left. unfold done_at in Hk. destruct a; try done; cbn [on_handler vrun1] in *; subst k0.
  - unfold decide_expand in H. apply bind_Some in H as (p & _ & H). rewrite Hk in H. by destruct p.
  - unfold decide_expand in H. apply bind_Some in H as (p & _ & H). rewrite Hk in H. by destruct p.
  - unfold handler_step in H. rewrite Hk in H. cbn [mbind option_bind] in H. case_decide; [|done].
    injection H as <-. eexists. left. exists (respq d), []. split; [done|reflexivity].
  - unfold leave_step in H. by rewrite Hk in H.
  - unfold ask_step in H. by rewrite Hk in H.
Qed.

Lemma reporting_step d d' e w :
  waiting d -> reporting_at e w d -> expander_step d e = Some d' ->
  mailed d' \/ exists w', reporting_at e w' d' /\ w' < w.
Proof.
  intros Hw He H. pose proof Hw as (Hr & Hi & Hp). unfold expander_step in H.
  destruct He as [(-> & He)|[(-> & He)|(-> & He)]]; pose proof (lookup_lt_Some _ _ _ He) as Hlt;
    rewrite He in H; cbn [mbind option_bind] in H.
  - injection H as <-. right. exists 2. split; [|lia]. right. left. split; [done|]. cbn.
    rewrite list_lookup_insert_eq by done. rewrite (slot_waiter d false Hw); [done|].
    rewrite tokens_exp, elem_of_app. left. apply list_elem_of_omap. eexists. split; [by eapply list_elem_of_lookup_2|done].
  - rewrite Hi in H. cbn [mbind option_bind] in H. rewrite Hch in H. injection H as <-.
    right. exists 1. split; [|lia]. right. right. split; [done|]. cbn. by apply list_lookup_insert_eq.
  - apply bind_Some in H as (d1 & E & [= <-]). apply post_Some in E as ->. left. unfold mailed.
    cbn. rewrite fmap_app, elem_of_app. right. apply list_elem_of_here.
Qed.

Lemma reporting_moves d a d' e w :
  waiting d -> vrun1 d a = Some d' -> reporting_at e w d ->
  mailed d' \/ exists w', reporting_at e w' d' /\ w' <= w /\ (a = Expander e \/ decides e a -> w' < w).
Proof.
  intros Hw H He. destruct (classic (a = Expander e \/ decides e a)) as [Hd|Hd].
  - destruct Hd as [->|Hd].
    + destruct (reporting_step d d' e w Hw He H) as [?|(w' & ? & ?)]; [by left|]. right. exists w'.
      split; [done|]. split; [lia|done].
    + exfalso. assert (Hs : exists k refuse, decide_expand d e k refuse = Some d').
      { destruct a; try done; cbn [decides vrun1] in *; subst; by eexists _, _. }
      destruct Hs as (k & refuse & Hs). unfold decide_expand in Hs.
      destruct He as [(_ & He)|[(_ & He)|(_ & He)]]; rewrite He in Hs; cbn [mbind option_bind] in Hs;
        by destruct (handlers d !! k).
  - right. exists w. split; [|by split]. unfold reporting_at in *.
    assert (Hsame : forall p, expanders d !! e = Some p -> expanders d' !! e = Some p)
      by (intros p Hp; eapply others_expander; try done; intuition).
    intuition.
Qed.

(** ** The way of its message *)

Context (σ : nat -> vstate) (α : nat -> option vact) (n : nat).
Hypothesis (Hex : execution obedient vrun1 σ α) (Hfair : fair σ α).
Hypothesis (Hwait : forall m, n <= m -> waiting (σ m)).

Lemma answered_leads : leads σ n (fun d => exists w, answered w d) mailed.
Proof.
  eapply weak_leads; [exact Hex|apply Hfair|exact Hwait|]. intros d w Hw Ha. split.
  - apply dispatch_ready; [apply Hw|]. intros Hd. destruct Ha as [(l1 & l2 & -> & _)|[_ Hn]]; [by destruct l1|].
    by rewrite Hd in Hn.
  - intros a d' _ H _. destruct (classic (a = Dispatch)) as [->|Hne].
    { destruct (answered_dispatch d d' w Hw Ha H) as [?|(w' & ? & ?)]; [by left|]. right. exists w'.
      split; [done|]. split; [lia|done]. }
    right. exists w. split; [|by split; [|intros <-]]. destruct Ha as [(l1 & l2 & Hq & ->)|Ha].
    + destruct (others_nearer d a d' l1 _ l2 H Hne Hq) as (Hd & l2' & Hq'). left.
      exists l1, l2'. by rewrite Hd.
    + right. destruct (others_disp d a d' H Hne) as (Hd & _). by rewrite Hd.
Qed.

Lemma reporting_leads : leads σ n reporting mailed.
Proof.
  intros m Hm (e & Hr). revert m Hm Hr. change (leads σ n (fun d => exists w, reporting_at e w d) mailed).
  eapply weak_leads; [exact Hex|apply (fair_expander _ _ Hfair e)|exact Hwait|]. intros d w Hw Hr. split.
  - assert (is_Some (expander_step d e)) as [d' H]; [|exists (Expander e), d'; by split; [left|]].
    destruct Hr as [(_ & He)|[(_ & He)|(_ & He)]]; (eapply expander_free; [apply Hw|exact He|by eexists]).
  - intros a d' _ H _. by eapply reporting_moves.
Qed.

Lemma room_comes : leads σ n (fun _ => True) room.
Proof.
  intros m Hm _. destruct (decide (room (σ m))) as [|Hn]; [by exists m|].
  assert (Hl : leads σ n (fun d => exists w, ~ room d /\ w = 4 * length (respq d) + dwork (disp d)) room).
  { eapply weak_leads; [exact Hex|apply Hfair|exact Hwait|]. intros d w Hw [Hf ->].
    assert (Hne : respq d <> []) by (intros E; apply Hf; unfold room; rewrite E; cbn; unfold_layout; lia).
    split; [by apply dispatch_ready; [apply Hw|]|]. intros a d' _ H _.
    destruct (decide (room d')) as [|Hf']; [by left|right].
    exists (4 * length (respq d') + dwork (disp d')). split; [by split|].
    destruct (classic (a = Dispatch)) as [->|Hna].
    - pose proof (dispatch_shrinks d d' H) as Hlt. split; [lia|done].
    - destruct (others_disp d a d' H Hna) as (-> & l & -> & Hl). destruct l as [|y l]; [|by destruct Hf; apply Hl].
      rewrite app_nil_r. split; [lia|by intros <-]. }
  by apply (Hl m Hm); eexists.
Qed.

Lemma done_leads k : leads σ n (done_at k) (fun d => exists w, answered w d).
Proof.
  eapply strong_leads; [exact Hex|apply (fair_handler _ _ Hfair k)|exact Hwait|..].
  - intros m Hm Hall. destruct (room_comes m Hm I) as (j & Hj & Hr). exists j. split; [done|left].
    specialize (Hall j Hj). unfold done_at in Hall. exists (Handle k). eexists. split; [done|]. cbn [obedient vrun1].
    unfold refused, handler_step. rewrite Hall. split; [done|]. cbn [mbind option_bind].
    by rewrite decide_True by exact Hr.
  - intros d a d' _ Hd _ H _. by eapply done_moves.
Qed.

Lemma ereq_leads e k :
  leads σ n (fun d => asks_at k d /\ expanders d !! e = Some (EReq (cg_slot c))) (fun d => running k d \/ reporting d).
Proof.
  intros m Hm H0.
  assert (Hl : leads σ n (fun d => exists w : nat, asks_at k d /\ expanders d !! e = Some (EReq (cg_slot c)))
    (fun d => running k d \/ reporting d)); [|by apply (Hl m Hm); exists 0].
  eapply weak_leads; [exact Hex|apply (fair_expander _ _ Hfair e)|exact Hwait|]. intros d w Hw [Hk He]. split.
  - exists (Grant e k). eexists. split; [by right|]. split; [done|]. cbn [vrun1]. unfold decide_expand.
    rewrite He, Hk. cbn [mbind option_bind]. by rewrite decide_True.
  - intros a d' _ H _. destruct (ereq_moves d a d' e k Hw H Hk He) as [?|(? & ? & ?)]; [by left|].
    right. exists w. by split_and!.
Qed.

(** A request in the queue reaches the hub. *)
Lemma asks_leads k : leads σ n (asks_at k) (fun d => running k d \/ reporting d).
Proof.
  intros m Hm Hk. destruct (asks_asked (σ m) k (Hwait m Hm) Hk) as [Hq|[e He]]; [|by eapply ereq_leads].
  apply list_elem_of_split in Hq as (l1 & l2 & Hq).
  set (P w d := asks_at k d /\ exists l1 l2, respq d = l1 ++ (cg_slot c, CMD_REQUEST_EXPAND) :: l2 /\
    w = 4 * length l1 + dwork (disp d)).
  set (Q d := (running k d \/ reporting d) \/ (asks_at k d /\ exists e, expanders d !! e = Some (EReq (cg_slot c)))).
  assert (Hl : leads σ n (fun d => exists w, P w d) Q).
  { eapply weak_leads; [exact Hex|apply Hfair|exact Hwait|]. clear. intros d w Hw (Hk & l1 & l2 & Hq & ->). split.
    { apply dispatch_ready; [apply Hw|]. intros _. rewrite Hq. by destruct l1. }
    intros a d' _ H _. destruct (asks_moves d a d' k H Hk) as [Hk'|?]; [|by left; left].
    destruct (classic (a = Dispatch)) as [->|Hne].
    - destruct (decide (disp d = DPop /\ l1 = [])) as [[Hp ->]|Hne].
      + left. right. split; [done|]. exists (length (expanders d)). cbn [vrun1] in H. unfold dispatch_step in H.
        rewrite Hp, Hq in H. cbn [app] in H. rewrite decide_False, decide_True in H by done. injection H as <-.
        cbn. rewrite lookup_app_r, Nat.sub_diag by done. done.
      + destruct (dispatch_nearer d d' l1 _ l2 H Hq) as (l1' & Hq' & Hlt); [by intros ? ->; apply Hne|].
        right. eexists. split; [split; [done|]; by exists l1', l2|]. split; [lia|done].
    - destruct (others_nearer d a d' l1 _ l2 H Hne Hq) as (Hd & l2' & Hq'). right. eexists.
      split; [split; [done|]; by exists l1, l2'|]. rewrite Hd. split; [lia|by intros <-]. }
  destruct (Hl m Hm) as (j & Hj & [?|[Hk' [e He]]]); [by eexists; split; [|exists l1, l2]|by exists j|].
  destruct (ereq_leads e k j ltac:(lia) (conj Hk' He)) as (j' & ? & ?). exists j'. split; [lia|done].
Qed.

Lemma running_leads k :
  leads σ n (fun d => running k d \/ asks_at k d) (fun d => done_at k d \/ reporting d).
Proof.
  eapply strong_leads; [exact Hex|apply (fair_handler _ _ Hfair k)|exact Hwait|..].
  - intros m Hm Hall.
    assert (Hen : forall j, running k (σ j) -> enabled obedient vrun1 (eq (Handle k)) (σ j)).
    { intros j Hk. unfold running in Hk. exists (Handle k). eexists. split; [done|]. cbn [obedient vrun1].
      unfold refused, handler_step. by rewrite Hk. }
    destruct (Hall m (le_n m)) as [Hk|Hk]; [exists m; by split; [|left; apply Hen]|].
    destruct (asks_leads k m Hm Hk) as (j & Hj & [?|?]); exists j; (split; [done|]); [left; by apply Hen|by right; right].
  - intros d a d' _ [Hk|Hk] _ H _.
    + destruct (running_moves d a d' k H Hk) as [[? ?]|?]; [|by left; left]. right. split; [done|congruence].
    + destruct (asks_moves d a d' k H Hk) as [?|[?|?]]; [|..|by left; right].
      * right. split; [by right|]. intros <-. cbn [vrun1] in H. unfold handler_step in H. by rewrite Hk in H.
      * right. split; [by left|]. intros <-. cbn [vrun1] in H. unfold handler_step in H. by rewrite Hk in H.
Qed.

Lemma handler_leads k :
  leads σ n (fun d => running k d \/ asks_at k d \/ done_at k d) mailed.
Proof.
  assert (Hd : leads σ n (done_at k) mailed) by (eapply leads_trans; [apply done_leads|apply answered_leads]).
  assert (Hr : leads σ n (fun d => running k d \/ asks_at k d) mailed).
  { eapply leads_trans; [apply running_leads|]. apply leads_or; [done|apply reporting_leads]. }
  intros m Hm [Hk|[Hk|Hk]]; [apply Hr; auto..|by apply Hd].
Qed.

(** Wherever the message is, it arrives. *)
Lemma message_arrives : leads σ n (fun _ => True) mailed.
Proof.
  intros m Hm _. pose proof (Hwait m Hm) as (Hr & Hi & Hp). pose proof Hr as (_ & [O HO] & _).
  destruct (ti_wait _ _ HO _ _ Hi Hp) as [t Ht]. destruct (ti_good _ _ HO _ _ Ht) as (c' & Hc' & [_ G2 _ _]).
  assert (c' = c) as -> by congruence.
  assert (Hin : t ∈ tokens (σ m)).
  { rewrite (ti_all _ _ HO). unfold vals. apply list_elem_of_fmap. exists (i, t). split; [done|].
    by apply elem_of_map_to_list. }
  unfold tokens in Hin. rewrite !elem_of_app in Hin. destruct Hin as [Hin|[Hin|[Hin|[Hin|Hin]]]].
  - apply list_elem_of_omap in Hin as (h & Hh & E). apply list_elem_of_lookup in Hh as [k Hk].
    destruct h as [s|s [|]|s|s|]; try done; injection E as <-; cbn in G2; subst s.
    + eapply handler_leads; [done|]. by left.
    + eapply handler_leads; [done|]. by right; left.
    + eapply handler_leads; [done|]. by right; right.
  - apply list_elem_of_omap in Hin as ([s cmd] & Hx & E). unfold rtok in E. case_decide as Hc; [|done].
    injection E as <-. cbn in G2, Hc. subst s cmd. apply list_elem_of_split in Hx as (l1 & l2 & Hq).
    apply answered_leads; [done|]. eexists. left. by exists l1, l2.
  - apply answered_leads; [done|]. exists (dwork (disp (σ m))). right. split; [done|].
    unfold option_list in Hin. destruct (disp (σ m)); cbn in Hin; try (by apply elem_of_nil in Hin);
      apply list_elem_of_singleton in Hin as ->; cbn in G2; congruence.
  - apply list_elem_of_omap in Hin as (p & Hx & E). apply list_elem_of_lookup in Hx as [e He].
    apply reporting_leads; [done|]. exists e. unfold reporting_at.
    destruct p; try done; injection E as <-; cbn in G2; [exists 3|exists 2|exists 1]; intuition congruence.
  - apply list_elem_of_fmap in Hin as (x & -> & Hx). cbn in G2. exists m. split; [done|].
    apply list_elem_of_fmap. exists x. split; [congruence|done].
Qed.

End Waiting.

(** ** The wait ends *)

Lemma waiting_stays i c d a d' :
  waiting i c d -> obedient d a -> vrun1 d a = Some d' -> a <> Conn i -> waiting i c d'.
Proof.
  intros (Hr & Hi & Hp) Ho H Hne. split; [eapply rinv_step; [done|by exists a]|]. split; [|done].
  destruct a; cbn [vrun1] in H; step_cases H; cbn; try done; try (by apply lookup_app_l_Some);
    (rewrite list_lookup_insert_ne; [done|congruence]).
Qed.

Lemma waiting_until i c σ α n m :
  execution obedient vrun1 σ α -> waiting i c (σ n) -> n <= m ->
  (forall k, n <= k < m -> α k <> Some (Conn i)) -> waiting i c (σ m).
Proof.
  intros Hex Hw Hm. induction Hm as [|m Hm IH]; intros Hno; [done|].
  assert (Hwm : waiting i c (σ m)) by (apply IH; intros k Hk; apply Hno; lia).
  specialize (Hex m). destruct (α m) as [a|] eqn:Ha; [|by rewrite Hex]. destruct Hex as [Ho Hs].
  eapply waiting_stays; try done. intros ->. apply (Hno m); [lia|done].
Qed.

Lemma receive_present ch l : ch ∈ l.*1 -> is_Some (receive ch l).
Proof.
  intros Hin. destruct (receive ch l) eqn:E; [by eexists|]. by apply receive_absent in E.
Qed.

Lemma own_step_ready i c ch d :
  waiting i c d -> cg_done c = Some ch -> mailed ch d -> enabled obedient vrun1 (eq (Conn i)) d.
Proof.
  intros (_ & Hi & Hp) Hch [[v l] Hr]%receive_present. exists (Conn i). eexists. split; [done|]. split; [done|].
  cbn [vrun1]. unfold conn_step, next_step. rewrite Hi. cbn [mbind option_bind]. rewrite Hp, Hch.
  cbn [mbind option_bind]. by rewrite Hr.
Qed.

(** The connection takes a step. *)
Lemma own_step_taken i c σ α n :
  execution obedient vrun1 σ α -> fair σ α -> waiting i c (σ n) -> exists m, n <= m /\ α m = Some (Conn i).
Proof.
  intros Hex Hf Hw. apply NNPP. intros Hno.
  assert (Hall : forall m, n <= m -> waiting i c (σ m)).
  { intros m Hm. apply (waiting_until i c σ α n m); try done. intros k Hk Ha. apply Hno. exists k. split; [lia|done]. }
  pose proof Hw as (Hr & Hi & Hp).
  destruct (si_owned _ (proj1 Hr) _ _ Hi (waits_owns c Hp)) as (ch & Hch & _).
  destruct (message_arrives i c ch Hch σ α n Hex Hf Hall n (le_n n) I) as (m & Hm & Hmail).
  assert (Hmails : forall k, m <= k -> mailed ch (σ k)).
  { intros k Hk. induction Hk as [|k Hk IH]; [done|]. pose proof (Hex k) as Hs.
    destruct (α k) as [a|]; [|by rewrite Hs]. destruct Hs as [_ Hs].
    eapply (mailed_stays i c ch Hch (σ k) a); [apply Hall; lia|apply (Hall (S k)); lia|done|done]. }
  destruct (fair_conn _ _ Hf i m) as (k & Hk & a & Ha & <-).
  { intros k Hk. apply (own_step_ready i c ch); [apply Hall; lia|done|by apply Hmails]. }
  apply Hno. exists k. split; [lia|done].
Qed.

Lemma first_taken (α : nat -> option vact) a n m :
  n <= m -> α m = Some a ->
  exists k, n <= k /\ α k = Some a /\ forall j, n <= j < k -> α j <> Some a.
Proof.
  induction m as [m IH] using lt_wf_ind. intros Hm Ha.
  destruct (classic (exists j, n <= j < m /\ α j = Some a)) as [(j & Hj & Haj)|Hno].
  - apply (IH j); [lia|lia|done].
  - exists m. split; [done|]. split; [done|]. intros j Hj Haj. apply Hno. by exists j.
Qed.

Lemma execution_reach σ α n :
  σ 0 = vinit -> execution obedient vrun1 σ α -> rtc obedient_step vinit (σ n).
Proof.
  intros H0 Hex. induction n as [|n IH]; [rewrite H0; apply rtc_refl|]. specialize (Hex n).
  destruct (α n) as [a|]; [|by rewrite Hex]. destruct Hex as [Ho Hs]. eapply rtc_r; [exact IH|by exists a].
Qed.

(** ** Theorem *)

(** C13: [Next] returns.  In every execution from the initial state in which
    handlers return once an expansion was refused to them, the dispatch loop,
    the expansion goroutines and the connections are treated fairly and the
    handlers strongly fairly: a connection that waits in [Next] stays as it is
    until its own step comes, which does come, takes the message and returns;
    without an error only when the node has marked the slot done. *)
Theorem Next_returns σ α n i c :
  σ 0 = vinit -> execution obedient vrun1 σ α -> fair σ α ->
  conns (σ n) !! i = Some c -> cg_pc c = NWait ->
  exists m v, n <= m /\ α m = Some (Conn i) /\
    (forall k, n <= k <= m -> conns (σ k) !! i = Some c) /\
    conns (σ (S m)) !! i = Some (mkCG (cg_slot c) (cg_done c) NIdle (Some v)) /\
    (v = None -> slot_status (σ (S m)) (cg_slot c) = StripeStatusDone).
Proof.
  intros H0 Hex Hf Hi Hp. pose proof (rinv_reach _ (execution_reach σ α n H0 Hex)) as Hr.
  destruct (own_step_taken i c σ α n Hex Hf) as (m0 & Hm0 & Ha0); [by split_and!|].
  destruct (first_taken α _ n m0 Hm0 Ha0) as (m & Hm & Ha & Hno). clear m0 Hm0 Ha0.
  assert (Hw : forall k, n <= k <= m -> waiting i c (σ k)).
  { intros k Hk. apply (waiting_until i c σ α n k); [done|by split_and!|lia|]. intros j Hj. apply Hno. lia. }
  destruct (Hw m ltac:(lia)) as (Hrm & Him & _). specialize (Hex m). rewrite Ha in Hex. destruct Hex as [_ Hs].
  cbn [vrun1] in Hs. unfold conn_step, next_step in Hs. rewrite Him in Hs. cbn [mbind option_bind] in Hs.
  rewrite Hp in Hs. apply bind_Some in Hs as (ch & Hch & Hs). apply bind_Some in Hs as ([v l] & Hrec & Hs).
  injection Hs as Hs. exists m, v. split_and!; try done.
  - intros k Hk. apply (Hw k Hk).
  - rewrite <- Hs. cbn. apply list_lookup_insert_eq. by eapply lookup_lt_Some.
  - intros Hv. rewrite <- Hs. by apply (mail_done (σ m) i c ch v l).
Qed.

(** ** An execution *)

(** The actions of a list, and then nothing more. *)
Definition replay (l : list vact) (n : nat) : vstate := default vinit (vrun vinit (take n l)).

Lemma vrun_app l1 l2 d : vrun d (l1 ++ l2) = d' ← vrun d l1; vrun d' l2.
Proof. revert d. induction l1 as [|a l1 IH]; intros d; [done|]. cbn. destruct (vrun1 d a); cbn; [apply IH|done]. Qed.

Lemma obeys_app l1 l2 d d' : obeys d (l1 ++ l2) = true -> vrun d l1 = Some d' -> obeys d' l2 = true.
Proof.
  revert d. induction l1 as [|a l1 IH]; intros d Ho H; cbn [app obeys vrun] in *; [by injection H as <-|].
  apply andb_prop in Ho as [_ Ho]. apply bind_Some in H as (d1 & E & H). rewrite E in Ho. by eapply IH.
Qed.

Lemma replay_execution l :
  obeys vinit l = true -> is_Some (vrun vinit l) -> execution obedient vrun1 (replay l) (fun n => l !! n).
Proof.
  intros Ho [d Hd] n. unfold replay. destruct (l !! n) as [a|] eqn:Ha.
  - rewrite (take_S_r _ _ _ Ha). rewrite <- (take_drop n l), (drop_S _ _ _ Ha) in Ho, Hd.
    rewrite vrun_app in Hd |- *. apply bind_Some in Hd as (d1 & E & Hd). rewrite E.
    pose proof (obeys_app _ _ _ _ Ho E) as Ho1. cbn [vrun obeys] in *.
    apply andb_prop in Ho1 as [Ho1%bool_decide_eq_true_1 _]. apply bind_Some in Hd as (d2 & E2 & _).
    cbn [mbind option_bind default]. by rewrite E2.
  - apply lookup_ge_None in Ha. by rewrite !take_ge by lia.
Qed.

(** The end of a list after which nobody has anything to do. *)
Definition resting (d : vstate) : Prop :=
  disp d = DPop /\ respq d = [] /\ Forall (fun p => p = EEnd) (expanders d) /\
  Forall (fun h => h = HEnd) (handlers d) /\ Forall (fun c => cg_pc c = NIdle \/ cg_pc c = NClosed) (conns d).

(** The actions that are treated fairly. *)
Definition scheduled (a : vact) : Prop :=
  match a with Dispatch | Expander _ | Grant _ _ | Refuse _ _ | Conn _ | Handle _ => True | _ => False end.

Lemma resting_quiet d a : resting d -> scheduled a -> vrun1 d a = None.
Proof.
  intros (Hd & Hq & He & Hh & Hc) Hs. destruct a; try done; cbn [vrun1].
  - unfold conn_step. destruct (conns d !! i) as [c|] eqn:E; [|done]. cbn.
    eapply Forall_lookup in Hc; [|exact E]. by destruct Hc as [-> | ->].
  - unfold dispatch_step. by rewrite Hd, Hq.
  - unfold expander_step. destruct (expanders d !! e) as [p|] eqn:E; [|done]. cbn.
    eapply Forall_lookup in He; [|exact E]. by rewrite He.
  - unfold decide_expand. destruct (expanders d !! e) as [p|] eqn:E; [|done].
    eapply Forall_lookup in He; [|exact E]. rewrite He. cbn. by destruct (handlers d !! k).
  - unfold decide_expand. destruct (expanders d !! e) as [p|] eqn:E; [|done].
    eapply Forall_lookup in He; [|exact E]. rewrite He. cbn. by destruct (handlers d !! k).
  - unfold handler_step. destruct (handlers d !! k) as [h|] eqn:E; [|done]. cbn.
    eapply Forall_lookup in Hh; [|exact E]. by rewrite Hh.
Qed.

Lemma replay_fair l d : vrun vinit l = Some d -> resting d -> fair (replay l) (fun n => l !! n).
Proof.
  intros Hd Hr.
  assert (Hend : forall m, length l <= m -> replay l m = d) by (intros m Hm; unfold replay; by rewrite take_ge, Hd).
  assert (Hno : forall F m, (forall a, F a -> scheduled a) -> length l <= m ->
    ~ enabled obedient vrun1 F (replay l m)).
  { intros F m HF Hm (a & d' & Ha & _ & H). rewrite Hend in H by done.
    rewrite (resting_quiet d a Hr) in H by (by apply HF). done. }
  assert (Hweak : forall F, (forall a, F a -> scheduled a) ->
    weakly_fair obedient vrun1 (replay l) (fun n => l !! n) F).
  { intros F HF n Hen. destruct (Hno F (max n (length l)) HF); [lia|]. apply Hen. lia. }
  split.
  - apply Hweak. by intros a <-.
  - intros e. apply Hweak. intros a [->|Ha]; [done|]. by destruct a.
  - intros i. apply Hweak. by intros a <-.
  - intros k n Hen. destruct (Hen (max n (length l))) as (m & Hm & He); [lia|].
    destruct (Hno (eq (Handle k)) m); [by intros a <-|lia|done].
Qed.

(** The run of two connections, to its end: the refusal reaches the second. *)
Definition demo_end : list vact := demo_run ++ [Expander 1; Conn 2].

Lemma Next_returns_witness :
  exists m v, 36 <= m /\ demo_end !! m = Some (Conn 2) /\
    exists c, conns (replay demo_end 36) !! 2 = Some c /\ cg_pc c = NWait /\
    conns (replay demo_end (S m)) !! 2 = Some (mkCG (cg_slot c) (cg_done c) NIdle (Some v)).
Proof.
  destruct (vrun vinit demo_end) as [d|] eqn:E; [|vm_compute in E; discriminate].
  assert (Hr : resting d) by (vm_compute in E; injection E as <-; repeat (constructor; auto)).
  assert (Hc : exists c, conns (replay demo_end 36) !! 2 = Some c /\ cg_pc c = NWait)
    by (eexists; split; [vm_compute; reflexivity|reflexivity]).
  destruct Hc as (c & Hc & Hp).
  destruct (Next_returns (replay demo_end) (fun n => demo_end !! n) 36 2 c) as (m & v & Hm & Ha & _ & Hi & _).
  - reflexivity.
  - apply replay_execution; [vm_compute; reflexivity|]. rewrite E. by eexists.
  - by apply (replay_fair demo_end d).
  - exact Hc.
  - exact Hp.
  - exists m, v. split; [exact Hm|]. split; [exact Ha|]. exists c. split; [exact Hc|]. split; [exact Hp|exact Hi].
Defined.
