(* ===== verification/Hub.v ===== *)
(** * The hub

    go/hub/hub.go and the parts of go/hub/conn.go that work on the whole hub:
    node ids, slots, commands to the nodes, the dispatch of their responses,
    stripe expansion, clean-up after a node that has gone, and the life of a
    request.  Channels, eventfds and the node table are explicit state; what
    arrives from sockets is a parameter. *)
From stdpp Require Import base tactics list numbers option gmap strings.
From Stdlib Require Import ZArith Lia.
From S2P Require Import Prelude Memory Layout Protocol Stripe Bus Control Attach Conn.
#[local] Open Scope Z_scope.

(** [evCount] counts the notifications written to the node's eventfd. *)
Record NodeInfo : Type := mkNodeInfo { niID : Z; evCount : Z; closed : bool }.

(** [infos] are the [NodeInfo] values, addressed by pointer; [nodes] maps a
    name to a pointer.  A waiter is the channel stored for a slot; [chans] are
    the contents of the channels, each with room for one value.  [limit] is
    the number of tokens in the limiting channel. *)
Record Hub : Type := mkHub {
  hbus : Bus;
  hctrl : Control;
  infos : gmap Z NodeInfo;
  nodes : gmap string Z;
  waiters : gmap Z Z;
  chans : gmap Z (list (option goerror));
  nodeIDs : list Z;
  limit : Z;
}.

Definition with_bus (h : Hub) (b : Bus) : Hub :=
  mkHub b (hctrl h) (infos h) (nodes h) (waiters h) (chans h) (nodeIDs h) (limit h).
Definition with_ctrl (h : Hub) (c : Control) : Hub :=
  mkHub (hbus h) c (infos h) (nodes h) (waiters h) (chans h) (nodeIDs h) (limit h).
Definition with_infos (h : Hub) (i : gmap Z NodeInfo) : Hub :=
  mkHub (hbus h) (hctrl h) i (nodes h) (waiters h) (chans h) (nodeIDs h) (limit h).
Definition with_nodes (h : Hub) (n : gmap string Z) : Hub :=
  mkHub (hbus h) (hctrl h) (infos h) n (waiters h) (chans h) (nodeIDs h) (limit h).
Definition with_waiters (h : Hub) (w : gmap Z Z) : Hub :=
  mkHub (hbus h) (hctrl h) (infos h) (nodes h) w (chans h) (nodeIDs h) (limit h).
Definition with_chans (h : Hub) (c : gmap Z (list (option goerror))) : Hub :=
  mkHub (hbus h) (hctrl h) (infos h) (nodes h) (waiters h) c (nodeIDs h) (limit h).
Definition with_nodeIDs (h : Hub) (l : list Z) : Hub :=
  mkHub (hbus h) (hctrl h) (infos h) (nodes h) (waiters h) (chans h) l (limit h).
Definition with_limit (h : Hub) (n : Z) : Hub :=
  mkHub (hbus h) (hctrl h) (infos h) (nodes h) (waiters h) (chans h) (nodeIDs h) n.

(** ** Channels *)

(** A send on a channel of capacity one; on a full one it blocks. *)
Definition send (h : Hub) (ch : Z) (v : option goerror) : outcome Hub :=
  match default [] (chans h !! ch) with
  | [] => Ret (with_chans h (<[ch := [v]]> (chans h)))
  | _ :: _ => Diverge
  end.

Definition clearChannel (h : Hub) (ch : Z) : Hub := with_chans h (<[ch := []]> (chans h)).

(** The waiter array has [MaxTotalSlots + 1] places. *)
Definition waiter (h : Hub) (slot : Z) : outcome (option Z) :=
  if decide (0 <= slot <= MaxTotalSlots) then Ret (waiters h !! slot) else Panic.

(** ** Node table *)

(** [notify], [closeEventfd] and [isClosed] on the node at pointer [p]. *)
Definition notify (h : Hub) (p : Z) : outcome (Hub * option goerror) :=
  match infos h !! p with
  | None => Panic
  | Some n =>
      if closed n then Ret (h, Some ErrNodeClosed)
      else Ret (with_infos h (<[p := mkNodeInfo (niID n) (evCount n + 1) false]> (infos h)), None)
  end.

Definition closeEventfd (h : Hub) (p : Z) : outcome Hub :=
  match infos h !! p with
  | None => Panic
  | Some n => Ret (with_infos h (<[p := mkNodeInfo (niID n) (evCount n) true]> (infos h)))
  end.

Definition isClosed (h : Hub) (p : Z) : outcome bool :=
  match infos h !! p with None => Panic | Some n => Ret (closed n) end.

(** The loop of [allocNodeID] over the ids from [i] on, [k] of them. *)
Fixpoint alloc_id_loop (k : nat) (i : Z) (ids : list Z) : outcome (list Z * (goerror + Z)) :=
  match k with
  | O => Ret (ids, inl ErrMaxNodes)
  | S k' =>
      let idx := Z.quot i 64 in
      let bit := Z.rem i 64 in
      w ← go_index ids idx;
      if decide (Z.land w (u64 (Z.shiftl 1 bit)) = 0)
      then Ret (<[Z.to_nat idx := Z.lor w (u64 (Z.shiftl 1 bit))]> ids, inr i)
      else alloc_id_loop k' (i + 1) ids
  end.

Definition allocNodeID (h : Hub) : outcome (Hub * (goerror + Z)) :=
  r ← alloc_id_loop (Z.to_nat (MaxNodes - 1)) 1 (nodeIDs h);
  Ret (with_nodeIDs h r.1, r.2).

Definition freeNodeID (h : Hub) (id : Z) : outcome Hub :=
  let idx := Z.quot id 64 in
  let bit := Z.rem id 64 in
  w ← go_index (nodeIDs h) idx;
  Ret (with_nodeIDs h (<[Z.to_nat idx := Z.land w (u64 (Z.lnot (Z.shiftl 1 bit)))]> (nodeIDs h))).

(** ** Slots and commands *)

(** Takes a token first, and waits if there is none left. *)
Definition allocSlot (m : mem) (h : Hub) (s : Stripe) : outcome (mem * Hub * (goerror + Z)) :=
  if decide (limit h >= MaxTotalSlots) then Diverge
  else
    r ← AllocSlot m (hctrl h);
    let '(m1, c1, (slot, ok)) := r in
    let h1 := with_ctrl h c1 in
    if ok : bool then
      cid ← go_index (Sequence s) 0;
      off ← go_index (Sequence s) 1;
      m2 ← SetStripe m1 c1 slot StripeStatusReady cid off 0;
      Ret (m2, with_limit h1 (limit h + 1), inr slot)
    else Ret (m1, h1, inl ErrNoSlots).

Fixpoint pushToNode (fuel : nat) (m : mem) (h : Hub) (p slot cmd : Z)
  : outcome (mem * option goerror) :=
  match fuel with
  | O => Diverge
  | S fuel' =>
      match infos h !! p with
      | None => Panic
      | Some n =>
          r ← Push m (hctrl h) (GetNodeReqQueueOffset (niID n)) slot cmd;
          if r.2 : bool then Ret (r.1, None)
          else if closed n then Ret (r.1, Some ErrNodeDisconnected)
          else pushToNode fuel' r.1 h p slot cmd
      end
  end.

Definition submit (fuel : nat) (m : mem) (h : Hub) (p slot : Z)
  : outcome (mem * Hub * option goerror) :=
  r ← pushToNode fuel m h p slot CMD_PROCESS;
  match r with
  | (m1, Some e) => Ret (m1, h, Some e)
  | (m1, None) => n ← notify h p; Ret (m1, n.1, n.2)
  end.

(** The node with id [nodeID] among the registered ones. *)
Definition find_node (h : Hub) (id : Z) : option Z :=
  snd <$> head (filter (fun kp => niID <$> infos h !! kp.2 = Some id) (map_to_list (nodes h))).

Definition expandResponse (fuel : nat) (m : mem) (h : Hub) (nodeID slot cmd : Z)
  : outcome (mem * Hub) :=
  match find_node h nodeID with
  | None => Ret (m, h)
  | Some p =>
      r ← pushToNode fuel m h p slot cmd;
      match r with
      | (m1, Some _) => Ret (m1, h)
      | (m1, None) => n ← notify h p; Ret (m1, n.1)
      end
  end.

(** ** Expansion *)

(** Sends an error to whoever waits on the slot. *)
Definition report (h : Hub) (slot : Z) (e : goerror) : outcome Hub :=
  w ← waiter h slot;
  match w with
  | None => Ret h
  | Some ch => send h ch (Some e)
  end.

(** The stripe rebuilt for an expansion: only its header block is filled in. *)
Definition partial_stripe (hd : slice) (dataLen blkCnt : Z) (seq : list Z) : Stripe :=
  mkStripe seq blkCnt (<[0%nat := hd]> (replicate (Z.to_nat blkCnt) nil_slice)) dataLen.

(** The part after the ownership check. *)
Definition grant_expand (fuel : nat) (mk : Z -> option Chunk) (m : mem) (h : Hub)
  (nodeID slot : Z) (stripe : Stripe) : outcome (mem * Hub) :=
  a ← AllocBlocksForStripe mk m (hbus h) stripe 2;
  let '(m1, b1, stripe1, err) := a in
  let h1 := with_bus h b1 in
  match err with
  | Some e =>
      r ← expandResponse fuel m1 h1 nodeID slot CMD_EXPAND_ERROR;
      h2 ← report r.2 slot e;
      Ret (r.1, h2)
  | None =>
      m2 ← UpdateStripeHeader m1 stripe1;
      expandResponse fuel m2 h1 nodeID slot CMD_EXPAND_READY
  end.

(** [stripe.Blocks[0] = headerBlk] panics when the header claims no blocks. *)
Definition handleExpandRequest (fuel : nat) (mk : Z -> option Chunk) (m : mem) (h : Hub)
  (nodeID slot : Z) : outcome (mem * Hub) :=
  loc ← GetStripeHeader m (hctrl h) slot;
  let '(cid, off) := loc in
  chunk ← hub_getChunk (hbus h) cid;
  headerBlk ← block_at chunk off;
  d ← DecodeHeader m headerBlk;
  let '(dataLen, blkCnt, seq) := d in
  _ ← (if decide (blkCnt = 0) then Panic else Ret tt);
  let stripe := partial_stripe headerBlk dataLen blkCnt seq in
  owner ← GetStripeOwner m (hctrl h) slot;
  if decide (owner <> u32 nodeID) then
    r ← expandResponse fuel m h nodeID slot CMD_EXPAND_ERROR;
    h2 ← report r.2 slot ErrNotOwner;
    Ret (r.1, h2)
  else grant_expand fuel mk m h nodeID slot stripe.

(** ** Responses *)

(** What [dispatchLoop] does with one popped command.  The last component is
    the goroutine it starts: [handleExpandRequest] for an owner and a slot. *)
Definition hub_dispatch (m : mem) (h : Hub) (slot cmd : Z)
  : outcome (Hub * option (Z * Z)) :=
  if decide (cmd = CMD_PROCESS) then
    w ← waiter h slot;
    let h1 := with_waiters h (delete slot (waiters h)) in
    match w with
    | None => Ret (h1, None)
    | Some ch => h2 ← send h1 ch None; Ret (h2, None)
    end
  else if decide (cmd = CMD_REQUEST_EXPAND) then
    owner ← GetStripeOwner m (hctrl h) slot;
    Ret (h, Some (owner, slot))
  else Ret (h, None).

(** ** Clean-up after a node *)

(** One round of the loop of [CleanupResources]. *)
Definition cleanup_slot (m : mem) (h : Hub) (nodeID i : Z) : outcome (mem * Hub) :=
  status ← GetStripeStatus m (hctrl h) i;
  if decide (status <> StripeStatusIdle) then
    owner ← GetStripeOwner m (hctrl h) i;
    if decide (owner = nodeID) then
      loc ← GetStripeHeader m (hctrl h) i;
      let '(cid, off) := loc in
      headerCk ← hub_getChunk (hbus h) cid;
      headerBlk ← block_at headerCk off;
      d ← DecodeHeader m headerBlk;
      b' ← free_seq (hbus h) 0 d.2;
      m' ← FreeSlot m (hctrl h) i;
      Ret (m', with_bus h b')
    else Ret (m, h)
  else Ret (m, h).

Fixpoint cleanup_loop (k : nat) (i : Z) (m : mem) (h : Hub) (nodeID : Z)
  : outcome (mem * Hub) :=
  match k with
  | O => Ret (m, h)
  | S k' =>
      r ← cleanup_slot m h nodeID i;
      cleanup_loop k' (i + 1) r.1 r.2 nodeID
  end.

Definition CleanupResources (m : mem) (h : Hub) (nodeID : Z) : outcome (mem * Hub) :=
  cleanup_loop (Z.to_nat MaxTotalSlots) 0 m h nodeID.

(** [watchdog], once the read from the node's socket has failed. *)
Definition watchdog_exit (m : mem) (h : Hub) (name : string) (p : Z) : outcome (mem * Hub) :=
  match infos h !! p with
  | None => Panic
  | Some n =>
      r ← CleanupResources m h (niID n);
      let '(m1, h1) := r in
      h2 ← freeNodeID h1 (niID n);
      h3 ← closeEventfd (with_nodes h2 (delete name (nodes h2))) p;
      Ret (m1, h3)
  end.

(** ** Requests *)

(** [ch] is the channel taken from the pool. *)
Definition Request (mk : Z -> option Chunk) (m : mem) (h : Hub) (blockCount ch : Z)
  (needSlot : bool) : outcome (mem * Hub * (goerror + busConn)) :=
  r ← AllocStripe mk m (hbus h) (i64 (blockCount + 1));
  let '(m1, b1, res) := r in
  let h1 := with_bus h b1 in
  match res with
  | inl e => Ret (m1, h1, inl e)
  | inr s =>
      if needSlot then
        a ← allocSlot m1 h1 s;
        let '(m2, h2, sl) := a in
        match sl with
        | inl _ =>
            b2 ← FreeStripe (hbus h2) s;
            Ret (m2, with_bus h2 b2, inl ErrNoSlots)
        | inr slot => Ret (m2, h2, inr (mkConn (Some s) 0 0 slot (Some ch)))
        end
      else Ret (m1, h1, inr (mkConn (Some s) 0 0 0 None))
  end.

(** [Next] up to its wait for the response: the slot is handed to the target
    node.  With nobody else running the poll of the status sees one value, so
    it goes on at once or times out. *)
Definition Next_submit (fuel : nat) (m : mem) (h : Hub) (c : busConn) (ch : Z) (nodeName : string)
  : outcome (mem * Hub * busConn * option goerror) :=
  match nodes h !! nodeName with
  | None => Ret (m, h, c, Some ErrNodeNotFound)
  | Some p =>
      a ← (if decide (slotID c = 0) then
             s ← the_stripe c;
             r ← allocSlot m h s;
             let '(m1, h1, sl) := r in
             match sl with
             | inl e => Ret (m1, h1, c, Some e)
             | inr slot =>
                 Ret (m1, h1, mkConn (Some s) (readOff c) (writeOff c) slot (Some ch), None)
             end
           else Ret (m, h, c, None));
      let '(m1, h1, c1, err) := a in
      match err with
      | Some e => Ret (m1, h1, c1, Some e)
      | None =>
          status ← GetStripeStatus m1 (hctrl h1) (slotID c1);
          if decide (status = StripeStatusDone \/ status = StripeStatusReady) then
            s ← the_stripe c1;
            cid ← go_index (Sequence s) 0;
            off ← go_index (Sequence s) 1;
            match infos h1 !! p, cnDone c1 with
            | Some n, Some dn =>
                m2 ← SetStripe m1 (hctrl h1) (slotID c1) StripeStatusBusy cid off (u32 (niID n));
                let h2 := clearChannel h1 dn in
                _ ← waiter h2 (slotID c1);
                let h3 := with_waiters h2 (<[slotID c1 := dn]> (waiters h2)) in
                r ← submit fuel m2 h3 p (slotID c1);
                let '(m3, h4, e) := r in
                match e with
                | Some e => Ret (m3, h4, c1, Some e)
                | None => Ret (m3, h4, mkConn (Some s) 0 0 (slotID c1) (Some dn), None)
                end
            | _, _ => Panic
            end
          else Ret (m1, h1, c1, Some ErrTimeout)
      end
  end.

(** The rest of [Next], when a value has arrived on the channel. *)
Definition Next_wait (m : mem) (h : Hub) (c : busConn) : outcome (Hub * busConn * option goerror) :=
  match cnDone c with
  | None => Diverge
  | Some ch =>
      match default [] (chans h !! ch) with
      | [] => Diverge
      | v :: rest =>
          let h1 := with_chans h (<[ch := rest]> (chans h)) in
          match v with
          | Some e => Ret (h1, c, Some e)
          | None => r ← refreshStripe m (hbus h1) c; Ret (h1, r.1, r.2)
          end
      end
  end.

Definition Close (m : mem) (h : Hub) (c : busConn) : outcome (mem * Hub * busConn) :=
  s ← the_stripe c;
  b' ← FreeStripe (hbus h) s;
  let h1 := with_bus h b' in
  if decide (slotID c <> 0) then
    _ ← waiter h1 (slotID c);
    let h2 := with_waiters h1 (delete (slotID c) (waiters h1)) in
    m' ← FreeSlot m (hctrl h2) (slotID c);
    Ret (m', with_limit h2 (Z.max 0 (limit h2 - 1)),
         mkConn None (readOff c) (writeOff c) (slotID c) None)
  else Ret (m, h1, mkConn None (readOff c) (writeOff c) (slotID c) (cnDone c)).

(** [NewHub]: [chunk0] is what [NewChunk] returned, [evOk] whether the
    eventfd could be created. *)
Definition NewHub (mk : Z -> option Chunk) (m : mem) (chunk0 : option Chunk) (evOk : bool)
  : outcome (mem * (goerror + Hub)) :=
  match chunk0 with
  | None => Ret (m, inl ErrSys)
  | Some c0 =>
      match NewBus (Some c0) true with
      | inl e => Ret (m, inl e)
      | inr bus =>
          r ← AllocStripe mk m bus (ControlStripeSize / BlockSize);
          match r with
          | (m1, _, inl e) => Ret (m1, inl e)
          | (m1, b1, inr s) =>
              let c := NewControl s in
              m2 ← Init m1 c;
              if evOk
              then Ret (m2, inr (mkHub b1 c ∅ ∅ ∅ ∅ (replicate (Z.to_nat MaxNodes) 0) 0))
              else Ret (m2, inl ErrSys)
          end
      end
  end.

(** An option sets the field [chunk0Name]; [NewHub] runs the options after it
    has created the chunk under the default name. *)
Definition WithChunk0Name (name : string) : string -> string := fun _ => name.

Definition NewHub_options (newChunk : string -> option Chunk) (mk : Z -> option Chunk) (m : mem)
  (evOk : bool) (opts : list (string -> string)) : outcome (mem * (goerror + Hub) * string) :=
  let chunk0Name := "mmfg_chunk0"%string in
  r ← NewHub mk m (newChunk chunk0Name) evOk;
  Ret (r, foldl (fun name opt => opt name) chunk0Name opts).

(** ** Specification vocabulary *)

(** The control stripe is made of the blocks [gsc] of the bus, all in use. *)
Record ctrl_backed (b : Bus) (c : Control) (gsc : list Z) : Prop := {
  cb_blocks : Blocks (cstripe c) = blk_slice <$> gsc;
  cb_used : Forall (fun g => managed b g /\ used b g = true) gsc;
  cb_nodup : NoDup gsc;
  cb_len : Z.of_nat (length gsc) = ControlStripeSize / BlockSize;
}.

(** ** The control region and the stripes are apart *)
Lemma ctrl_backed_wf b c gsc : bus_wf b -> ctrl_backed b c gsc -> ctrl_wf c.
Proof.
  intros Hwf [Hb Hu Hnd Hl]. split.
  - rewrite Hb. apply (blocks_wf_of_gs gsc).
    + done.
    + intros ->. vm_compute in Hl. discriminate.
    + eapply Forall_impl; [exact Hu|]. intros g [Hg _]. by eapply managed_small.
  - by rewrite Hb, length_fmap.
Qed.

Lemma ctrl_untouched b c gsc gs m m' f :
  bus_wf b -> ctrl_backed b c gsc -> (forall g, g ∈ gs -> g ∈ gsc -> False) ->
  mem_frame (in_gs gs) m m' -> field_ok f -> fread m' c f = fread m c f.
Proof.
  intros Hwf Hcb Hd Hfr Hf. pose proof (ctrl_backed_wf _ _ _ Hwf Hcb) as Hc.
  destruct (field_in_block f Hf) as (H1 & H2 & H3).
  destruct (field_block c Hc f Hf) as (blk & Hblk & Lblk & Hp).
  unfold fread. apply load_le_ext. intros a Ha. apply Hfr. intros (g & Hg & Hr).
  rewrite field_bytes_len in Ha. unfold field_addr in Ha. rewrite Hp in Ha.
  rewrite (cb_blocks _ _ _ Hcb) in Hblk.
  apply list_lookup_fmap_Some in Hblk as (g' & -> & Hg').
  apply (Hd g Hg). apply list_elem_of_lookup_2 in Hg'.
  unfold blk_slice in *. cbn [sl_base] in Ha.
  assert (0 <= field_off f mod BlockSize) by (apply Z.mod_pos_bound; unfold_layout; lia).
  assert (g = g') as -> by (unfold_layout; lia). done.
Qed.

(** Claiming leaves the blocks in use alone. *)
Lemma claimed_apart b b' gs gs' g :
  claimed b b' gs' -> Forall (fun g => managed b g /\ used b g = true) gs ->
  g ∈ gs' -> g ∈ gs -> False.
Proof.
  intros Hcl Hu Hg Hg'. rewrite Forall_forall in Hu. destruct (Hu g Hg') as [_ H1].
  pose proof (cl_free _ _ _ Hcl) as Hf. rewrite Forall_forall in Hf.
  destruct (Hf g Hg) as [_ H2]. congruence.
Qed.

(** ** Node ids *)
Lemma u64_bit i : 0 <= i < 64 -> u64 (Z.shiftl 1 i) = Z.shiftl 1 i.
Proof.
  intros Hi. apply u64_small. rewrite Z.shiftl_1_l. split; [lia|].
  change 18446744073709551616 with (2 ^ 64). apply Z.pow_lt_mono_r; lia.
Qed.

Lemma land_bit_zero w i : 0 <= i < 64 ->
  Z.land w (u64 (Z.shiftl 1 i)) = 0 <-> Z.testbit w i = false.
Proof.
  intros Hi. rewrite u64_bit by done.
  split.
  - intros Hz. assert (Z.testbit (Z.land w (Z.shiftl 1 i)) i = false) as Ht
      by (rewrite Hz; apply Z.bits_0).
    rewrite Z.land_spec, testbit_one_shift, bool_decide_eq_true_2, andb_true_r in Ht by lia.
    done.
  - intros Ht. apply Z.bits_inj'. intros k Hk. rewrite Z.land_spec, Z.bits_0.
    rewrite testbit_one_shift by lia. case_bool_decide as E; [subst; by rewrite Ht|].
    apply andb_false_r.
Qed.

Lemma alloc_id_loop_spec k : forall i w rest,
  0 <= i -> i + Z.of_nat k <= 64 ->
  (exists id, i <= id < i + Z.of_nat k /\ Z.testbit w id = false /\
     (forall j, i <= j < id -> Z.testbit w j = true) /\
     alloc_id_loop k i (w :: rest) = Ret (Z.lor w (u64 (Z.shiftl 1 id)) :: rest, inr id)) \/
  ((forall j, i <= j < i + Z.of_nat k -> Z.testbit w j = true) /\
   alloc_id_loop k i (w :: rest) = Ret (w :: rest, inl ErrMaxNodes)).
Proof.
  induction k as [|k IH]; intros i w rest Hi Hk; cbn [alloc_id_loop].
  - right. split; [lia|done].
  - rewrite Z.quot_small, Z.rem_small by lia.
    assert (go_index (w :: rest) 0 = Ret w) as -> by done. go_bind.
    case_decide as Hd.
    + left. exists i. split_and!; [lia|lia|by apply land_bit_zero; [lia|]|lia|done].
    + assert (Z.testbit w i = true) as Ht.
      { destruct (Z.testbit w i) eqn:E; [done|]. by apply land_bit_zero in E; [|lia]. }
      destruct (IH (i + 1) w rest ltac:(lia) ltac:(lia))
        as [(id & Hid & Hf & Hb & E)|[Hall E]].
      * left. exists id. split_and!; [lia|lia|done| |done]. intros j Hj.
        destruct (decide (j = i)) as [->|]; [done|]. apply Hb. lia.
      * right. split; [|done]. intros j Hj.
        destruct (decide (j = i)) as [->|]; [done|]. apply Hall. lia.
Qed.

Lemma cleared_bit w i :
  0 <= i < 64 -> Z.testbit (Z.land w (u64 (Z.lnot (Z.shiftl 1 i)))) i = false.
Proof.
  intros Hi. rewrite Z.land_spec. unfold u64. change 18446744073709551616 with (2 ^ 64).
  rewrite Z.mod_pow2_bits_low, Z.lnot_spec, testbit_one_shift by lia.
  by rewrite bool_decide_eq_true_2, andb_false_r.
Qed.

Lemma clear_bit_set w i :
  0 <= w < 18446744073709551616 -> 0 <= i < 64 -> Z.testbit w i = false ->
  Z.land (Z.lor w (u64 (Z.shiftl 1 i))) (u64 (Z.lnot (Z.shiftl 1 i))) = w.
Proof.
  intros Hw Hi Hf. rewrite u64_bit by done.
  apply Z.bits_inj'. intros k Hk. rewrite Z.land_spec, Z.lor_spec, testbit_one_shift by lia.
  unfold u64. change 18446744073709551616 with (2 ^ 64).
  destruct (decide (k < 64)).
  - rewrite Z.mod_pow2_bits_low, Z.lnot_spec, testbit_one_shift by lia.
    case_bool_decide as E; [subst; rewrite Hf; done|]. by rewrite orb_false_r, andb_true_r.
  - rewrite Z.mod_pow2_bits_high, andb_false_r by lia. symmetry.
    destruct (decide (w = 0)) as [->|]; [apply Z.bits_0|].
    apply Z.bits_above_log2; [lia|]. apply Z.log2_lt_pow2; [lia|].
    apply Z.lt_le_trans with (2 ^ 64); [lia|]. apply Z.pow_le_mono_r; lia.
Qed.

(** ** Requests *)

(** Control writes stay in the control stripe's blocks. *)
Lemma ctrl_write_frame b c gsc P m m' :
  bus_wf b -> ctrl_backed b c gsc -> mem_frame (touched c P) m m' -> mem_frame (in_gs gsc) m m'.
Proof.
  intros Hwf Hcb Hfr a Ha. apply Hfr. intros (f & Hf & _ & Hr). apply Ha.
  pose proof (ctrl_backed_wf _ _ _ Hwf Hcb) as Hc.
  destruct (field_in_block f Hf) as (H1 & H2 & H3).
  destruct (field_block c Hc f Hf) as (blk & Hblk & Lblk & Hp).
  unfold field_addr in Hr. rewrite Hp in Hr. rewrite (cb_blocks _ _ _ Hcb) in Hblk.
  apply list_lookup_fmap_Some in Hblk as (g & -> & Hg).
  exists g. split; [by eapply list_elem_of_lookup_2|]. unfold blk_slice in Hr. cbn [sl_base] in Hr.
  assert (0 <= field_off f mod BlockSize) by (apply Z.mod_pos_bound; unfold_layout; lia).
  unfold_layout. lia.
Qed.

Lemma ctrl_backed_mono b b' c gsc gs :
  bus_wf b -> claimed b b' gs -> ctrl_backed b c gsc -> ctrl_backed b' c gsc.
Proof.
  intros Hwf Hcl []. split; try done. eapply claimed_mono; eauto using claimed_chunkCount.
Qed.

Lemma ctrl_backed_cursor b c gsc k :
  ctrl_backed b c gsc -> ctrl_backed b (mkControl k (cstripe c)) gsc.
Proof. intros []. by split. Qed.

(** The first two entries of a new stripe's sequence locate its header. *)
Lemma encode_seq_head g gs :
  0 <= g < 65536 ->
  exists rest, encode_seq 0 (blk_of <$> (g :: gs)) =
    ChunkID (blk_of g) :: BlockIdx (blk_of g) :: rest.
Proof.
  intros Hg. pose proof (blk_of_bounds g Hg) as [Hc _]. rewrite fmap_cons. cbn [encode_seq].
  rewrite decide_True by lia. by eexists.
Qed.

(** [allocSlot] with a token and an idle slot: an idle slot is registered for
    the stripe, ready, and no other slot changes. *)
Lemma allocSlot_ok m h s cid off rest :
  ctrl_wf (hctrl h) -> 0 <= cursor (hctrl h) < 4294967296 -> limit h < MaxTotalSlots ->
  (exists i, 1 <= i <= MaxTotalSlots /\ fread m (hctrl h) (SStatus i) = StripeStatusIdle) ->
  Sequence s = cid :: off :: rest -> -32768 <= cid < 32768 -> 0 <= off < 32768 ->
  exists m' h' slot, allocSlot m h s = Ret (m', h', inr slot) /\
    1 <= slot <= MaxTotalSlots /\ fread m (hctrl h) (SStatus slot) = StripeStatusIdle /\
    h' = with_limit (with_ctrl h (mkControl (u32 (cursor (hctrl h) + 1)) (cstripe (hctrl h))))
           (limit h + 1) /\
    GetStripeStatus m' (hctrl h) slot = Ret StripeStatusReady /\
    registered m' (hctrl h) slot s /\
    mem_frame (touched (hctrl h) (slot_field slot)) m m'.
Proof.
  intros Hc Hcur Hlim (i & Hi & Hidle) Hs Hcid Hoff. unfold allocSlot, AllocSlot.
  rewrite decide_False by lia.
  set (c' := mkControl (u32 (cursor (hctrl h) + 1)) (cstripe (hctrl h))).
  assert (Hc' : ctrl_wf c') by (split; apply Hc).
  destruct (alloc_slot_loop_spec c' Hc' (Z.to_nat MaxTotalSlots) 0
              (u32 (cursor (hctrl h) + 1)) m) as [(j & Hj & H1 & H2 & ->)|[Hn _]];
    [apply u32_range|lia| |].
  2: { destruct (cyc_slot_onto (u32 (cursor (hctrl h) + 1)) i Hi) as (j & Hj & <-).
       exfalso. apply (Hn j); [lia|exact Hidle]. }
  set (slot := cyc_slot (u32 (cursor (hctrl h) + 1)) j) in *.
  assert (Hsl : 1 <= slot <= MaxTotalSlots) by apply cyc_slot_range.
  go_bind. cbn [fst snd]. rewrite Hs.
  assert (go_index (cid :: off :: rest) 0 = Ret cid) as -> by done.
  assert (go_index (cid :: off :: rest) 1 = Ret off) as -> by done. go_bind.
  rewrite (SetStripe_fields c' Hc') by done. go_bind.
  destruct (combined_header cid off) as (Hh & Hhi & Hlo).
  eexists _, _, slot. split; [done|]. split; [done|]. split; [done|]. split; [done|].
  assert (Hfw : forall m f v, fwrite m c' f v = fwrite m (hctrl h) f v) by done.
  rewrite !Hfw. split_and!.
  - rewrite (GetStripeStatus_field _ Hc) by done.
    rewrite fread_fwrite_same; [done|]. unfold field_val, StripeStatusReady. simpl. lia.
  - exists cid, off, rest. split_and!; [done|lia|].
    rewrite (GetStripeHeader_field _ Hc) by done. regs Hc.
    by rewrite Hhi, Hlo, !i16_u16, !i16_small by lia.
  - repeat (eapply mem_frame_trans; [|apply fwrite_frame; done]). apply mem_frame_refl.
Qed.

(** What the hub promises of itself between operations. *)
Record hub_wf (h : Hub) (gsc : list Z) : Prop := {
  hw_bus : bus_wf (hbus h);
  hw_ctrl : ctrl_backed (hbus h) (hctrl h) gsc;
  hw_cursor : 0 <= cursor (hctrl h) < 4294967296;
  hw_limit : 0 <= limit h;
}.

Lemma Request_spec mk `{!ChunkSource mk} m h gsc blockCount ch :
  hub_wf h gsc -> limit h < MaxTotalSlots -> 0 <= blockCount <= 1021 ->
  (exists i, 1 <= i <= MaxTotalSlots /\ fread m (hctrl h) (SStatus i) = StripeStatusIdle) ->
  exists m' h' r, Request mk m h blockCount ch true = Ret (m', h', r) /\
    match r with
    | inl _ => m' = m /\ h' = with_bus h (hbus h') /\ bus_wf (hbus h') /\
        (forall g, 0 <= g -> used (hbus h') g = used (hbus h) g) /\
        Z.of_nat (length (free_list (hbus h))) < blockCount + 1
    | inr c => exists s gs slot, c = mkConn (Some s) 0 0 slot (Some ch) /\
        hub_wf h' gsc /\ conn_ok m' (hbus h') c s gs /\ DataLen s = 0 /\
        claimed (hbus h) (hbus h') gs /\ Z.of_nat (length gs) = blockCount + 1 /\
        1 <= slot <= MaxTotalSlots /\ fread m (hctrl h) (SStatus slot) = StripeStatusIdle /\
        GetStripeStatus m' (hctrl h') slot = Ret StripeStatusReady /\
        registered m' (hctrl h') slot s /\
        (forall f, field_ok f -> ~ slot_field slot f ->
           fread m' (hctrl h') f = fread m (hctrl h) f) /\
        limit h' = limit h + 1 /\ cstripe (hctrl h') = cstripe (hctrl h) /\
        mem_frame (in_gs (gsc ++ gs)) m m'
    end.
Proof.
  intros [Hwf Hcb Hcur Hl0] Hlim Hbc Hidle. unfold Request.
  rewrite i64_small by lia.
  destruct (AllocStripe_spec mk m (hbus h) (blockCount + 1) Hwf ltac:(lia))
    as (m1 & b1 & [e|s] & E & Hwf1 & Hr); rewrite E; go_bind.
  { eexists _, _, _. split; [done|]. cbn [hbus with_bus]. destruct Hr as [-> Hr]. split_and!; try done.
    eapply (AllocStripe_short mk); [done|lia|exact E]. }
  destruct (AllocStripe_conn_ok mk m (hbus h) (blockCount + 1) (mkConn (Some s) 0 0 0 None)
              m1 b1 s Hwf ltac:(lia) E eq_refl) as (_ & HD & gs & Hok & Hlen).
  destruct Hr as (gs0 & Hcl & _ & Hbk0 & _ & _ & Hfr & Hseq).
  assert (gs0 = gs) as ->.
  { apply (list_fmap_eq_inj blk_slice); [intros x y [= Hxy]; unfold_layout; lia|].
    rewrite <- (sb_blocks _ _ _ Hbk0), <- (sb_blocks _ _ _ (co_backed _ _ _ _ _ Hok)). done. }
  assert (Hapart : forall g, g ∈ gs -> g ∈ gsc -> False)
    by (intros g; eapply claimed_apart; [exact Hcl|apply Hcb]).
  assert (Hsame : forall f, field_ok f -> fread m1 (hctrl h) f = fread m (hctrl h) f).
  { intros f Hf. eapply (ctrl_untouched (hbus h)); [done|done|exact Hapart| |done].
    eapply mem_frame_mono; [|exact Hfr]. intros a. by eapply in_blocks_gs. }
  destruct gs as [|g gs]; [by destruct (sb_nonempty _ _ _ Hbk0)|].
  pose proof (sb_used _ _ _ Hbk0) as Hu. inversion Hu as [|?? [Hmg _] _]; subst.
  pose proof (managed_small _ _ Hwf1 Hmg) as Hsm.
  destruct (encode_seq_head g gs Hsm) as (rest & Hsq). rewrite <- Hseq in Hsq.
  pose proof (blk_of_bounds g Hsm) as [Hc1 Hc2].
  pose proof (ctrl_backed_wf _ _ _ Hwf Hcb) as Hcw.
  destruct (allocSlot_ok m1 (with_bus h b1) s (ChunkID (blk_of g)) (BlockIdx (blk_of g)) rest
              Hcw Hcur Hlim)
    as (m2 & h2 & slot & E2 & Hsl & Hid & -> & Hst & Hreg & Hfr2); [|exact Hsq|lia|lia|].
  { destruct Hidle as (i & Hi & Hi'). exists i. split; [done|].
    cbn [hctrl with_bus]. by rewrite Hsame. }
  rewrite E2. go_bind. cbn [hctrl with_bus limit] in *.
  assert (Hcb1 : ctrl_backed b1 (hctrl h) gsc)
    by (eapply (ctrl_backed_mono (hbus h)); [exact Hwf|exact Hcl|exact Hcb]).
  eexists _, _, (inr _). split; [done|]. exists s, (g :: gs), slot. split_and!; try done.
  - split; cbn [hbus hctrl with_limit with_ctrl with_bus cursor limit]; try done; try lia.
    + by apply ctrl_backed_cursor.
    + apply u32_range.
  - destruct Hok. split; try done. eapply published_frame; [exact Hbk0|exact Hapart| |done].
    by eapply ctrl_write_frame.
  - lia.
  - lia.
  - by rewrite <- Hsame.
  - intros f Hf Hns. rewrite <- Hsame by done. by apply (fread_frame (hctrl h) (slot_field slot)).
  - eapply mem_frame_trans; [apply in_gs_frame_r|apply in_gs_frame_l; by eapply ctrl_write_frame].
    eapply mem_frame_mono; [|exact Hfr]. intros a. by eapply in_blocks_gs.
Qed.

(** A request without a slot, when the free blocks suffice. *)
Lemma Request_local mk `{!ChunkSource mk} m h gsc blockCount ch :
  hub_wf h gsc -> 0 <= blockCount <= 1021 ->
  blockCount + 1 <= Z.of_nat (length (free_list (hbus h))) ->
  exists m' b' s gs,
    let c := mkConn (Some s) 0 0 0 None in
    Request mk m h blockCount ch false = Ret (m', with_bus h b', inr c) /\
    hub_wf (with_bus h b') gsc /\ conn_ok m' b' c s gs /\ DataLen s = 0 /\
    claimed (hbus h) b' gs /\ Z.of_nat (length gs) = blockCount + 1 /\
    mem_frame (in_gs gs) m m' /\ chunkCount b' = chunkCount (hbus h) /\
    exists cid off rest, Sequence s = cid :: off :: rest /\ 0 <= off.
Proof.
  intros [Hwf Hcb Hcur Hl0] Hbc Hfree. unfold Request. rewrite i64_small by lia.
  destruct (AllocBlocks_enough mk (hbus h) (blockCount + 1) Hwf ltac:(lia))
    as (b0 & gs0 & E0 & _ & _ & Hcc).
  destruct (AllocStripe_spec mk m (hbus h) (blockCount + 1) Hwf ltac:(lia))
    as (m1 & b1 & r & E & Hwf1 & Hr).
  assert (b1 = b0 /\ exists s, r = inr s) as [-> [s ->]].
  { unfold AllocStripe in E. rewrite E0, bind_ret in E.
    apply bind_ret_inv in E as (mm & _ & E). injection E as <- <- <-. eauto. }
  rewrite E, bind_ret.
  destruct (AllocStripe_conn_ok mk m (hbus h) (blockCount + 1) (mkConn (Some s) 0 0 0 None)
              m1 b0 s Hwf ltac:(lia) E eq_refl) as (_ & HD & gs & Hok & Hlen).
  destruct Hr as (gs1 & Hcl & _ & Hbk & _ & _ & Hfr & Hseq).
  assert (gs1 = gs) as ->.
  { apply (list_fmap_eq_inj blk_slice); [intros x y [= Hxy]; unfold_layout; lia|].
    rewrite <- (sb_blocks _ _ _ Hbk), <- (sb_blocks _ _ _ (co_backed _ _ _ _ _ Hok)). done. }
  exists m1, b0, s, gs. split_and!; try done.
  - split; [done|by eapply (ctrl_backed_mono (hbus h))|done|done].
  - eapply mem_frame_mono; [|exact Hfr]. intros a. by eapply in_blocks_gs.
  - destruct gs as [|g gs]; [by destruct (sb_nonempty _ _ _ Hbk)|].
    pose proof (sb_used _ _ _ Hbk) as Hu. inversion Hu as [|?? [Hmg _] _]; subst.
    pose proof (managed_small _ _ Hwf1 Hmg) as Hsm. pose proof (blk_of_bounds g Hsm) as [_ Hc2].
    destruct (encode_seq_head g gs Hsm) as (rest & Hsq). rewrite Hseq, Hsq.
    eexists _, _, rest. split; [done|lia].
Qed.

(** [Close] of a connection with a slot. *)
Lemma Close_spec m h gsc c s gs :
  hub_wf h gsc -> conn_ok m (hbus h) c s gs -> (forall g, g ∈ gs -> g ∈ gsc -> False) ->
  1 <= slotID c <= MaxTotalSlots ->
  exists m' h' c', Close m h c = Ret (m', h', c') /\ cnStripe c' = None /\ hub_wf h' gsc /\
    released (hbus h) (hbus h') gs /\ hctrl h' = hctrl h /\ limit h' = Z.max 0 (limit h - 1) /\
    fread m' (hctrl h) (SStatus (slotID c)) = StripeStatusIdle /\
    (forall f, field_ok f -> f <> SStatus (slotID c) ->
       fread m' (hctrl h) f = fread m (hctrl h) f) /\
    mem_frame (in_gs gsc) m m'.
Proof.
  intros Hh Hok Hap Hsl. pose proof (co_backed _ _ _ _ _ Hok) as Hbk.
  pose proof (ctrl_backed_wf _ _ _ (hw_bus _ _ Hh) (hw_ctrl _ _ Hh)) as Hc.
  destruct (free_seq_released (hbus h) gs 0 (Sequence s) (hw_bus _ _ Hh)) as (b2 & E2 & Hrel);
    [|apply Hbk|].
  { eapply Forall_impl; [apply (sb_used _ _ _ Hbk)|]. naive_solver. }
  unfold Close, the_stripe. rewrite (co_stripe _ _ _ _ _ Hok), bind_ret. unfold FreeStripe.
  rewrite E2, bind_ret, decide_True by lia. unfold waiter. rewrite decide_True, bind_ret by lia.
  cbn [hctrl with_waiters with_bus]. rewrite (FreeSlot_field _ Hc), bind_ret by done.
  eexists _, _, _. split; [reflexivity|].
  cbn [cnStripe hbus hctrl limit with_limit with_waiters with_bus].
  split; [done|]. split; [|split; [done|split; [done|split; [done|]]]].
  - split; cbn [hbus hctrl limit with_limit with_waiters with_bus]; [apply Hrel| |apply Hh|lia].
    destruct (hw_ctrl _ _ Hh) as [H1 H2 H3 H4]. split; [done| |done|done].
    rewrite Forall_forall in *. intros g Hg. destruct (H2 g Hg) as [Hm Hu].
    unfold managed in *. rewrite (rel_count _ _ _ Hrel). split; [done|].
    rewrite (rel_used _ _ _ Hrel), Hu, bool_decide_eq_false_2 by (lia || (intros Hg'; by eapply Hap)).
    done.
  - split_and!.
    + apply fread_fwrite_same. unfold field_val, StripeStatusIdle. simpl. lia.
    + intros f Hf Hne. apply (fread_fwrite_other _ Hc); [done|done|congruence].
    + eapply (ctrl_write_frame _ _ _ (fun _ => True)); [apply Hh|apply Hh|].
      by apply fwrite_frame.
Qed.

(** ** Expansion *)

(** A header update looks only at the header block of the stripe. *)
Lemma UpdateStripeHeader_same m s1 s2 :
  Blocks s1 !! 0%nat = Blocks s2 !! 0%nat -> Sequence s1 = Sequence s2 ->
  BlockCount s1 = BlockCount s2 -> DataLen s1 = DataLen s2 ->
  UpdateStripeHeader m s1 = UpdateStripeHeader m s2.
Proof.
  intros Hb Hs Hc Hd. unfold UpdateStripeHeader, go_index.
  change (Z.to_nat 0) with 0%nat. by rewrite Hb, Hs, Hc, Hd.
Qed.

Lemma partial_stripe_head hd dl bc seq :
  0 < bc -> Blocks (partial_stripe hd dl bc seq) !! 0%nat = Some hd.
Proof.
  intros Hbc. cbn [partial_stripe Blocks]. apply list_lookup_insert_eq.
  rewrite length_replicate. lia.
Qed.

(** Growing the partial stripe does to memory and bus what growing the real
    one does. *)
Lemma grow_partial mk m b s hd n :
  Blocks s !! 0%nat = Some hd -> 0 < BlockCount s ->
  AllocBlocksForStripe mk m b (partial_stripe hd (DataLen s) (BlockCount s) (Sequence s)) n =
  (r ← AllocBlocksForStripe mk m b s n;
   let '(m', b', s', err) := r in
   Ret (m', b',
        match err with
        | Some _ => partial_stripe hd (DataLen s) (BlockCount s) (Sequence s)
        | None => mkStripe (Sequence s') (BlockCount s')
            (Blocks (partial_stripe hd (DataLen s) (BlockCount s) (Sequence s)) ++
             drop (length (Blocks s)) (Blocks s')) (DataLen s')
        end, err)).
Proof.
  intros Hhd Hbc. set (sp := partial_stripe _ _ _ _). unfold AllocBlocksForStripe.
  destruct (AllocBlocks mk b n) as [[b' [e|blks]]| |]; go_bind; [done| |done..].
  rewrite (UpdateStripeHeader_same m (extend_stripe sp blks) (extend_stripe s blks));
    [|..|done|done|done].
  - destruct (UpdateStripeHeader m (extend_stripe s blks)); go_bind; [|done..].
    do 4 f_equal. cbn [extend_stripe sp partial_stripe Sequence BlockCount Blocks DataLen].
    by rewrite drop_app_length.
  - cbn [extend_stripe Blocks]. pose proof (partial_stripe_head hd (DataLen s) _ (Sequence s) Hbc).
    fold sp in H. by rewrite (lookup_app_l_Some _ _ _ _ H), (lookup_app_l_Some _ _ _ _ Hhd).
Qed.

(** A response to a registered, live node with room in its queue. *)
Lemma expandResponse_ok m h id slot cmd p n head l :
  ctrl_wf (hctrl h) -> find_node h id = Some p -> infos h !! p = Some n -> closed n = false ->
  0 <= niID n < MaxNodes -> qop_ok (OPush slot cmd) ->
  queue_repr m (hctrl h) (niID n) head l -> Z.of_nat (length l) < QueueSize - 1 ->
  head + Z.of_nat (length l) + 1 < 4294967296 ->
  exists m', expandResponse 1 m h id slot cmd =
      Ret (m', with_infos h (<[p := mkNodeInfo (niID n) (evCount n + 1) false]> (infos h))) /\
    queue_repr m' (hctrl h) (niID n) head (l ++ [(slot, cmd)]) /\
    mem_frame (touched (hctrl h) (queue_field (niID n))) m m'.
Proof.
  intros Hc Hf Hp Hcl Hid Hop Hr Hroom Hw.
  destruct (Push_room (hctrl h) Hc (niID n) Hid m head l slot cmd Hr Hroom Hop Hw)
    as (m' & E & Hr' & Hfr).
  exists m'. split; [|done]. unfold expandResponse. rewrite Hf. cbn [pushToNode]. rewrite Hp, E.
  rewrite !bind_ret. cbn [fst snd]. rewrite bind_ret. unfold notify. rewrite Hp, Hcl. done.
Qed.

(** Rewriting the header leaves the data alone. *)
Lemma data_bytes_header m m' s hd k :
  stripe_wf s -> Blocks s !! 0%nat = Some hd ->
  mem_frame (fun a => sl_base hd <= a < sl_base hd + BlockSize) m m' ->
  0 <= k <= data_cap s -> data_bytes m' s 0 k = data_bytes m s 0 k.
Proof.
  intros Hwf Hhd Hfr Hk. unfold data_bytes. apply list_fmap_ext. intros j i Hi.
  apply lookup_seqZ in Hi as [-> Hi]. unfold data_byte. apply Hfr. intros Hr.
  pose proof (data_addr_not_header s (swf_blocks _ Hwf) hd (0 + Z.of_nat j) Hhd ltac:(lia)). lia.
Qed.

(** The granted case of an expansion, on the real stripe. *)
Lemma grant_spec mk `{!ChunkSource mk} m b s gs hd :
  bus_wf b -> stripe_backed b s gs -> Blocks s !! 0%nat = Some hd -> sl_len hd = BlockSize ->
  (length (Sequence s) <= 2 * length gs)%nat -> Z.of_nat (length gs) <= 1020 ->
  exists m1 b1 s1 e, AllocBlocksForStripe mk m b s 2 = Ret (m1, b1, s1, e) /\ bus_wf b1 /\
    match e with
    | Some _ => m1 = m /\ (forall g, 0 <= g -> used b1 g = used b g)
    | None => exists gs' m2, claimed b b1 gs' /\ length gs' = 2%nat /\
        s1 = extend_stripe s (blk_of <$> gs') /\ stripe_backed b1 s1 (gs ++ gs') /\
        UpdateStripeHeader m1 s1 = Ret m2 /\ published m2 s1 /\
        data_bytes m2 s1 0 (data_cap s) = stripe_area m s /\
        mem_frame (fun a => sl_base hd <= a < sl_base hd + BlockSize) m m2
    end.
Proof.
  intros Hwf Hb Hhd Lhd Hsq Hlen.
  destruct (AllocBlocksForStripe_spec mk m b s gs 2 Hwf Hb ltac:(lia))
    as (m1 & b1 & s1 & e & E & Hwf1 & Hr).
  exists m1, b1, s1, e. split; [done|]. split; [done|]. destruct e as [e|].
  { destruct Hr as (-> & _ & Hu). done. }
  destruct Hr as (gs' & Hcl & Hl & Hb1 & _ & Hcap & _ & Hdata & Hs1 & Hfr).
  pose proof (stripe_backed_wf _ _ _ Hwf1 Hb1) as Hswf.
  destruct (UpdateStripeHeader_ok m1 s1 Hswf) as (m2 & hd' & EU & Hhd' & _ & _ & Hfr2).
  assert (hd' = hd) as ->.
  { rewrite Hs1 in Hhd'. cbn [extend_stripe Blocks] in Hhd'.
    rewrite (lookup_app_l_Some _ _ _ _ Hhd) in Hhd'. by injection Hhd'. }
  pose proof (length_extend_seq s (blk_of <$> gs')) as Hx. rewrite <- Hs1, length_fmap in Hx.
  pose proof max_seq_Z. exists gs', m2. split_and!; try done; [lia|..].
  - eapply UpdateStripeHeader_published; [done|..|exact EU]; try apply Hb1; try lia.
    + by rewrite (backed_length _ _ _ Hb1), (sb_count _ _ _ Hb1).
    + rewrite (sb_count _ _ _ Hb1), length_app. lia.
  - rewrite <- Hdata. apply (data_bytes_header m1 m2 s1 hd); try done.
    pose proof (sb_len _ _ _ Hb). unfold_layout. lia.
  - eapply mem_frame_trans; [|exact Hfr2]. eapply mem_frame_mono; [|exact Hfr].
    intros a (hd0 & Hhd0 & Ha). by simplify_eq.
Qed.

Lemma slot_cmd_ok slot cmd :
  1 <= slot <= MaxTotalSlots -> 0 <= cmd < 2147483648 -> qop_ok (OPush slot cmd).
Proof. intros Hslot Hcmd. split; unfold_layout; lia. Qed.

Section expansion.
Context (mk : Z -> option Chunk) `{!ChunkSource mk} (m : mem) (h : Hub) (gsc : list Z).
Context (s : Stripe) (gs : list Z) (hd : slice) (slot p : Z) (n : NodeInfo).
Context (head : Z) (l : list (Z * Z)).
Context (Hh : hub_wf h gsc) (Hb : stripe_backed (hbus h) s gs).
Context (Hap : forall g, g ∈ gs -> g ∈ gsc -> False).
Context (Hhd : Blocks s !! 0%nat = Some hd) (Hpub : published m s).
Context (Hslot : 1 <= slot <= MaxTotalSlots).
Context (Hfn : find_node h (niID n) = Some p) (Hp : infos h !! p = Some n).
Context (Hcl : closed n = false) (Hid : 0 <= niID n < MaxNodes).
Context (Hq : queue_repr m (hctrl h) (niID n) head l).
Context (Hroom : Z.of_nat (length l) < QueueSize - 1).
Context (Hw : head + Z.of_nat (length l) + 1 < 4294967296).

(** The answer to a request that cannot be met. *)
Lemma deny_expand b1 e :
  (forall ch, waiters h !! slot = Some ch -> default [] (chans h !! ch) = []) ->
  exists m' h',
    (r ← expandResponse 1 m (with_bus h b1) (niID n) slot CMD_EXPAND_ERROR;
     h2 ← report r.2 slot e; Ret (r.1, h2)) = Ret (m', h') /\
    hbus h' = b1 /\ evCount <$> infos h' !! p = Some (evCount n + 1) /\ published m' s /\
    data_bytes m' s 0 (data_cap s) = stripe_area m s /\
    queue_repr m' (hctrl h) (niID n) head (l ++ [(slot, CMD_EXPAND_ERROR)]) /\
    (forall ch, waiters h !! slot = Some ch -> chans h' !! ch = Some [Some e]).
Proof using Hh Hb Hap Hpub Hslot Hfn Hp Hcl Hid Hq Hroom Hw.
  intros Hch. destruct Hh as [Hwf Hcb _ _].
  pose proof (ctrl_backed_wf _ _ _ Hwf Hcb) as Hc.
  destruct (expandResponse_ok m (with_bus h b1) (niID n) slot CMD_EXPAND_ERROR p n head l)
    as (m' & ER & Hq' & Hfr); try done; [apply slot_cmd_ok; [done|]; unfold CMD_EXPAND_ERROR; lia|].
  pose proof (ctrl_write_frame _ _ _ _ _ _ Hwf Hcb Hfr) as Hfr'.
  rewrite ER, bind_ret. unfold report, waiter. rewrite decide_True, bind_ret by lia.
  cbn [fst snd waiters with_infos with_bus].
  assert (Hpub' : published m' s)
    by (eapply published_frame; [exact Hb|exact Hap|exact Hfr'|done]).
  assert (Hdata : data_bytes m' s 0 (data_cap s) = stripe_area m s).
  { apply (data_bytes_frame (hbus h) s gs gsc); try done. pose proof (sb_len _ _ _ Hb). lia. }
  destruct (waiters h !! slot) as [ch|] eqn:EW.
  - unfold send. cbn [chans with_infos with_bus]. rewrite (Hch ch eq_refl), bind_ret.
    eexists _, _. split; [reflexivity|]. cbn [infos hbus with_chans with_infos with_bus chans].
    split_and!; try done; [by rewrite lookup_insert_eq|].
    intros ch' [= <-]. by rewrite lookup_insert_eq.
  - rewrite bind_ret. eexists _, _. split; [reflexivity|].
    cbn [infos hbus with_infos with_bus]. split_and!; try done. by rewrite lookup_insert_eq.
Qed.

(** The answer to a request that has been met. *)
Lemma confirm_expand b1 gs' m2 :
  let s' := extend_stripe s (blk_of <$> gs') in
  bus_wf b1 -> claimed (hbus h) b1 gs' -> stripe_backed b1 s' (gs ++ gs') ->
  published m2 s' -> data_bytes m2 s' 0 (data_cap s) = stripe_area m s ->
  mem_frame (fun a => sl_base hd <= a < sl_base hd + BlockSize) m m2 ->
  exists m' h', expandResponse 1 m2 (with_bus h b1) (niID n) slot CMD_EXPAND_READY = Ret (m', h') /\
    hbus h' = b1 /\ evCount <$> infos h' !! p = Some (evCount n + 1) /\ published m' s' /\
    data_bytes m' s' 0 (data_cap s) = stripe_area m s /\
    queue_repr m' (hctrl h) (niID n) head (l ++ [(slot, CMD_EXPAND_READY)]).
Proof using Hh Hb Hap Hhd Hslot Hfn Hp Hcl Hid Hq Hroom Hw.
  intros s' Hwf1 Hclm Hb1 Hpub1 Hdata Hfr1. destruct Hh as [Hwf Hcb _ _].
  pose proof (ctrl_backed_wf _ _ _ Hwf Hcb) as Hc.
  assert (Hq2 : queue_repr m2 (hctrl h) (niID n) head l).
  { eapply queue_repr_ext; [done| |exact Hq]. intros f Hf _.
    eapply (ctrl_untouched (hbus h)); [done|done|exact Hap| |done].
    eapply mem_frame_mono; [|exact Hfr1]. intros a. by eapply header_in_gs. }
  destruct (expandResponse_ok m2 (with_bus h b1) (niID n) slot CMD_EXPAND_READY p n head l)
    as (m' & ER & Hq' & Hfr); try done; [apply slot_cmd_ok; [done|]; unfold CMD_EXPAND_READY; lia|].
  pose proof (ctrl_write_frame _ _ _ _ _ _ Hwf Hcb Hfr) as Hfr'.
  assert (Hap' : forall g, g ∈ gs ++ gs' -> g ∈ gsc -> False).
  { intros g [Hg1|Hg1]%elem_of_app; [by apply Hap|].
    eapply claimed_apart; [exact Hclm|apply Hcb|done]. }
  rewrite ER. eexists _, _. split; [reflexivity|]. cbn [infos hbus with_infos with_bus].
  split_and!; [done|by rewrite lookup_insert_eq|by eapply published_frame| |done].
  rewrite <- Hdata. apply (data_bytes_frame b1 s' (gs ++ gs') gsc); try done.
  pose proof (sb_len _ _ _ Hb). rewrite (backed_cap _ _ _ Hb), (backed_cap _ _ _ Hb1) in *.
  rewrite length_app. unfold_layout. lia.
Qed.

(** Both cases of [grant_expand]. *)
Lemma grant_expand_ok :
  (length (Sequence s) <= 2 * length gs)%nat -> Z.of_nat (length gs) <= 1020 ->
  (forall ch, waiters h !! slot = Some ch -> default [] (chans h !! ch) = []) ->
  exists m' h',
    grant_expand 1 mk m h (niID n) slot
      (partial_stripe hd (DataLen s) (BlockCount s) (Sequence s)) = Ret (m', h') /\
    evCount <$> infos h' !! p = Some (evCount n + 1) /\
    ((exists gs', claimed (hbus h) (hbus h') gs' /\ length gs' = 2%nat /\
        let s' := extend_stripe s (blk_of <$> gs') in
        stripe_backed (hbus h') s' (gs ++ gs') /\ published m' s' /\
        data_bytes m' s' 0 (data_cap s) = stripe_area m s /\
        queue_repr m' (hctrl h) (niID n) head (l ++ [(slot, CMD_EXPAND_READY)])) \/
     (Z.of_nat (length (free_list (hbus h))) < 2 /\
        (forall g, 0 <= g -> used (hbus h') g = used (hbus h) g) /\ published m' s /\
        data_bytes m' s 0 (data_cap s) = stripe_area m s /\
        queue_repr m' (hctrl h) (niID n) head (l ++ [(slot, CMD_EXPAND_ERROR)]) /\
        (forall ch, waiters h !! slot = Some ch ->
           exists e, chans h' !! ch = Some [Some e]))).
Proof using All.
  intros Hsq Hlen Hch. pose proof (hw_bus _ _ Hh) as Hwf.
  assert (Hbc : 0 < BlockCount s).
  { rewrite (sb_count _ _ _ Hb). pose proof (sb_nonempty _ _ _ Hb). destruct gs; [done|simpl; lia]. }
  assert (Lhd : sl_len hd = BlockSize)
    by (destruct Hpub as (hd' & Hhd' & Lhd & _); congruence).
  destruct (grant_spec mk m (hbus h) s gs hd Hwf Hb Hhd Lhd Hsq Hlen)
    as (m1 & b1 & s1 & e & E & Hwf1 & Hr).
  unfold grant_expand. rewrite grow_partial, E, !bind_ret by done. destruct e as [e|].
  - destruct Hr as [-> Hu].
    destruct (deny_expand b1 e Hch) as (m' & h' & -> & Hbus & Hev & Hpub' & Hd & Hq' & Hwt).
    exists m', h'. split; [done|]. split; [done|]. right. rewrite Hbus. split_and!; try done.
    + eapply (AllocBlocksForStripe_short mk); [done|lia|exact E].
    + intros ch Hc. exists e. by apply Hwt.
  - destruct Hr as (gs' & m2 & Hclm & Hl2 & Hs1 & Hb1 & EU & Hpub1 & Hdata & Hfr1).
    rewrite (UpdateStripeHeader_same m1 _ s1); [| |done|done|done].
    2: { cbn [Blocks]. rewrite (lookup_app_l_Some _ _ _ hd) by (by apply partial_stripe_head).
         rewrite Hs1. cbn [extend_stripe Blocks]. by rewrite (lookup_app_l_Some _ _ _ _ Hhd). }
    rewrite EU, bind_ret. subst s1.
    destruct (confirm_expand b1 gs' m2 Hwf1 Hclm Hb1 Hpub1 Hdata Hfr1)
      as (m' & h' & -> & Hbus & Hev & Hpub' & Hd & Hq').
    exists m', h'. split; [done|]. split; [done|]. left. exists gs'. rewrite Hbus. by split_and!.
Qed.
End expansion.

(** ** A new hub *)

(** Building a stripe writes to its header block only. *)
Lemma AllocStripe_header_only mk m b n m' b' s gs :
  bus_wf b' -> stripe_backed b' s gs -> AllocStripe mk m b n = Ret (m', b', inr s) ->
  exists hd, Blocks s !! 0%nat = Some hd /\
    mem_frame (fun a => sl_base hd <= a < sl_base hd + BlockSize) m m'.
Proof.
  intros Hwf Hb E. apply bind_ret_inv in E as ([b0 [e|blks]] & _ & E); [discriminate E|].
  apply bind_ret_inv in E as (m0 & EU & E). injection E as -> -> Es.
  rewrite Es in EU. pose proof (stripe_backed_wf _ _ _ Hwf Hb) as Hswf.
  destruct (UpdateStripeHeader_ok m s Hswf) as (m1 & hd & EU' & Hhd & _ & _ & Hfr).
  rewrite EU in EU'. injection EU' as ->. by exists hd.
Qed.

(** The control words start after the header block of the control stripe. *)
Lemma header_keeps_fields b c gsc hd m m' f :
  bus_wf b -> ctrl_backed b c gsc -> Blocks (cstripe c) !! 0%nat = Some hd ->
  mem_frame (fun a => sl_base hd <= a < sl_base hd + BlockSize) m m' ->
  field_ok f -> fread m' c f = fread m c f.
Proof.
  intros Hwf Hcb Hhd Hfr Hf. pose proof (ctrl_backed_wf _ _ _ Hwf Hcb) as Hc.
  destruct (field_in_block f Hf) as (H1 & H2 & H3).
  destruct (field_block c Hc f Hf) as (blk & Hblk & Lblk & Hp).
  unfold fread. apply load_le_ext. intros a Ha. apply Hfr.
  rewrite field_bytes_len in Ha. unfold field_addr in Ha. rewrite Hp in Ha.
  assert (Hi : 1 <= field_off f / BlockSize) by (unfold_layout; Z.div_mod_to_equations; lia).
  assert (0 <= field_off f mod BlockSize) by (apply Z.mod_pos_bound; unfold_layout; lia).
  pose proof (bwf_disj _ (cwf_blocks _ Hc) _ _ _ _ Hhd Hblk ltac:(lia)) as Hd. lia.
Qed.

(** The control stripe of a new hub, on a bus with nothing in use. *)
Lemma NewHub_stripe mk c0 :
  CData c0 = Slice 0 ChunkSize ->
  exists b m1 b1 s gsc, NewBus (Some c0) true = inr b /\
    AllocStripe mk ∅ b (ControlStripeSize / BlockSize) = Ret (m1, b1, inr s) /\
    bus_wf b1 /\ ctrl_backed b1 (NewControl s) gsc /\ stripe_backed b1 s gsc /\
    (forall g, 0 <= g -> used b1 g = bool_decide (g ∈ gsc)) /\ gsc = seqZ 0 256 /\
    chunks b1 = [c0].
Proof.
  intros Hc0. destruct (NewBus_wf c0 Hc0) as (b & EB & Hwf & Hfree).
  destruct (AllocBlocks_enough mk b (ControlStripeSize / BlockSize) Hwf)
    as (b1 & gs & EA & Hcl & Hl & _).
  { injection EB as <-. vm_compute. split; [reflexivity|discriminate]. }
  pose proof (claimed_new_stripe b b1 gs _ Hcl Hl ltac:(by vm_compute)) as Hb.
  destruct (UpdateStripeHeader_ok ∅ _ (stripe_backed_wf _ _ _ (cl_wf _ _ _ Hcl) Hb))
    as (m1 & hd & EU & _).
  exists b, m1, b1. eexists _, gs. split; [done|]. split.
  { unfold AllocStripe. rewrite EA, bind_ret, EU, bind_ret. reflexivity. }
  split; [apply Hcl|]. split; [|split; [exact Hb|split]].
  - split; [apply Hb|apply Hb|apply Hb|done].
  - intros g Hg. rewrite (cl_used _ _ _ Hcl g Hg), Hfree. done.
  - destruct c0 as [d fd]. cbn in Hc0. subst d.
    assert (Hr : exists b', AllocBlocks mk b (ControlStripeSize / BlockSize) =
      Ret (b', inr (blk_of <$> seqZ 0 256)) /\ chunks b' = [mkChunk (Slice 0 ChunkSize) fd])
      by (injection EB as <-; eexists; vm_compute; split; reflexivity).
    destruct Hr as (b' & Er & Hch). rewrite EA in Er. injection Er as <- Er. split; [|exact Hch].
    apply (list_fmap_eq_inj blk_of); [|exact Er].
    intros x y [= _ _ Hxy]. unfold_layout. lia.
Qed.

(** What [NewHub] returns. *)
Lemma NewHub_spec mk c0 :
  CData c0 = Slice 0 ChunkSize ->
  exists m h gsc, NewHub mk ∅ (Some c0) true = Ret (m, inr h) /\ hub_wf h gsc /\
    (forall g, 0 <= g -> used (hbus h) g = bool_decide (g ∈ gsc)) /\
    (forall q, 0 <= q < MaxNodes -> queue_repr m (hctrl h) q 0 []) /\
    (forall i, 1 <= i <= MaxTotalSlots -> GetStripeStatus m (hctrl h) i = Ret StripeStatusIdle) /\
    nodes h = ∅ /\ waiters h = ∅ /\ limit h = 0 /\ gsc = seqZ 0 256 /\
    chunks (hbus h) = [c0] /\ nodeIDs h = replicate (Z.to_nat MaxNodes) 0.
Proof.
  intros Hc0. destruct (NewHub_stripe mk c0 Hc0)
    as (b & m1 & b1 & s & gsc & EB & EA & Hwf & Hcb & Hb & Hu & Hgsc & Hch).
  destruct (AllocStripe_header_only mk ∅ b _ m1 b1 s gsc Hwf Hb EA) as (hd & Hhd & Hfr).
  pose proof (ctrl_backed_wf _ _ _ Hwf Hcb) as Hc.
  assert (Hz1 : forall f, field_ok f -> fread m1 (NewControl s) f = 0).
  { intros f Hf. rewrite (header_keeps_fields b1 _ gsc hd ∅) by done. apply fread_empty. }
  destruct (Init_zeroed (NewControl s) Hc m1) as (m2 & EI & Hz & Hf2).
  assert (Hz2 : forall f, field_ok f -> fread m2 (NewControl s) f = 0).
  { intros f Hf. destruct (decide (ptr_or_slot_below MaxTotalSlots f)) as [Hp|Hp].
    - by apply Hz.
    - rewrite (fread_frame _ _ _ _ _ Hc Hf2) by done. by apply Hz1. }
  unfold NewHub. rewrite EB, EA, bind_ret, EI, bind_ret.
  eexists m2, _, gsc. split; [reflexivity|]. cbn [hbus hctrl nodes waiters limit].
  split; [split; [exact Hwf|exact Hcb|cbn; lia|cbn; lia]|].
  split; [done|]. split; [|split; [|done]].
  - intros q Hq. apply queue_repr_empty; [apply Hz2; simpl; lia..|].
    intros i Hi. by apply Hz2.
  - intros i Hi. rewrite (GetStripeStatus_field _ Hc) by done. f_equal. by apply Hz2.
Qed.

(** ** A concrete hub *)

(** Control stripe on blocks 0 to 255, a stripe of three blocks after it that
    node 1 holds in slot 1, and a connection waiting on channel 5. *)
Definition demo_hub_bus : Bus :=
  mkBus 0 1 (replicate 8 4294967295 ++ 7 :: replicate 23 0) [mkChunk (Slice 0 ChunkSize) 10] [].

Definition demo_hub : Hub :=
  mkHub demo_hub_bus demo_control {[0 := mkNodeInfo 1 0 false]} {["worker"%string := 0]}
    {[1 := 5]} {[5 := []]} (2 :: replicate 63 0) 1.

Definition demo_hub_stripe : Stripe :=
  mkStripe [-1; 256; 257; 258] 3 (blk_slice <$> [256; 257; 258]) 0.

Definition demo_hub_mem : mem :=
  match (m1 ← UpdateStripeHeader ∅ demo_hub_stripe;
         SetStripe m1 demo_control 1 StripeStatusBusy (-1) 256 1) with
  | Ret m => m
  | _ => ∅
  end.

Lemma demo_hub_wf : hub_wf demo_hub (seqZ 0 256).
Proof.
  split; [split|split|..]; cbn.
  - unfold_layout. lia.
  - done.
  - done.
  - repeat constructor; lia.
  - intros [|k] c Hk; simpl in Hk; [by injection Hk as <-|done].
  - reflexivity.
  - apply (bool_decide_unpack _). vm_compute. exact I.
  - apply NoDup_seqZ.
  - by rewrite length_seqZ.
  - lia.
  - lia.
Qed.

Lemma demo_hub_backed : stripe_backed demo_hub_bus demo_hub_stripe [256; 257; 258].
Proof.
  split; cbn.
  - apply (bool_decide_unpack _). vm_compute. exact I.
  - done.
  - repeat constructor; unfold managed; cbn; unfold_layout; lia.
  - done.
  - repeat constructor; unfold is_int16; lia.
  - done.
  - done.
  - unfold data_cap. cbn. unfold_layout. lia.
Qed.

Lemma demo_hub_published : published demo_hub_mem demo_hub_stripe.
Proof. exists (Slice (256 * BlockSize) BlockSize). vm_compute. auto. Qed.

Lemma demo_hub_registered : registered demo_hub_mem demo_control 1 demo_hub_stripe.
Proof. exists (-1), 256, [257; 258]. vm_compute. split; [done|]. split; [discriminate|done]. Qed.

Lemma demo_hub_queue : queue_repr demo_hub_mem demo_control 1 0 [].
Proof.
  assert (Hz : forallb (fun i => Z.eqb (fread demo_hub_mem demo_control (QEntry 1 i)) 0)
            (seqZ 0 QueueSize) = true) by (vm_compute; reflexivity).
  apply queue_repr_empty; [vm_compute; reflexivity..|].
  intros i Hi. rewrite forallb_forall in Hz. apply Z.eqb_eq, Hz.
  apply list_elem_of_In, elem_of_seqZ. lia.
Qed.

(** ** Theorems *)

(** C22: A request gives an empty connection of the size asked for over blocks
    that were free, with an idle slot of the registry now ready and pointing
    at the stripe's header, and no other queue or slot disturbed; closing the
    connection gives everything back: the block bitmap, the slot and the
    limit token are as before the request. *)
Theorem Request_Close_roundtrip mk m h gsc blockCount ch :
  ChunkSource mk -> hub_wf h gsc -> limit h < MaxTotalSlots -> 0 <= blockCount <= 1021 ->
  (exists i, 1 <= i <= MaxTotalSlots /\ fread m (hctrl h) (SStatus i) = StripeStatusIdle) ->
  exists m' h' r, Request mk m h blockCount ch true = Ret (m', h', r) /\
    match r with
    | inl _ => m' = m /\ forall g, 0 <= g -> used (hbus h') g = used (hbus h) g
    | inr c => exists s gs slot,
        conn_ok m' (hbus h') c s gs /\ DataLen s = 0 /\
        Z.of_nat (length gs) = blockCount + 1 /\ slotID c = slot /\
        fread m (hctrl h) (SStatus slot) = StripeStatusIdle /\
        GetStripeStatus m' (hctrl h') slot = Ret StripeStatusReady /\
        registered m' (hctrl h') slot s /\
        exists m2 h2 c2, Close m' h' c = Ret (m2, h2, c2) /\ cnStripe c2 = None /\
          (forall g, 0 <= g -> used (hbus h2) g = used (hbus h) g) /\
          (forall i, 1 <= i <= MaxTotalSlots ->
             GetStripeStatus m2 (hctrl h2) i = GetStripeStatus m (hctrl h) i) /\
          limit h2 = limit h
    end.
Proof.
  intros Hmk Hh Hlim Hbc Hidle.
  destruct (Request_spec mk m h gsc blockCount ch Hh Hlim Hbc Hidle) as (m1 & h1 & r & E & Hr).
  exists m1, h1, r. split; [done|]. destruct r as [e|c]; [naive_solver|].
  destruct Hr as (s & gs & slot & -> & Hh1 & Hok & HD & Hcl & Hlen & Hsl & Hid & Hst & Hreg & Hoth
    & Hl & _).
  exists s, gs, slot. split_and!; try done.
  pose proof (ctrl_backed_wf _ _ _ (hw_bus _ _ Hh) (hw_ctrl _ _ Hh)) as Hc.
  pose proof (ctrl_backed_wf _ _ _ (hw_bus _ _ Hh1) (hw_ctrl _ _ Hh1)) as Hc1.
  destruct (Close_spec m1 h1 gsc _ s gs Hh1 Hok)
    as (m2 & h2 & c2 & EC & Hnil & Hh2 & Hrel & Hctl & Hlm & Hidle2 & Hoth2 & _); [|done|].
  { intros g. eapply claimed_apart; [exact Hcl|apply Hh]. }
  cbn [slotID] in Hidle2, Hoth2. exists m2, h2, c2. split; [exact EC|]. rewrite Hctl, Hlm. split_and!.
  - done.
  - intros g Hg. by apply (released_claimed (hbus h) (hbus h1) (hbus h2) gs).
  - intros i Hi. rewrite (GetStripeStatus_field _ Hc1), (GetStripeStatus_field _ Hc) by done.
    f_equal. destruct (decide (i = slot)) as [->|Hne]; [by rewrite Hidle2, Hid|].
    rewrite Hoth2 by (simpl; lia || congruence). apply Hoth; [done|]. simpl. congruence.
  - pose proof (hw_limit _ _ Hh). lia.
Qed.

Lemma Request_Close_roundtrip_witness :
  exists m' h' r m2 h2 c2, Request demo_mk demo_hub_mem demo_hub 3 6 true = Ret (m', h', inr r) /\
    Close m' h' r = Ret (m2, h2, c2) /\
    forall g, 0 <= g -> used (hbus h2) g = used demo_hub_bus g.
Proof.
  destruct (Request_Close_roundtrip demo_mk demo_hub_mem demo_hub (seqZ 0 256) 3 6
    demo_mk_source demo_hub_wf) as (m' & h' & r & E & Hr).
  - vm_compute. reflexivity.
  - lia.
  - exists 2. vm_compute. split; [split; discriminate|reflexivity].
  - destruct r as [e|c].
    + exfalso. assert (Hv : (fun x : mem * Hub * (goerror + busConn) => match x.2 with inl _ => true | inr _ => false end) <$>
        Request demo_mk demo_hub_mem demo_hub 3 6 true = Ret false) by (vm_compute; reflexivity).
      rewrite E in Hv. discriminate Hv.
    + destruct Hr as (s & gs & slot & _ & _ & _ & _ & _ & _ & _ & m2 & h2 & c2 & EC & _ & Hu & _).
      exists m', h', c, m2, h2, c2. split; [exact E|]. split; [exact EC|exact Hu].
Defined.

(** C20: An expansion request of the owner is answered.  The hub finds the
    stripe through the registry and its header.  If blocks can be had, the
    stripe grows by two blocks that were free: the header now describes the
    grown stripe, all data is as it was, and the requesting node finds one
    "expand ready" for the slot at the end of its queue and is notified.
    Otherwise, which takes a bus with less than two free blocks, stripe and
    bitmap are unchanged, the node gets an "expand error" the same way, and a
    connection waiting on the slot receives the error. *)
Theorem handleExpandRequest_correct mk m h gsc s gs slot p n head l :
  ChunkSource mk -> hub_wf h gsc ->
  stripe_backed (hbus h) s gs -> (forall g, g ∈ gs -> g ∈ gsc -> False) ->
  published m s -> registered m (hctrl h) slot s -> 1 <= slot <= MaxTotalSlots ->
  (length (Sequence s) <= 2 * length gs)%nat -> Z.of_nat (length gs) <= 1020 ->
  find_node h (niID n) = Some p -> infos h !! p = Some n -> closed n = false ->
  0 <= niID n < MaxNodes -> GetStripeOwner m (hctrl h) slot = Ret (niID n) ->
  (forall ch, waiters h !! slot = Some ch -> default [] (chans h !! ch) = []) ->
  queue_repr m (hctrl h) (niID n) head l -> Z.of_nat (length l) < QueueSize - 1 ->
  head + Z.of_nat (length l) + 1 < 4294967296 ->
  exists m' h', handleExpandRequest 1 mk m h (niID n) slot = Ret (m', h') /\
    evCount <$> infos h' !! p = Some (evCount n + 1) /\
    ((exists gs', claimed (hbus h) (hbus h') gs' /\ length gs' = 2%nat /\
        let s' := extend_stripe s (blk_of <$> gs') in
        stripe_backed (hbus h') s' (gs ++ gs') /\ published m' s' /\
        data_bytes m' s' 0 (data_cap s) = stripe_area m s /\
        queue_repr m' (hctrl h) (niID n) head (l ++ [(slot, CMD_EXPAND_READY)])) \/
     (Z.of_nat (length (free_list (hbus h))) < 2 /\
        (forall g, 0 <= g -> used (hbus h') g = used (hbus h) g) /\ published m' s /\
        data_bytes m' s 0 (data_cap s) = stripe_area m s /\
        queue_repr m' (hctrl h) (niID n) head (l ++ [(slot, CMD_EXPAND_ERROR)]) /\
        (forall ch, waiters h !! slot = Some ch ->
           exists e, chans h' !! ch = Some [Some e]))).
Proof.
  intros Hmk Hh Hb Hap Hpub Hreg Hslot Hsq Hlen Hfn Hp Hcl Hid How Hch Hq Hroom Hw.
  pose proof Hpub as (hd & Hhd & Lhd & ED). destruct Hreg as (cid & off & rest & Hs & Hoff & Hg).
  pose proof (hw_bus _ _ Hh) as Hwf.
  destruct (locate_header (hbus h) Hwf (hub_getChunk (hbus h)) s gs cid off rest hd Hb Hs Hoff Hhd)
    as (ck & Hck & Hblk).
  assert (Hbc : 0 < BlockCount s).
  { rewrite (sb_count _ _ _ Hb). pose proof (sb_nonempty _ _ _ Hb). destruct gs; [done|simpl; lia]. }
  unfold handleExpandRequest. rewrite Hg, bind_ret, Hck, bind_ret, Hblk, bind_ret, ED, bind_ret.
  rewrite decide_False, bind_ret, How, bind_ret by lia.
  rewrite decide_False by (rewrite u32_small; unfold_layout; [tauto|lia]).
  by apply (grant_expand_ok mk m h gsc s gs hd slot p n head l).
Qed.

Lemma handleExpandRequest_correct_witness :
  exists m' h', handleExpandRequest 1 demo_mk demo_hub_mem demo_hub 1 1 = Ret (m', h') /\
    evCount <$> infos h' !! 0 = Some 1 /\
    exists gs', length gs' = 2%nat /\
      published m' (extend_stripe demo_hub_stripe (blk_of <$> gs')) /\
      queue_repr m' demo_control 1 0 [(1, CMD_EXPAND_READY)].
Proof.
  destruct (handleExpandRequest_correct demo_mk demo_hub_mem demo_hub (seqZ 0 256)
    demo_hub_stripe [256; 257; 258] 1 0 (mkNodeInfo 1 0 false) 0 []
    demo_mk_source demo_hub_wf demo_hub_backed) as (m' & h' & E & Hev & Hr).
  - intros g Hg Hs. apply elem_of_seqZ in Hs. rewrite !elem_of_cons, elem_of_nil in Hg. lia.
  - exact demo_hub_published.
  - exact demo_hub_registered.
  - unfold_layout. lia.
  - simpl. lia.
  - simpl. lia.
  - vm_compute. reflexivity.
  - vm_compute. reflexivity.
  - reflexivity.
  - cbn. unfold_layout. lia.
  - vm_compute. reflexivity.
  - intros ch Hch. vm_compute in Hch. injection Hch as <-. vm_compute. reflexivity.
  - exact demo_hub_queue.
  - cbn. unfold_layout. lia.
  - cbn. lia.
  - exists m', h'. split; [exact E|]. split; [exact Hev|].
    destruct Hr as [(gs' & _ & Hl & _ & Hp & _ & Hq)|(_ & _ & _ & _ & _ & Hw)].
    + exists gs'. split; [exact Hl|]. split; [exact Hp|exact Hq].
    + exfalso. destruct (Hw 5) as (e & He); [vm_compute; reflexivity|].
      assert (Hv : (fun x : mem * Hub => chans x.2 !! 5) <$>
        handleExpandRequest 1 demo_mk demo_hub_mem demo_hub 1 1 = Ret (Some [])) by (vm_compute; reflexivity).
      cbn [niID] in E. rewrite E in Hv. cbn in Hv. rewrite He in Hv. discriminate Hv.
Defined.

(** C25: A new hub on a fresh chunk is well formed: its control stripe takes
    the only blocks in use, every queue is empty, every slot is idle, nothing
    is registered and no limit token is taken. *)
Theorem NewHub_ready mk c0 :
  CData c0 = Slice 0 ChunkSize ->
  exists m h gsc, NewHub mk ∅ (Some c0) true = Ret (m, inr h) /\ hub_wf h gsc /\
    (forall g, 0 <= g -> used (hbus h) g = bool_decide (g ∈ gsc)) /\
    (forall q, 0 <= q < MaxNodes -> queue_repr m (hctrl h) q 0 []) /\
    (forall i, 1 <= i <= MaxTotalSlots -> GetStripeStatus m (hctrl h) i = Ret StripeStatusIdle) /\
    nodes h = ∅ /\ waiters h = ∅ /\ limit h = 0 /\ gsc = seqZ 0 256 /\
    chunks (hbus h) = [c0] /\ nodeIDs h = replicate (Z.to_nat MaxNodes) 0.
Proof. apply NewHub_spec. Qed.

Lemma NewHub_ready_witness :
  exists m h gsc, NewHub demo_mk ∅ (Some (mkChunk (Slice 0 ChunkSize) 10)) true = Ret (m, inr h) /\
    hub_wf h gsc /\ (forall q, 0 <= q < MaxNodes -> queue_repr m (hctrl h) q 0 []).
Proof.
  destruct (NewHub_ready demo_mk (mkChunk (Slice 0 ChunkSize) 10) eq_refl)
    as (m & h & gsc & E & Hw & _ & Hq & _).
  exists m, h, gsc. split; [exact E|]. split; [exact Hw|exact Hq].
Defined.

(** [allocNodeID] takes the lowest id from 1 to 63 that no node holds and
    marks it taken; [freeNodeID] of it restores the table exactly.  When all
    are taken it fails and changes nothing. *)
Theorem allocNodeID_correct h w rest :
  nodeIDs h = w :: rest -> 0 <= w < 18446744073709551616 ->
  (exists id h', allocNodeID h = Ret (h', inr id) /\ 1 <= id < MaxNodes /\
     Z.testbit w id = false /\ (forall j, 1 <= j < id -> Z.testbit w j = true) /\
     (exists w', nodeIDs h' = w' :: rest /\ Z.testbit w' id = true) /\
     freeNodeID h' id = Ret h) \/
  ((forall j, 1 <= j < MaxNodes -> Z.testbit w j = true) /\
   allocNodeID h = Ret (h, inl ErrMaxNodes)).
Proof.
  intros Hids Hw. unfold allocNodeID. rewrite Hids.
  destruct (alloc_id_loop_spec (Z.to_nat (MaxNodes - 1)) 1 w rest ltac:(lia) ltac:(by vm_compute))
    as [(id & Hid & Hf & Hlow & ->)|[Hall ->]]; rewrite bind_ret; cbn [fst snd].
  - left. change (1 + Z.of_nat (Z.to_nat (MaxNodes - 1))) with 64 in Hid.
    exists id. eexists. split; [reflexivity|]. split_and!; try done.
    + lia.
    + unfold_layout. lia.
    + eexists. split; [reflexivity|]. rewrite Z.lor_spec, Hf. cbn [orb].
      rewrite u64_bit by lia.
      rewrite testbit_one_shift by lia. by rewrite bool_decide_eq_true_2.
    + unfold freeNodeID. rewrite Z.quot_small, Z.rem_small by lia.
      cbn [nodeIDs with_nodeIDs]. rewrite (go_index_lookup (_ :: rest) 0 (Z.lor w (u64 (Z.shiftl 1 id)))), bind_ret by done.
      cbn [Z.to_nat insert list_insert]. rewrite clear_bit_set by (done || lia).
      destruct h. cbn in *. by subst.
  - right. split; [exact Hall|]. destruct h. cbn in *. by subst.
Qed.

Lemma allocNodeID_correct_witness :
  exists id h', allocNodeID demo_hub = Ret (h', inr id) /\ 1 <= id < MaxNodes /\
    freeNodeID h' id = Ret demo_hub.
Proof.
  destruct (allocNodeID_correct demo_hub 2 (replicate 63 0) eq_refl ltac:(lia))
    as [(id & h' & E & Hid & _ & _ & _ & EF)|[Hall _]].
  - exists id, h'. split; [exact E|]. split; [exact Hid|exact EF].
  - exfalso. specialize (Hall 2 ltac:(unfold_layout; lia)). discriminate Hall.
Defined.

(** The name given by the option reaches the hub, but not the chunk. *)
Lemma WithChunk0Name_late newChunk mk m evOk name r :
  NewHub mk m (newChunk "mmfg_chunk0"%string) evOk = Ret r ->
  NewHub_options newChunk mk m evOk [WithChunk0Name name] = Ret (r, name).
Proof. intros E. unfold NewHub_options. by rewrite E, bind_ret. Qed.
