(* ===== verification/Cleanup.v ===== *)
(** * What a node leaves behind

    The hub's clean-up when a node has gone ([watchdog] and
    [CleanupResources] of go/hub/hub.go): the slots the node still holds are
    freed, and with them the blocks of their stripes; nothing else changes.
    The loop ends before the last slot, number 4096: what a node holds there
    stays taken. *)
From stdpp Require Import base tactics list numbers option gmap strings.
From Stdlib Require Import ZArith Lia.
From S2P Require Import Prelude Memory Layout Protocol Stripe Bus Control Attach Conn Hub.
#[local] Open Scope Z_scope.

(** ** Specification vocabulary *)

(** Slot [i] is in use by the node [id]. *)
Definition owned (m : mem) (c : Control) (id i : Z) : Prop :=
  1 <= i <= MaxTotalSlots /\ fread m c (SStatus i) <> StripeStatusIdle /\ fread m c (SOwner i) = id.

#[export] Instance owned_dec m c id i : Decision (owned m c id i).
Proof. unfold owned. apply _. Defined.

(** The stripes [st] on the blocks [bl] are what the node's slots from [i] on
    point at; they share no blocks with each other or the control stripe. *)
Record holds (m : mem) (h : Hub) (gsc : list Z) (id i : Z)
  (st : Z -> Stripe) (bl : Z -> list Z) : Prop := {
  hd_backed : forall j, i <= j -> owned m (hctrl h) id j -> stripe_backed (hbus h) (st j) (bl j);
  hd_published : forall j, i <= j -> owned m (hctrl h) id j -> published m (st j);
  hd_registered : forall j, i <= j -> owned m (hctrl h) id j -> registered m (hctrl h) j (st j);
  hd_apart : forall j g, i <= j -> owned m (hctrl h) id j -> g ∈ bl j -> g ∈ gsc -> False;
  hd_disjoint : forall j k g, i <= j -> i <= k -> owned m (hctrl h) id j ->
    owned m (hctrl h) id k -> g ∈ bl j -> g ∈ bl k -> j = k;
}.

(** From [m], [h] to [m'], [h']: the slots of the node from [i] up to 4095 are
    idle and their blocks free. *)
Record reclaimed (m : mem) (h : Hub) (gsc : list Z) (id i : Z) (bl : Z -> list Z)
  (m' : mem) (h' : Hub) : Prop := {
  rc_wf : hub_wf h' gsc;
  rc_hub : h' = with_bus h (hbus h');
  rc_idle : forall j, i <= j < MaxTotalSlots -> owned m (hctrl h) id j ->
    fread m' (hctrl h) (SStatus j) = StripeStatusIdle;
  rc_other : forall f, field_ok f ->
    (forall j, f = SStatus j -> i <= j < MaxTotalSlots -> ~ owned m (hctrl h) id j) ->
    fread m' (hctrl h) f = fread m (hctrl h) f;
  rc_used : forall g, 0 <= g -> used (hbus h') g = true <->
    used (hbus h) g = true /\ forall j, i <= j < MaxTotalSlots -> owned m (hctrl h) id j -> g ∉ bl j;
}.

(** ** One slot *)
Section slot.
Context (m : mem) (h : Hub) (gsc : list Z) (id i : Z) (Hh : hub_wf h gsc).

Lemma cleanup_slot_skip :
  0 <= i < MaxTotalSlots -> ~ owned m (hctrl h) id i -> cleanup_slot m h id i = Ret (m, h).
Proof using Hh.
  intros Hi Hn. pose proof (ctrl_backed_wf _ _ _ (hw_bus _ _ Hh) (hw_ctrl _ _ Hh)) as Hc.
  unfold cleanup_slot. destruct (decide (i = 0)) as [->|].
  - unfold GetStripeStatus, readU32. rewrite (slot0_pointer _ Hc). reflexivity.
  - rewrite (GetStripeStatus_field _ Hc), bind_ret by lia.
    case_decide as Hs; [|done]. rewrite (GetStripeOwner_field _ Hc), bind_ret by lia.
    case_decide as Ho; [|done]. destruct Hn. split; [lia|done].
Qed.

Lemma cleanup_slot_owned s gs :
  owned m (hctrl h) id i -> stripe_backed (hbus h) s gs -> published m s ->
  registered m (hctrl h) i s ->
  exists b', cleanup_slot m h id i =
      Ret (fwrite m (hctrl h) (SStatus i) StripeStatusIdle, with_bus h b') /\
    released (hbus h) b' gs.
Proof using Hh.
  intros (Hi & Hs & Ho) Hb (hd & Hhd & Lhd & ED) (cid & off & rest & Hsq & Hoff & Hg).
  pose proof (hw_bus _ _ Hh) as Hwf.
  pose proof (ctrl_backed_wf _ _ _ Hwf (hw_ctrl _ _ Hh)) as Hc.
  destruct (locate_header (hbus h) Hwf (hub_getChunk (hbus h)) s gs cid off rest hd Hb Hsq Hoff Hhd)
    as (ck & Hck & Hblk).
  destruct (free_seq_released (hbus h) gs 0 (Sequence s) Hwf) as (b' & EF & Hrel);
    [|apply Hb|].
  { eapply Forall_impl; [apply (sb_used _ _ _ Hb)|]. naive_solver. }
  exists b'. split; [|done]. unfold cleanup_slot.
  rewrite (GetStripeStatus_field _ Hc), bind_ret, decide_True by (done || lia).
  rewrite (GetStripeOwner_field _ Hc), bind_ret, decide_True by (done || lia).
  rewrite Hg, bind_ret, Hck, bind_ret, Hblk, bind_ret, ED, bind_ret. cbn [snd].
  rewrite EF, bind_ret, (FreeSlot_field _ Hc), bind_ret by lia. done.
Qed.

End slot.

(** ** A freed slot leaves the rest in order *)
Section step.
Context (m : mem) (h : Hub) (gsc : list Z) (id i : Z) (st : Z -> Stripe) (bl : Z -> list Z).
Context (b' : Bus) (Hh : hub_wf h gsc) (Hd : holds m h gsc id i st bl).
Context (Ho : owned m (hctrl h) id i) (Hrel : released (hbus h) b' (bl i)).
Let m1 := fwrite m (hctrl h) (SStatus i) StripeStatusIdle.

Lemma step_ctrl_wf : ctrl_wf (hctrl h).
Proof using Hh. exact (ctrl_backed_wf _ _ _ (hw_bus _ _ Hh) (hw_ctrl _ _ Hh)). Qed.

Lemma step_slot_ok : field_ok (SStatus i).
Proof using Ho. destruct Ho as [Hi _]. simpl. lia. Qed.

Lemma step_field f : field_ok f -> f <> SStatus i -> fread m1 (hctrl h) f = fread m (hctrl h) f.
Proof using Hh Ho.
  intros Hf Hne. apply (fread_fwrite_other _ step_ctrl_wf); [exact step_slot_ok|done|congruence].
Qed.

Lemma step_frame : mem_frame (in_gs gsc) m m1.
Proof using Hh Ho.
  apply (ctrl_write_frame (hbus h) (hctrl h) gsc (fun _ => True)); [apply Hh|apply Hh|].
  apply fwrite_frame; [exact step_slot_ok|done].
Qed.

Lemma step_owned j : i < j -> owned m1 (hctrl h) id j <-> owned m (hctrl h) id j.
Proof using Hh Ho.
  intros Hj. unfold owned. destruct Ho as [Hi _].
  destruct (decide (1 <= j <= MaxTotalSlots)); [|tauto].
  rewrite !step_field by (simpl; first [lia|congruence|intros [= ->]; lia]). tauto.
Qed.

Lemma step_kept g : used b' g = true \/ g ∈ bl i \/ used (hbus h) g = false \/ g < 0.
Proof using Hrel.
  destruct (decide (g < 0)); [auto|]. rewrite (rel_used _ _ _ Hrel) by lia.
  case_bool_decide; [auto|]. destruct (used (hbus h) g); auto.
Qed.

(** Blocks in use that are not of slot [i] stay in use. *)
Lemma step_used gs :
  Forall (fun g => managed (hbus h) g /\ used (hbus h) g = true) gs ->
  (forall g, g ∈ gs -> g ∈ bl i -> False) ->
  Forall (fun g => managed b' g /\ used b' g = true) gs.
Proof using Hrel.
  rewrite !Forall_forall. intros Hu Hap g Hg. destruct (Hu g Hg) as [Hm Hu1].
  unfold managed in *. rewrite (rel_count _ _ _ Hrel). split; [done|].
  destruct (step_kept g) as [|[|[|]]]; [done|by destruct (Hap g)|congruence|lia].
Qed.

Lemma step_wf : hub_wf (with_bus h b') gsc.
Proof using Hh Hd Ho Hrel.
  split; cbn [hbus hctrl limit with_bus]; [apply Hrel| |apply Hh|apply Hh].
  destruct (hw_ctrl _ _ Hh) as [H1 H2 H3 H4]. split; [done| |done|done].
  apply step_used; [done|]. intros g Hg Hg'. by eapply (hd_apart _ _ _ _ _ _ _ Hd i g).
Qed.

Lemma step_holds : holds m1 (with_bus h b') gsc id (i + 1) st bl.
Proof using Hh Hd Ho Hrel.
  assert (Hback : forall j, i < j -> owned m (hctrl h) id j -> stripe_backed b' (st j) (bl j)).
  { intros j Hj Hoj. destruct (hd_backed _ _ _ _ _ _ _ Hd j ltac:(lia) Hoj). split; try done.
    apply step_used; [done|]. intros g Hg Hg'.
    pose proof (hd_disjoint _ _ _ _ _ _ _ Hd j i g ltac:(lia) ltac:(lia) Hoj Ho Hg Hg'). lia. }
  split; cbn [hbus hctrl with_bus].
  - intros j Hj Hoj%step_owned; [|lia]. apply Hback; [lia|done].
  - intros j Hj Hoj%step_owned; [|lia].
    apply (published_frame b' (st j) (bl j) gsc m); [apply Hback; [lia|done]| |exact step_frame|].
    + intros g. apply (hd_apart _ _ _ _ _ _ _ Hd j g); [lia|done].
    + apply (hd_published _ _ _ _ _ _ _ Hd); [lia|done].
  - intros j Hj Hoj%step_owned; [|lia].
    destruct (hd_registered _ _ _ _ _ _ _ Hd j ltac:(lia) Hoj) as (cid & off & rest & H1 & H2 & H3).
    exists cid, off, rest. split; [done|]. split; [done|]. rewrite <- H3.
    destruct Hoj as [Hr _]. rewrite !(GetStripeHeader_field _ step_ctrl_wf) by lia.
    by rewrite step_field by (simpl; lia || done).
  - intros j g Hj Hoj%step_owned; [|lia]. apply (hd_apart _ _ _ _ _ _ _ Hd j g); [lia|done].
  - intros j k g Hj Hk Hoj%step_owned Hok%step_owned; [|lia..].
    apply (hd_disjoint _ _ _ _ _ _ _ Hd j k g); done || lia.
Qed.

Lemma step_reclaimed m' h' :
  i < MaxTotalSlots -> reclaimed m1 (with_bus h b') gsc id (i + 1) bl m' h' -> reclaimed m h gsc id i bl m' h'.
Proof using Hh Ho Hrel.
  intros Hi4 [Hwf' Hhub Hidle Hoth Hu]. cbn [hctrl with_bus hbus] in *. split; [done|done|..].
  - intros j Hj Hoj. destruct (decide (j = i)) as [->|].
    + rewrite Hoth; [by apply fread_fwrite_same|exact step_slot_ok|]. intros j [= <-]. lia.
    + apply Hidle; [lia|]. apply step_owned; [lia|done].
  - intros f Hf Hn. rewrite Hoth; [apply step_field; [done|]|done|].
    + intros ->. by apply (Hn i eq_refl ltac:(lia)).
    + intros j -> Hj Hoj%step_owned; [|lia]. apply (Hn j); [done|lia|done].
  - intros g Hg. rewrite Hu, (rel_used _ _ _ Hrel) by done. split.
    + intros [Hb Hall]. case_bool_decide as Hin; [by rewrite andb_false_r in Hb|].
      rewrite andb_true_r in Hb. split; [done|]. intros j Hj Hoj.
      destruct (decide (j = i)) as [->|]; [done|]. apply Hall; [lia|].
      apply step_owned; [lia|done].
    + intros [Hb Hall]. rewrite Hb, bool_decide_eq_false_2 by (apply Hall; [lia|done]).
      split; [done|]. intros j Hj Hoj%step_owned; [|lia]. apply Hall; [lia|done].
Qed.
End step.

(** Skipping a slot the node does not own. *)
Lemma skip_holds m h gsc id i st bl :
  holds m h gsc id i st bl -> holds m h gsc id (i + 1) st bl.
Proof.
  intros [H1 H2 H3 H4 H5]. split; intros j; intros; try (by (apply H1 || apply H2 || apply H3); [lia|done]).
  - by eapply (H4 j); [lia|..].
  - by eapply H5; [lia|lia|..].
Qed.

Lemma skip_reclaimed m h gsc id i bl m' h' :
  ~ owned m (hctrl h) id i -> reclaimed m h gsc id (i + 1) bl m' h' ->
  reclaimed m h gsc id i bl m' h'.
Proof.
  intros Hn [H1 H2 H3 H4 H5].
  assert (Hlt : forall j, i <= j < MaxTotalSlots -> owned m (hctrl h) id j -> i + 1 <= j < MaxTotalSlots).
  { intros j Hj Hoj. destruct (decide (j = i)) as [->|]; [done|lia]. }
  split; [done|done|..].
  - intros j Hj Hoj. apply H3; [by apply Hlt|done].
  - intros f Hf Hall. apply H4; [done|]. intros j -> Hj. apply Hall; [done|lia].
  - intros g Hg. rewrite H5 by done. split; intros [Hb Hall]; (split; [done|]); intros j Hj Hoj;
      apply Hall; (done || lia || by apply Hlt).
Qed.

(** ** The loop *)
Lemma cleanup_loop_reclaims gsc id st bl k : forall i m h,
  0 <= i -> i + Z.of_nat k = MaxTotalSlots -> hub_wf h gsc -> holds m h gsc id i st bl ->
  exists m' h', cleanup_loop k i m h id = Ret (m', h') /\ reclaimed m h gsc id i bl m' h'.
Proof.
  induction k as [|k IH]; intros i m h Hi Hk Hh Hd; cbn [cleanup_loop].
  - exists m, h. split; [done|].
    assert (Hno : forall j, i <= j < MaxTotalSlots -> False) by (intros j Hj; lia).
    split; [done|by destruct h|..].
    + intros j Hj Hoj. by destruct (Hno j Hj).
    + done.
    + intros g Hg. split; [|tauto]. intros Hu. split; [done|].
      intros j Hj Hoj. by destruct (Hno j Hj).
  - destruct (decide (owned m (hctrl h) id i)) as [Ho|Hn].
    + destruct (cleanup_slot_owned m h gsc id i Hh (st i) (bl i) Ho) as (b' & -> & Hrel);
        [eapply Hd; done || lia..|]. rewrite bind_ret. cbn [fst snd].
      destruct (IH (i + 1) _ _ ltac:(lia) ltac:(lia) (step_wf m h gsc id i st bl b' Hh Hd Ho Hrel)
        (step_holds m h gsc id i st bl b' Hh Hd Ho Hrel)) as (m' & h' & E & Hr).
      exists m', h'. split; [exact E|]. eapply step_reclaimed; try done. lia.
    + rewrite (cleanup_slot_skip m h gsc) by (done || lia). rewrite bind_ret. cbn [fst snd].
      destruct (IH (i + 1) m h ltac:(lia) ltac:(lia) Hh (skip_holds _ _ _ _ _ _ _ Hd))
        as (m' & h' & E & Hr).
      exists m', h'. split; [exact E|]. by apply skip_reclaimed.
Qed.

(** The blocks of the last slot stay in use. *)
Lemma last_slot_kept m h gsc id st bl m' h' :
  holds m h gsc id 0 st bl -> reclaimed m h gsc id 0 bl m' h' -> owned m (hctrl h) id MaxTotalSlots ->
  Forall (fun g => used (hbus h') g = true) (bl MaxTotalSlots).
Proof.
  intros Hd Hr Ho. apply Forall_forall. intros g Hg.
  pose proof (hd_backed _ _ _ _ _ _ _ Hd MaxTotalSlots ltac:(unfold_layout; lia) Ho) as Hb.
  pose proof (proj1 (Forall_forall _ _) (sb_used _ _ _ Hb) g Hg) as [Hm Hu].
  apply (rc_used _ _ _ _ _ _ _ _ Hr); [apply Hm|]. split; [done|]. intros j Hj Hoj Hgj.
  pose proof (hd_disjoint _ _ _ _ _ _ _ Hd j MaxTotalSlots g ltac:(lia) ltac:(unfold_layout; lia) Hoj Ho Hgj Hg). lia.
Qed.

(** ** A concrete clean-up *)
Lemma demo_owned j : owned demo_hub_mem demo_control 1 j -> j = 1.
Proof.
  assert (Hz : forallb (fun i => (i =? 1) || (fread demo_hub_mem demo_control (SStatus i) =? 0))
            (seqZ 1 4096) = true) by (vm_compute; reflexivity).
  intros (Hj & Hs & _). rewrite forallb_forall in Hz. specialize (Hz j).
  apply orb_prop in Hz as [->%Z.eqb_eq|Hz%Z.eqb_eq]; [done|by destruct Hs|].
  apply list_elem_of_In, elem_of_seqZ. unfold_layout. lia.
Qed.

Lemma demo_holds :
  holds demo_hub_mem demo_hub (seqZ 0 256) 1 0 (fun _ => demo_hub_stripe) (fun _ => [256; 257; 258]).
Proof.
  split; cbn [hctrl hbus demo_hub].
  - intros j _ _. exact demo_hub_backed.
  - intros j _ _. exact demo_hub_published.
  - intros j _ ->%demo_owned. exact demo_hub_registered.
  - intros j g _ _ Hg Hs. apply elem_of_seqZ in Hs. rewrite !elem_of_cons, elem_of_nil in Hg. lia.
  - by intros j k g _ _ ->%demo_owned ->%demo_owned.
Qed.

(** ** Theorems *)

(** C17: When the connection to a node breaks, the hub takes back what the node
    holds in slots 1 to 4095, and only that.  Each of these slots that is not
    idle and belongs to the node becomes idle and the blocks of its stripe
    become free; every other block, slot and queue is as before.  What the
    node holds in slot 4096, where the loop does not come, stays taken, the
    blocks too.  The node is gone from the table, its id is free again and it
    accepts no more notifications. *)
Theorem watchdog_reclaims m h gsc name p n st bl w rest :
  hub_wf h gsc -> infos h !! p = Some n -> 0 <= niID n < MaxNodes ->
  nodeIDs h = w :: rest -> holds m h gsc (niID n) 0 st bl ->
  exists m' h', watchdog_exit m h name p = Ret (m', h') /\ hub_wf h' gsc /\
    (forall i, 1 <= i <= MaxTotalSlots -> GetStripeStatus m' (hctrl h') i =
       if decide (owned m (hctrl h) (niID n) i /\ i < MaxTotalSlots) then Ret StripeStatusIdle
       else GetStripeStatus m (hctrl h) i) /\
    (forall q head l, 0 <= q < MaxNodes ->
       queue_repr m (hctrl h) q head l -> queue_repr m' (hctrl h') q head l) /\
    (forall g, 0 <= g -> used (hbus h') g = true <->
       used (hbus h) g = true /\
       forall i, owned m (hctrl h) (niID n) i -> i < MaxTotalSlots -> g ∉ bl i) /\
    (owned m (hctrl h) (niID n) MaxTotalSlots ->
       owned m' (hctrl h') (niID n) MaxTotalSlots /\
       Forall (fun g => used (hbus h') g = true) (bl MaxTotalSlots)) /\
    nodes h' = delete name (nodes h) /\ closed <$> infos h' !! p = Some true /\
    exists w', nodeIDs h' = w' :: rest /\ Z.testbit w' (niID n) = false.
Proof.
  intros Hh Hp Hid Hids Hd. unfold watchdog_exit. rewrite Hp.
  destruct (cleanup_loop_reclaims gsc (niID n) st bl (Z.to_nat MaxTotalSlots) 0 m h
              ltac:(lia) ltac:(by vm_compute) Hh Hd) as (m' & h' & E & Hrec).
  pose proof Hrec as [Hwf Hhub Hidle Hoth Hu].
  pose proof (ctrl_backed_wf _ _ _ (hw_bus _ _ Hh) (hw_ctrl _ _ Hh)) as Hc.
  unfold CleanupResources. rewrite E, bind_ret, Hhub. unfold freeNodeID.
  rewrite Z.quot_small, Z.rem_small by (unfold_layout; lia).
  cbn [nodeIDs with_bus]. rewrite Hids, (go_index_lookup (w :: rest) 0 w), bind_ret by done.
  rewrite bind_ret. unfold closeEventfd. cbn [infos with_nodes with_nodeIDs with_bus nodes].
  rewrite Hp, bind_ret. eexists _, _. split; [reflexivity|].
  cbn [hctrl hbus nodes infos nodeIDs with_nodes with_nodeIDs with_bus with_infos]. split_and!.
  - rewrite Hhub in Hwf. destruct Hwf. by split.
  - intros i Hi. rewrite !(GetStripeStatus_field _ Hc) by done. case_decide as Hoi.
    + destruct Hoi as [Hoi Hlt]. rewrite Hidle; [done|lia|done].
    + rewrite Hoth; [done|simpl; lia|]. intros j [= ->] Hj Hoj. apply Hoi. by split; [|lia].
  - intros q head l Hq. apply queue_repr_ext; [done|]. intros f Hf Hqf.
    apply Hoth; [done|]. by intros j ->.
  - intros g Hg. rewrite Hu by done. split; intros [Hb Hall]; (split; [done|]); intros j.
    + intros Hoj Hj. apply Hall; [|done]. destruct Hoj. lia.
    + intros Hj Hoj. apply Hall; [done|lia].
  - intros Ho. split; [|by eapply last_slot_kept].
    destruct Ho as (Hr & Hs & How). unfold owned.
    rewrite !Hoth by (first [simpl; lia|intros j [= <-]; lia|done]). done.
  - done.
  - by rewrite lookup_insert_eq.
  - eexists. split; [reflexivity|]. apply cleared_bit. unfold_layout. lia.
Qed.

Lemma watchdog_reclaims_witness :
  exists m' h', watchdog_exit demo_hub_mem demo_hub "worker" 0 = Ret (m', h') /\
    GetStripeStatus m' (hctrl h') 1 = Ret StripeStatusIdle /\
    used (hbus h') 257 <> true /\ used (hbus h') 255 = true.
Proof.
  destruct (watchdog_reclaims demo_hub_mem demo_hub (seqZ 0 256) "worker" 0 (mkNodeInfo 1 0 false)
    (fun _ => demo_hub_stripe) (fun _ => [256; 257; 258]) 2 (replicate 63 0) demo_hub_wf
    eq_refl ltac:(cbn; unfold_layout; lia) eq_refl demo_holds)
    as (m' & h' & E & _ & Hst & _ & Hu & _).
  assert (Ho : owned demo_hub_mem demo_control 1 1)
    by (apply (bool_decide_unpack _); vm_compute; exact I).
  exists m', h'. split; [exact E|]. split; [|split].
  - rewrite (Hst 1 ltac:(unfold_layout; lia)), decide_True; [reflexivity|].
    split; [exact Ho|vm_compute; reflexivity].
  - intros Hc. apply Hu in Hc as [_ Hc]; [|lia]. apply (Hc 1 Ho); [vm_compute; reflexivity|]. repeat constructor.
  - apply Hu; [lia|]. split; [vm_compute; reflexivity|].
    intros i _ _ Hi. rewrite !elem_of_cons, elem_of_nil in Hi. lia.
Defined.
