(* ===== verification/Ledger.v ===== *)
(** * Who owns what

    The hub with all its open connections, driven by any sequence of
    [Request], [Write] and [Close] calls (go/hub/conn.go over go/shm/bus.go
    and go/shm/control.go): the ledger of blocks, slots and limit tokens
    always balances, and connections never disturb each other. *)
From stdpp Require Import base tactics list numbers option gmap strings relations.
From Stdlib Require Import ZArith Lia.
From S2P Require Import Prelude Memory Layout Protocol Stripe Bus Control Attach Conn Hub.
#[local] Open Scope Z_scope.

(** ** The system *)
Record sys : Type := mkSys { smem : mem; shub : Hub; sconns : list busConn }.

(** [ch] is the channel a request takes from the pool; the others act on the
    [i]-th open connection. *)
Inductive op : Type :=
| ORequest (blockCount ch : Z)
| OWrite (i : nat) (data : list Z)
| OClose (i : nat).

Definition exec (mk : Z -> option Chunk) (st : sys) (o : op) : outcome sys :=
  let '(mkSys m h cs) := st in
  match o with
  | ORequest blockCount ch =>
      r ← Request mk m h blockCount ch true;
      match r with
      | (m', h', inl _) => Ret (mkSys m' h' cs)
      | (m', h', inr c) => Ret (mkSys m' h' (c :: cs))
      end
  | OWrite i data =>
      match cs !! i with
      | None => Ret st
      | Some c =>
          r ← conn_Write mk m (hbus h) c data;
          let '(m', b', c', _) := r in
          Ret (mkSys m' (with_bus h b') (<[i := c']> cs))
      end
  | OClose i =>
      match cs !! i with
      | None => Ret st
      | Some c =>
          r ← Close m h c;
          let '(m', h', _) := r in
          Ret (mkSys m' h' (delete i cs))
      end
  end.

(** Calls whose sizes are within what a header can describe; a request with
    all tokens taken would wait. *)
Definition op_ok (st : sys) (o : op) : Prop :=
  match o with
  | ORequest blockCount _ =>
      0 <= blockCount <= 1021 /\ Z.of_nat (length (sconns st)) < MaxTotalSlots
  | OWrite i data =>
      forall c, sconns st !! i = Some c ->
        writeOff c + Z.of_nat (length data) <= 1021 * BlockSize
  | OClose _ => True
  end.

Definition lstep (mk : Z -> option Chunk) (st st' : sys) : Prop :=
  exists o, op_ok st o /\ exec mk st o = Ret st'.

(** ** The ledger *)

(** An open connection on the blocks [gs], with its slot. *)
Record live (m : mem) (h : Hub) (c : busConn) (gs : list Z) : Prop := {
  lv_slot : 1 <= slotID c <= MaxTotalSlots;
  lv_off : 0 <= writeOff c;
  lv_busy : fread m (hctrl h) (SStatus (slotID c)) <> StripeStatusIdle;
  lv_conn : exists s, conn_ok m (hbus h) c s gs /\ registered m (hctrl h) (slotID c) s;
}.

Record ledger (gsc : list Z) (st : sys) (gss : list (list Z)) : Prop := {
  lg_hub : hub_wf (shub st) gsc;
  lg_live : Forall2 (live (smem st) (shub st)) (sconns st) gss;
  lg_disjoint : NoDup (gsc ++ concat gss);
  lg_used : forall g, 0 <= g -> used (hbus (shub st)) g = true <-> g ∈ gsc ++ concat gss;
  lg_slots : NoDup (slotID <$> sconns st);
  lg_limit : limit (shub st) = Z.of_nat (length (sconns st));
  lg_idle : forall i, 1 <= i <= MaxTotalSlots -> i ∉ slotID <$> sconns st ->
    fread (smem st) (hctrl (shub st)) (SStatus i) = StripeStatusIdle;
}.

(** ** Lemmas *)
Lemma fread_cstripe m c c' f : cstripe c' = cstripe c -> fread m c' f = fread m c f.
Proof. intros H. unfold fread, field_addr. by rewrite H. Qed.

Lemma wf_ctrl h gsc : hub_wf h gsc -> ctrl_wf (hctrl h).
Proof. intros Hh. exact (ctrl_backed_wf _ _ _ (hw_bus _ _ Hh) (hw_ctrl _ _ Hh)). Qed.

(** A connection does not notice what happens outside its blocks and slot. *)
Lemma live_kept m h gsc m' h' gsc' c gs X :
  hub_wf h gsc -> hub_wf h' gsc' -> cstripe (hctrl h') = cstripe (hctrl h) ->
  live m h c gs -> (forall g, g ∈ gs -> used (hbus h') g = true) ->
  mem_frame (in_gs X) m m' -> (forall g, g ∈ gs -> g ∈ X -> False) ->
  (forall f, field_ok f -> slot_field (slotID c) f ->
     fread m' (hctrl h') f = fread m (hctrl h) f) ->
  live m' h' c gs.
Proof.
  intros Hh Hh' Hc [H1 H2 H3 (s & Hok & Hreg)] Hu Hfr Hd Hf. split; [done|done|by rewrite Hf|].
  exists s. split.
  - destruct Hok as [E1 E2 E3 E4 E5]. split; [done| | |done|done].
    + eapply backed_kept; [apply Hh'|done|done].
    + by eapply published_frame.
  - destruct Hreg as (cid & off & rest & R1 & R2 & R3). exists cid, off, rest.
    split; [done|]. split; [done|].
    rewrite <- R3, (GetStripeHeader_field _ (wf_ctrl _ _ Hh)),
      (GetStripeHeader_field _ (wf_ctrl _ _ Hh')) by done. by rewrite Hf.
Qed.

(** The hub survives a change of the bitmap that keeps the control stripe. *)
Lemma with_bus_wf h gsc b' :
  hub_wf h gsc -> bus_wf b' -> (forall g, g ∈ gsc -> used b' g = true) -> hub_wf (with_bus h b') gsc.
Proof.
  intros [H1 [C1 C2 C3 C4] H3 H4] Hwf Hu. split; [done| |done|done]. split; [done| |done|done].
  cbn [hbus with_bus]. rewrite Forall_forall in *. intros g Hg. destruct (C2 g Hg) as [Hm _].
  split; [|by apply Hu]. apply used_managed; [done|unfold managed in Hm; lia|by apply Hu].
Qed.

(** With fewer connections than slots, a slot is idle. *)
Lemma idle_exists gsc st gss :
  ledger gsc st gss -> Z.of_nat (length (sconns st)) < MaxTotalSlots ->
  exists i, 1 <= i <= MaxTotalSlots /\
    fread (smem st) (hctrl (shub st)) (SStatus i) = StripeStatusIdle.
Proof.
  intros Hl Hlt. destruct (decide (Forall (fun i => i ∈ slotID <$> sconns st) (seqZ 1 MaxTotalSlots)))
    as [Hall|Hn].
  - exfalso. rewrite Forall_forall in Hall.
    assert (length (seqZ 1 MaxTotalSlots) <= length (slotID <$> sconns st))%nat as Hle.
    { apply submseteq_length, NoDup_submseteq; [apply NoDup_seqZ|exact Hall]. }
    rewrite length_seqZ, length_fmap in Hle. unfold_layout. lia.
  - apply not_Forall_Exists, Exists_exists in Hn as (i & Hi & Hni); [|apply _].
    apply elem_of_seqZ in Hi. exists i. split; [lia|]. apply (lg_idle _ _ _ Hl); [lia|done].
Qed.

(** The blocks of one connection among all of them. *)
Lemma concat_mid {A} (l1 : list (list A)) x l2 y : y ∈ concat (l1 ++ x :: l2) <->
  y ∈ x \/ y ∈ concat (l1 ++ l2).
Proof. rewrite !concat_app. cbn [concat]. rewrite !elem_of_app. tauto. Qed.

Lemma lives_kept m h gsc m' h' gsc' cs gss X :
  hub_wf h gsc -> hub_wf h' gsc' -> cstripe (hctrl h') = cstripe (hctrl h) ->
  Forall2 (live m h) cs gss -> (forall g, g ∈ concat gss -> used (hbus h') g = true) ->
  mem_frame (in_gs X) m m' -> (forall g, g ∈ concat gss -> g ∈ X -> False) ->
  (forall c f, c ∈ cs -> field_ok f -> slot_field (slotID c) f ->
     fread m' (hctrl h') f = fread m (hctrl h) f) ->
  Forall2 (live m' h') cs gss.
Proof.
  intros Hh Hh' Hc Hl. induction Hl as [|c gs cs gss Hl _ IH]; intros Hu Hfr Hd Hf; [done|].
  cbn [concat] in Hu, Hd. setoid_rewrite elem_of_app in Hu. setoid_rewrite elem_of_app in Hd.
  constructor.
  - apply (live_kept m h gsc m' h' gsc' c gs X); [done..| |done| |]; [by eauto|by eauto|].
    intros f Hok Hsf. apply (Hf c); [apply list_elem_of_here|done|done].
  - apply IH; [by eauto|done|by eauto|]. intros c' f Hc' Hok Hsf.
    apply (Hf c'); [by apply list_elem_of_further|done|done].
Qed.

(** What an operation on one connection leaves alone: the other connections
    stay open and keep their data. *)
Definition acted (st : sys) (o : op) : option Z :=
  match o with
  | ORequest _ _ => None
  | OWrite i _ | OClose i => slotID <$> sconns st !! i
  end.

Definition isolated (st : sys) (o : op) (st' : sys) : Prop :=
  forall c s, c ∈ sconns st -> cnStripe c = Some s -> acted st o <> Some (slotID c) ->
    c ∈ sconns st' /\ stripe_data (smem st') s = stripe_data (smem st) s.

(** A stripe of the ledger keeps its data when only other blocks are written. *)
Lemma data_kept gsc st gss c s X m' :
  ledger gsc st gss -> c ∈ sconns st -> cnStripe c = Some s -> mem_frame (in_gs X) (smem st) m' ->
  (forall gs, live (smem st) (shub st) c gs -> gs ∈ gss -> forall g, g ∈ gs -> g ∈ X -> False) ->
  stripe_data m' s = stripe_data (smem st) s.
Proof.
  intros Hl Hc Hs Hfr Hd. apply list_elem_of_lookup in Hc as [i Hi].
  destruct (Forall2_lookup_l _ _ _ _ _ (lg_live _ _ _ Hl) Hi) as (gs & Hgs & Hlv).
  pose proof (lv_conn _ _ _ _ Hlv) as (s' & Hok & _).
  assert (s' = s) as -> by (pose proof (co_stripe _ _ _ _ _ Hok); congruence).
  pose proof (co_backed _ _ _ _ _ Hok) as Hb.
  apply (data_bytes_frame (hbus (shub st)) s gs X); [apply (lg_hub _ _ _ Hl)|done| |done|apply Hb].
  apply (Hd gs Hlv). by eapply list_elem_of_lookup_2.
Qed.

Lemma ledger_pos gsc st gss g : ledger gsc st gss -> g ∈ gsc ++ concat gss -> 0 <= g.
Proof.
  intros Hl [Hg|Hg]%elem_of_app.
  - pose proof (cb_used _ _ _ (hw_ctrl _ _ (lg_hub _ _ _ Hl))) as Hu. rewrite Forall_forall in Hu.
    destruct (Hu g Hg) as [Hm _]. unfold managed in Hm. lia.
  - apply list_elem_of_In, in_concat in Hg as (gs & Hgs & Hg).
    apply list_elem_of_In, list_elem_of_lookup in Hgs as [i Hi].
    destruct (Forall2_lookup_r _ _ _ _ _ (lg_live _ _ _ Hl) Hi) as (c & _ & Hlv).
    destruct (lv_conn _ _ _ _ Hlv) as (s & Hok & _).
    pose proof (sb_used _ _ _ (co_backed _ _ _ _ _ Hok)) as Hu. rewrite Forall_forall in Hu.
    apply list_elem_of_In in Hg. destruct (Hu g Hg) as [Hm _]. unfold managed in Hm. lia.
Qed.

(** Blocks of the ledger are in use. *)
Lemma ledger_used gsc st gss g :
  ledger gsc st gss -> g ∈ gsc ++ concat gss -> used (hbus (shub st)) g = true.
Proof. intros Hl Hg. apply (lg_used _ _ _ Hl); [by eapply ledger_pos|done]. Qed.

Section operations.
Context (mk : Z -> option Chunk) `{!ChunkSource mk} (gsc : list Z).

(** A bus operation that changed nothing but, perhaps, the number of chunks. *)
Lemma ledger_bus m h cs gss b' :
  ledger gsc (mkSys m h cs) gss -> bus_wf b' ->
  (forall g, 0 <= g -> used b' g = used (hbus h) g) -> ledger gsc (mkSys m (with_bus h b') cs) gss.
Proof using Type.
  intros Hl Hwf Hsame. pose proof (lg_hub _ _ _ Hl) as Hh. cbn in Hh.
  assert (Hin : forall g, g ∈ gsc ++ concat gss -> used b' g = true).
  { intros g Hg. rewrite Hsame by (by eapply ledger_pos). by apply (ledger_used _ _ _ _ Hl). }
  assert (Hh' : hub_wf (with_bus h b') gsc).
  { apply with_bus_wf; [done|done|]. intros g Hg. apply Hin, elem_of_app. by left. }
  split; cbn; [done| |apply Hl| |apply Hl|apply Hl|apply Hl].
  - eapply (lives_kept m h gsc m (with_bus h b') gsc cs gss []); try done.
    + apply Hl.
    + intros g Hg. apply Hin, elem_of_app. by right.
    + intros g _ Hg. by apply not_elem_of_nil in Hg.
  - intros g Hg. rewrite Hsame by done. by apply (lg_used _ _ _ Hl).
Qed.

(** A new connection enters the books. *)
Lemma ledger_open m h cs gss m' h' c gs s :
  ledger gsc (mkSys m h cs) gss -> hub_wf h' gsc -> cstripe (hctrl h') = cstripe (hctrl h) ->
  conn_ok m' (hbus h') c s gs -> 0 <= writeOff c -> claimed (hbus h) (hbus h') gs ->
  1 <= slotID c <= MaxTotalSlots -> fread m (hctrl h) (SStatus (slotID c)) = StripeStatusIdle ->
  fread m' (hctrl h') (SStatus (slotID c)) <> StripeStatusIdle ->
  registered m' (hctrl h') (slotID c) s ->
  (forall f, field_ok f -> ~ slot_field (slotID c) f ->
     fread m' (hctrl h') f = fread m (hctrl h) f) ->
  limit h' = limit h + 1 -> mem_frame (in_gs (gsc ++ gs)) m m' ->
  ledger gsc (mkSys m' h' (c :: cs)) (gs :: gss).
Proof using Type.
  intros Hl Hh' Hcs Hok Hoff Hcl Hsl Hidle Hbusy Hreg Hoth Hlim Hfr.
  assert (Hfree : forall g, g ∈ gs -> g ∈ gsc ++ concat gss -> False).
  { intros g Hg Hg'. pose proof (ledger_used _ _ _ _ Hl Hg') as Hu. cbn in Hu.
    pose proof (cl_free _ _ _ Hcl) as Hf. rewrite Forall_forall in Hf.
    destruct (Hf g Hg) as [_ Hf']. congruence. }
  assert (Hnew : forall c', c' ∈ cs -> slotID c' <> slotID c).
  { intros c' Hc' Heq. apply list_elem_of_lookup in Hc' as [i Hi].
    destruct (Forall2_lookup_l _ _ _ _ _ (lg_live _ _ _ Hl) Hi) as (gs' & _ & Hlv).
    apply (lv_busy _ _ _ _ Hlv). cbn. by rewrite Heq. }
  pose proof (lg_disjoint _ _ _ Hl) as Hnd. apply NoDup_app in Hnd as (Hn1 & Hn2 & Hn3).
  split; cbn [smem shub sconns]; [done| | | | | |].
  - constructor; [split; [done|done|done|by exists s]|].
    eapply (lives_kept m h gsc m' h' gsc cs gss (gsc ++ gs)); try done.
    + apply Hl.
    + apply Hl.
    + intros g Hg. assert (Hg' : g ∈ gsc ++ concat gss) by (apply elem_of_app; by right).
      rewrite (cl_used _ _ _ Hcl) by (by eapply ledger_pos).
      pose proof (ledger_used _ _ _ _ Hl Hg') as Hu. cbn in Hu. by rewrite Hu.
    + intros g Hg [Hc|Hc]%elem_of_app; [by apply (Hn2 g)|].
      apply (Hfree g Hc), elem_of_app. by right.
    + intros c' f Hc' Hf Hsf. apply Hoth; [done|]. intros Hsf'. apply (Hnew c' Hc').
      destruct f; simpl in *; (done || congruence).
  - cbn [concat]. rewrite !NoDup_app. split_and!; [done| |exact (sb_nodup _ _ _ (co_backed _ _ _ _ _ Hok))| |done].
    + intros g Hg [Hg'|Hg']%elem_of_app; [|by apply (Hn2 g)].
      apply (Hfree g Hg'), elem_of_app. by left.
    + intros g Hg Hg'. apply (Hfree g Hg), elem_of_app. by right.
  - intros g Hg. rewrite (cl_used _ _ _ Hcl) by done. cbn [concat].
    pose proof (lg_used _ _ _ Hl g Hg) as Hu. cbn in Hu.
    rewrite orb_true_iff, Hu, bool_decide_eq_true, !elem_of_app. tauto.
  - cbn [fmap list_fmap]. constructor; [|apply Hl].
    intros (c' & Heq & Hc')%list_elem_of_fmap. by apply (Hnew c' Hc').
  - pose proof (lg_limit _ _ _ Hl) as Hll. cbn in Hll |- *. lia.
  - intros i Hi Hni. cbn [fmap list_fmap] in Hni. apply not_elem_of_cons in Hni as [Hne Hni].
    rewrite Hoth; [by apply (lg_idle _ _ _ Hl)|done|]. simpl. congruence.
Qed.

Lemma step_request st gss bc ch :
  ledger gsc st gss -> op_ok st (ORequest bc ch) ->
  exists st' gss', exec mk st (ORequest bc ch) = Ret st' /\ ledger gsc st' gss' /\
    isolated st (ORequest bc ch) st'.
Proof using ChunkSource0.
  intros Hl [Hbc Hlt]. pose proof (lg_hub _ _ _ Hl) as Hh.
  pose proof (idle_exists _ _ _ Hl Hlt) as Hidle. pose proof (lg_limit _ _ _ Hl) as Hlim.
  destruct (Request_spec mk (smem st) (shub st) gsc bc ch Hh ltac:(lia) Hbc Hidle)
    as (m' & h' & r & E & Hr).
  destruct st as [m h cs]. cbn [smem shub sconns] in *. unfold exec. rewrite E, bind_ret.
  destruct r as [e|c].
  - destruct Hr as (-> & -> & Hwf & Hsame & _). cbn [hbus with_bus] in *.
    eexists _, gss. split; [reflexivity|]. split; [by apply ledger_bus|].
    by intros c s Hc _ _.
  - destruct Hr as (s & gs & slot & -> & Hh' & Hok & _ & Hcl & _ & Hsl & Hid & Hst & Hreg & Hoth
      & Hlm & Hcs & Hfr).
    rewrite (GetStripeStatus_field _ (wf_ctrl _ _ Hh')) in Hst by done. injection Hst as Hst.
    eexists _, (gs :: gss). split; [reflexivity|]. split.
    + eapply ledger_open; try done. cbn [slotID]. by rewrite Hst.
    + intros c s' Hc Hs' _. split; [by apply list_elem_of_further|].
      apply (data_kept gsc (mkSys m h cs) gss c s' (gsc ++ gs)); [done..|].
      intros gs' _ Hgs' g Hg Hg'.
      assert (Hin : g ∈ concat gss).
      { apply list_elem_of_In, in_concat. exists gs'. by rewrite <- !list_elem_of_In. }
      pose proof (lg_disjoint _ _ _ Hl) as Hnd. apply NoDup_app in Hnd as (_ & Hn2 & _).
      apply elem_of_app in Hg' as [Hg'|Hg']; [by apply (Hn2 g)|].
      pose proof (cl_free _ _ _ Hcl) as Hf. rewrite Forall_forall in Hf.
      destruct (Hf g Hg') as [_ Hf'].
      pose proof (ledger_used _ _ _ g Hl) as Hu. cbn in Hu.
      rewrite Hu in Hf'; [done|]. apply elem_of_app. by right.
Qed.

(** The books around the connection in place [i]. *)
Lemma ledger_split m h cs gss i c :
  ledger gsc (mkSys m h cs) gss -> cs !! i = Some c ->
  exists cs1 cs2 gs gss1 gss2, cs = cs1 ++ c :: cs2 /\ i = length cs1 /\
    gss = gss1 ++ gs :: gss2 /\ live m h c gs /\
    Forall2 (live m h) cs1 gss1 /\ Forall2 (live m h) cs2 gss2 /\
    (forall g, g ∈ gs -> g ∈ gsc ++ concat (gss1 ++ gss2) -> False) /\
    (forall c', c' ∈ cs1 ++ cs2 -> slotID c' <> slotID c).
Proof using Type.
  intros Hl (cs1 & cs2 & -> & ->)%list_elem_of_split_length.
  pose proof (lg_live _ _ _ Hl) as Hlv. cbn in Hlv.
  apply Forall2_app_inv_l in Hlv as (gss1 & gss' & Hl1 & Hl2 & ->).
  apply Forall2_cons_inv_l in Hl2 as (gs & gss2 & Hc & Hl2 & ->).
  exists cs1, cs2, gs, gss1, gss2. split_and!; try done.
  - pose proof (lg_disjoint _ _ _ Hl) as Hnd. apply NoDup_app in Hnd as (_ & Hn2 & Hn3).
    rewrite concat_app in Hn2, Hn3. cbn [concat] in Hn2, Hn3.
    apply NoDup_app in Hn3 as (_ & Hn4 & Hn5). apply NoDup_app in Hn5 as (_ & Hn6 & _).
    intros g Hg. rewrite concat_app, !elem_of_app. intros [Hg'|[Hg'|Hg']].
    + apply (Hn2 g Hg'). rewrite !elem_of_app. auto.
    + apply (Hn4 g Hg'). rewrite elem_of_app. auto.
    + by apply (Hn6 g).
  - pose proof (lg_slots _ _ _ Hl) as Hs. cbn in Hs. rewrite fmap_app in Hs. cbn in Hs.
    apply NoDup_app in Hs as (_ & Hs2 & [Hs3 _]%NoDup_cons).
    intros c' [Hc'|Hc']%elem_of_app Heq.
    + apply (Hs2 (slotID c')); [by apply list_elem_of_fmap_2|]. rewrite Heq. apply list_elem_of_here.
    + apply Hs3. rewrite <- Heq. by apply list_elem_of_fmap_2.
Qed.

(** Every connection but the one acted on is among the rest. *)
Lemma isolated_rest m h cs1 c cs2 m' (cs' : list busConn) gss X :
  ledger gsc (mkSys m h (cs1 ++ c :: cs2)) gss -> mem_frame (in_gs X) m m' ->
  (forall c1 gs, c1 ∈ cs1 ++ cs2 -> live m h c1 gs -> gs ∈ gss -> forall g, g ∈ gs -> g ∈ X -> False) ->
  (forall c1, c1 ∈ cs1 ++ cs2 -> c1 ∈ cs') ->
  forall c1 s, c1 ∈ cs1 ++ c :: cs2 -> cnStripe c1 = Some s -> slotID c <> slotID c1 ->
    c1 ∈ cs' /\ stripe_data m' s = stripe_data m s.
Proof using Type.
  intros Hl Hfr Hd Hcs' c1 s Hc1 Hs Hne.
  assert (Hrest : c1 ∈ cs1 ++ cs2).
  { rewrite elem_of_app, elem_of_cons in Hc1. rewrite elem_of_app.
    destruct Hc1 as [|[->|]]; [by left|done|by right]. }
  split; [by apply Hcs'|].
  apply (data_kept gsc (mkSys m h (cs1 ++ c :: cs2)) gss c1 s X); [done..|].
  intros gs Hlv Hgs. by apply (Hd c1 gs).
Qed.

(** Blocks of a connection of the rest are blocks of the rest: the lists of
    two connections that overlap are the same list. *)
Lemma blocks_rest m h cs1 c cs2 gss1 gs gss2 c1 gs1 g :
  ledger gsc (mkSys m h (cs1 ++ c :: cs2)) (gss1 ++ gs :: gss2) ->
  length cs1 = length gss1 -> (forall c', c' ∈ cs1 ++ cs2 -> slotID c' <> slotID c) ->
  c1 ∈ cs1 ++ cs2 -> live m h c1 gs1 -> g ∈ gs1 -> g ∈ concat (gss1 ++ gss2).
Proof using Type.
  intros Hl Hlen Hsl Hc1 Hlv Hg.
  assert (Hlr : Forall2 (live m h) (cs1 ++ cs2) (gss1 ++ gss2)).
  { pose proof (lg_live _ _ _ Hl) as Hall. cbn in Hall.
    apply Forall2_app_inv in Hall as [Ha Hb]; [|done]. apply Forall2_cons in Hb as [_ Hb].
    by apply Forall2_app. }
  apply list_elem_of_lookup in Hc1 as [i Hi].
  destruct (Forall2_lookup_l _ _ _ _ _ Hlr Hi) as (gs2 & Hgs2 & Hlv2).
  assert (gs1 = gs2) as ->.
  { destruct (lv_conn _ _ _ _ Hlv) as (s1 & Hok1 & _), (lv_conn _ _ _ _ Hlv2) as (s2 & Hok2 & _).
    pose proof (co_stripe _ _ _ _ _ Hok1). pose proof (co_stripe _ _ _ _ _ Hok2).
    assert (s2 = s1) as -> by congruence.
    apply (list_fmap_eq_inj blk_slice); [intros x y [= Hxy]; unfold_layout; lia|].
    by rewrite <- (sb_blocks _ _ _ (co_backed _ _ _ _ _ Hok1)),
               <- (sb_blocks _ _ _ (co_backed _ _ _ _ _ Hok2)). }
  apply list_elem_of_In, in_concat. exists gs2. rewrite <- !list_elem_of_In.
  split; [by eapply list_elem_of_lookup_2|done].
Qed.

(** The rest of the books when one connection's blocks are taken out. *)
Lemma rest_in m h cs1 c cs2 gss1 gs gss2 g :
  ledger gsc (mkSys m h (cs1 ++ c :: cs2)) (gss1 ++ gs :: gss2) ->
  g ∈ gsc ++ concat (gss1 ++ gss2) -> used (hbus h) g = true /\ 0 <= g.
Proof using Type.
  intros Hl Hg. assert (Hg' : g ∈ gsc ++ concat (gss1 ++ gs :: gss2)).
  { rewrite elem_of_app, concat_mid. rewrite elem_of_app in Hg. tauto. }
  split; [by apply (ledger_used _ _ _ _ Hl)|by eapply ledger_pos].
Qed.

Lemma rest_apart m h cs1 c cs2 gss1 gs gss2 g :
  ledger gsc (mkSys m h (cs1 ++ c :: cs2)) (gss1 ++ gs :: gss2) ->
  g ∈ concat (gss1 ++ gss2) -> g ∈ gsc -> False.
Proof using Type.
  intros Hl Hg Hg'. pose proof (lg_disjoint _ _ _ Hl) as Hnd.
  apply NoDup_app in Hnd as (_ & Hn2 & _). apply (Hn2 g Hg'), concat_mid. by right.
Qed.

(** A connection leaves the books. *)
Lemma ledger_close m h cs1 c cs2 gss1 gs gss2 m' h' :
  ledger gsc (mkSys m h (cs1 ++ c :: cs2)) (gss1 ++ gs :: gss2) -> hub_wf h' gsc ->
  Forall2 (live m h) cs1 gss1 -> Forall2 (live m h) cs2 gss2 ->
  (forall g, g ∈ gs -> g ∈ gsc ++ concat (gss1 ++ gss2) -> False) ->
  (forall c', c' ∈ cs1 ++ cs2 -> slotID c' <> slotID c) ->
  released (hbus h) (hbus h') gs -> hctrl h' = hctrl h -> limit h' = Z.max 0 (limit h - 1) ->
  fread m' (hctrl h) (SStatus (slotID c)) = StripeStatusIdle ->
  (forall f, field_ok f -> f <> SStatus (slotID c) ->
     fread m' (hctrl h) f = fread m (hctrl h) f) ->
  mem_frame (in_gs gsc) m m' -> ledger gsc (mkSys m' h' (cs1 ++ cs2)) (gss1 ++ gss2).
Proof using Type.
  intros Hl Hh' Hl1 Hl2 Hdis Hslots Hrel Hctl Hlm Hidle Hoth Hfr.
  pose proof (lg_disjoint _ _ _ Hl) as Hnd. pose proof (lg_slots _ _ _ Hl) as Hns. cbn in Hns.
  pose proof (lg_hub _ _ _ Hl) as Hh. cbn in Hh.
  split; cbn [smem shub sconns]; [done| | | | | |].
  - eapply (lives_kept m h gsc m' h' gsc _ _ gsc); try done; [by rewrite Hctl| | | |].
    + by apply Forall2_app.
    + intros g Hg. destruct (rest_in m h cs1 c cs2 gss1 gs gss2 g Hl) as [Hu Hp];
        [apply elem_of_app; by right|].
      rewrite (rel_used _ _ _ Hrel), Hu, bool_decide_eq_false_2 by
        (done || (intros Hg'; apply (Hdis g Hg'), elem_of_app; by right)). done.
    + intros g. by eapply rest_apart.
    + intros c1 f Hc1 Hf Hsf. rewrite Hctl. apply Hoth; [done|]. intros ->. simpl in Hsf.
      by apply (Hslots c1 Hc1).
  - eapply sublist_NoDup; [exact Hnd|]. rewrite !concat_app. cbn [concat].
    apply sublist_app; [done|]. apply sublist_app; [done|]. by apply sublist_inserts_l.
  - intros g Hg. rewrite (rel_used _ _ _ Hrel), andb_true_iff, negb_true_iff by done.
    pose proof (lg_used _ _ _ Hl g Hg) as Hu. cbn in Hu.
    rewrite Hu, bool_decide_eq_false, !elem_of_app, concat_mid.
    pose proof (Hdis g) as Hdg. rewrite elem_of_app in Hdg. tauto.
  - rewrite fmap_app in *. cbn in Hns. eapply sublist_NoDup; [exact Hns|].
    apply sublist_app; [done|]. by apply sublist_cons.
  - rewrite Hlm. pose proof (lg_limit _ _ _ Hl) as Hll. cbn in Hll. rewrite length_app in *.
    cbn in Hll. lia.
  - intros j Hj Hnj. rewrite Hctl. destruct (decide (j = slotID c)) as [->|Hne]; [done|].
    rewrite Hoth by (done || congruence). apply (lg_idle _ _ _ Hl); [done|]. cbn.
    rewrite fmap_app in *. cbn. rewrite elem_of_app, elem_of_cons. rewrite elem_of_app in Hnj. tauto.
Qed.

Lemma step_close st gss i :
  ledger gsc st gss -> exists st' gss', exec mk st (OClose i) = Ret st' /\
    ledger gsc st' gss' /\ isolated st (OClose i) st'.
Proof using Type.
  intros Hl. destruct st as [m h cs]. unfold exec. destruct (cs !! i) as [c|] eqn:Hi.
  2: { exists (mkSys m h cs), gss. split; [done|]. split; [done|]. by intros c s Hc _ _. }
  destruct (ledger_split m h cs gss i c Hl Hi)
    as (cs1 & cs2 & gs & gss1 & gss2 & -> & -> & -> & Hlv & Hl1 & Hl2 & Hdis & Hslots).
  pose proof Hlv as [Hsl _ _ (s & Hok & _)]. pose proof (lg_hub _ _ _ Hl) as Hh. cbn in Hh.
  destruct (Close_spec m h gsc c s gs Hh Hok) as (m' & h' & c' & E & _ & Hh' & Hrel & Hctl & Hlm
    & Hidle & Hoth & Hfr); [|done|].
  { intros g Hg Hg'. apply (Hdis g Hg), elem_of_app. by left. }
  rewrite E, bind_ret. eexists _, (gss1 ++ gss2). split; [reflexivity|].
  rewrite delete_middle. split; [by eapply ledger_close|].
  intros c1 s1 Hc1 Hs1 Hne. cbn in Hne. rewrite list_lookup_middle in Hne by done. cbn in Hne.
  refine (isolated_rest m h cs1 c cs2 m' _ _ gsc Hl Hfr _ _ c1 s1 Hc1 Hs1 _); [|done|congruence].
  intros c2 gs2 Hc2 Hlv2 _ g Hg. eapply rest_apart; [exact Hl|].
  by eapply blocks_rest; [exact Hl|by eapply Forall2_length|exact Hslots|..].
Qed.

End operations.

(** ** A connection grows *)
Section growth.
Context (gsc : list Z) (m : mem) (h : Hub) (cs1 cs2 : list busConn) (c : busConn).
Context (gss1 gss2 : list (list Z)) (gs : list Z) (m' : mem) (b' : Bus) (c' : busConn).
Context (s s' : Stripe) (gs' : list Z).
Context (Hl : ledger gsc (mkSys m h (cs1 ++ c :: cs2)) (gss1 ++ gs :: gss2)).
Context (Hwf : bus_wf b') (Hlv : live m h c gs) (Hreg : registered m (hctrl h) (slotID c) s).
Context (Hl1 : Forall2 (live m h) cs1 gss1) (Hl2 : Forall2 (live m h) cs2 gss2).
Context (Hdis : forall g, g ∈ gs -> g ∈ gsc ++ concat (gss1 ++ gss2) -> False).
Context (Hok' : conn_ok m' b' c' s' (gs ++ gs')) (Htk : took m (hbus h) s gs m' b' s' gs').
Context (Hoff : 0 <= writeOff c') (Hsl : slotID c' = slotID c).

Lemma gr_free g : g ∈ gs' -> g ∈ gsc ++ concat (gss1 ++ gs :: gss2) -> False.
Proof using Hl Htk.
  intros Hg Hg'. pose proof (ledger_used _ _ _ _ Hl Hg') as Hu. cbn in Hu.
  by rewrite (tk_free _ _ _ _ _ _ _ _ Htk g Hg) in Hu.
Qed.

Lemma gr_apart g : g ∈ gs ++ gs' -> g ∈ gsc ++ concat (gss1 ++ gss2) -> False.
Proof using Hl Htk Hdis.
  intros [Hg|Hg]%elem_of_app Hg'; [by apply (Hdis g)|]. apply (gr_free g Hg).
  rewrite elem_of_app, concat_mid. rewrite elem_of_app in Hg'. tauto.
Qed.

Lemma gr_used g : g ∈ gsc ++ concat (gss1 ++ gss2) -> used b' g = true.
Proof using Hl Htk.
  intros Hg. destruct (rest_in _ m h cs1 c cs2 gss1 gs gss2 g Hl Hg) as [Hu Hp].
  by rewrite (tk_used _ _ _ _ _ _ _ _ Htk), Hu.
Qed.

Lemma gr_hub : hub_wf (with_bus h b') gsc.
Proof using Hl Htk Hwf.
  apply with_bus_wf; [exact (lg_hub _ _ _ Hl)|done|]. intros g Hg. apply gr_used, elem_of_app. by left.
Qed.

Lemma gr_field f : field_ok f -> fread m' (hctrl h) f = fread m (hctrl h) f.
Proof using Hl Htk Hdis.
  intros Hf. pose proof (lg_hub _ _ _ Hl) as Hh. cbn in Hh.
  eapply (ctrl_untouched (hbus h)); [apply Hh|apply Hh| |exact (tk_frame _ _ _ _ _ _ _ _ Htk)|done].
  intros g Hg Hg'. apply (gr_apart g Hg), elem_of_app. by left.
Qed.

Lemma gr_rest : Forall2 (live m' (with_bus h b')) (cs1 ++ cs2) (gss1 ++ gss2).
Proof using Hl Htk Hdis Hwf Hl1 Hl2.
  apply (lives_kept m h gsc m' (with_bus h b') gsc _ _ (gs ++ gs'));
    [exact (lg_hub _ _ _ Hl)|exact gr_hub|done|by apply Forall2_app| |apply Htk| |].
  - intros g Hg. apply gr_used, elem_of_app. by right.
  - intros g Hg Hg'. apply (gr_apart g Hg'), elem_of_app. by right.
  - intros c1 f _ Hf _. by apply gr_field.
Qed.

Lemma gr_live : live m' (with_bus h b') c' (gs ++ gs').
Proof using Hl Htk Hdis Hlv Hreg Hok' Hoff Hsl.
  destruct Hlv as [H1 H2 H3 _]. split; cbn [hctrl with_bus]; rewrite ?Hsl.
  - done.
  - done.
  - by rewrite gr_field.
  - exists s'. split; [done|]. destruct Hreg as (cid & off & rest & R1 & R2 & R3).
    destruct (tk_seq _ _ _ _ _ _ _ _ Htk) as (ext & Hext). exists cid, off, (rest ++ ext).
    split; [by rewrite Hext, R1|]. split; [done|].
    pose proof (wf_ctrl _ _ (lg_hub _ _ _ Hl)) as Hc. cbn in Hc.
    rewrite <- R3, !(GetStripeHeader_field _ Hc) by done. by rewrite gr_field.
Qed.

Lemma ledger_grow :
  ledger gsc (mkSys m' (with_bus h b') (cs1 ++ c' :: cs2)) (gss1 ++ (gs ++ gs') :: gss2).
Proof using All.
  pose proof gr_rest as Hr. apply Forall2_app_inv in Hr as [Hr1 Hr2]; [|by eapply Forall2_length].
  assert (Hperm : gsc ++ concat (gss1 ++ (gs ++ gs') :: gss2) ≡ₚ
                  gs' ++ gsc ++ concat (gss1 ++ gs :: gss2))
    by (rewrite !concat_app; cbn [concat]; solve_Permutation).
  split; cbn [smem shub sconns].
  - exact gr_hub.
  - apply Forall2_app; [done|]. constructor; [exact gr_live|done].
  - rewrite Hperm. apply NoDup_app. split_and!; [|exact gr_free|apply Hl].
    pose proof (sb_nodup _ _ _ (co_backed _ _ _ _ _ Hok')) as Hnd.
    by apply NoDup_app in Hnd as (_ & _ & Hnd).
  - intros g Hg. rewrite Hperm. cbn [hbus with_bus].
    rewrite (tk_used _ _ _ _ _ _ _ _ Htk), orb_true_iff, bool_decide_eq_true by done.
    pose proof (lg_used _ _ _ Hl g Hg) as Hu. cbn in Hu. rewrite Hu, (elem_of_app gs'). tauto.
  - pose proof (lg_slots _ _ _ Hl) as Hs. cbn in Hs. rewrite fmap_app in *. cbn in *. by rewrite Hsl.
  - pose proof (lg_limit _ _ _ Hl) as Hlm. cbn in Hlm. rewrite length_app in *. done.
  - intros i Hi Hni. cbn [hctrl with_bus]. rewrite gr_field by done.
    apply (lg_idle _ _ _ Hl); [done|]. cbn. rewrite fmap_app in *. cbn in *. by rewrite Hsl in Hni.
Qed.
End growth.

Section steps.
Context (mk : Z -> option Chunk) `{!ChunkSource mk} (gsc : list Z).

Lemma step_write st gss i data :
  ledger gsc st gss -> op_ok st (OWrite i data) ->
  exists st' gss', exec mk st (OWrite i data) = Ret st' /\ ledger gsc st' gss' /\
    isolated st (OWrite i data) st'.
Proof using ChunkSource0.
  intros Hl Hok. destruct st as [m h cs]. unfold exec. destruct (cs !! i) as [c|] eqn:Hi.
  2: { exists (mkSys m h cs), gss. split; [done|]. split; [done|]. by intros c s Hc _ _. }
  specialize (Hok c Hi).
  destruct (ledger_split gsc m h cs gss i c Hl Hi)
    as (cs1 & cs2 & gs & gss1 & gss2 & -> & -> & -> & Hlv & Hl1 & Hl2 & Hdis & Hslots).
  pose proof Hlv as [Hsl Hoff _ (s & Hcok & Hreg)].
  pose proof (hw_bus _ _ (lg_hub _ _ _ Hl)) as Hwf. cbn in Hwf.
  destruct (conn_Write_spec mk m (hbus h) c s gs data Hwf Hcok Hoff Hok)
    as (m' & b' & c' & n & err & E & Hwf' & Hr). rewrite E, bind_ret. destruct err as [e|].
  - destruct Hr as (-> & -> & Hsame). eexists _, _. split; [reflexivity|].
    rewrite list_insert_id by done. split; [by apply ledger_bus|]. by intros c1 s1 Hc1 _ _.
  - destruct Hr as (s' & gs' & Hok' & Htk & Hoff' & Hsl').
    eexists _, (gss1 ++ (gs ++ gs') :: gss2). split; [reflexivity|].
    rewrite (insert_app_r_alt cs1 _ (length cs1)), Nat.sub_diag by done. cbn [insert list_insert].
    split; [by eapply ledger_grow; [..|lia|]|].
    intros c1 s1 Hc1 Hs1 Hne. cbn in Hne. rewrite list_lookup_middle in Hne by done. cbn in Hne.
    refine (isolated_rest gsc m h cs1 c cs2 m' _ _ (gs ++ gs') Hl _ _ _ c1 s1 Hc1 Hs1 _);
      [apply Htk| | |congruence].
    + intros c2 gs2 Hc2 Hlv2 _ g Hg Hg'.
      eapply (gr_apart gsc m h cs1 cs2 c gss1 gss2 gs); [exact Hl|exact Hdis|exact Htk|exact Hg'|].
      apply elem_of_app. right.
      by eapply blocks_rest; [exact Hl|by eapply Forall2_length|exact Hslots|..].
    + intros c2 Hc2. cbn. rewrite elem_of_app, elem_of_cons. rewrite elem_of_app in Hc2. tauto.
Qed.

Lemma ledger_step st gss o :
  ledger gsc st gss -> op_ok st o ->
  exists st' gss', exec mk st o = Ret st' /\ ledger gsc st' gss' /\ isolated st o st'.
Proof using ChunkSource0.
  intros Hl Hok. destruct o as [bc ch|i data|i].
  - by eapply step_request.
  - by eapply step_write.
  - by eapply step_close.
Qed.

Lemma ledger_reach st gss st' :
  ledger gsc st gss -> rtc (lstep mk) st st' -> exists gss', ledger gsc st' gss'.
Proof using ChunkSource0.
  intros Hl Hr. revert gss Hl. induction Hr as [st|st st1 st' (o & Hok & E) _ IH]; intros gss Hl.
  - by exists gss.
  - destruct (ledger_step st gss o Hl Hok) as (st2 & gss2 & E2 & Hl2 & _).
    rewrite E in E2. injection E2 as <-. by apply (IH gss2).
Qed.
End steps.

(** A new hub has an empty ledger. *)
Lemma ledger_new mk c0 :
  CData c0 = Slice 0 ChunkSize ->
  exists m h gsc, NewHub mk ∅ (Some c0) true = Ret (m, inr h) /\ ledger gsc (mkSys m h []) [].
Proof.
  intros Hc0. destruct (NewHub_spec mk c0 Hc0) as (m & h & gsc & E & Hh & Hu & _ & Hidle & _ & _ & Hlim & _).
  exists m, h, gsc. split; [exact E|]. split; cbn; [done|constructor| | |constructor|done|].
  - rewrite app_nil_r. apply (cb_nodup _ _ _ (hw_ctrl _ _ Hh)).
  - intros g Hg. rewrite app_nil_r, Hu by done. apply bool_decide_eq_true.
  - intros i Hi _. specialize (Hidle i Hi).
    rewrite (GetStripeStatus_field _ (wf_ctrl _ _ Hh)) in Hidle by done. by injection Hidle.
Qed.

(** ** Theorems *)

(** C7: The hub's books always balance.  After any sequence of requests,
    writes and closes on a new hub, the control stripe and the open
    connections own pairwise disjoint sets of blocks, and the bitmap marks
    exactly those blocks as used: none is owned twice and none is lost.  Every
    open connection has a slot of its own that points at its stripe, all other
    slots are idle, and one limit token is taken per connection.  In every
    such state every further call of legal size returns. *)
Theorem ledger_balances mk c0 m h st :
  ChunkSource mk -> CData c0 = Slice 0 ChunkSize -> NewHub mk ∅ (Some c0) true = Ret (m, inr h) ->
  rtc (lstep mk) (mkSys m h []) st ->
  (exists gsc gss, ledger gsc st gss) /\ forall o, op_ok st o -> exists st', exec mk st o = Ret st'.
Proof.
  intros Hmk Hc0 E Hr. destruct (ledger_new mk c0 Hc0) as (m0 & h0 & gsc & E0 & Hl0).
  rewrite E in E0. injection E0 as <- <-.
  destruct (ledger_reach mk gsc _ _ st Hl0 Hr) as (gss & Hl). split; [by exists gsc, gss|].
  intros o Hok. destruct (ledger_step mk gsc st gss o Hl Hok) as (st' & _ & Es & _). by exists st'.
Qed.

Lemma ledger_balances_witness :
  exists m h st, NewHub demo_mk ∅ (Some (mkChunk (Slice 0 ChunkSize) 10)) true = Ret (m, inr h) /\
    exec demo_mk (mkSys m h []) (ORequest 3 5) = Ret st /\ (exists gsc gss, ledger gsc st gss) /\
    exists st', exec demo_mk st (OClose 0) = Ret st'.
Proof.
  destruct (ledger_new demo_mk (mkChunk (Slice 0 ChunkSize) 10) eq_refl) as (m & h & gsc & E & Hl).
  assert (Hok : op_ok (mkSys m h []) (ORequest 3 5)) by (cbn; unfold_layout; lia).
  destruct (ledger_step demo_mk gsc _ _ _ Hl Hok) as (st & gss & Es & _).
  destruct (ledger_balances demo_mk (mkChunk (Slice 0 ChunkSize) 10) m h st
    demo_mk_source eq_refl E) as [Hled Hprog].
  - apply rtc_once. exists (ORequest 3 5). split; [exact Hok|exact Es].
  - exists m, h, st. split; [exact E|]. split; [exact Es|]. split; [exact Hled|].
    apply (Hprog (OClose 0)). exact I.
Defined.

(** C16: Connections do not disturb each other.  In any state a new hub can
    reach, a request, a write through one connection or the close of one
    leaves every other connection open and its data as it was. *)
Theorem connections_isolated mk c0 m h st o st' c s :
  ChunkSource mk -> CData c0 = Slice 0 ChunkSize -> NewHub mk ∅ (Some c0) true = Ret (m, inr h) ->
  rtc (lstep mk) (mkSys m h []) st -> op_ok st o -> exec mk st o = Ret st' ->
  c ∈ sconns st -> cnStripe c = Some s -> acted st o <> Some (slotID c) ->
  c ∈ sconns st' /\ stripe_data (smem st') s = stripe_data (smem st) s.
Proof.
  intros Hmk Hc0 E Hr Hok Es Hc Hs Ha. destruct (ledger_new mk c0 Hc0) as (m0 & h0 & gsc & E0 & Hl0).
  rewrite E in E0. injection E0 as <- <-.
  destruct (ledger_reach mk gsc _ _ st Hl0 Hr) as (gss & Hl).
  destruct (ledger_step mk gsc st gss o Hl Hok) as (st2 & _ & Es2 & _ & Hiso).
  rewrite Es in Es2. injection Es2 as <-. by apply Hiso.
Qed.

Lemma connections_isolated_witness :
  exists m h st st' c s, NewHub demo_mk ∅ (Some (mkChunk (Slice 0 ChunkSize) 10)) true = Ret (m, inr h) /\
    exec demo_mk (mkSys m h []) (ORequest 3 5) = Ret st /\
    exec demo_mk st (ORequest 1 6) = Ret st' /\ c ∈ sconns st /\ c ∈ sconns st' /\
    stripe_data (smem st') s = stripe_data (smem st) s.
Proof.
  destruct (ledger_new demo_mk (mkChunk (Slice 0 ChunkSize) 10) eq_refl) as (m & h & gsc & E & Hl).
  assert (Hv : (x ← NewHub demo_mk ∅ (Some (mkChunk (Slice 0 ChunkSize) 10)) true;
      match x with
      | (m, inr h) => st ← exec demo_mk (mkSys m h []) (ORequest 3 5); Ret (length (sconns st))
      | _ => Ret 0%nat
      end) = Ret 1%nat) by (vm_compute; reflexivity).
  assert (Hok : op_ok (mkSys m h []) (ORequest 3 5)) by (cbn; unfold_layout; lia).
  destruct (ledger_step demo_mk gsc _ _ _ Hl Hok) as (st & gss & Es & Hl1 & _).
  rewrite E, bind_ret, Es, bind_ret in Hv. injection Hv as Hlen.
  destruct (sconns st) as [|c [|? ?]] eqn:Ec; try discriminate Hlen.
  assert (Hok2 : op_ok st (ORequest 1 6)) by (cbn; rewrite Ec; cbn; unfold_layout; lia).
  destruct (ledger_step demo_mk gsc st gss _ Hl1 Hok2) as (st' & _ & Es' & _).
  assert (Hc : c ∈ sconns st) by (rewrite Ec; apply list_elem_of_here).
  assert (Hs : exists s, cnStripe c = Some s).
  { pose proof (lg_live _ _ _ Hl1) as Hlv. rewrite Ec in Hlv.
    inversion Hlv as [|? gs ? ? [_ _ _ (s & [Hst _ _ _ _] & _)] _]. by exists s. }
  destruct Hs as (s & Hs). exists m, h, st, st', c, s.
  split; [exact E|]. split; [exact Es|]. split; [exact Es'|]. split; [exact Hc|].
  apply (connections_isolated demo_mk (mkChunk (Slice 0 ChunkSize) 10) m h st (ORequest 1 6) st' c s).
  - exact demo_mk_source.
  - reflexivity.
  - exact E.
  - apply rtc_once. exists (ORequest 3 5). split; [exact Hok|exact Es].
  - exact Hok2.
  - exact Es'.
  - exact Hc.
  - exact Hs.
  - discriminate.
Defined.
