(* ===== verification/System.v ===== *)
(** * One exchange between hub and node

    [busConn.Next] of go/hub/conn.go against the event loop of
    go/node/node.go: the hub hands a slot to the node through the shared
    control stripe, the node's handler works on the stripe, and the response
    wakes the connection, which takes over what the node left.  The exchange
    is the schedule in which each side runs when the other waits. *)
From stdpp Require Import base tactics list numbers option gmap strings.
From Stdlib Require Import ZArith Lia.
From S2P Require Import Prelude Memory Layout Protocol Stripe Bus Control Attach Conn Message Node Hub.
#[local] Open Scope Z_scope.

(** The goroutines the event loop starts, run to their end. *)
Fixpoint run_actions (hdl : Handler) (m : mem) (n : Node) (acts : list action) : outcome mem :=
  match acts with
  | [] => Ret m
  | Spawn slot :: acts' =>
      r ← processSlot 1 (Some hdl) m n slot;
      run_actions hdl r.1 n acts'
  | _ :: acts' => run_actions hdl m n acts'
  end.

(** [Next] on the connection [c], with the node and the hub's dispatch loop
    running while it waits. *)
Definition exchange (hdl : Handler) (m : mem) (h : Hub) (n : Node) (c : busConn) (ch : Z)
  (name : string) : outcome (mem * Hub * Node * busConn * option goerror) :=
  r ← Next_submit 1 m h c ch name;
  let '(m1, h1, c1, err) := r in
  match err with
  | Some e => Ret (m1, h1, n, c1, Some e)
  | None =>
      d ← drain_commands 2 m1 n;
      let '(m2, n2, acts) := d in
      m3 ← run_actions hdl m2 n2 acts;
      p ← Pop 1 m3 (hctrl h1) OFF_RESP_QUEUE;
      let '(m4, (slot, cmd, ok)) := p in
      q ← (if ok : bool then hub_dispatch m4 h1 slot cmd else Diverge);
      w ← Next_wait m4 q.1 c1;
      let '(h3, c3, e) := w in
      Ret (m4, h3, n2, c3, e)
  end.

(** ** Specification vocabulary *)

(** What the handler does with a stripe [s] on the blocks [gs]: from a header
    and data that read as in [m0] it leaves the length [d] and the data [out],
    and writes nowhere else. *)
Definition handles (hdl : Handler) (s : Stripe) (gs : list Z) (slot : Z) (m0 : mem)
  (d : Z) (out : list Z) : Prop :=
  forall m, published m s -> stripe_area m s = stripe_area m0 s ->
    exists m' c' panicked, hdl m (mkNConn s 0 0 slot false) = (m', c', panicked) /\
      (panicked = true \/ failed c' = false) /\ mem_frame (in_gs gs) m m' /\
      published m' (with_DataLen s d) /\ stripe_data m' (with_DataLen s d) = out.

(** ** Two views of one control stripe *)
Section views.
Context (c c' : Control) (Hbl : Blocks (cstripe c') = Blocks (cstripe c)).

Lemma fread_view m f : fread m c' f = fread m c f.
Proof using Hbl. unfold fread, field_addr, GetPointer. by rewrite Hbl. Qed.

Lemma ctrl_wf_view : ctrl_wf c -> ctrl_wf c'.
Proof using Hbl. intros [H1 H2]. by split; rewrite Hbl. Qed.

Lemma queue_repr_view m q head l : queue_repr m c q head l -> queue_repr m c' q head l.
Proof using Hbl.
  intros [H1 H2 H3 H4 H5 H6 H7]. split; try done; try (intros *); rewrite fread_view; auto.
Qed.

Lemma registered_view m slot s :
  ctrl_wf c -> 1 <= slot <= MaxTotalSlots -> registered m c slot s -> registered m c' slot s.
Proof using Hbl.
  intros Hc Hs (cid & off & rest & H1 & H2 & H3). exists cid, off, rest. split; [done|].
  split; [done|]. rewrite <- H3, (GetStripeHeader_field _ Hc), (GetStripeHeader_field _ (ctrl_wf_view Hc)),
    fread_view by done. done.
Qed.

Lemma touched_view P a : touched c' P a <-> touched c P a.
Proof using Hbl. unfold touched, field_addr, GetPointer. by rewrite Hbl. Qed.
End views.

(** ** The steps of an exchange *)

(** [Next] up to the wait. *)
Lemma Next_submit_ok m h gsc c s gs name p ni ch dn head l :
  hub_wf h gsc -> conn_ok m (hbus h) c s gs -> 1 <= slotID c <= MaxTotalSlots ->
  cnDone c = Some dn -> nodes h !! name = Some p -> infos h !! p = Some ni -> closed ni = false ->
  1 <= niID ni < MaxNodes ->
  registered m (hctrl h) (slotID c) s ->
  (fread m (hctrl h) (SStatus (slotID c)) = StripeStatusDone \/
   fread m (hctrl h) (SStatus (slotID c)) = StripeStatusReady) ->
  queue_repr m (hctrl h) (niID ni) head l -> Z.of_nat (length l) < QueueSize - 1 ->
  head + Z.of_nat (length l) + 1 < 4294967296 ->
  exists m1 h1, Next_submit 1 m h c ch name =
      Ret (m1, h1, mkConn (Some s) 0 0 (slotID c) (Some dn), None) /\
    hbus h1 = hbus h /\ hctrl h1 = hctrl h /\ limit h1 = limit h /\
    waiters h1 !! slotID c = Some dn /\ chans h1 !! dn = Some [] /\
    evCount <$> infos h1 !! p = Some (evCount ni + 1) /\
    fread m1 (hctrl h) (SStatus (slotID c)) = StripeStatusBusy /\
    fread m1 (hctrl h) (SOwner (slotID c)) = niID ni /\
    registered m1 (hctrl h) (slotID c) s /\
    queue_repr m1 (hctrl h) (niID ni) head (l ++ [(slotID c, CMD_PROCESS)]) /\
    mem_frame (touched (hctrl h) (fun f => slot_field (slotID c) f \/ queue_field (niID ni) f)) m m1 /\
    nodes h1 = nodes h /\
    infos h1 = <[p := mkNodeInfo (niID ni) (evCount ni + 1) false]> (infos h).
Proof.
  intros Hh Hok Hsl Hdn Hname Hp Hcl Hid Hreg Hst Hq Hroom Hw.
  pose proof (hw_bus _ _ Hh) as Hwf.
  pose proof (ctrl_backed_wf _ _ _ Hwf (hw_ctrl _ _ Hh)) as Hc.
  destruct Hreg as (cid & off & rest & Hsq & Hoff0 & _).
  pose proof (sb_int16 _ _ _ (co_backed _ _ _ _ _ Hok)) as Hi. rewrite Hsq in Hi.
  inversion Hi as [|?? Hcid Hi1]; subst. inversion Hi1 as [|?? Hoff _]; subst.
  unfold is_int16 in Hcid, Hoff.
  destruct (SetStripe_effect _ Hc m (slotID c) StripeStatusBusy cid off (niID ni) Hsl)
    as (m1 & E1 & Hs1 & Ho1 & Hg1 & Hf1); [by vm_compute|unfold_layout; lia|lia|lia|].
  assert (Hq1 : queue_repr m1 (hctrl h) (niID ni) head l).
  { eapply queue_repr_ext; [lia| |exact Hq]. intros f Hf Hqf.
    apply (fread_frame _ _ _ _ _ Hc Hf1); [done|]. destruct f; simpl in *; tauto. }
  destruct (Push_room _ Hc (niID ni) ltac:(lia) m1 head l (slotID c) CMD_PROCESS Hq1 Hroom)
    as (m2 & E2 & Hq2 & Hf2); [apply slot_cmd_ok; [done|unfold CMD_PROCESS; lia]|done|].
  assert (Hkeep : forall f, field_ok f -> slot_field (slotID c) f ->
    fread m2 (hctrl h) f = fread m1 (hctrl h) f).
  { intros f Hf Hsf. apply (fread_frame _ _ _ _ _ Hc Hf2); [done|]. destruct f; simpl in *; tauto. }
  unfold Next_submit. rewrite Hname, decide_False, bind_ret by lia.
  rewrite (GetStripeStatus_field _ Hc), bind_ret, decide_True by done.
  unfold the_stripe. rewrite (co_stripe _ _ _ _ _ Hok), bind_ret, Hsq.
  rewrite (go_index_lookup _ 0 cid), bind_ret, (go_index_lookup _ 1 off), bind_ret by done.
  rewrite Hp, Hdn, u32_small, E1, bind_ret by (unfold_layout; lia).
  unfold waiter. rewrite decide_True, bind_ret by lia. unfold submit. cbn [pushToNode].
  cbn [infos clearChannel with_chans Hub.with_waiters hctrl]. rewrite Hp, E2, bind_ret.
  cbn [fst snd]. rewrite bind_ret. unfold notify.
  cbn [infos clearChannel with_chans Hub.with_waiters hctrl]. rewrite Hp, Hcl, bind_ret, bind_ret.
  eexists m2, _. split; [reflexivity|].
  cbn [fst hbus hctrl limit waiters chans infos nodes clearChannel with_chans Hub.with_waiters
    with_infos].
  split_and!; try (done || by rewrite lookup_insert_eq).
  - by rewrite Hkeep.
  - by rewrite Hkeep.
  - exists cid, off, rest. split; [done|]. split; [lia|].
    rewrite <- Hg1, !(GetStripeHeader_field _ Hc) by done. by rewrite Hkeep.
  - eapply mem_frame_trans; (eapply mem_frame_mono; [|done]); intros a (f & Hf & Hff & Ha);
      exists f; auto.
Qed.

(** The node's event loop on a queue with one request in it. *)
Lemma drain_one m n head slot :
  ctrl_wf (nctrl n) -> 0 <= nodeID n < MaxNodes ->
  queue_repr m (nctrl n) (nodeID n) head [(slot, CMD_PROCESS)] ->
  exists m', drain_commands 2 m n = Ret (m', n, [Spawn slot]) /\
    queue_repr m' (nctrl n) (nodeID n) (head + 1) [] /\
    mem_frame (touched (nctrl n) (queue_field (nodeID n))) m m'.
Proof.
  intros Hc Hid Hq.
  destruct (Pop_item _ Hc _ Hid m head slot CMD_PROCESS [] Hq) as (m' & E & Hq' & Hfr).
  exists m'. split; [|done]. cbn [drain_commands]. rewrite E, bind_ret.
  unfold dispatch. rewrite decide_True, bind_ret by done.
  rewrite (Pop_none _ Hc _ Hid m' _ Hq'), !bind_ret. done.
Qed.

(** The response wakes the waiting connection, which takes the stripe over. *)
Lemma wake_ok m h c s gs d dn :
  bus_wf (hbus h) -> stripe_backed (hbus h) s gs -> stripe_backed (hbus h) (with_DataLen s d) gs ->
  published m (with_DataLen s d) -> cnStripe c = Some s -> cnDone c = Some dn ->
  1 <= slotID c <= MaxTotalSlots -> waiters h !! slotID c = Some dn -> chans h !! dn = Some [] ->
  exists h1 h2, hub_dispatch m h (slotID c) CMD_PROCESS = Ret (h1, None) /\
    Next_wait m h1 c = Ret (h2, with_stripe c (with_DataLen s d), None) /\
    hbus h2 = hbus h /\ hctrl h2 = hctrl h /\ limit h2 = limit h /\
    nodes h2 = nodes h /\ infos h2 = infos h.
Proof.
  intros Hwf Hb Hb2 Hpub Hs Hdn Hsl Hwt Hch.
  unfold hub_dispatch. rewrite decide_True by done. unfold waiter.
  rewrite decide_True, bind_ret, Hwt by lia. unfold send. cbn [chans Hub.with_waiters].
  assert (default [] (chans h !! dn) = []) as -> by (by rewrite Hch). rewrite bind_ret. eexists _, _. split; [reflexivity|].
  unfold Next_wait. rewrite Hdn. cbn [chans with_chans]. rewrite lookup_insert_eq. cbn [default from_option id].
  rewrite (refreshStripe_ok m _ c s gs [] d); [by rewrite bind_ret, extend_stripe_nil|done..| |].
  - by rewrite extend_stripe_nil, app_nil_r.
  - by rewrite extend_stripe_nil.
Qed.

Section exchange.
Context (hdl : Handler) (m : mem) (h : Hub) (gsc : list Z) (n : Node) (c : busConn).
Context (s : Stripe) (gs : list Z) (ni : NodeInfo) (p d : Z) (out : list Z).
Context (Hh : hub_wf h gsc) (Hok : conn_ok m (hbus h) c s gs).
Context (Hap : forall g, g ∈ gs -> g ∈ gsc -> False).
Context (Hsl : 1 <= slotID c <= MaxTotalSlots) (Hid : 1 <= niID ni < MaxNodes).
Context (Hnid : nodeID n = niID ni) (Hnb : Blocks (cstripe (nctrl n)) = Blocks (cstripe (hctrl h))).
Context (Hcs : chunks_mapped (hbus h) (nchunks n)) (Hd : 0 <= d <= data_cap s).
Context (Hhdl : handles hdl s gs (slotID c) m d out).

Lemma ex_ctrl : ctrl_wf (hctrl h).
Proof using Hh. exact (ctrl_backed_wf _ _ _ (hw_bus _ _ Hh) (hw_ctrl _ _ Hh)). Qed.

Lemma ex_nctrl : ctrl_wf (nctrl n).
Proof using Hh Hnb. exact (ctrl_wf_view _ _ Hnb ex_ctrl). Qed.

Lemma ex_backed : stripe_backed (hbus h) (with_DataLen s d) gs.
Proof using Hok Hd. apply backed_with_DataLen; [apply Hok|done]. Qed.

(** Writes to control words leave the stripe, and the words they do not
    name, alone. *)
Lemma ctrl_quiet P ma mb s' k :
  mem_frame (touched (hctrl h) P) ma mb -> stripe_backed (hbus h) s' gs -> 0 <= k <= data_cap s' ->
  published ma s' -> published mb s' /\ data_bytes mb s' 0 k = data_bytes ma s' 0 k.
Proof using Hh Hap.
  intros Hfr Hb Hk Hpub.
  pose proof (ctrl_write_frame _ _ _ _ _ _ (hw_bus _ _ Hh) (hw_ctrl _ _ Hh) Hfr) as Hfr'.
  split; [by eapply published_frame|].
  apply (data_bytes_frame (hbus h) s' gs gsc); try done. apply Hh.
Qed.

Lemma ctrl_frame P ma mb :
  mem_frame (touched (hctrl h) P) ma mb -> mem_frame (in_gs (gsc ++ gs)) ma mb.
Proof using Hh.
  intros Hfr. apply in_gs_frame_l. by eapply ctrl_write_frame; [apply Hh|apply Hh|].
Qed.

Lemma registered_frame ma mb slot s' :
  1 <= slot <= MaxTotalSlots ->
  fread mb (hctrl h) (SHeader slot) = fread ma (hctrl h) (SHeader slot) ->
  registered ma (hctrl h) slot s' -> registered mb (hctrl h) slot s'.
Proof using Hh.
  intros Hs Hf (cid & off & rest & H1 & H2 & H3). exists cid, off, rest. split; [done|].
  split; [done|]. by rewrite <- H3, !(GetStripeHeader_field _ ex_ctrl), Hf by done.
Qed.

Lemma queue_frame P ma mb q head l :
  0 <= q < MaxNodes -> mem_frame (touched (hctrl h) P) ma mb ->
  (forall f, queue_field q f -> ~ P f) ->
  queue_repr ma (hctrl h) q head l -> queue_repr mb (hctrl h) q head l.
Proof using Hh.
  intros Hq Hfr HP. apply queue_repr_ext; [done|]. intros f Hf Hqf.
  apply (fread_frame _ _ _ _ _ ex_ctrl Hfr); [done|by apply HP].
Qed.

Lemma node_frame P ma mb :
  mem_frame (touched (nctrl n) P) ma mb -> mem_frame (touched (hctrl h) P) ma mb.
Proof using Hnb. apply mem_frame_mono. intros a. by apply touched_view. Qed.

(** Writes to the stripe leave the control words alone. *)
Lemma stripe_quiet ma mb :
  mem_frame (in_gs gs) ma mb ->
  forall f, field_ok f -> fread mb (hctrl h) f = fread ma (hctrl h) f.
Proof using Hh Hap.
  intros Hfr f Hf. exact (ctrl_untouched _ _ _ _ _ _ _ (hw_bus _ _ Hh) (hw_ctrl _ _ Hh) Hap Hfr Hf).
Qed.

(** The control words an exchange leaves alone. *)
Definition bystander (f : field) : Prop :=
  ~ slot_field (slotID c) f /\ ~ queue_field (niID ni) f /\ ~ queue_field 0 f.

(** The node's handler on the slot, and its response. *)
Lemma run_slot m2 hr :
  published m2 s -> stripe_area m2 s = stripe_area m s ->
  registered m2 (hctrl h) (slotID c) s ->
  queue_repr m2 (hctrl h) 0 hr [] -> hr + 1 < 4294967296 ->
  exists m3, run_actions hdl m2 n [Spawn (slotID c)] = Ret m3 /\
    published m3 (with_DataLen s d) /\ stripe_data m3 (with_DataLen s d) = out /\
    fread m3 (hctrl h) (SStatus (slotID c)) = StripeStatusDone /\
    queue_repr m3 (hctrl h) 0 hr [(slotID c, CMD_PROCESS)] /\
    (forall f, field_ok f -> f <> SStatus (slotID c) -> ~ queue_field 0 f ->
       fread m3 (hctrl h) f = fread m2 (hctrl h) f) /\
    mem_frame (in_gs (gsc ++ gs)) m2 m3.
Proof using All.
  intros Hpub Har Hreg Hr Hw. pose proof ex_ctrl as Hc. pose proof ex_nctrl as Hnc.
  pose proof (hw_bus _ _ Hh) as Hwf. pose proof (co_backed _ _ _ _ _ Hok) as Hb.
  pose proof (open_stripe_ok (hbus h) m2 n (slotID c) s gs Hwf Hcs Hb Hpub
    (registered_view _ _ Hnb _ _ _ Hc Hsl Hreg)) as Ho.
  destruct (Hhdl m2 Hpub Har) as (m2' & nc & pan & EH & Hfin & Hfr & Hpub2 & Hout).
  assert (Hr2 : queue_repr m2' (nctrl n) 0 hr []).
  { apply (queue_repr_view (hctrl h)); [done|]. eapply queue_repr_ext; [unfold_layout; lia| |exact Hr].
    intros f Hf _. by apply stripe_quiet. }
  destruct (finish_slot_ok m2' n (slotID c) hr [] Hnc Hsl Hr2) as (m3 & EF & Hst & Hq3 & Hf3);
    [simpl; unfold_layout; lia|simpl; lia|]. apply node_frame in Hf3.
  destruct (ctrl_quiet _ m2' m3 (with_DataLen s d) d Hf3 ex_backed) as [Hpub3 Hd3]; [done|done|].
  exists m3. split.
  { cbn [run_actions]. unfold processSlot. rewrite Ho, EH.
    destruct pan; [by rewrite EF, bind_ret|].
    destruct Hfin as [|Hfin]; [done|]. by rewrite Hfin, EF, bind_ret. }
  split; [done|]. split; [by rewrite <- Hout; exact Hd3|]. split_and!.
  - rewrite (GetStripeStatus_field _ Hnc) in Hst by done. injection Hst as Hst.
    by rewrite (fread_view _ _ Hnb) in Hst.
  - apply (queue_repr_view (nctrl n)); [done|exact Hq3].
  - intros f Hf Hne Hnq. rewrite (fread_frame _ _ _ _ _ Hc Hf3) by (done || tauto).
    by apply stripe_quiet.
  - eapply mem_frame_trans; [by apply in_gs_frame_r|]. by eapply ctrl_frame.
Qed.

(** The node's side, from a request in its queue to the response. *)
Lemma node_side m1 hq hr :
  published m1 s -> stripe_area m1 s = stripe_area m s ->
  registered m1 (hctrl h) (slotID c) s ->
  queue_repr m1 (hctrl h) (niID ni) hq [(slotID c, CMD_PROCESS)] ->
  queue_repr m1 (hctrl h) 0 hr [] -> hr + 1 < 4294967296 ->
  exists m2 m3, drain_commands 2 m1 n = Ret (m2, n, [Spawn (slotID c)]) /\
    run_actions hdl m2 n [Spawn (slotID c)] = Ret m3 /\
    published m3 (with_DataLen s d) /\ stripe_data m3 (with_DataLen s d) = out /\
    registered m3 (hctrl h) (slotID c) s /\
    fread m3 (hctrl h) (SStatus (slotID c)) = StripeStatusDone /\
    queue_repr m3 (hctrl h) (niID ni) (hq + 1) [] /\
    queue_repr m3 (hctrl h) 0 hr [(slotID c, CMD_PROCESS)] /\
    (forall f, field_ok f -> bystander f -> fread m3 (hctrl h) f = fread m1 (hctrl h) f) /\
    mem_frame (in_gs (gsc ++ gs)) m1 m3.
Proof using All.
  intros Hpub Har Hreg Hq Hr Hw. pose proof ex_ctrl as Hc.
  pose proof (co_backed _ _ _ _ _ Hok) as Hb.
  destruct (drain_one m1 n hq (slotID c)) as (m2 & E2 & Hq2 & Hf2);
    [exact ex_nctrl|lia|rewrite Hnid; by apply (queue_repr_view (hctrl h))|].
  rewrite Hnid in Hq2, Hf2. apply node_frame in Hf2.
  destruct (ctrl_quiet _ m1 m2 s (data_cap s) Hf2 Hb) as [Hpub2 Hd2];
    [pose proof (sb_len _ _ _ Hb); lia|done|].
  assert (Hreg2 : registered m2 (hctrl h) (slotID c) s).
  { apply (registered_frame m1); [done| |done].
    apply (fread_frame _ _ _ _ _ Hc Hf2); [done|simpl; tauto]. }
  destruct (run_slot m2 hr Hpub2) as (m3 & E3 & Hpub3 & Hout & Hst & Hr3 & Hoth & Hmf);
    [by rewrite <- Har|done| |done|].
  { apply (queue_frame _ m1 m2 0 hr [] ltac:(unfold_layout; lia) Hf2); [|done].
    intros f. destruct f; simpl; intros; subst; lia. }
  exists m2, m3. split_and!; try done.
  - apply (registered_frame m2); [done| |done]. apply Hoth; [done|done|simpl; tauto].
  - eapply queue_repr_ext; [lia| |apply (queue_repr_view (nctrl n)); [done|exact Hq2]].
    intros f Hf Hqf. apply Hoth; [done|by intros ->|]. destruct f; simpl in *; lia.
  - intros f Hf (Hb1 & Hb2 & Hb3). rewrite Hoth; [|done|by intros ->; apply Hb1|done].
    by apply (fread_frame _ _ _ _ _ Hc Hf2).
  - eapply mem_frame_trans; [|exact Hmf]. by eapply ctrl_frame.
Qed.

(** The whole exchange. *)
Lemma exchange_run name ch dn hq hr :
  cnDone c = Some dn -> nodes h !! name = Some p -> infos h !! p = Some ni -> closed ni = false ->
  registered m (hctrl h) (slotID c) s ->
  (fread m (hctrl h) (SStatus (slotID c)) = StripeStatusDone \/
   fread m (hctrl h) (SStatus (slotID c)) = StripeStatusReady) ->
  queue_repr m (hctrl h) (niID ni) hq [] -> hq + 1 < 4294967296 ->
  queue_repr m (hctrl h) 0 hr [] -> hr + 1 < 4294967296 ->
  exists m' h', exchange hdl m h n c ch name =
      Ret (m', h', n, mkConn (Some (with_DataLen s d)) 0 0 (slotID c) (Some dn), None) /\
    hbus h' = hbus h /\ hctrl h' = hctrl h /\ limit h' = limit h /\
    published m' (with_DataLen s d) /\ stripe_data m' (with_DataLen s d) = out /\
    registered m' (hctrl h) (slotID c) (with_DataLen s d) /\
    fread m' (hctrl h) (SStatus (slotID c)) = StripeStatusDone /\
    queue_repr m' (hctrl h) (niID ni) (hq + 1) [] /\ queue_repr m' (hctrl h) 0 (hr + 1) [] /\
    nodes h' = nodes h /\
    infos h' = <[p := mkNodeInfo (niID ni) (evCount ni + 1) false]> (infos h) /\
    (forall f, field_ok f -> bystander f -> fread m' (hctrl h) f = fread m (hctrl h) f) /\
    mem_frame (in_gs (gsc ++ gs)) m m'.
Proof using All.
  intros Hdn Hname Hp Hcl Hreg Hst Hq Hwq Hr Hwr. pose proof ex_ctrl as Hc.
  pose proof (co_backed _ _ _ _ _ Hok) as Hb.
  destruct (Next_submit_ok m h gsc c s gs name p ni ch dn hq [])
    as (m1 & h1 & E1 & Hbus & Hctl & Hlim & Hwt & Hch & _ & _ & _ & Hreg1 & Hq1 & Hf1 & Hnd1 & Hin1);
    try done;
    [simpl; lia|].
  destruct (ctrl_quiet _ m m1 s (data_cap s) Hf1 Hb) as [Hpub1 Har1];
    [pose proof (sb_len _ _ _ Hb); lia|apply Hok|].
  assert (Hr1 : queue_repr m1 (hctrl h) 0 hr []).
  { apply (queue_frame _ m m1 0 hr [] ltac:(unfold_layout; lia) Hf1); [|done].
    intros f. destruct f; simpl; intros; subst; lia. }
  destruct (node_side m1 hq hr Hpub1 Har1 Hreg1 Hq1 Hr1 Hwr)
    as (m2 & m3 & E2 & E3 & Hpub3 & Hout & Hreg3 & Hst3 & Hq3 & Hr3 & Hby3 & Hmf3).
  destruct (Pop_item _ Hc 0 ltac:(unfold_layout; lia) m3 hr _ _ [] Hr3) as (m4 & E4 & Hr4 & Hf4).
  destruct (ctrl_quiet _ m3 m4 (with_DataLen s d) d Hf4 ex_backed Hd Hpub3) as [Hpub4 Hd4].
  destruct (wake_ok m4 h1 (mkConn (Some s) 0 0 (slotID c) (Some dn)) s gs d dn)
    as (h2 & h3 & E5 & E6 & Hbus3 & Hctl3 & Hlim3 & Hnd3 & Hin3); try done;
    [rewrite Hbus; apply Hh|by rewrite Hbus|rewrite Hbus; exact ex_backed|].
  exists m4, h3. split.
  { unfold exchange. rewrite E1, bind_ret, E2, bind_ret, E3, bind_ret, Hctl.
    change OFF_RESP_QUEUE with (GetNodeReqQueueOffset 0). rewrite E4, bind_ret.
    cbn [slotID] in E5. rewrite E5, bind_ret. cbn [fst]. rewrite E6, bind_ret. reflexivity. }
  assert (Hkeep : forall f, field_ok f -> ~ queue_field 0 f ->
    fread m4 (hctrl h) f = fread m3 (hctrl h) f) by (intros; by apply (fread_frame _ _ _ _ _ Hc Hf4)).
  split_and!; try congruence; try done.
  - by rewrite <- Hout.
  - apply (registered_frame m3); [done|apply Hkeep; [done|simpl; tauto]|done].
  - by rewrite Hkeep by (simpl; tauto || done).
  - apply (queue_frame _ m3 m4 (niID ni) (hq + 1) [] ltac:(lia) Hf4); [|done].
    intros f. destruct f; simpl; intros; subst; lia.
  - intros f Hf Hby. rewrite Hkeep, Hby3 by (done || apply Hby).
    apply (fread_frame _ _ _ _ _ Hc Hf1); [done|]. destruct Hby. tauto.
  - eapply mem_frame_trans; [by eapply ctrl_frame|].
    eapply mem_frame_trans; [exact Hmf3|]. by eapply ctrl_frame.
Qed.
End exchange.

(** ** A handler that answers with fixed bytes *)
Definition write_handler (p : list Z) : Handler := fun m c =>
  match WriteAt m (stripe c) p 0 with
  | Ret (m', s', _) => (m', set_stripe c s', false)
  | _ => (m, c, true)
  end.

Lemma write_handler_handles b s gs slot m0 p :
  bus_wf b -> stripe_backed b s gs ->
  let out := p ++ drop (length p) (stripe_data m0 s) in
  Z.of_nat (length out) <= data_cap s ->
  handles (write_handler p) s gs slot m0 (Z.of_nat (length out)) out.
Proof.
  intros Hwf Hb out Hfit m Hpub Harea.
  pose proof (stripe_backed_wf _ _ _ Hwf Hb) as Hswf. pose proof (swf_len _ Hswf) as Hl.
  assert (Hlen : length (stripe_data m0 s) = Z.to_nat (DataLen s)) by apply length_data_bytes.
  assert (Hout : Z.of_nat (length out) = Z.max (DataLen s) (Z.of_nat (length p)))
    by (unfold out; rewrite length_app, length_drop; lia).
  destruct (WriteAt_effect m s p 0 Hswf ltac:(lia) ltac:(unfold_layout; lia))
    as (m' & s' & E & Hs' & Hswf' & Har & _ & Hfr).
  assert (Hft : fit s 0 (Z.of_nat (length p)) = Z.of_nat (length p)) by (unfold fit; lia).
  rewrite Hft in *. rewrite Z.add_0_l in *.
  pose proof (WriteAt_published m s p 0 m' s' _ Hswf ltac:(lia) ltac:(unfold_layout; lia) Hpub E)
    as Hpub'.
  assert (Hs2 : s' = with_DataLen s (Z.of_nat (length out))).
  { rewrite Hs', Hout. f_equal. case_decide; lia. }
  exists m', (mkNConn s' 0 0 slot false), false. split; [by unfold write_handler; cbn; rewrite E|].
  split; [by right|]. split.
  { eapply mem_frame_mono; [|exact Hfr]. intros a. by eapply in_blocks_gs. }
  rewrite <- Hs2. split; [done|]. rewrite stripe_data_area, Har by done.
  change (Z.to_nat 0) with 0%nat. rewrite take_0, app_nil_l, Nat2Z.id, firstn_all, Harea.
  rewrite Hs2 at 1. cbn [with_DataLen DataLen]. rewrite Nat2Z.id. unfold out at 1.
  rewrite stripe_data_area by done. rewrite length_app, firstn_app_2. unfold out.
  rewrite stripe_data_area by done. f_equal. rewrite length_drop, length_take.
  rewrite skipn_firstn_comm. f_equal. rewrite Nat.min_l; [done|].
  unfold stripe_area. rewrite length_data_bytes. lia.
Qed.

(** ** A concrete system *)
Definition demo_ready_mem : mem :=
  match SetStripe demo_hub_mem demo_control 1 StripeStatusReady (-1) 256 0 with
  | Ret m => m
  | _ => ∅
  end.

Definition demo_peer : Node :=
  mkNode 1 demo_control 11 12 [mkChunk (Slice 0 ChunkSize) (-1)] ∅.

Definition demo_conn : busConn := mkConn (Some demo_hub_stripe) 0 0 1 (Some 5).

Lemma demo_conn_ok : conn_ok demo_ready_mem demo_hub_bus demo_conn demo_hub_stripe [256; 257; 258].
Proof.
  split.
  - done.
  - exact demo_hub_backed.
  - exists (Slice (256 * BlockSize) BlockSize). vm_compute. auto.
  - simpl. lia.
  - simpl. lia.
Qed.

Lemma demo_ready_queue q : 0 <= q < MaxNodes -> queue_repr demo_ready_mem demo_control q 0 [].
Proof.
  intros Hq.
  assert (Hz : forallb (fun q => (fread demo_ready_mem demo_control (QHead q) =? 0) &&
      (fread demo_ready_mem demo_control (QTail q) =? 0) &&
      forallb (fun i => fread demo_ready_mem demo_control (QEntry q i) =? 0) (seqZ 0 QueueSize))
    (seqZ 0 MaxNodes) = true) by (vm_compute; reflexivity).
  rewrite forallb_forall in Hz. specialize (Hz q).
  apply andb_prop in Hz as [[H1%Z.eqb_eq H2%Z.eqb_eq]%andb_prop Hz];
    [|apply list_elem_of_In, elem_of_seqZ; lia].
  apply queue_repr_empty; [done|done|]. intros i Hi. rewrite forallb_forall in Hz.
  apply Z.eqb_eq, Hz, list_elem_of_In, elem_of_seqZ. lia.
Qed.

(** ** Theorems *)

(** C2: An exchange completes and carries the data.  When a connection with a
    registered slot calls [Next] for a live node whose handler turns the
    stripe's contents into [out], the request reaches the node, the handler
    works on the very stripe of the connection, the response wakes the
    connection and nothing else, and the connection then holds the stripe
    with [out] as its data, which its [Read] returns.  Slot, queues and hub
    are again as they must be for the next exchange. *)
Theorem Next_exchange hdl m h gsc n c s gs name p ni ch dn hq hr d out :
  hub_wf h gsc -> conn_ok m (hbus h) c s gs -> (forall g, g ∈ gs -> g ∈ gsc -> False) ->
  1 <= slotID c <= MaxTotalSlots -> cnDone c = Some dn ->
  nodes h !! name = Some p -> infos h !! p = Some ni -> closed ni = false ->
  1 <= niID ni < MaxNodes -> nodeID n = niID ni ->
  Blocks (cstripe (nctrl n)) = Blocks (cstripe (hctrl h)) -> chunks_mapped (hbus h) (nchunks n) ->
  registered m (hctrl h) (slotID c) s ->
  (fread m (hctrl h) (SStatus (slotID c)) = StripeStatusDone \/
   fread m (hctrl h) (SStatus (slotID c)) = StripeStatusReady) ->
  queue_repr m (hctrl h) (niID ni) hq [] -> hq + 1 < 4294967296 ->
  queue_repr m (hctrl h) 0 hr [] -> hr + 1 < 4294967296 ->
  0 <= d <= data_cap s -> handles hdl s gs (slotID c) m d out ->
  exists m' h' c', exchange hdl m h n c ch name = Ret (m', h', n, c', None) /\
    hub_wf h' gsc /\ conn_ok m' (hbus h') c' (with_DataLen s d) gs /\
    stripe_data m' (with_DataLen s d) = out /\
    (forall buf, 0 < d -> length buf = length out ->
       exists c'', conn_Read m' c' buf = Ret (c'', (d, None, out))) /\
    slotID c' = slotID c /\ cnDone c' = Some dn /\
    registered m' (hctrl h') (slotID c) (with_DataLen s d) /\
    GetStripeStatus m' (hctrl h') (slotID c) = Ret StripeStatusDone /\
    queue_repr m' (hctrl h') (niID ni) (hq + 1) [] /\ queue_repr m' (hctrl h') 0 (hr + 1) [].
Proof.
  intros Hh Hok Hap Hsl Hdn Hname Hp Hcl Hid Hnid Hnb Hcs Hreg Hst Hq Hwq Hr Hwr Hd Hhdl.
  pose proof (ctrl_backed_wf _ _ _ (hw_bus _ _ Hh) (hw_ctrl _ _ Hh)) as Hc.
  pose proof (co_backed _ _ _ _ _ Hok) as Hb.
  pose proof (backed_with_DataLen _ _ _ d Hb Hd) as Hb2.
  destruct (exchange_run hdl m h gsc n c s gs ni p d out Hh Hok Hap Hsl Hid Hnid Hnb Hcs Hd Hhdl
    name ch dn hq hr Hdn Hname Hp Hcl Hreg Hst Hq Hwq Hr Hwr)
    as (m' & h' & E & Hbus & Hctl & Hlim & Hpub & Hdata & Hreg' & Hst' & Hq' & Hr' & _).
  exists m', h'. eexists. split; [exact E|]. rewrite Hbus, Hctl.
  assert (Hok' : conn_ok m' (hbus h) (mkConn (Some (with_DataLen s d)) 0 0 (slotID c) (Some dn))
    (with_DataLen s d) gs).
  { split; [done|done|done|apply Hok|apply Hok]. }
  split_and!; try done.
  - destruct Hh. split; [by rewrite Hbus|by rewrite Hbus, Hctl|by rewrite Hctl|by rewrite Hlim].
  - intros buf Hpos Hlen. eexists.
    assert (Hl : Z.of_nat (length out) = d).
    { rewrite <- Hdata. unfold stripe_data. rewrite length_data_bytes. cbn [with_DataLen DataLen]. lia. }
    rewrite (conn_Read_data m' (hbus h) _ _ gs buf (hw_bus _ _ Hh) Hok')
      by (cbn [readOff with_DataLen DataLen]; lia).
    cbn [readOff with_DataLen DataLen]. rewrite Hdata, Hlen, Hl, Z.sub_0_r, Z.min_id.
    rewrite drop_0, take_ge, drop_ge, app_nil_r by lia. done.
  - by rewrite (GetStripeStatus_field _ Hc), Hst' by done.
Qed.

Lemma Next_exchange_witness :
  exists m' h' c' c'',
    exchange (write_handler [7; 8; 9]) demo_ready_mem demo_hub demo_peer demo_conn 6 "worker" =
      Ret (m', h', demo_peer, c', None) /\
    conn_Read m' c' [0; 0; 0] = Ret (c'', (3, None, [7; 8; 9])).
Proof.
  destruct (Next_exchange (write_handler [7; 8; 9]) demo_ready_mem demo_hub (seqZ 0 256) demo_peer
    demo_conn demo_hub_stripe [256; 257; 258] "worker" 0 (mkNodeInfo 1 0 false) 6 5 0 0 3 [7; 8; 9])
    as (m' & h' & c' & E & _ & _ & _ & Hrd & _).
  - exact demo_hub_wf.
  - exact demo_conn_ok.
  - intros g Hg Hs. apply elem_of_seqZ in Hs. rewrite !elem_of_cons, elem_of_nil in Hg. lia.
  - vm_compute. split; discriminate.
  - reflexivity.
  - vm_compute. reflexivity.
  - vm_compute. reflexivity.
  - reflexivity.
  - vm_compute. split; [discriminate|reflexivity].
  - reflexivity.
  - reflexivity.
  - intros k Hk. cbn in Hk. assert (k = 0) as -> by lia.
    exists (mkChunk (Slice 0 ChunkSize) (-1)). split; reflexivity.
  - exists (-1), 256, [257; 258]. vm_compute. split; [done|]. split; [discriminate|done].
  - right. vm_compute. reflexivity.
  - apply demo_ready_queue. vm_compute. split; [discriminate|reflexivity].
  - lia.
  - apply demo_ready_queue. vm_compute. split; [discriminate|reflexivity].
  - lia.
  - vm_compute. split; discriminate.
  - apply (write_handler_handles demo_hub_bus demo_hub_stripe [256; 257; 258] 1 demo_ready_mem [7; 8; 9]
      (hw_bus _ _ demo_hub_wf) demo_hub_backed).
    vm_compute. discriminate.
  - destruct (Hrd [0; 0; 0] ltac:(lia) eq_refl) as (c'' & Ec).
    exists m', h', c', c''. split; [exact E|exact Ec].
Defined.
