(* ===== verification/Pipeline.v ===== *)
(** * A request that visits several nodes

    A connection may call [Next] again and again: each node works on what
    the one before it left (go/hub/conn.go, go/node/node.go).  Handlers are
    specified by the function they compute on the data. *)
From stdpp Require Import base tactics list numbers option gmap strings.
From Stdlib Require Import ZArith Lia.
From S2P Require Import Prelude Memory Layout Protocol Stripe Bus Control Attach Conn Message Node Hub System.
#[local] Open Scope Z_scope.

(** A name in the hub's table, the node behind it and what the node runs. *)
Record stage : Type := mkStage { st_name : string; st_node : Node; st_handler : Handler }.

(** [Next] for one node after the other; stops at the first error. *)
Fixpoint pipeline (m : mem) (h : Hub) (c : busConn) (ch : Z) (sts : list stage)
  : outcome (mem * Hub * busConn * option goerror) :=
  match sts with
  | [] => Ret (m, h, c, None)
  | st :: sts' =>
      r ← exchange (st_handler st) m h (st_node st) c ch (st_name st);
      let '(m1, h1, _, c1, err) := r in
      match err with
      | Some e => Ret (m1, h1, c1, Some e)
      | None => pipeline m1 h1 c1 ch sts'
      end
  end.

(** ** Specification vocabulary *)

(** Node [n] is connected to the hub as [name]: the hub's table leads to its
    id, and it maps the hub's control stripe and chunks. *)
Definition connected (h : Hub) (n : Node) (name : string) : Prop :=
  exists p ni, nodes h !! name = Some p /\ infos h !! p = Some ni /\ closed ni = false /\
    1 <= niID ni < MaxNodes /\ nodeID n = niID ni /\
    Blocks (cstripe (nctrl n)) = Blocks (cstripe (hctrl h)) /\
    chunks_mapped (hbus h) (nchunks n).

(** A connection that may call [Next] [k] times. *)
Record ready (m : mem) (h : Hub) (gsc : list Z) (c : busConn) (s : Stripe) (gs : list Z)
  (k : nat) : Prop := {
  rd_hub : hub_wf h gsc;
  rd_conn : conn_ok m (hbus h) c s gs;
  rd_apart : forall g, g ∈ gs -> g ∈ gsc -> False;
  rd_slot : 1 <= slotID c <= MaxTotalSlots;
  rd_done : is_Some (cnDone c);
  rd_reg : registered m (hctrl h) (slotID c) s;
  rd_status : fread m (hctrl h) (SStatus (slotID c)) = StripeStatusDone \/
              fread m (hctrl h) (SStatus (slotID c)) = StripeStatusReady;
  rd_queues : forall q, 0 <= q < MaxNodes -> exists head,
    queue_repr m (hctrl h) q head [] /\ head + Z.of_nat k < 4294967296;
}.

(** The handler turns data [d] into [f d], whenever that fits the stripe. *)
Definition computes (hdl : Handler) (f : list Z -> list Z) : Prop :=
  forall b s gs slot m, bus_wf b -> stripe_backed b s gs ->
    let out := f (stripe_data m s) in
    Z.of_nat (length out) <= data_cap s ->
    handles hdl s gs slot m (Z.of_nat (length out)) out.

(** Every intermediate result fits. *)
Fixpoint fits (cap : Z) (data : list Z) (fs : list (list Z -> list Z)) : Prop :=
  match fs with
  | [] => True
  | f :: fs' => Z.of_nat (length (f data)) <= cap /\ fits cap (f data) fs'
  end.

(** ** Lemmas *)
Lemma connected_kept h h' n name p ni k :
  nodes h' = nodes h -> infos h !! p = Some ni -> closed ni = false ->
  infos h' = <[p := mkNodeInfo (niID ni) k false]> (infos h) ->
  hctrl h' = hctrl h -> hbus h' = hbus h -> connected h n name -> connected h' n name.
Proof.
  intros Hn Hp Hc Hi Hct Hb (p' & ni' & H1 & H2 & H3 & H4 & H5 & H6 & H7).
  exists p'. destruct (decide (p' = p)) as [->|Hne].
  - simplify_eq. eexists. rewrite Hn, Hi, Hct, Hb, lookup_insert_eq. done.
  - exists ni'. rewrite Hn, Hi, Hct, Hb, lookup_insert_ne by done. done.
Qed.

(** One exchange computes the handler's function and leaves everything ready
    for the next one, the other nodes and connections included. *)
Lemma exchange_ready hdl f m h gsc n c s gs name ch k :
  ready m h gsc c s gs (S k) -> connected h n name -> computes hdl f ->
  let out := f (stripe_data m s) in
  let s' := with_DataLen s (Z.of_nat (length out)) in
  Z.of_nat (length out) <= data_cap s ->
  exists m' h' c', exchange hdl m h n c ch name = Ret (m', h', n, c', None) /\
    ready m' h' gsc c' s' gs k /\ stripe_data m' s' = out /\
    hbus h' = hbus h /\ hctrl h' = hctrl h /\ limit h' = limit h /\
    slotID c' = slotID c /\ readOff c' = 0 /\ writeOff c' = 0 /\
    (forall n' name', connected h n' name' -> connected h' n' name') /\
    (forall fl, field_ok fl -> (exists i, i <> slotID c /\ slot_field i fl) ->
       fread m' (hctrl h) fl = fread m (hctrl h) fl) /\
    mem_frame (in_gs (gsc ++ gs)) m m'.
Proof.
  intros [Hh Hok Hap Hsl [dn Hdn] Hreg Hst Hqs] Hcon Hcomp out s' Hfit.
  pose proof Hcon as (p & ni & Hname & Hp & Hcl & Hid & Hnid & Hnb & Hcs).
  destruct (Hqs (niID ni)) as (hq & Hq & Hwq); [lia|].
  destruct (Hqs 0) as (hr & Hr & Hwr); [unfold_layout; lia|].
  pose proof (co_backed _ _ _ _ _ Hok) as Hb.
  assert (Hd : 0 <= Z.of_nat (length out) <= data_cap s) by lia.
  destruct (exchange_run hdl m h gsc n c s gs ni p _ out Hh Hok Hap Hsl Hid Hnid Hnb Hcs Hd
    (Hcomp _ s gs _ m (hw_bus _ _ Hh) Hb Hfit) name ch dn hq hr Hdn Hname Hp Hcl Hreg Hst Hq
    ltac:(lia) Hr ltac:(lia))
    as (m' & h' & E & Hbus & Hctl & Hlim & Hpub & Hdata & Hreg' & Hst' & Hq' & Hr' & Hnd & Hin
      & Hby & Hmf).
  exists m', h'. eexists. split; [exact E|]. cbn [slotID readOff writeOff]. split_and!; try done.
  - split; rewrite ?Hbus, ?Hctl; cbn [slotID cnDone]; try done; try by left.
    + destruct Hh. split; [by rewrite Hbus|by rewrite Hbus, Hctl|by rewrite Hctl|by rewrite Hlim].
    + split; [done|by apply backed_with_DataLen|done|apply Hok|apply Hok].
    + intros q Hqr. destruct (decide (q = niID ni)) as [->|Hn1]; [exists (hq + 1); split; [done|lia]|].
      destruct (decide (q = 0)) as [->|Hn0]; [exists (hr + 1); split; [done|lia]|].
      destruct (Hqs q Hqr) as (hd & Hqq & Hw). exists hd. split; [|lia].
      eapply queue_repr_ext; [done| |exact Hqq]. intros fl Hfl Hqf. apply Hby; [done|].
      unfold bystander. destruct fl; simpl in *; lia.
  - intros n' name'. by eapply connected_kept.
  - intros fl Hfl (i & Hi & Hsf). apply Hby; [done|]. unfold bystander. destruct fl; simpl in *; lia.
Qed.

(** The first [Next] of a connection without a slot takes one, and goes on as
    if the connection had had it. *)
Lemma exchange_first hdl m h gsc n c s gs name ch k :
  hub_wf h gsc -> conn_ok m (hbus h) c s gs -> (forall g, g ∈ gs -> g ∈ gsc -> False) ->
  (exists cid off rest, Sequence s = cid :: off :: rest /\ 0 <= off) ->
  slotID c = 0 -> limit h < MaxTotalSlots ->
  (exists i, 1 <= i <= MaxTotalSlots /\ fread m (hctrl h) (SStatus i) = StripeStatusIdle) ->
  (forall q, 0 <= q < MaxNodes -> exists head,
     queue_repr m (hctrl h) q head [] /\ head + Z.of_nat k < 4294967296) ->
  connected h n name ->
  exists m1 h1 slot,
    let c1 := mkConn (Some s) (readOff c) (writeOff c) slot (Some ch) in
    exchange hdl m h n c ch name = exchange hdl m1 h1 n c1 ch name /\
    ready m1 h1 gsc c1 s gs k /\ connected h1 n name /\ stripe_data m1 s = stripe_data m s /\
    fread m (hctrl h) (SStatus slot) = StripeStatusIdle /\
    hbus h1 = hbus h /\ cstripe (hctrl h1) = cstripe (hctrl h) /\ limit h1 = limit h + 1 /\
    (forall f, field_ok f -> ~ slot_field slot f -> fread m1 (hctrl h) f = fread m (hctrl h) f).
Proof.
  intros Hh Hok Hap (cid & off & rest & Hsq & Hoff) Hs0 Hlim Hidle Hqs Hcon.
  pose proof Hh as [Hwf Hcb Hcur Hl0].
  pose proof (ctrl_backed_wf _ _ _ Hwf Hcb) as Hc. pose proof (co_backed _ _ _ _ _ Hok) as Hb.
  pose proof (sb_int16 _ _ _ Hb) as Hi. rewrite Hsq in Hi.
  inversion Hi as [|?? Hcid Hi1]; subst. inversion Hi1 as [|?? Hoff2 _]; subst.
  unfold is_int16 in Hcid, Hoff2.
  destruct (allocSlot_ok m h s cid off rest Hc Hcur Hlim Hidle Hsq Hcid ltac:(lia))
    as (m1 & h1 & slot & E & Hsl & Hid & Hh1 & Hst & Hreg & Hfr).
  exists m1, h1, slot. cbv zeta.
  assert (Hkeep : forall f, field_ok f -> ~ slot_field slot f ->
    fread m1 (hctrl h) f = fread m (hctrl h) f)
    by (intros f Hf Hn; by apply (fread_frame _ _ _ _ _ Hc Hfr)).
  assert (Hview : forall m f, fread m (hctrl h1) f = fread m (hctrl h) f)
    by (intros; by rewrite Hh1).
  pose proof (ctrl_write_frame _ _ _ _ _ _ Hwf Hcb Hfr) as Hfr'.
  split; [|split; [|split]].
  - destruct Hcon as (p & ni & Hname & _). unfold exchange. f_equal. unfold Next_submit.
    assert (nodes h1 !! name = Some p) as -> by (by rewrite Hh1). rewrite Hname.
    rewrite (decide_True (P := slotID c = 0)) by done. unfold the_stripe.
    rewrite (co_stripe _ _ _ _ _ Hok), bind_ret, E, bind_ret. cbn [cnStripe slotID cnDone].
    rewrite decide_False by lia. done.
  - split; rewrite ?Hview; try done.
    + rewrite Hh1. split; cbn; [done|by apply ctrl_backed_cursor|apply u32_range|lia].
    + rewrite Hh1. cbn [hbus with_limit with_ctrl]. destruct Hok. split; try done.
      by eapply published_frame.
    + cbn [slotID]. destruct Hreg as (cid' & off' & r' & R1 & R2 & R3). exists cid', off', r'.
      rewrite Hh1. done.
    + right. cbn [slotID]. rewrite (GetStripeStatus_field _ Hc) in Hst by done. by injection Hst.
    + intros q Hq. destruct (Hqs q Hq) as (hd & Hqr & Hw). exists hd. split; [|done].
      rewrite Hh1. apply (queue_repr_view (hctrl h)); [done|].
      eapply queue_repr_ext; [done| |exact Hqr]. intros f Hf Hqf. apply Hkeep; [done|].
      destruct f; simpl in *; tauto.
  - rewrite Hh1. exact Hcon.
  - rewrite Hh1. split_and!; try done. unfold stripe_data.
    apply (data_bytes_frame (hbus h) s gs gsc); try done. apply (sb_len _ _ _ Hb).
Qed.

(** Writing fixed bytes at the start of the stripe. *)
Lemma write_handler_computes p :
  computes (write_handler p) (fun data => p ++ drop (length p) data).
Proof. intros b s gs slot m Hwf Hb out Hfit. by apply (write_handler_handles b). Qed.

(** ** Theorems *)

(** C4: A request passed from node to node carries the composition of what the
    nodes compute.  If every stage's node is connected and its handler
    computes a function of the data, and all the results fit the stripe, then
    the calls of [Next] all succeed, the connection's data is the functions
    applied in the order of the stages, and the connection can go on. *)
Theorem Next_pipeline sts fs : forall m h gsc c s gs ch k,
  ready m h gsc c s gs (length sts + k) ->
  Forall2 (fun st f => connected h (st_node st) (st_name st) /\ computes (st_handler st) f) sts fs ->
  fits (data_cap s) (stripe_data m s) fs ->
  exists m' h' c' d, pipeline m h c ch sts = Ret (m', h', c', None) /\
    ready m' h' gsc c' (with_DataLen s d) gs k /\ slotID c' = slotID c /\
    stripe_data m' (with_DataLen s d) = foldl (fun data f => f data) (stripe_data m s) fs.
Proof.
  revert fs. induction sts as [|st sts IH]; intros fs m h gsc c s gs ch k Hrd Hall Hfit.
  { inversion Hall; subst. exists m, h, c, (DataLen s). by destruct s. }
  inversion Hall as [|? f ? fs' [Hcon Hcomp] Hrest]; subst. destruct Hfit as [Hf1 Hfit].
  destruct (exchange_ready _ f m h gsc _ c s gs _ ch _ Hrd Hcon Hcomp Hf1)
    as (m1 & h1 & c1 & E & Hrd1 & Hd1 & _ & _ & _ & Hsl & _ & _ & Hkeep & _).
  destruct (IH fs' m1 h1 gsc c1 _ gs ch k Hrd1) as (m2 & h2 & c2 & d & E2 & Hrd2 & Hsl2 & Hd2).
  { eapply Forall2_impl; [exact Hrest|]. naive_solver. }
  { rewrite Hd1. exact Hfit. }
  exists m2, h2, c2, d. cbn [pipeline foldl]. rewrite E, bind_ret, <- Hd1. split_and!; try done.
  congruence.
Qed.

(** Two handlers on the demonstration node. *)
Definition demo_stages : list stage :=
  [mkStage "worker" demo_peer (write_handler [7; 8; 9]);
   mkStage "worker" demo_peer (write_handler [1; 2])].

Lemma Next_pipeline_witness :
  exists m' h' c' d, pipeline demo_ready_mem demo_hub demo_conn 6 demo_stages = Ret (m', h', c', None) /\
    stripe_data m' (with_DataLen demo_hub_stripe d) = [1; 2; 9].
Proof.
  destruct (Next_pipeline demo_stages
    [(fun data => [7; 8; 9] ++ drop 3 data); (fun data => [1; 2] ++ drop 2 data)]
    demo_ready_mem demo_hub (seqZ 0 256) demo_conn demo_hub_stripe [256; 257; 258] 6 5)
    as (m' & h' & c' & d & E & _ & _ & Hd).
  - split.
    + exact demo_hub_wf.
    + exact demo_conn_ok.
    + intros g Hg Hs. apply elem_of_seqZ in Hs. rewrite !elem_of_cons, elem_of_nil in Hg. lia.
    + vm_compute. split; discriminate.
    + eexists. reflexivity.
    + exists (-1), 256, [257; 258]. vm_compute. split; [done|]. split; [discriminate|done].
    + right. vm_compute. reflexivity.
    + intros q Hq. exists 0. split; [by apply demo_ready_queue|vm_compute; reflexivity].
  - assert (Hcon : connected demo_hub demo_peer "worker").
    { exists 0, (mkNodeInfo 1 0 false). split_and!; try (vm_compute; (reflexivity || discriminate)).
      intros k Hk. cbn in Hk. assert (k = 0) as -> by lia.
      exists (mkChunk (Slice 0 ChunkSize) (-1)). split; reflexivity. }
    repeat constructor; try exact Hcon.
    + exact (write_handler_computes [7; 8; 9]).
    + exact (write_handler_computes [1; 2]).
  - vm_compute. split; [discriminate|]. split; [discriminate|exact I].
  - exists m', h', c', d. split; [exact E|]. rewrite Hd. vm_compute. reflexivity.
Defined.
