(* ===== verification/Connect.v ===== *)
(** * Connecting a node

    The whole of [Dial] of go/hub/hub.go with its error paths, the creation
    of an eventfd (go/sync/eventfd.go) and the sending of descriptors
    (internal/netutil), and the composition with the node's side of the
    socket: what [Dial] sends is what [HandleConn] needs.

    [Dial] runs here as one call, with what other goroutines do between its
    two locked regions as a parameter; file [Dial] interleaves them. *)
From stdpp Require Import base tactics list numbers option gmap strings.
From Stdlib Require Import ZArith Lia.
From S2P Require Import Prelude Memory Layout Protocol Stripe Bus BusOps Control Attach Conn Message.
From S2P Require Import Node Session Hub System Pipeline.
#[local] Open Scope Z_scope.

(** ** Operations *)

(** [sys] is the result of the system call. *)
Definition NewEventfd (sys : option Z) : goerror + Z :=
  match sys with None => inl ErrSys | Some fd => inr fd end.

(** What is on the wire: the bytes and the descriptors of each message. *)
Definition message : Type := list Z * list Z.

Definition SendMsgWithFDs (ok : bool) (wire : list message) (msg fds : list Z)
  : list message * option goerror :=
  if ok then (wire ++ [(msg, fds)], None) else (wire, Some ErrSys).

(** The loops that collect the descriptors of the chunks numbered [ids]. *)
Fixpoint chunk_fds (b : Bus) (ids : list Z) : outcome (list Z) :=
  match ids with
  | [] => Ret []
  | i :: ids' =>
      match GetChunk b (i16 (go_not i)) with
      | None => Panic
      | Some c => rest ← chunk_fds b ids'; Ret (Fd c :: rest)
      end
  end.

(** What the system and the other goroutines do during a call of [Dial]:
    whether the socket opens, the new eventfd, whether the two sends succeed,
    and the hub as it is when [Dial] locks it again. *)
Record dial_env : Type := mkEnv {
  de_opens : bool;
  de_eventfd : option Z;
  de_send1 : bool;
  de_send2 : bool;
  de_meanwhile : Hub -> Hub;
}.

(** [respFd] is the descriptor of the hub's eventfd, [p] the address of the
    new [NodeInfo].  Returns the hub, the messages sent, whether the
    connection was closed again, and the error. *)
Definition Dial (e : dial_env) (respFd p : Z) (h : Hub) (nodeName : string)
  : outcome (Hub * list message * bool * option goerror) :=
  if negb (de_opens e) then Ret (h, [], false, Some ErrSys)
  else
    a ← allocNodeID h;
    match a with
    | (h1, inl err) => Ret (h1, [], true, Some err)
    | (h1, inr nodeID) =>
        match NewEventfd (de_eventfd e) with
        | inl err => Ret (h1, [], true, Some err)
        | inr nodeEv =>
            let count := ChunkCount (hbus h1) in
            fds ← chunk_fds (hbus h1) (seqZ 0 count);
            let '(wire, err) :=
              SendMsgWithFDs (de_send1 e) [] (HandshakeMessage nodeID) (nodeEv :: respFd :: fds) in
            match err with
            | Some err => Ret (h1, wire, false, Some err)
            | None =>
                let h2 := de_meanwhile e h1 in
                let after := ChunkCount (hbus h2) in
                r ← (if decide (count <> after /\ after > count) then
                       more ← chunk_fds (hbus h2) (seqZ count (after - count));
                       Ret (SendMsgWithFDs (de_send2 e) wire NewChunkMessage more)
                     else Ret (wire, None));
                let '(wire2, err2) := r in
                match err2 with
                | Some err => Ret (h2, wire2, false, Some err)
                | None =>
                    let h3 := with_infos h2 (<[p := mkNodeInfo nodeID 0 false]> (infos h2)) in
                    Ret (with_nodes h3 (<[nodeName := p]> (nodes h3)), wire2, false, None)
                end
            end
        end
    end.

(** ** The node's end of the socket

    A message arrives whole, with each descriptor duplicated into the
    receiving process. *)
Definition transport (dup : Z -> Z) (msg : message) : packet :=
  Some (Z.of_nat (length msg.1), msg.1, inr [Some (dup <$> msg.2)]).

(** The messages of a session after the handshake, none of them an error. *)
Fixpoint receive_all (mmap : Z -> option slice) (n : Node) (ps : list packet) : option Node :=
  match ps with
  | [] => Some n
  | p :: ps' =>
      match next_message mmap n p with
      | (n1, None, _, _) => receive_all mmap n1 ps'
      | _ => None
      end
  end.

(** The node's state once it has received what was sent. *)
Definition join (mmap : Z -> option slice) (n : Node) (ps : list packet) : outcome (option Node) :=
  match ps with
  | [] => Ret None
  | first :: ps' =>
      hs ← handshake mmap (ReceiveMsgWithFDs first).1;
      match hs.1.1 with
      | inl _ => Ret None
      | inr s => Ret (receive_all mmap (loadSession n s) ps')
      end
  end.

(** ** Specification vocabulary *)

(** Calls of [Dial] one after the other, their errors ignored. *)
Fixpoint dials (e : dial_env) (respFd p : Z) (k : nat) (h : Hub) (nodeName : string) : outcome Hub :=
  match k with
  | O => Ret h
  | S k' => r ← Dial e respFd p h nodeName; dials e respFd p k' r.1.1.1 nodeName
  end.

(** A descriptor of a chunk still names the same memory after its passage to
    the other process: what the kernel promises for SCM_RIGHTS and shared
    mappings of a memfd. *)
Definition passes (mmap : Z -> option slice) (dup : Z -> Z) (cs : list Chunk) : Prop :=
  forall c, c ∈ cs -> mmap (dup (Fd c)) = Some (CData c).

(** What other goroutines may do to the hub in the meantime: append chunks. *)
Definition meanwhile_ok (f : Hub -> Hub) : Prop :=
  forall h, bus_wf (hbus h) -> grown (hbus h) (hbus (f h)) /\ cstripe (hctrl (f h)) = cstripe (hctrl h).

(** ** Lemmas *)

(** [HandleConn] on these messages goes on with that node. *)
Lemma receive_all_loop mmap ps ps' : forall n n',
  receive_all mmap n ps = Some n' ->
  exists cl un, message_loop mmap n (ps ++ ps') =
    (fun r => (r.1.1.1, cl ++ r.1.1.2, un ++ r.1.2, (length ps + r.2)%nat)) <$> message_loop mmap n' ps'.
Proof.
  induction ps as [|p ps IH]; intros n n' H; cbn [receive_all] in H.
  - injection H as <-. exists [], []. cbn [app length].
    by destruct (message_loop mmap n ps') as [[[[? ?] ?] ?]|].
  - destruct (next_message mmap n p) as [[[n1 [er|]] cl] un] eqn:E; [done|].
    destruct (IH n1 n' H) as (cl1 & un1 & Hl). exists (cl ++ cl1), (un ++ un1).
    cbn [app message_loop]. rewrite E, Hl.
    destruct (message_loop mmap n' ps') as [[[[? ?] ?] ?]|]; [|done].
    cbn. by rewrite !app_assoc.
Qed.

Lemma chunk_fds_ok b ids :
  bus_wf b -> Forall (fun i => 0 <= i < chunkCount b) ids ->
  exists fds, chunk_fds b ids = Ret fds /\
    Forall2 (fun i fd => exists c, chunks b !! Z.to_nat i = Some c /\ Fd c = fd /\
               CData c = Slice (i * ChunkSize) ChunkSize) ids fds.
Proof.
  intros Hwf. pose proof (bus_count _ Hwf) as Hc. pose proof (bus_chunks _ Hwf) as Hl.
  induction 1 as [|i ids Hi _ (fds & E & Hfds)]; [by exists []|].
  destruct (lookup_lt_is_Some_2 (chunks b) (Z.to_nat i)) as [c Hch]; [lia|].
  exists (Fd c :: fds). cbn [chunk_fds]. unfold GetChunk.
  rewrite i16_small, go_not_invol by (unfold go_not; unfold_layout; lia).
  rewrite decide_False, Hch, E, bind_ret by lia. split; [done|]. constructor; [|done].
  exists c. split_and!; [done|done|]. rewrite (bus_data _ Hwf _ _ Hch). by rewrite Z2Nat.id by lia.
Qed.

(** The mappings the node makes of the received descriptors. *)
Lemma passed_maps mmap dup b ids fds :
  passes mmap dup (chunks b) ->
  Forall2 (fun i fd => exists c, chunks b !! Z.to_nat i = Some c /\ Fd c = fd /\
             CData c = Slice (i * ChunkSize) ChunkSize) ids fds ->
  Forall2 (fun fd d => mmap fd = Some d) (dup <$> fds)
    ((fun i => Slice (i * ChunkSize) ChunkSize) <$> ids).
Proof.
  intros Hp. induction 1 as [|i fd ids fds (c & Hc & <- & Hd) _ IH]; [constructor|].
  rewrite !fmap_cons. constructor; [|done]. rewrite Hp; [by rewrite Hd|].
  by eapply list_elem_of_lookup_2.
Qed.

(** A node that has mapped the chunks [0 .. k-1]. *)
Lemma mapped_chunks b (cs : list Chunk) :
  cs = ((fun d => mkChunk d (-1)) <$> ((fun i => Slice (i * ChunkSize) ChunkSize) <$>
          seqZ 0 (chunkCount b))) -> 0 <= chunkCount b ->
  chunks_mapped b cs /\ Z.of_nat (length cs) = chunkCount b.
Proof.
  intros -> Hc. split; [|rewrite !length_fmap, length_seqZ; lia].
  intros k Hk. eexists. rewrite !list_lookup_fmap, (proj2 (lookup_seqZ 0 (chunkCount b) (Z.to_nat k) k)).
  - split; reflexivity.
  - lia.
Qed.

(** [Dial] up to its registration, when everything succeeds: one message
    with all the chunks there were, and one with those that came since. *)
Lemma Dial_run e respFd p h name w rest ev :
  bus_wf (hbus h) -> nodeIDs h = w :: rest -> (exists j, 1 <= j < MaxNodes /\ Z.testbit w j = false) ->
  de_opens e = true -> de_eventfd e = Some ev -> de_send1 e = true -> de_send2 e = true ->
  meanwhile_ok (de_meanwhile e) ->
  exists id fds more,
    let h1 := with_nodeIDs h (Z.lor w (u64 (Z.shiftl 1 id)) :: rest) in
    let h2 := de_meanwhile e h1 in
    let b2 := hbus h2 in
    1 <= id < MaxNodes /\ Z.testbit w id = false /\
    Dial e respFd p h name =
      Ret (with_nodes (with_infos h2 (<[p := mkNodeInfo id 0 false]> (infos h2)))
             (<[name := p]> (nodes h2)),
           (HandshakeMessage id, ev :: respFd :: fds) ::
             (if decide (chunkCount b2 > chunkCount (hbus h)) then [(NewChunkMessage, more)] else []),
           false, None) /\
    chunkCount (hbus h) <= chunkCount b2 /\
    Forall2 (fun i fd => exists c, chunks b2 !! Z.to_nat i = Some c /\ Fd c = fd /\
               CData c = Slice (i * ChunkSize) ChunkSize) (seqZ 0 (chunkCount (hbus h))) fds /\
    Forall2 (fun i fd => exists c, chunks b2 !! Z.to_nat i = Some c /\ Fd c = fd /\
               CData c = Slice (i * ChunkSize) ChunkSize)
      (seqZ (chunkCount (hbus h)) (chunkCount b2 - chunkCount (hbus h))) more.
Proof.
  intros Hwf Hids (j & Hj & Hfree) Ho Hev Hs1 Hs2 Hmw. unfold Dial, allocNodeID.
  rewrite Ho, Hids, Hev, Hs1, Hs2. cbn [negb].
  destruct (alloc_id_loop_spec (Z.to_nat (MaxNodes - 1)) 1 w rest ltac:(lia) ltac:(by vm_compute))
    as [(id & Hid & Hf & _ & ->)|[Hall _]].
  2: { change (1 + Z.of_nat (Z.to_nat (MaxNodes - 1))) with 64 in Hall.
       rewrite Hall in Hfree by (unfold_layout; lia). done. }
  change (1 + Z.of_nat (Z.to_nat (MaxNodes - 1))) with 64 in Hid.
  rewrite !bind_ret. cbn [fst snd NewEventfd].
  set (h1 := with_nodeIDs h _). change (hbus h1) with (hbus h). unfold ChunkCount.
  destruct (Hmw h1 Hwf) as [[Hwf2 (extra & Hch & _)] _]. change (hbus h1) with (hbus h) in Hch.
  pose proof (bus_count _ Hwf) as Hc1. pose proof (bus_chunks _ Hwf) as Hl1.
  pose proof (bus_chunks _ Hwf2) as Hl2. rewrite Hch, length_app in Hl2.
  set (h2 := de_meanwhile e h1) in *.
  assert (Hin : forall i k, 0 <= i -> i + k <= chunkCount (hbus h2) ->
    Forall (fun x => 0 <= x < chunkCount (hbus h2)) (seqZ i k))
    by (intros i k Hi Hk; apply Forall_seqZ; lia).
  destruct (chunk_fds_ok (hbus h) (seqZ 0 (chunkCount (hbus h))) Hwf) as (fds & E1 & Hfds);
    [apply Forall_seqZ; lia|].
  destruct (chunk_fds_ok (hbus h2) (seqZ (chunkCount (hbus h)) (chunkCount (hbus h2) - chunkCount (hbus h)))
    Hwf2) as (more & E2 & Hmore); [apply Hin; lia|].
  exists id, fds, more. cbv zeta. fold h1. fold h2. split; [unfold_layout; lia|]. split; [done|].
  rewrite E1, bind_ret. cbn [SendMsgWithFDs app]. split_and!; try done; try lia.
  - destruct (decide (_ /\ _)) as [[_ Hgt]|Hle].
    + by rewrite E2, !bind_ret, decide_True.
    + by rewrite bind_ret, decide_False by lia.
  - eapply Forall2_impl; [exact Hfds|]. intros i fd (c & Hc & Hr). exists c. split; [|done].
    rewrite Hch. by apply lookup_app_l_Some.
Qed.

(** The node's end of a successful [Dial]. *)
Lemma join_ok mmap dup n b id ev respFd count fds more :
  passes mmap dup (chunks b) -> 1 <= id < MaxNodes -> 1 <= count <= chunkCount b ->
  Forall2 (fun i fd => exists c, chunks b !! Z.to_nat i = Some c /\ Fd c = fd /\
             CData c = Slice (i * ChunkSize) ChunkSize) (seqZ 0 count) fds ->
  Forall2 (fun i fd => exists c, chunks b !! Z.to_nat i = Some c /\ Fd c = fd /\
             CData c = Slice (i * ChunkSize) ChunkSize)
    (seqZ count (chunkCount b - count)) more ->
  exists n', join mmap n (transport dup <$> (HandshakeMessage id, ev :: respFd :: fds) ::
      (if decide (chunkCount b > count) then [(NewChunkMessage, more)] else [])) = Ret (Some n') /\
    nodeID n' = id /\ nodeEv n' = dup ev /\ hubEv n' = dup respFd /\
    Blocks (cstripe (nctrl n')) = first_blocks 256 /\ chunks_mapped b (nchunks n') /\
    Z.of_nat (length (nchunks n')) = chunkCount b.
Proof.
  intros Hp Hid Hc Hf Hm. pose proof (passed_maps mmap dup b _ _ Hp Hf) as Hmap.
  pose proof (passed_maps mmap dup b _ _ Hp Hm) as Hmap2.
  assert (Hs : seqZ 0 count = 0 :: seqZ 1 (count - 1)) by (rewrite seqZ_cons by lia; done).
  rewrite Hs, fmap_cons in Hmap. rewrite Z.mul_0_l in Hmap.
  rewrite fmap_cons. cbn [join transport ReceiveMsgWithFDs parse_rights fst snd app].
  rewrite !fmap_cons. change (Z.of_nat (length (HandshakeMessage id))) with 7.
  rewrite (handshake_ok mmap id _ _ _ _ Hid Hmap), bind_ret. cbn [fst snd].
  case_decide as Hgt; cbn [fmap list_fmap receive_all].
  - unfold next_message. cbn [transport ReceiveMsgWithFDs parse_rights fst snd app].
    cbn [handleMessage head default from_option]. change (u8 MsgNewChunk) with MsgNewChunk.
    rewrite decide_True by done. rewrite (attach_fds_all mmap _ _ [] Hmap2), app_nil_l.
    eexists. split; [reflexivity|]. cbn [nodeID nodeEv hubEv nctrl nchunks with_chunks loadSession
      NodeID NodeEv HubEv ControlStripe Chunks]. do 4 (split; [done|]).
    apply mapped_chunks; [|lia].
    replace (chunkCount b) with (count + (chunkCount b - count)) at 2 by lia.
    rewrite seqZ_app, !fmap_app, Z.add_0_l, Hs by lia. done.
  - eexists. split; [reflexivity|]. do 4 (split; [done|]).
    apply mapped_chunks; [|lia]. replace (chunkCount b) with count by lia. by rewrite Hs.
Qed.

(** No eventfd, or a send that fails: the id stays taken and nothing else is
    left. *)
Lemma Dial_fails e respFd p h name w rest k :
  bus_wf (hbus h) -> nodeIDs h = w :: rest -> 0 <= k < MaxNodes - 1 ->
  (forall j, 1 <= j < 64 -> Z.testbit w j = bool_decide (j <= k)) ->
  de_opens e = true -> de_eventfd e = None \/ de_send1 e = false ->
  exists w' closed, Dial e respFd p h name = Ret (with_nodeIDs h (w' :: rest), [], closed, Some ErrSys) /\
    forall j, 1 <= j < 64 -> Z.testbit w' j = bool_decide (j <= k + 1).
Proof.
  intros Hwf Hids Hk Hw Ho Hfail. unfold Dial, allocNodeID. rewrite Ho, Hids. cbn [negb].
  change (MaxNodes - 1) with 63 in *.
  destruct (alloc_id_loop_spec (Z.to_nat 63) 1 w rest ltac:(lia) ltac:(by vm_compute))
    as [(id & Hid & Hf & Hlow & ->)|[Hall _]].
  2: { specialize (Hall (k + 1) ltac:(lia)). rewrite Hw in Hall by lia.
       apply bool_decide_eq_true in Hall. lia. }
  assert (id = k + 1) as ->.
  { rewrite Hw in Hf by lia. apply bool_decide_eq_false in Hf.
    destruct (decide (id = k + 1)); [done|]. specialize (Hlow (k + 1) ltac:(lia)).
    rewrite Hw in Hlow by lia. apply bool_decide_eq_true in Hlow. lia. }
  rewrite !bind_ret. cbn [fst snd].
  assert (Hbits : forall j, 1 <= j < 64 ->
    Z.testbit (Z.lor w (u64 (Z.shiftl 1 (k + 1)))) j = bool_decide (j <= k + 1)).
  { intros j Hj. rewrite Z.lor_spec, u64_bit, Hw, testbit_one_shift by (done || lia).
    destruct (decide (j = k + 1)) as [->|Hne].
    - rewrite (bool_decide_eq_true_2 (k + 1 = k + 1)), orb_true_r by done.
      by rewrite bool_decide_eq_true_2 by lia.
    - rewrite (bool_decide_eq_false_2 (j = k + 1)), orb_false_r by done. apply bool_decide_ext. lia. }
  destruct (de_eventfd e) as [ev|]; cbn [NewEventfd]; [|eexists _, _; by split; [reflexivity|]].
  destruct Hfail as [|Hs1]; [done|]. rewrite Hs1. change (hbus (with_nodeIDs h _)) with (hbus h).
  destruct (chunk_fds_ok (hbus h) (seqZ 0 (ChunkCount (hbus h))) Hwf) as (fds & -> & _);
    [apply Forall_seqZ; unfold ChunkCount; lia|].
  rewrite bind_ret. eexists _, _. by split; [reflexivity|].
Qed.

Lemma dials_fail e respFd p name rest k : forall h w k0,
  bus_wf (hbus h) -> nodeIDs h = w :: rest -> 0 <= k0 -> k0 + Z.of_nat k <= MaxNodes - 1 ->
  (forall j, 1 <= j < 64 -> Z.testbit w j = bool_decide (j <= k0)) ->
  de_opens e = true -> de_eventfd e = None \/ de_send1 e = false ->
  exists w', dials e respFd p k h name = Ret (with_nodeIDs h (w' :: rest)) /\
    forall j, 1 <= j < 64 -> Z.testbit w' j = bool_decide (j <= k0 + Z.of_nat k).
Proof.
  induction k as [|k IH]; intros h w k0 Hwf Hids Hk0 Hk Hw Ho Hf; cbn [dials].
  - exists w. rewrite Z.add_0_r. split; [|done]. destruct h. cbn in *. by subst.
  - destruct (Dial_fails e respFd p h name w rest k0) as (w1 & closed & -> & Hw1); try (done || lia).
    rewrite bind_ret. cbn [fst].
    destruct (IH (with_nodeIDs h (w1 :: rest)) w1 (k0 + 1)) as (w2 & -> & Hw2); try (done || lia).
    exists w2. split; [done|]. intros j Hj. rewrite Hw2 by done. apply bool_decide_ext. lia.
Qed.

(** [Dial] against the node's end, with what it leaves of the hub. *)
Lemma Dial_joins mmap dup e respFd p h name n w rest ev :
  hub_wf h (seqZ 0 256) -> nodeIDs h = w :: rest ->
  (exists j, 1 <= j < MaxNodes /\ Z.testbit w j = false) ->
  de_opens e = true -> de_eventfd e = Some ev -> de_send1 e = true -> de_send2 e = true ->
  meanwhile_ok (de_meanwhile e) ->
  (forall ids, passes mmap dup (chunks (hbus (de_meanwhile e (with_nodeIDs h ids))))) ->
  exists h' wire n', Dial e respFd p h name = Ret (h', wire, false, None) /\
    join mmap n (transport dup <$> wire) = Ret (Some n') /\ connected h' n' name /\
    Z.testbit w (nodeID n') = false /\ nodeEv n' = dup ev /\ hubEv n' = dup respFd /\
    grown (hbus h) (hbus h') /\ Z.of_nat (length (nchunks n')) = chunkCount (hbus h') /\
    exists ids, let h2 := de_meanwhile e (with_nodeIDs h ids) in
      hbus h' = hbus h2 /\ hctrl h' = hctrl h2 /\ limit h' = limit h2.
Proof.
  intros Hh Hids Hfree Ho Hev Hs1 Hs2 Hmw Hp.
  destruct (Dial_run e respFd p h name w rest ev (hw_bus _ _ Hh) Hids Hfree Ho Hev Hs1 Hs2 Hmw)
    as (id & fds & more & Hid & Hb & E & Hle & Hf & Hm).
  set (h1 := with_nodeIDs h _) in *. set (h2 := de_meanwhile e h1) in *.
  destruct (Hmw h1 (hw_bus _ _ Hh)) as [Hg Hc]. fold h2 in Hg, Hc.
  pose proof (bus_count _ (hw_bus _ _ Hh)).
  destruct (join_ok mmap dup n (hbus h2) id ev respFd (chunkCount (hbus h)) fds more)
    as (n' & Ej & Hn & He1 & He2 & Hbl & Hcm & Hln); [apply Hp|done|lia|done|done|].
  eexists _, _, n'. split; [exact E|]. split; [exact Ej|]. split_and!; try done.
  - exists p, (mkNodeInfo id 0 false). cbn [nodes infos hctrl hbus with_nodes with_infos].
    rewrite !lookup_insert_eq. split_and!; [done|done|done|cbn; lia|cbn; lia|done| |done].
    rewrite Hbl, Hc. change (hctrl h1) with (hctrl h). by rewrite (cb_blocks _ _ _ (hw_ctrl _ _ Hh)).
  - by rewrite Hn.
  - exists (Z.lor w (u64 (Z.shiftl 1 id)) :: rest). done.
Qed.

(** ** Theorems *)

(** C6: A node that [Dial] reports as connected is connected.  On a hub whose
    control stripe is where [NewHub] puts it and that has a free node id, when
    the system calls succeed, [Dial] succeeds, also if chunks are appended
    between its two messages; and a node that receives these messages from a
    faithful kernel has the id under which the hub's table finds it, the
    hub's control stripe as its own, every chunk of the bus mapped, and both
    eventfds. *)
Theorem Dial_connects mmap dup e respFd p h name n w rest ev :
  hub_wf h (seqZ 0 256) -> nodeIDs h = w :: rest ->
  (exists j, 1 <= j < MaxNodes /\ Z.testbit w j = false) ->
  de_opens e = true -> de_eventfd e = Some ev -> de_send1 e = true -> de_send2 e = true ->
  meanwhile_ok (de_meanwhile e) ->
  (forall ids, passes mmap dup (chunks (hbus (de_meanwhile e (with_nodeIDs h ids))))) ->
  exists h' wire n', Dial e respFd p h name = Ret (h', wire, false, None) /\
    join mmap n (transport dup <$> wire) = Ret (Some n') /\ connected h' n' name /\
    Z.testbit w (nodeID n') = false /\ nodeEv n' = dup ev /\ hubEv n' = dup respFd /\
    grown (hbus h) (hbus h').
Proof.
  intros Hh Hids Hfree Ho Hev Hs1 Hs2 Hmw Hp.
  destruct (Dial_joins mmap dup e respFd p h name n w rest ev Hh Hids Hfree Ho Hev Hs1 Hs2 Hmw Hp)
    as (h' & wire & n' & E & Ej & Hc & Hb & He1 & He2 & Hg & _).
  by exists h', wire, n'.
Qed.

(** One chunk is appended while [Dial] does not hold the lock. *)
Definition demo_env : dial_env :=
  mkEnv true (Some 20) true true (fun h => with_bus h (tryAppendChunk demo_mk (hbus h)).1).

Lemma demo_meanwhile : meanwhile_ok (fun h => with_bus h (tryAppendChunk demo_mk (hbus h)).1).
Proof.
  intros h Hwf. split; [|done]. cbn [hbus with_bus].
  pose proof (tryAppendChunk_claimed demo_mk _ _ [] (claimed_refl _ Hwf)) as H.
  destruct (tryAppendChunk demo_mk (hbus h)) as [b' [er|]]; cbn [fst].
  - destruct H as [-> _]. by apply grown_refl.
  - apply (claimed_grown _ _ []), H.
Qed.

Lemma Dial_connects_witness :
  exists h' wire n',
    Dial demo_env 9 7 demo_hub "second" = Ret (h', wire, false, None) /\
    join (fun fd => Some (Slice ((fd - 110) * ChunkSize) ChunkSize)) NewNode
      (transport (fun fd => fd + 100) <$> wire) = Ret (Some n') /\
    connected h' n' "second".
Proof.
  destruct (Dial_connects (fun fd => Some (Slice ((fd - 110) * ChunkSize) ChunkSize))
    (fun fd => fd + 100) demo_env 9 7 demo_hub "second" NewNode 2 (replicate 63 0) 20)
    as (h' & wire & n' & E & Ej & Hc & _); try reflexivity.
  - exact demo_hub_wf.
  - exists 2. split; [vm_compute; split; [discriminate|reflexivity]|reflexivity].
  - exact demo_meanwhile.
  - intros ids c Hc.
    change (c ∈ [mkChunk (Slice 0 ChunkSize) 10; mkChunk (Slice (1 * ChunkSize) ChunkSize) 11]) in Hc.
    rewrite !elem_of_cons, elem_of_nil in Hc.
    destruct Hc as [->|[->|[]]]; reflexivity.
  - exists h', wire, n'. split; [exact E|]. split; [exact Ej|exact Hc].
Defined.

(** C37: A failed [Dial] keeps its node id for ever.  After 63 calls that got
    no eventfd, or whose handshake message could not be sent, the hub has no
    connection it did not have before, but every id is taken: a later [Dial]
    that gets its socket is refused, whatever else the system does. *)
Theorem Dial_leaks_ids e respFd p h name rest :
  bus_wf (hbus h) -> nodeIDs h = 0 :: rest ->
  de_opens e = true -> de_eventfd e = None \/ de_send1 e = false ->
  exists h', dials e respFd p (Z.to_nat (MaxNodes - 1)) h name = Ret h' /\
    nodes h' = nodes h /\ infos h' = infos h /\
    forall e' respFd' p' name', de_opens e' = true ->
      Dial e' respFd' p' h' name' = Ret (h', [], true, Some ErrMaxNodes).
Proof.
  intros Hwf Hids Ho Hf0.
  destruct (dials_fail e respFd p name rest (Z.to_nat (MaxNodes - 1)) h 0 0) as (w & E & Hw);
    [done|done|lia|by vm_compute| |done..|].
  { intros j Hj. rewrite Z.bits_0, bool_decide_eq_false_2 by lia. done. }
  exists (with_nodeIDs h (w :: rest)). split_and!; [done..|].
  intros e' respFd' p' name' Ho'. unfold Dial, allocNodeID. rewrite Ho'. cbn [negb nodeIDs with_nodeIDs].
  destruct (alloc_id_loop_spec (Z.to_nat (MaxNodes - 1)) 1 w rest ltac:(lia) ltac:(by vm_compute))
    as [(id & Hid & Hf & _)|[_ ->]].
  - change (1 + Z.of_nat (Z.to_nat (MaxNodes - 1))) with 64 in Hid. rewrite Hw in Hf by lia.
    apply bool_decide_eq_false in Hf. change (Z.of_nat (Z.to_nat (MaxNodes - 1))) with 63 in Hf. lia.
  - by rewrite !bind_ret.
Qed.

Lemma Dial_leaks_ids_witness :
  exists h', dials (mkEnv true (Some 20) false false id) 9 7 63
      (with_nodeIDs demo_hub (replicate 64 0)) "lost" = Ret h' /\
    Dial demo_env 9 7 h' "second" = Ret (h', [], true, Some ErrMaxNodes).
Proof.
  destruct (Dial_leaks_ids (mkEnv true (Some 20) false false id) 9 7
    (with_nodeIDs demo_hub (replicate 64 0)) "lost" (replicate 63 0)
    (hw_bus _ _ demo_hub_wf) eq_refl eq_refl (or_intror eq_refl)) as (h' & E & _ & _ & Hd).
  exists h'. split; [exact E|]. apply Hd. reflexivity.
Defined.
