(* ===== verification/Examples.v ===== *)
(** * The example programs

    examples/node/main.go and examples/hub/main.go, put together: the node's
    handler with what it uses of the standard library ([io.ReadAll]), the
    hub's [main], and the two running against each other from [NewHub] to
    [Close]. *)
From stdpp Require Import base tactics list numbers option gmap strings.
From Stdlib Require Import ZArith Lia.
From S2P Require Import Prelude Memory Layout Protocol Stripe Bus BusOps Control Attach Conn Message.
From S2P Require Import Node Session Hub System Pipeline Connect.
#[local] Open Scope Z_scope.

(** [[]byte(s)] for a string of ASCII characters. *)
Definition bytes_of (s : string) : list Z :=
  (fun a => Z.of_nat (Ascii.nat_of_ascii a)) <$> String.list_ascii_of_string s.

(** ** The node *)
Section node.
(** The capacity [append] gives to a full slice. *)
Context (grow : nat -> nat).

(** [io.ReadAll] on the handler's connection, from the bytes [b] read so far in
    a slice of capacity [cap]. *)
Fixpoint ReadAll (fuel : nat) (m : mem) (c : nodeConn) (b : list Z) (cap : nat)
  : outcome (nodeConn * (list Z * option goerror)) :=
  match fuel with
  | O => Diverge
  | S fuel' =>
      r ← node_Read m c (replicate (cap - length b) 0);
      let '(c1, (n, err, buf)) := r in
      let b1 := b ++ take (Z.to_nat n) buf in
      match err with
      | Some e => Ret (c1, (b1, if decide (e = ErrEOF) then None else Some e))
      | None => ReadAll fuel' m c1 b1 (if decide (length b1 = cap) then grow cap else cap)
      end
  end.

Definition response : list Z := bytes_of "Acknowledged".

(** The handler.  [hub] answers expansion requests, of which this handler makes
    none on a stripe with a data block; one round of [ReadAll] per byte and one
    for the end are enough.  A run that does not end counts as a panic. *)
Definition ack_handler (hub : mem -> Z -> mem * option bool) (n : Node) : Handler := fun m c =>
  match ReadAll (S (Z.to_nat (DataLen (stripe c)))) m c [] 512 with
  | Ret (c1, (data, Some e)) => (m, c1, false)
  | Ret (c1, (data, None)) =>
      match node_Write hub 1 m n c1 response with
      | Ret (m1, _, c2, _) => (m1, c2, false)
      | _ => (m, c1, true)
      end
  | _ => (m, c, true)
  end.
End node.

(** ** The hub *)

(** What the world gives to the two programs: the chunks and eventfds of the
    system, the passage of descriptors and their mapping in the node. *)
Record world : Type := mkWorld {
  wd_mk : Z -> option Chunk;
  wd_chunk0 : option Chunk;
  wd_respFd : Z;
  wd_dial : dial_env;
  wd_dup : Z -> Z;
  wd_mmap : Z -> option slice;
}.

(** [main] up to the end of [Next], with the node's handler on the other side;
    [None] is an exit through [log.Fatalf].  The error of [Dial] is ignored. *)
Definition hub_main (w : world) (hdl : Node -> Handler) (ch p : Z) (data : list Z)
  : outcome (option (mem * Hub * busConn)) :=
  r ← NewHub (wd_mk w) ∅ (wd_chunk0 w) true;
  match r with
  | (_, inl _) => Ret None
  | (m, inr h) =>
      d ← Dial (wd_dial w) (wd_respFd w) p h "my_node";
      let '(h1, wire, _, _) := d in
      j ← join (wd_mmap w) NewNode (transport (wd_dup w) <$> wire);
      let n := default NewNode j in
      q ← Request (wd_mk w) m h1 1 ch false;
      match q with
      | (_, _, inl _) => Ret None
      | (m2, h2, inr c) =>
          wr ← conn_Write (wd_mk w) m2 (hbus h2) c data;
          let '(m3, b3, c3, (_, err)) := wr in
          match err with
          | Some _ => Ret None
          | None =>
              x ← exchange (hdl n) m3 (with_bus h2 b3) n c3 ch "my_node";
              let '(m4, h4, _, c4, e4) := x in
              match e4 with
              | Some _ => Ret None
              | None => Ret (Some (m4, h4, c4))
              end
          end
      end
  end.

(** ** The handler's lemmas *)
Lemma node_Read_stripe m c buf :
  stripe_wf (stripe c) -> 0 <= nreadOff c < DataLen (stripe c) ->
  let n := Z.min (Z.of_nat (length buf)) (DataLen (stripe c) - nreadOff c) in
  node_Read m c buf =
  Ret (set_readOff c (nreadOff c + n),
       (n, None, take (Z.to_nat n) (drop (Z.to_nat (nreadOff c)) (stripe_data m (stripe c))) ++
                 drop (Z.to_nat n) buf)).
Proof.
  intros Hwf Hr n. unfold node_Read. rewrite ReadAt_effect by (done || lia). fold n. rewrite bind_ret.
  pose proof (bwf_cap _ (swf_blocks _ Hwf)). pose proof (swf_len _ Hwf).
  rewrite i64_small by (unfold data_cap in *; unfold_layout; lia).
  rewrite data_bytes_sub by lia. done.
Qed.

(** [io.ReadAll] ends and returns all that is left to read. *)
Lemma ReadAll_ok grow m fuel : forall c b cap,
  (forall k, (k < grow k)%nat) -> stripe_wf (stripe c) -> 0 <= nreadOff c -> (length b < cap)%nat ->
  Z.max 0 (DataLen (stripe c) - nreadOff c) < Z.of_nat fuel ->
  exists c', ReadAll grow fuel m c b cap =
      Ret (c', (b ++ drop (Z.to_nat (nreadOff c)) (stripe_data m (stripe c)), None)) /\
    stripe c' = stripe c /\ nwriteOff c' = nwriteOff c /\ nslotID c' = nslotID c /\ failed c' = failed c.
Proof.
  induction fuel as [|fuel IH]; intros c b cap Hg Hwf Hr Hb Hf; [lia|].
  assert (Hlen : length (stripe_data m (stripe c)) = Z.to_nat (DataLen (stripe c)))
    by apply length_data_bytes.
  cbn [ReadAll]. destruct (decide (nreadOff c < DataLen (stripe c))) as [Hlt|Hge].
  - rewrite node_Read_stripe by (done || lia). rewrite bind_ret, length_replicate.
    set (k := Z.min _ _). set (d := drop _ _).
    assert (Hd : length d = Z.to_nat (DataLen (stripe c) - nreadOff c))
      by (unfold d; rewrite length_drop; lia).
    assert (Ht : length (take (Z.to_nat k) d) = Z.to_nat k) by (rewrite length_take; lia).
    rewrite take_app_le, take_take, Nat.min_id by lia.
    set (c1 := set_readOff c (nreadOff c + k)). set (b1 := b ++ take (Z.to_nat k) d).
    assert (Hb1 : (length b1 <= cap)%nat) by (unfold b1; rewrite length_app; lia).
    destruct (IH c1 b1 (if decide (length b1 = cap) then grow cap else cap)) as (c' & E & Hc').
    + done.
    + done.
    + cbn. lia.
    + case_decide; [specialize (Hg cap)|]; lia.
    + cbn. lia.
    + exists c'. split; [|done]. rewrite E. do 3 f_equal. unfold b1, d. cbn [c1 set_readOff stripe nreadOff].
      rewrite <- app_assoc. f_equal. rewrite Z2Nat.inj_add, <- drop_drop by lia. apply take_drop.
  - exists c. unfold node_Read, ReadAt. rewrite (decide_False (P := nreadOff c < 0)) by lia.
    rewrite decide_True, !bind_ret by lia. rewrite decide_True by done.
    rewrite take_0, drop_ge by lia. done.
Qed.

(** A write that fits needs no help from the hub. *)
Lemma node_Write_fits hub fuel m n c b gs p :
  stripe_backed b (stripe c) gs -> nwriteOff c = 0 -> Z.of_nat (length p) <= data_cap (stripe c) ->
  Z.of_nat (length p) <= StripeDataSizeLimit ->
  node_Write hub fuel m n c p =
  (w ← WriteAt m (stripe c) p 0;
   let '(m', s', (k, e)) := w in
   match e with
   | Some e => Ret (m', n, set_stripe c s', (0, Some e))
   | None => Ret (m', n, set_writeOff (set_stripe c s') (i64 (0 + k)), (k, None))
   end).
Proof.
  intros Hb Hw Hfit Hlim. unfold node_Write, node_WriteAt. rewrite Hw, Z.add_0_l.
  pose proof (sb_count _ _ _ Hb) as Hc.
  assert (Hlen : length (Blocks (stripe c)) = length gs) by apply (backed_length _ _ _ Hb).
  rewrite i64_small by (unfold_layout; lia). rewrite decide_False by lia.
  assert (Hex : expand_loop hub fuel m n c (Z.of_nat (length p)) = Ret (m, n, c, None)).
  { destruct fuel; cbn [expand_loop]; rewrite decide_False; try done;
      unfold data_cap in Hfit; rewrite Hlen in Hfit; unfold_layout; lia. }
  rewrite Hex, bind_ret.
  destruct (WriteAt m (stripe c) p 0) as [[[m' s'] [k [e|]]]| |]; try done.
  rewrite !bind_ret. cbn [nwriteOff set_stripe]. by rewrite Hw.
Qed.

(** The handler computes: the response over the start of the request. *)
Lemma ack_handler_computes grow hub n :
  (forall k, (k < grow k)%nat) ->
  computes (ack_handler grow hub n) (fun data => response ++ drop (length response) data).
Proof.
  intros Hg b s gs slot m0 Hwf Hb out Hfit m Hpub Harea.
  pose proof (stripe_backed_wf _ _ _ Hwf Hb) as Hswf. pose proof (swf_len _ Hswf) as Hl.
  destruct (write_handler_handles b s gs slot m0 response Hwf Hb Hfit m Hpub Harea)
    as (m' & c' & pan & EH & Hfin & Hrest).
  unfold ack_handler. cbn [stripe].
  destruct (ReadAll_ok grow m (S (Z.to_nat (DataLen s))) (mkNConn s 0 0 slot false) [] 512)
    as (c1 & E & Hs1 & Hw1 & Hi1 & Hf1); [done|done|done|simpl; lia|cbn; lia|].
  cbn [stripe nwriteOff nslotID failed] in *. rewrite E.
  assert (Hr : (length response <= length out)%nat) by (unfold out; rewrite length_app; lia).
  rewrite (node_Write_fits hub 1 m n c1 b gs response) by (rewrite ?Hs1; done || lia).
  rewrite Hs1.
  unfold write_handler in EH. cbn [stripe] in EH.
  destruct (WriteAt m s response 0) as [[[m2 s2] [k [e|]]]| |]; rewrite ?bind_ret;
    injection EH as <- <- <-; (exists m2 || exists m);
    (eexists _, _; split; [reflexivity|]; split; [|exact Hrest]); (by right) || (by left).
Qed.

(** ** The hub's lemmas *)

(** A hub on which nothing has been requested yet. *)
Record untouched (m : mem) (h : Hub) : Prop := {
  ut_hub : hub_wf h (seqZ 0 256);
  ut_used : forall g, 0 <= g -> used (hbus h) g = bool_decide (g ∈ seqZ 0 256);
  ut_queues : forall q, 0 <= q < MaxNodes -> queue_repr m (hctrl h) q 0 [];
  ut_idle : forall i, 1 <= i <= MaxTotalSlots -> fread m (hctrl h) (SStatus i) = StripeStatusIdle;
  ut_limit : limit h = 0;
}.

Lemma untouched_free m h : untouched m h -> 2 <= Z.of_nat (length (free_list (hbus h))).
Proof.
  intros [Hh Hu _ _ _]. pose proof (bus_count _ (hw_bus _ _ Hh)).
  assert (Hsub : [256; 257] ⊆+ free_list (hbus h)).
  { apply NoDup_submseteq; [apply (NoDup_seqZ 256 2)|]. intros g Hg.
    rewrite elem_of_free_list. unfold managed. rewrite !elem_of_cons, elem_of_nil in Hg.
    rewrite Hu, bool_decide_eq_false by lia. rewrite elem_of_seqZ. unfold_layout. lia. }
  apply submseteq_length in Hsub. simpl in Hsub. lia.
Qed.

(** [NewHub] and [Dial]. *)
Lemma connect_ok w p c0 ev :
  wd_chunk0 w = Some c0 -> CData c0 = Slice 0 ChunkSize ->
  de_opens (wd_dial w) = true -> de_eventfd (wd_dial w) = Some ev ->
  de_send1 (wd_dial w) = true -> de_send2 (wd_dial w) = true -> de_meanwhile (wd_dial w) = id ->
  wd_mmap w (wd_dup w (Fd c0)) = Some (CData c0) ->
  exists m h h1 wire n, NewHub (wd_mk w) ∅ (wd_chunk0 w) true = Ret (m, inr h) /\
    Dial (wd_dial w) (wd_respFd w) p h "my_node" = Ret (h1, wire, false, None) /\
    join (wd_mmap w) NewNode (transport (wd_dup w) <$> wire) = Ret (Some n) /\
    connected h1 n "my_node" /\ Z.of_nat (length (nchunks n)) = chunkCount (hbus h1) /\ untouched m h1.
Proof.
  intros Hc Hd Ho Hev Hs1 Hs2 Hmw Hmap. rewrite Hc.
  destruct (NewHub_spec (wd_mk w) c0 Hd)
    as (m & h & gsc & E & Hh & Hu & Hq & Hi & _ & _ & Hl & -> & Hch & Hids).
  change (replicate (Z.to_nat MaxNodes) 0) with (0 :: replicate 63 0) in Hids.
  destruct (Dial_joins (wd_mmap w) (wd_dup w) (wd_dial w) (wd_respFd w) p h "my_node" NewNode
    0 (replicate 63 0) ev Hh Hids) as (h1 & wire & n & Ed & Ej & Hcon & _ & _ & _ & _ & Hln & ids & Hb1 & Hb2 & Hb3);
    [|exact Ho|exact Hev|exact Hs1|exact Hs2|..].
  - exists 1. split; [unfold_layout; lia|done].
  - intros h' Hwf'. rewrite Hmw. split; [by apply grown_refl|done].
  - intros ids c. rewrite Hmw. cbn [hbus with_nodeIDs id]. rewrite Hch, list_elem_of_singleton.
    by intros ->.
  - rewrite Hmw in Hb1, Hb2, Hb3. cbn in Hb1, Hb2, Hb3.
    exists m, h, h1, wire, n. split; [exact E|]. split; [exact Ed|]. split; [exact Ej|].
    split; [exact Hcon|]. split; [exact Hln|].
    pose proof (ctrl_backed_wf _ _ _ (hw_bus _ _ Hh) (hw_ctrl _ _ Hh)) as Hcw.
    split; rewrite ?Hb1, ?Hb2, ?Hb3; [|exact Hu|exact Hq| |exact Hl].
    + destruct Hh. split; by rewrite ?Hb1, ?Hb2, ?Hb3.
    + intros i Hir. specialize (Hi i Hir). rewrite (GetStripeStatus_field _ Hcw) in Hi by done.
      by injection Hi.
Qed.

(** [Request], [Write] and [Next] on such a hub with a connected node. *)
Lemma request_ok w hdl f m h n ch data :
  ChunkSource (wd_mk w) -> untouched m h -> connected h n "my_node" -> computes hdl f ->
  Z.of_nat (length data) <= BlockSize -> Z.of_nat (length (f data)) <= BlockSize ->
  exists m2 h2 c m3 c3 m4 h4 c4 s gs,
    Request (wd_mk w) m h 1 ch false = Ret (m2, h2, inr c) /\
    conn_Write (wd_mk w) m2 (hbus h2) c data =
      Ret (m3, hbus h2, c3, (Z.of_nat (length data), None)) /\
    exchange hdl m3 (with_bus h2 (hbus h2)) n c3 ch "my_node" = Ret (m4, h4, n, c4, None) /\
    ready m4 h4 (seqZ 0 256) c4 s gs 0 /\ stripe_data m4 s = f data /\ readOff c4 = 0 /\
    claimed (hbus h) (hbus h4) gs /\ limit h4 = 1 /\
    forall i, 1 <= i <= MaxTotalSlots -> i <> slotID c4 ->
      fread m4 (hctrl h4) (SStatus i) = StripeStatusIdle.
Proof.
  intros Hmk Hut Hcon Hcomp Hlen Hlenf. pose proof (untouched_free m h Hut) as Hfree.
  destruct Hut as [Hh Hu Hqs Hidle Hlim].
  destruct (Request_local (wd_mk w) m h (seqZ 0 256) 1 ch Hh) as
    (m2 & b2 & s & gs & Er & Hh2 & Hok & HD & Hcl & Hgl & Hfr2 & Hcc & Hsq); [lia|lia|].
  pose proof (co_backed _ _ _ _ _ Hok) as Hb. pose proof (backed_cap _ _ _ Hb) as Hcap.
  assert (Hap : forall g, g ∈ gs -> g ∈ seqZ 0 256 -> False)
    by (intros g; eapply claimed_apart; [exact Hcl|apply Hh]).
  destruct (conn_Write_fits (wd_mk w) m2 b2 (mkConn (Some s) 0 0 0 None) s gs data)
    as (m3 & Ew & Hok3 & Hd3 & Hfr3); [apply Hh2|done|by rewrite HD|rewrite HD, Hcap; lia|].
  cbv zeta in *. rewrite HD, Z.add_0_l in *. set (s3 := with_DataLen s _) in *. set (c3 := with_writeOff _ _) in *.
  assert (Hd0 : stripe_data m2 s = []) by (unfold stripe_data; by rewrite HD).
  rewrite Hd0, app_nil_l in Hd3.
  assert (Hfld : forall fl, field_ok fl -> fread m3 (hctrl h) fl = fread m (hctrl h) fl).
  { intros fl Hfl. eapply (ctrl_untouched (hbus h)); [apply Hh|apply Hh|exact Hap| |done].
    by eapply mem_frame_trans. }
  destruct (exchange_first hdl m3 (with_bus h b2) (seqZ 0 256) n c3 s3 gs "my_node" ch 1)
    as (m1 & h1 & slot & Ex & Hrd & Hcon1 & Hd1 & Hid & Hb1 & Hst1 & Hl1 & Hkeep); try done.
  { cbn. rewrite Hlim. unfold_layout. lia. }
  { exists 1. split; [unfold_layout; lia|]. cbn [hctrl with_bus].
    rewrite Hfld by (simpl; unfold_layout; lia). apply Hidle. unfold_layout. lia. }
  { intros q Hq. exists 0. split; [|lia]. cbn [hctrl with_bus].
    eapply queue_repr_ext; [done| |by apply Hqs]. intros fl Hfl _. by apply Hfld. }
  { destruct Hcon as (p & ni & H1 & H2 & H3 & H4 & H5 & H6 & H7). exists p, ni. split_and!; try done; try lia.
    intros k Hk. apply H7. cbn in Hk. by rewrite <- Hcc. }
  cbn [hctrl with_bus hbus limit] in *.
  destruct (exchange_ready hdl f m1 h1 (seqZ 0 256) n _ s3 gs "my_node" ch 0 Hrd Hcon1 Hcomp)
    as (m4 & h4 & c4 & Ex4 & Hrd4 & Hd4 & Hb4 & Hc4 & Hl4 & Hsl4 & Hr4 & _ & _ & Hby & _).
  { rewrite Hd1, Hd3. change (data_cap s3) with (data_cap s). rewrite Hcap. lia. }
  rewrite Hd1, Hd3 in *. cbn [slotID] in *.
  exists m2, (with_bus h b2), (mkConn (Some s) 0 0 0 None), m3, c3, m4, h4, c4. eexists _, gs.
  split; [exact Er|]. split; [exact Ew|]. split; [etransitivity; [exact Ex|exact Ex4]|].
  split; [exact Hrd4|]. split; [exact Hd4|]. split; [done|]. split; [by rewrite Hb4, Hb1|].
  split; [rewrite Hl4, Hl1, Hlim; done|]. intros i Hi Hne. rewrite Hsl4 in Hne.
  assert (Hview : forall m fl, fread m (hctrl h4) fl = fread m (hctrl h) fl).
  { intros mm fl. rewrite Hc4. apply fread_view. by rewrite Hst1. }
  assert (Hview1 : forall m fl, fread m (hctrl h1) fl = fread m (hctrl h) fl).
  { intros mm fl. apply fread_view. by rewrite Hst1. }
  rewrite Hview, <- Hview1, Hby, Hview1, Hkeep, Hfld; [by apply Hidle|done|done|simpl; congruence|done|].
  exists i. done.
Qed.

(** ** Theorems *)

(** C5: The example programs work together.  With a system whose calls succeed and
    a kernel that passes descriptors faithfully, the hub's [main] runs through
    for any request of at most one block: [NewHub], [Dial], the request
    without a slot, the write and [Next] succeed, the node's handler runs to
    its end, and the connection then holds the handler's answer.  The
    deferred [Close] returns every block, the slot and the token. *)
Theorem example_completes w grow hub ch p c0 ev data :
  ChunkSource (wd_mk w) -> wd_chunk0 w = Some c0 -> CData c0 = Slice 0 ChunkSize ->
  de_opens (wd_dial w) = true -> de_eventfd (wd_dial w) = Some ev ->
  de_send1 (wd_dial w) = true -> de_send2 (wd_dial w) = true -> de_meanwhile (wd_dial w) = id ->
  wd_mmap w (wd_dup w (Fd c0)) = Some (CData c0) -> (forall k, (k < grow k)%nat) ->
  Z.of_nat (length data) <= BlockSize ->
  exists m h c s, hub_main w (ack_handler grow hub) ch p data = Ret (Some (m, h, c)) /\
    cnStripe c = Some s /\ readOff c = 0 /\
    stripe_data m s = response ++ drop (length response) data /\
    exists m' h' c', Close m h c = Ret (m', h', c') /\
      (forall g, 0 <= g -> used (hbus h') g = bool_decide (g ∈ seqZ 0 256)) /\
      (forall i, 1 <= i <= MaxTotalSlots -> GetStripeStatus m' (hctrl h') i = Ret StripeStatusIdle) /\
      limit h' = 0.
Proof.
  intros Hmk Hc0 Hd0 Ho Hev Hs1 Hs2 Hmw Hmap Hg Hlen.
  destruct (connect_ok w p c0 ev Hc0 Hd0 Ho Hev Hs1 Hs2 Hmw Hmap)
    as (m & h0 & h & wire & n & E1 & E2 & E3 & Hcon & _ & Hut).
  destruct (request_ok w (ack_handler grow hub n) _ m h n ch data Hmk Hut Hcon
    (ack_handler_computes grow hub n Hg) Hlen)
    as (m2 & h2 & c & m3 & c3 & m4 & h4 & c4 & s & gs & E4 & E5 & E6 & Hrd & Hd & Hr & Hcl & Hl & Hid).
  { rewrite length_app, length_drop. change (length response) with 12%nat.
    change BlockSize with 4096 in *. lia. }
  pose proof Hrd as [Hh Hok Hap Hsl _ _ _ _].
  pose proof (ctrl_backed_wf _ _ _ (hw_bus _ _ Hh) (hw_ctrl _ _ Hh)) as Hcw.
  exists m4, h4, c4, s. split.
  { unfold hub_main. rewrite E1, bind_ret, E2, bind_ret, E3, bind_ret. cbn [default from_option id].
    rewrite E4, bind_ret, E5, bind_ret, E6, bind_ret. reflexivity. }
  split; [apply Hok|]. split; [exact Hr|]. split; [exact Hd|].
  destruct (Close_spec m4 h4 _ c4 s gs Hh Hok Hap Hsl)
    as (m5 & h5 & c5 & E7 & _ & Hh5 & Hrel & Hctl & Hlm & Hs5 & Hoth & _).
  exists m5, h5, c5. split; [exact E7|]. split; [|split].
  - intros g Hg0. rewrite (released_claimed _ _ _ _ Hcl Hrel) by done. by apply Hut.
  - intros i Hi. rewrite Hctl, (GetStripeStatus_field _ Hcw) by done. f_equal.
    destruct (decide (i = slotID c4)) as [->|Hne]; [done|].
    rewrite Hoth; [by apply Hid|done|congruence].
  - rewrite Hlm, Hl. done.
Qed.

(** The request of the example, on a small system. *)
Definition demo_world : world :=
  mkWorld demo_mk (Some (mkChunk (Slice 0 ChunkSize) 10)) 9 (mkEnv true (Some 20) true true id)
    (fun fd => fd + 100) (fun fd => Some (Slice ((fd - 110) * ChunkSize) ChunkSize)).

Lemma example_completes_witness :
  exists m h c s,
    hub_main demo_world (ack_handler (fun k => S (2 * k)) (fun m _ => (m, None))) 5 7
      (bytes_of "Hello MMFG!") = Ret (Some (m, h, c)) /\
    cnStripe c = Some s /\ stripe_data m s = bytes_of "Acknowledged".
Proof.
  destruct (example_completes demo_world (fun k => S (2 * k)) (fun m _ => (m, None)) 5 7
    (mkChunk (Slice 0 ChunkSize) 10) 20 (bytes_of "Hello MMFG!"))
    as (m & h & c & s & E & Hs & _ & Hd & _); try reflexivity.
  - exact demo_mk_source.
  - intros k. lia.
  - vm_compute. discriminate.
  - exists m, h, c, s. split; [exact E|]. split; [exact Hs|]. rewrite Hd. vm_compute. reflexivity.
Defined.
