(* ===== verification/Service.v ===== *)
(** * The service as a table of byte strings

    The hub with its connections and the nodes behind it, driven by any
    sequence of [Request], [Write], [Read], [Next] and [Close] calls: to the
    caller it is a table that holds, for each connection, its bytes and two
    offsets, and in which [Next] applies the function the node computes.
    Blocks, slots, queues, headers and the chunks that are appended and
    announced on the way do not show. *)
From stdpp Require Import base tactics list numbers option gmap strings relations.
From Stdlib Require Import ZArith Lia.
From S2P Require Import Prelude Memory Layout Protocol Stripe Bus BusOps Control Attach Conn Message.
From S2P Require Import Node Session Hub Ledger System Pipeline Connect Examples.
#[local] Open Scope Z_scope.

(** ** The service *)

(** The hub with its connections, and the nodes. *)
Record svc : Type := mkSvc { sv_sys : sys; sv_peers : list stage }.

(** Calls: the connection by its place, the node by its place. *)
Inductive call : Type :=
| SRequest (blockCount ch : Z)
| SWrite (i : nat) (data : list Z)
| SRead (i n : nat)
| SNext (i j : nat) (ch : Z)
| SClose (i : nat).

(** What the caller sees. *)
Inductive answer : Type := ROk | RErr | RBytes (data : list Z).

Section service.
Context (mk : Z -> option Chunk) (mmap : Z -> option slice) (dup : Z -> Z).

(** [AppendedChunkBroacast]: every node is sent the chunks appended since. *)
Definition announce (b b' : Bus) (p : stage) : stage :=
  let msgs := (fun c => (NewChunkMessage, [Fd c])) <$> drop (length (appended b)) (appended b') in
  mkStage (st_name p)
    (default (st_node p) (receive_all mmap (st_node p) (transport dup <$> msgs))) (st_handler p).

Definition settle (m : mem) (h h' : Hub) (cs : list busConn) (ps : list stage) : svc :=
  mkSvc (mkSys m h' cs) (announce (hbus h) (hbus h') <$> ps).

Definition perform (st : svc) (o : call) : outcome (svc * answer) :=
  let '(mkSvc (mkSys m h cs) ps) := st in
  match o with
  | SRequest blockCount ch =>
      r ← Request mk m h blockCount ch true;
      match r with
      | (m', h', inl _) => Ret (settle m' h h' cs ps, RErr)
      | (m', h', inr c) => Ret (settle m' h h' (c :: cs) ps, ROk)
      end
  | SWrite i data =>
      c ← go_index cs (Z.of_nat i);
      r ← conn_Write mk m (hbus h) c data;
      let '(m', b', c', (_, err)) := r in
      Ret (settle m' h (with_bus h b') (<[i := c']> cs) ps,
           match err with Some _ => RErr | None => ROk end)
  | SRead i n =>
      c ← go_index cs (Z.of_nat i);
      r ← conn_Read m c (replicate n 0);
      let '(c', (k, err, buf)) := r in
      Ret (mkSvc (mkSys m h (<[i := c']> cs)) ps,
           match err with Some _ => RErr | None => RBytes (take (Z.to_nat k) buf) end)
  | SNext i j ch =>
      c ← go_index cs (Z.of_nat i);
      p ← go_index ps (Z.of_nat j);
      r ← exchange (st_handler p) m h (st_node p) c ch (st_name p);
      let '(m', h', n', c', err) := r in
      Ret (mkSvc (mkSys m' h' (<[i := c']> cs)) (<[j := mkStage (st_name p) n' (st_handler p)]> ps),
           match err with Some _ => RErr | None => ROk end)
  | SClose i =>
      c ← go_index cs (Z.of_nat i);
      r ← Close m h c;
      let '(m', h', _) := r in
      Ret (settle m' h h' (delete i cs) ps, ROk)
  end.

(** ** The specification *)

Record row : Type := mkRow { r_data : list Z; r_woff : Z; r_roff : Z }.

(** [fs] is what the nodes compute.  A request or a write may fail for want of
    memory and then changes nothing. *)
Inductive spec (fs : list (list Z -> list Z)) : list row -> call -> answer -> list row -> Prop :=
| sp_request t blockCount ch : spec fs t (SRequest blockCount ch) ROk (mkRow [] 0 0 :: t)
| sp_request_fails t blockCount ch : spec fs t (SRequest blockCount ch) RErr t
| sp_write t i data r : t !! i = Some r ->
    spec fs t (SWrite i data) ROk
      (<[i := mkRow (splice (r_data r) (Z.to_nat (r_woff r)) data)
                (r_woff r + Z.of_nat (length data)) (r_roff r)]> t)
| sp_write_fails t i data : spec fs t (SWrite i data) RErr t
| sp_read t i n r : t !! i = Some r -> r_roff r < Z.of_nat (length (r_data r)) ->
    let out := take n (drop (Z.to_nat (r_roff r)) (r_data r)) in
    spec fs t (SRead i n) (RBytes out)
      (<[i := mkRow (r_data r) (r_woff r) (r_roff r + Z.of_nat (length out))]> t)
| sp_read_end t i n r : t !! i = Some r -> Z.of_nat (length (r_data r)) <= r_roff r ->
    spec fs t (SRead i n) RErr t
| sp_next t i j ch r f : t !! i = Some r -> fs !! j = Some f ->
    spec fs t (SNext i j ch) ROk (<[i := mkRow (f (r_data r)) 0 0]> t)
| sp_close t i : spec fs t (SClose i) ROk (delete i t).

(** Admissible calls: connections that exist, sizes a header can describe, a
    free token, and results of nodes that fit the blocks there are. *)
Definition call_ok (fs : list (list Z -> list Z)) (st : svc) (o : call) : Prop :=
  let cs := sconns (sv_sys st) in
  match o with
  | SRequest blockCount _ => 0 <= blockCount <= 1021 /\ Z.of_nat (length cs) < MaxTotalSlots
  | SWrite i data => exists c, cs !! i = Some c /\ writeOff c + Z.of_nat (length data) <= 1021 * BlockSize
  | SRead i _ => (i < length cs)%nat
  | SNext i j _ => exists c s f, cs !! i = Some c /\ cnStripe c = Some s /\ fs !! j = Some f /\
      Z.of_nat (length (f (stripe_data (smem (sv_sys st)) s))) <= data_cap s
  | SClose i => (i < length cs)%nat
  end.

(** A request or a write that finds fewer free blocks than it needs: one per
    block and one for the header, or enough for the bytes that the stripe has
    no room for.  The other calls do not allocate. *)
Definition short (st : svc) (o : call) : Prop :=
  let free := Z.of_nat (length (free_list (hbus (shub (sv_sys st))))) in
  match o with
  | SRequest blockCount _ => free < blockCount + 1
  | SWrite i data => exists c s, sconns (sv_sys st) !! i = Some c /\ cnStripe c = Some s /\
      free * BlockSize < writeOff c + Z.of_nat (length data) - data_cap s
  | _ => True
  end.

(** The kernel passes the descriptors of the chunks faithfully. *)
Definition kernel_ok (st : svc) : Prop := passes mmap dup (chunks (hbus (shub (sv_sys st)))).

(** Runs with the calls made and the answers received. *)
Inductive runs (fs : list (list Z -> list Z)) : svc -> list (call * answer) -> svc -> Prop :=
| rn_nil st : runs fs st [] st
| rn_cons st o a st1 tr st2 : call_ok fs st o -> perform st o = Ret (st1, a) -> kernel_ok st1 ->
    runs fs st1 tr st2 -> runs fs st ((o, a) :: tr) st2.

Inductive spec_runs (fs : list (list Z -> list Z)) : list row -> list (call * answer) -> list row -> Prop :=
| sr_nil t : spec_runs fs t [] t
| sr_cons t o a t1 tr t2 : spec fs t o a t1 -> spec_runs fs t1 tr t2 -> spec_runs fs t ((o, a) :: tr) t2.

(** ** The invariant *)

(** The row of a connection. *)
Definition shows (m : mem) (c : busConn) (r : row) : Prop :=
  exists s, cnStripe c = Some s /\ stripe_data m s = r_data r /\ writeOff c = r_woff r /\
    readOff c = r_roff r /\ 0 <= r_woff r <= Z.of_nat (length (r_data r)) /\ 0 <= r_roff r.

(** A connection that may call [Next]. *)
Definition poised (m : mem) (h : Hub) (c : busConn) : Prop :=
  is_Some (cnDone c) /\ (fread m (hctrl h) (SStatus (slotID c)) = StripeStatusDone \/
                         fread m (hctrl h) (SStatus (slotID c)) = StripeStatusReady).

(** A node that has exactly the chunks of the bus. *)
Definition synced (h : Hub) (p : stage) : Prop :=
  connected h (st_node p) (st_name p) /\ Z.of_nat (length (nchunks (st_node p))) = chunkCount (hbus h).

Definition quiet (k : nat) (m : mem) (h : Hub) : Prop :=
  forall q, 0 <= q < MaxNodes -> exists head,
    queue_repr m (hctrl h) q head [] /\ head + Z.of_nat k < 4294967296.

Record svc_inv (fs : list (list Z -> list Z)) (gsc : list Z) (k : nat) (st : svc) (t : list row) : Prop := {
  vi_ledger : exists gss, ledger gsc (sv_sys st) gss;
  vi_rows : Forall2 (shows (smem (sv_sys st))) (sconns (sv_sys st)) t;
  vi_poised : Forall (poised (smem (sv_sys st)) (shub (sv_sys st))) (sconns (sv_sys st));
  vi_quiet : quiet k (smem (sv_sys st)) (shub (sv_sys st));
  vi_synced : Forall (synced (shub (sv_sys st))) (sv_peers st);
  vi_computes : Forall2 (fun p f => computes (st_handler p) f) (sv_peers st) fs;
}.

(** What an operation on a connection does to the rest of the hub. *)
Record same_hub (h h' : Hub) : Prop := {
  sh_nodes : nodes h' = nodes h;
  sh_infos : infos h' = infos h;
  sh_ctrl : cstripe (hctrl h') = cstripe (hctrl h);
  sh_bus : grown (hbus h) (hbus h');
}.

(** ** Chunks are announced *)
Lemma receive_new n cs :
  passes mmap dup cs ->
  receive_all mmap n (transport dup <$> ((fun c => (NewChunkMessage, [Fd c])) <$> cs)) =
    Some (with_chunks n (nchunks n ++ ((fun c => mkChunk (CData c) (-1)) <$> cs))).
Proof using Type.
  revert n. induction cs as [|c cs IH]; intros n Hp.
  { cbn. rewrite app_nil_r. by destruct n. }
  cbn [fmap list_fmap receive_all]. unfold next_message.
  cbn [transport ReceiveMsgWithFDs parse_rights fst snd app fmap list_fmap].
  cbn [handleMessage head default from_option]. change (u8 MsgNewChunk) with MsgNewChunk.
  rewrite decide_True by done.
  rewrite (attach_fds_all mmap [dup (Fd c)] [CData c] []).
  - rewrite IH; [|intros x Hx; apply Hp; by right]. cbn [nchunks with_chunks app fmap list_fmap].
    unfold with_chunks. cbn. by rewrite <- app_assoc.
  - constructor; [|constructor]. apply Hp. left.
Qed.

Lemma announce_synced h h' p :
  same_hub h h' -> bus_wf (hbus h) -> passes mmap dup (chunks (hbus h')) -> synced h p ->
  synced h' (announce (hbus h) (hbus h') p).
Proof using Type.
  intros [Hn Hi Hc [Hwf' (extra & Hch & Hap)]] Hwf Hp [(a & ni & H1 & H2 & H3 & H4 & H5 & H6 & H7) Hl].
  pose proof (bus_count _ Hwf) as Hb. pose proof (bus_chunks _ Hwf) as Hb1.
  pose proof (bus_chunks _ Hwf') as Hb2. rewrite Hch, length_app in Hb2.
  unfold announce. rewrite Hap, drop_app_length. rewrite receive_new.
  2: { intros c Hin. apply Hp. rewrite Hch. apply elem_of_app. by right. }
  cbn [default from_option id]. split; cbn [st_node st_name nchunks with_chunks nodeID nctrl].
  - exists a, ni. rewrite Hn, Hi, Hc. split_and!; try done; try lia. cbn [nchunks with_chunks].
    intros k Hk. destruct (decide (k < chunkCount (hbus h))) as [Hlt|Hge].
    + destruct (H7 k) as (c & Hk1 & Hk2); [lia|]. exists c. split; [|done]. by apply lookup_app_l_Some.
    + destruct (lookup_lt_is_Some_2 extra (Z.to_nat (k - chunkCount (hbus h)))) as [c Hx]; [lia|].
      exists (mkChunk (CData c) (-1)). split.
      * rewrite lookup_app_r by lia. rewrite list_lookup_fmap.
        replace (Z.to_nat k - length (nchunks (st_node p)))%nat
          with (Z.to_nat (k - chunkCount (hbus h))) by lia. by rewrite Hx.
      * cbn [CData]. rewrite (bus_data _ Hwf' (Z.to_nat k) c); [by rewrite Z2Nat.id by lia|].
        rewrite Hch, lookup_app_r by lia.
        by replace (Z.to_nat k - length (chunks (hbus h)))%nat
          with (Z.to_nat (k - chunkCount (hbus h))) by lia.
  - rewrite length_app, length_fmap. lia.
Qed.

(** ** What the hub keeps *)

Context `{!ChunkSource mk}.

Lemma same_hub_bus h b' : grown (hbus h) b' -> same_hub h (with_bus h b').
Proof using Type. by split. Qed.

Lemma Request_same m h bc ch : bus_wf (hbus h) -> yields (fun r => same_hub h r.1.2) (Request mk m h bc ch true).
Proof using ChunkSource0.
  intros Hwf. unfold Request.
  eapply (yields_bind (fun r => grown (hbus h) r.1.2)).
  { by apply AllocStripe_grown. }
  intros [[m1 b1] [e|s]] Hg; cbn [fst snd] in *; [by apply yields_ret, same_hub_bus|].
  unfold allocSlot. case_decide; [done|].
  eapply (yields_bind (fun a => same_hub h a.1.2)).
  - eapply (yields_bind (fun r => cstripe r.1.2 = cstripe (hctrl h))).
    { unfold AllocSlot. eapply yields_bind; [apply yields_any|]. intros a _. by apply yields_ret. }
    intros [[m2 c2] [slot [|]]] Hcs; cbn [fst snd] in *; [|by apply yields_ret].
    do 3 (eapply yields_bind; [apply yields_any|]; intros ? _). by apply yields_ret.
  - intros [[m2 h2] [e|slot]] Hs; cbn [fst snd] in *; [|by apply yields_ret].
    eapply (yields_bind (grown (hbus h2))).
    { apply free_seq_grown, (sh_bus _ _ Hs). }
    intros b2 Hg2. apply yields_ret. cbn. destruct Hs as [S1 S2 S3 S4]. split; try done.
    cbn. by eapply grown_trans.
Qed.

Lemma Write_same m h c data :
  bus_wf (hbus h) -> yields (fun r => grown (hbus h) r.1.1.2) (conn_Write mk m (hbus h) c data).
Proof using ChunkSource0.
  intros Hwf. unfold conn_Write, conn_WriteAt, ensureCapacity.
  eapply (yields_bind (fun r => grown (hbus h) r.1.1.2)).
  - eapply (yields_bind (fun r => grown (hbus h) r.1.1.2)).
    + eapply yields_bind; [apply yields_any|]. intros s _.
      case_decide; [by apply yields_ret, grown_refl|].
      eapply (yields_bind (fun r => grown (hbus h) r.1.1.2)).
      { by apply AllocBlocksForStripe_grown. }
      intros [[[m1 b1] s1] e1] Hg. by apply yields_ret.
    + intros [[[m1 b1] c1] [e|]] Hg; cbn [fst snd] in *; [by apply yields_ret|].
      do 2 (eapply yields_bind; [apply yields_any|]; intros ? _).
      repeat case_match. by apply yields_ret.
  - intros [[[m1 b1] c1] [n [e|]]] Hg; by apply yields_ret.
Qed.

Lemma Close_same m h c : bus_wf (hbus h) -> yields (fun r => same_hub h r.1.2) (Close m h c).
Proof using Type.
  intros Hwf. unfold Close. eapply yields_bind; [apply yields_any|]. intros s _.
  eapply (yields_bind (grown (hbus h))); [by apply free_seq_grown|].
  intros b' Hg. case_decide; [|by apply yields_ret, same_hub_bus].
  do 2 (eapply yields_bind; [apply yields_any|]; intros ? _). by apply yields_ret.
Qed.
(** ** The invariant is kept *)

Context (fs : list (list Z -> list Z)) (gsc : list Z).

Lemma rows_kept m m' cs t :
  (forall c s, c ∈ cs -> cnStripe c = Some s -> stripe_data m' s = stripe_data m s) ->
  Forall2 (shows m) cs t -> Forall2 (shows m') cs t.
Proof using Type.
  intros Hd H. induction H as [|c r cs t (s & H1 & H2 & H3) _ IH]; constructor.
  - exists s. rewrite (Hd c s); [done|left|done].
  - apply IH. intros c' s' Hc'. apply Hd. by right.
Qed.

Lemma rows_update m m' cs t i c' r' :
  (forall j c s, j <> i -> cs !! j = Some c -> cnStripe c = Some s -> stripe_data m' s = stripe_data m s) ->
  Forall2 (shows m) cs t -> shows m' c' r' -> Forall2 (shows m') (<[i := c']> cs) (<[i := r']> t).
Proof using Type.
  intros Hd H Hs. apply Forall2_lookup. intros j. pose proof (Forall2_length _ _ _ H) as Hlen.
  destruct (decide (i = j)) as [<-|Hne].
  - destruct (decide (i < length cs)%nat) as [Hlt|Hge].
    + rewrite !list_lookup_insert_eq by lia. by constructor.
    + rewrite !lookup_ge_None_2 by (rewrite length_insert; lia). constructor.
  - rewrite !list_lookup_insert_ne by done.
    pose proof (proj1 (Forall2_lookup _ _ _) H j) as Hj. destruct (cs !! j) as [c|] eqn:Ec; inversion Hj
      as [? r (s & H1 & H2 & H3)|]; subst; constructor.
    exists s. rewrite (Hd j c s); done.
Qed.

Lemma slots_differ st gss i j c c' :
  ledger gsc st gss -> sconns st !! i = Some c -> sconns st !! j = Some c' -> j <> i -> slotID c <> slotID c'.
Proof using Type.
  intros Hl Hi Hj Hne E. apply Hne. eapply (NoDup_lookup (slotID <$> sconns st)); [apply Hl| |].
  - rewrite list_lookup_fmap, Hj. reflexivity.
  - rewrite list_lookup_fmap, Hi. cbn. by rewrite E.
Qed.

Lemma ledger_poised m h cs gss c :
  ledger gsc (mkSys m h cs) gss -> c ∈ cs -> 1 <= slotID c <= MaxTotalSlots.
Proof using Type.
  intros Hl Hc. apply list_elem_of_lookup in Hc as [i Hi].
  destruct (Forall2_lookup_l _ _ _ _ _ (lg_live _ _ _ Hl) Hi) as (gs & _ & Hlv). apply Hlv.
Qed.

Lemma svc_carry k m h cs ps t m' h' cs' t' gss' :
  svc_inv fs gsc k (mkSvc (mkSys m h cs) ps) t -> same_hub h h' -> passes mmap dup (chunks (hbus h')) ->
  ledger gsc (mkSys m' h' cs') gss' ->
  (forall f, field_ok f -> (forall i, slot_field i f -> i ∈ slotID <$> cs /\ i ∈ slotID <$> cs') ->
     fread m' (hctrl h') f = fread m (hctrl h) f) ->
  Forall2 (shows m') cs' t' ->
  (forall c', c' ∈ cs' -> (exists c, c ∈ cs /\ slotID c = slotID c' /\ cnDone c' = cnDone c) \/ poised m' h' c') ->
  svc_inv fs gsc k (settle m' h h' cs' ps) t'.
Proof using Type.
  intros [[gss Hl] _ Hpo Hq Hsy Hco] Hsame Hpass Hl' Hf Hrows Hold. cbn [sv_sys sv_peers smem shub sconns] in *.
  pose proof (lg_hub _ _ _ Hl) as Hh. cbn in Hh.
  assert (Hbl : Blocks (cstripe (hctrl h')) = Blocks (cstripe (hctrl h))) by (by rewrite (sh_ctrl _ _ Hsame)).
  split; cbn [settle sv_sys sv_peers smem shub sconns].
  - by exists gss'.
  - done.
  - apply Forall_forall. intros c' Hc'. destruct (Hold c' Hc') as [(c & Hc & Hs & Hd)|Hp]; [|done].
    rewrite Forall_forall in Hpo. destruct (Hpo c Hc) as [H1 H2]. split; [by rewrite Hd|].
    rewrite Hf; [by rewrite <- Hs| |].
    + cbn. exact (ledger_poised _ _ _ _ _ Hl' Hc').
    + intros i Hi. cbn in Hi. subst i. split; apply list_elem_of_fmap; [exists c|exists c']; done.
  - intros q Hqr. destruct (Hq q Hqr) as (hd & Hr & Hw). exists hd. split; [|done].
    apply (queue_repr_view (hctrl h)); [done|]. eapply queue_repr_ext; [done| |exact Hr].
    intros f Hok Hqf. rewrite <- (fread_view (hctrl h) (hctrl h') Hbl). apply Hf; [done|].
    intros i Hi. destruct f; simpl in *; done.
  - apply Forall_fmap. eapply Forall_impl; [exact Hsy|]. intros p Hp. cbn.
    by apply announce_synced; [|apply Hh|..].
  - apply Forall2_fmap_l. eapply Forall2_impl; [exact Hco|]. done.
Qed.

Lemma svc_inv_mono k st t : svc_inv fs gsc (S k) st t -> svc_inv fs gsc k st t.
Proof using Type.
  intros [H1 H2 H3 H4 H5 H6]. split; try done. intros q Hq. destruct (H4 q Hq) as (hd & Hr & Hw).
  exists hd. split; [done|lia].
Qed.

(** The other connections keep their rows. *)
Lemma isolated_rows st o st' gss i c j c' s :
  ledger gsc st gss -> isolated st o st' -> acted st o = Some (slotID c) -> sconns st !! i = Some c ->
  j <> i -> sconns st !! j = Some c' -> cnStripe c' = Some s ->
  stripe_data (smem st') s = stripe_data (smem st) s.
Proof using Type.
  intros Hl Hiso Ha Hi Hne Hj Hs. eapply Hiso; [by eapply list_elem_of_lookup_2|done|].
  rewrite Ha. intros [= E]. by eapply (slots_differ st gss i j c c').
Qed.

Lemma svc_request k st t bc ch :
  svc_inv fs gsc (S k) st t -> call_ok fs st (SRequest bc ch) ->
  exists st' a, perform st (SRequest bc ch) = Ret (st', a) /\ (a = RErr -> short st (SRequest bc ch)) /\
    (kernel_ok st' -> exists t', svc_inv fs gsc k st' t' /\ spec fs t (SRequest bc ch) a t').
Proof using ChunkSource0.
  intros Hinv%svc_inv_mono Hok. destruct st as [[m h cs] ps]. pose proof (vi_ledger _ _ _ _ _ Hinv) as [gss Hl].
  cbn [sv_sys call_ok] in *. pose proof (lg_hub _ _ _ Hl) as Hh. cbn in Hh.
  destruct (step_request mk gsc _ gss bc ch Hl Hok) as (st1 & gss1 & E1 & Hl1 & Hiso).
  destruct Hok as [Hbc Hlt]. pose proof (lg_limit _ _ _ Hl) as Hlim. cbn in Hlim, Hlt.
  destruct (Request_spec mk m h gsc bc ch Hh ltac:(lia) Hbc (idle_exists _ _ _ Hl Hlt))
    as (m' & h' & r & E & Hr).
  pose proof (Request_same m h bc ch (hw_bus _ _ Hh) _ E) as Hsame. cbn [fst snd] in Hsame.
  cbn [exec perform] in *. rewrite E, bind_ret in *. destruct r as [e|c].
  - injection E1 as <-. eexists _, _. split; [reflexivity|]. split; [intros _; apply Hr|].
    intros Hker. exists t. split; [|constructor]. destruct Hr as (-> & _). apply (svc_carry k m h cs ps t m _ cs t gss1); try done.
    + intros f _ _. apply fread_cstripe, Hsame.
    + apply Hinv.
    + intros c' Hc'. left. by exists c'.
  - injection E1 as <-. eexists _, _. split; [reflexivity|]. split; [done|]. intros Hker.
    exists (mkRow [] 0 0 :: t). split; [|constructor].
    destruct Hr as (s & gs & slot & -> & Hh' & Hcok & HD & _ & _ & Hsl & Hidle & Hst & _ & Hoth & _).
    rewrite (GetStripeStatus_field _ (wf_ctrl _ _ Hh')) in Hst by done. injection Hst as Hst.
    apply (svc_carry k m h cs ps t m' h' _ _ gss1); try done.
    + intros f Hf Hi. apply Hoth; [done|]. intros Hsf. destruct (Hi slot Hsf) as [Hin _].
      apply list_elem_of_fmap in Hin as (c0 & -> & Hc0). apply list_elem_of_lookup in Hc0 as [j Hj].
      destruct (Forall2_lookup_l _ _ _ _ _ (lg_live _ _ _ Hl) Hj) as (gs0 & _ & Hlv).
      by apply (lv_busy _ _ _ _ Hlv).
    + constructor.
      * exists s. split; [done|]. unfold stripe_data. rewrite HD. cbn. done.
      * eapply rows_kept; [|apply Hinv]. intros c0 s0 Hc0 Hs0. by apply (Hiso c0 s0).
    + intros c' [->|Hc']%elem_of_cons; [|left; by exists c'].
      right. split; [by eexists|]. by right.
Qed.
(** A connection of the ledger, with what growing it leaves of the control
    stripe, and what happens when it changes in place. *)
Lemma conn_books m h cs gss i c :
  ledger gsc (mkSys m h cs) gss -> cs !! i = Some c ->
  exists gs, live m h c gs /\ (forall g, g ∈ gs -> g ∈ gsc -> False) /\
    (forall s m' b' s' gs' f, took m (hbus h) s gs m' b' s' gs' -> field_ok f ->
       fread m' (hctrl h) f = fread m (hctrl h) f) /\
    (forall j c1 s1 m', mem_frame (in_gs (gsc ++ gs)) m m' -> j <> i -> cs !! j = Some c1 ->
       cnStripe c1 = Some s1 -> stripe_data m' s1 = stripe_data m s1) /\
    (forall m' h' c', hub_wf h' gsc -> hbus h' = hbus h -> hctrl h' = hctrl h -> limit h' = limit h ->
       slotID c' = slotID c -> live m' h' c' gs -> mem_frame (in_gs (gsc ++ gs)) m m' ->
       (forall fl, field_ok fl -> (exists i, i <> slotID c /\ slot_field i fl) ->
          fread m' (hctrl h) fl = fread m (hctrl h) fl) ->
       ledger gsc (mkSys m' h' (<[i := c']> cs)) gss).
Proof using Type.
  intros Hl Hi. destruct (ledger_split gsc m h cs gss i c Hl Hi)
    as (cs1 & cs2 & gs & gss1 & gss2 & -> & -> & -> & Hlv & Hl1 & Hl2 & Hdis & Hslots).
  assert (Hrest : forall g, g ∈ concat (gss1 ++ gss2) -> g ∈ gsc ++ gs -> False).
  { intros g Hg [Hg'|Hg']%elem_of_app; [by eapply rest_apart|]. apply (Hdis g Hg'), elem_of_app. by right. }
  exists gs. split; [done|]. split; [|split; [|split]].
  - intros g Hg Hg'. apply (Hdis g Hg), elem_of_app. by left.
  - intros s m' b' s' gs' f Htk Hf. by eapply gr_field.
  - intros j c1 s1 m' Hfr Hne Hj Hs1.
    assert (Hc1 : c1 ∈ cs1 ++ c :: cs2) by (by eapply list_elem_of_lookup_2).
    assert (Hin : c1 ∈ cs1 ++ cs2).
    { rewrite elem_of_app, elem_of_cons in Hc1. rewrite elem_of_app. destruct Hc1 as [|[->|]]; [by left| |by right].
      exfalso. by apply (slots_differ _ _ _ _ _ _ Hl Hi Hj Hne). }
    eapply (isolated_rest gsc m h cs1 c cs2 m' (cs1 ++ cs2)); try done.
    + intros c2 gs2 Hc2 Hlv2 _ g Hg. apply Hrest.
      by eapply blocks_rest; [exact Hl|by eapply Forall2_length|exact Hslots|..].
    + apply not_eq_sym. by apply Hslots.
  - intros m' h' c' Hh' Hb Hc Hlm Hsl Hlv' Hfr Hf. pose proof (lg_hub _ _ _ Hl) as Hh. cbn in Hh.
    rewrite (insert_app_r_alt cs1 _ (length cs1)), Nat.sub_diag by done. cbn [insert list_insert].
    assert (Hr : Forall2 (live m' h') (cs1 ++ cs2) (gss1 ++ gss2)).
    { apply (lives_kept m h gsc m' h' gsc _ _ (gsc ++ gs)); try done; [by rewrite Hc|by apply Forall2_app| |].
      - intros g Hg. rewrite Hb. apply (rest_in gsc m h cs1 c cs2 gss1 gs gss2 g Hl), elem_of_app. by right.
      - intros c1 f Hc1 Hok Hsf. rewrite Hc. apply Hf; [done|]. exists (slotID c1). split; [by apply Hslots|done]. }
    apply Forall2_app_inv in Hr as [Hr1 Hr2]; [|by eapply Forall2_length].
    destruct Hl as [L1 L2 L3 L4 L5 L6 L7]. cbn [smem shub sconns] in *.
    split; cbn [smem shub sconns]; rewrite ?Hb, ?Hc; try done.
    + apply Forall2_app; [done|]. by constructor.
    + rewrite fmap_app in *. cbn in *. by rewrite Hsl.
    + rewrite Hlm, L6, !length_app. done.
    + intros j Hj Hn. rewrite fmap_app in Hn. cbn in Hn. rewrite Hsl in Hn.
      rewrite Hf; [apply L7; [done|by rewrite fmap_app]|done|]. exists j. split; [|done].
      intros ->. apply Hn. rewrite elem_of_app, elem_of_cons. tauto.
Qed.

Lemma svc_write k st t i data :
  svc_inv fs gsc (S k) st t -> call_ok fs st (SWrite i data) ->
  exists st' a, perform st (SWrite i data) = Ret (st', a) /\ (a = RErr -> short st (SWrite i data)) /\
    (kernel_ok st' -> exists t', svc_inv fs gsc k st' t' /\ spec fs t (SWrite i data) a t').
Proof using ChunkSource0.
  intros Hinv%svc_inv_mono (c & Hi & Hfit). destruct st as [[m h cs] ps]. cbn [sv_sys sconns] in *.
  pose proof (vi_ledger _ _ _ _ _ Hinv) as [gss Hl]. cbn [sv_sys] in Hl.
  pose proof (lg_hub _ _ _ Hl) as Hh. cbn in Hh.
  destruct (step_write mk gsc _ gss i data Hl) as (st1 & gss1 & E1 & Hl1 & Hiso).
  { intros c0 Hc0. cbn in Hc0. by assert (c0 = c) as -> by congruence. }
  destruct (Forall2_lookup_l _ _ _ _ _ (vi_rows _ _ _ _ _ Hinv) Hi)
    as (r & Hr & s & Hs & Hd & Hw & Hro & Hwb & Hrb). cbn [sv_sys smem] in Hd.
  destruct (conn_books m h cs gss i c Hl Hi) as (gs & Hlv & _ & Hfld & _).
  destruct (lv_conn _ _ _ _ Hlv) as (s0 & Hcok & _). cbn [smem shub] in Hcok.
  assert (s0 = s) as -> by (pose proof (co_stripe _ _ _ _ _ Hcok); congruence).
  pose proof (sb_len _ _ _ (co_backed _ _ _ _ _ Hcok)) as Hsl.
  assert (Hlen : Z.of_nat (length (r_data r)) = DataLen s)
    by (rewrite <- Hd; unfold stripe_data; rewrite length_data_bytes; lia).
  destruct (conn_Write_splices mk m (hbus h) c s gs data (hw_bus _ _ Hh) Hcok ltac:(lia) Hfit)
    as (m' & b' & c' & n & err & E & Hwf' & Hrest).
  pose proof (same_hub_bus h b' (Write_same m h c data (hw_bus _ _ Hh) _ E)) as Hsame.
  cbn [exec perform] in *. rewrite (go_index_lookup _ _ c), bind_ret by (rewrite ?Nat2Z.id; done || lia).
  rewrite Hi, E, bind_ret in E1. rewrite E, bind_ret. injection E1 as <-.
  eexists _, _. split; [reflexivity|]. split.
  { destruct err; [|done]. intros _. exists c, s. split; [done|]. split; [done|]. apply Hrest. }
  intros Hker. destruct err as [e|].
  - destruct Hrest as (-> & -> & _). exists t. split; [|constructor].
    rewrite list_insert_id in * by done.
    apply (svc_carry k m h cs ps t m _ cs t gss1); try done; [apply Hinv|].
    intros c' Hc'. left. by exists c'.
  - destruct Hrest as (s' & gs' & Hok' & Htk & Hw' & Hsl' & Hro' & Hdn' & Hd').
    eexists. split; [|by apply (sp_write fs t i data r)].
    apply (svc_carry k m h cs ps t m' _ _ _ gss1); try done.
    + intros f Hf _. by eapply Hfld.
    + eapply (rows_update m); [|apply Hinv|].
      * intros j c0 s0 Hne Hj Hs0. eapply (isolated_rows _ _ _ gss i c j c0 s0 Hl Hiso); try done.
        cbn. by rewrite Hi.
      * exists s'. rewrite Hd', <- Hd, Hw', Hro', Hw, Hro. split; [apply Hok'|]. split_and!; try done; cbn.
        -- lia.
        -- unfold splice. rewrite Hd, !length_app, length_take, length_drop. lia.
    + intros c1 Hc1. left. apply list_elem_of_lookup in Hc1 as [j Hj].
      apply list_lookup_insert_Some in Hj as [(<- & <- & _)|[_ Hj]].
      * exists c. split; [by eapply list_elem_of_lookup_2|]. by rewrite Hsl', Hdn'.
      * exists c1. split; [by eapply list_elem_of_lookup_2|done].
Qed.
(** The connection behind a call, its row and its stripe. *)
Lemma conn_row k m h cs ps t gss i c :
  svc_inv fs gsc k (mkSvc (mkSys m h cs) ps) t -> ledger gsc (mkSys m h cs) gss -> cs !! i = Some c ->
  forall gs, live m h c gs -> exists r s, t !! i = Some r /\ shows m c r /\ cnStripe c = Some s /\
    conn_ok m (hbus h) c s gs /\ registered m (hctrl h) (slotID c) s /\ stripe_data m s = r_data r /\
    Z.of_nat (length (r_data r)) = DataLen s.
Proof using Type.
  intros Hinv Hl Hi gs Hlv.
  destruct (Forall2_lookup_l _ _ _ _ _ (vi_rows _ _ _ _ _ Hinv) Hi) as (r & Hr & Hsh). cbn [sv_sys smem] in Hsh.
  destruct (lv_conn _ _ _ _ Hlv) as (s & Hcok & Hreg). exists r, s. pose proof Hsh as (s0 & Hs & Hd & _).
  assert (s0 = s) as -> by (pose proof (co_stripe _ _ _ _ _ Hcok); congruence). split_and!; try done.
  pose proof (sb_len _ _ _ (co_backed _ _ _ _ _ Hcok)). rewrite <- Hd. unfold stripe_data.
  rewrite length_data_bytes. lia.
Qed.

Lemma svc_close k st t i :
  svc_inv fs gsc (S k) st t -> call_ok fs st (SClose i) ->
  exists st' a, perform st (SClose i) = Ret (st', a) /\
    (kernel_ok st' -> exists t', svc_inv fs gsc k st' t' /\ spec fs t (SClose i) a t').
Proof using Type.
  intros Hinv%svc_inv_mono Hok. destruct st as [[m h cs] ps]. cbn [sv_sys sconns call_ok] in *.
  destruct (lookup_lt_is_Some_2 cs i Hok) as [c Hi].
  pose proof (vi_ledger _ _ _ _ _ Hinv) as [gss Hl]. cbn [sv_sys] in Hl.
  pose proof (lg_hub _ _ _ Hl) as Hh. cbn in Hh.
  destruct (step_close mk gsc _ gss i Hl) as (st1 & gss1 & E1 & Hl1 & Hiso).
  destruct (conn_books m h cs gss i c Hl Hi) as (gs & Hlv & Hap & _).
  destruct (lv_conn _ _ _ _ Hlv) as (s & Hcok & _).
  destruct (Close_spec m h gsc c s gs Hh Hcok Hap (lv_slot _ _ _ _ Hlv))
    as (m' & h' & c' & E & _ & _ & _ & Hctl & _ & _ & Hoth & _).
  pose proof (Close_same m h c (hw_bus _ _ Hh) _ E) as Hsame. cbn [fst snd] in Hsame.
  cbn [exec perform] in *. rewrite (go_index_lookup _ _ c), bind_ret by (rewrite ?Nat2Z.id; done || lia).
  rewrite Hi, E, bind_ret in E1. rewrite E, bind_ret. injection E1 as <-.
  eexists _, _. split; [reflexivity|]. intros Hker. eexists. split; [|constructor].
  assert (Hdel : forall c1, c1 ∈ delete i cs -> exists j, j <> i /\ cs !! j = Some c1).
  { intros c1 Hc1. apply list_elem_of_lookup in Hc1 as [j Hj]. destruct (decide (j < i)%nat) as [Hlt|Hge].
    - rewrite list_lookup_delete_lt in Hj by done. exists j. split; [lia|done].
    - rewrite list_lookup_delete_ge in Hj by lia. exists (S j). split; [lia|done]. }
  apply (svc_carry k m h cs ps t m' _ _ _ gss1); try done.
  - intros f Hf Hin. rewrite Hctl. apply Hoth; [done|]. intros ->.
    destruct (Hin (slotID c) eq_refl) as [_ Hs]. apply list_elem_of_fmap in Hs as (c1 & Es & Hc1).
    destruct (Hdel c1 Hc1) as (j & Hne & Hj). by apply (slots_differ _ _ _ _ _ _ Hl Hi Hj Hne).
  - apply (rows_kept m); [|by apply Forall2_delete, Hinv]. intros c1 s1 Hc1 Hs1.
    destruct (Hdel c1 Hc1) as (j & Hne & Hj).
    eapply (isolated_rows _ _ _ gss i c j c1 s1 Hl Hiso); try done. cbn. by rewrite Hi.
  - intros c1 Hc1. left. exists c1. destruct (Hdel c1 Hc1) as (j & _ & Hj).
    split; [by eapply list_elem_of_lookup_2|done].
Qed.

Lemma svc_read k st t i n :
  svc_inv fs gsc (S k) st t -> call_ok fs st (SRead i n) ->
  exists st' a t', perform st (SRead i n) = Ret (st', a) /\
    svc_inv fs gsc k st' t' /\ spec fs t (SRead i n) a t'.
Proof using Type.
  intros Hinv%svc_inv_mono Hok. destruct st as [[m h cs] ps]. cbn [sv_sys sconns call_ok] in *.
  destruct (lookup_lt_is_Some_2 cs i Hok) as [c Hi].
  pose proof (vi_ledger _ _ _ _ _ Hinv) as [gss Hl]. cbn [sv_sys] in Hl.
  pose proof (lg_hub _ _ _ Hl) as Hh. cbn in Hh.
  destruct (conn_books m h cs gss i c Hl Hi) as (gs & Hlv & _ & _ & _ & Hrepl).
  destruct (conn_row k m h cs ps t gss i c Hinv Hl Hi gs Hlv)
    as (r & s & Hr & (s0 & _ & _ & Hw & Hro & Hwb & Hrb) & Hs & Hcok & Hreg & Hd & Hlen).
  cbn [perform]. rewrite (go_index_lookup _ _ c), bind_ret by (rewrite ?Nat2Z.id; done || lia).
  destruct (decide (readOff c < DataLen s)) as [Hlt|Hge].
  - rewrite (conn_Read_data m (hbus h) c s gs _ (hw_bus _ _ Hh) Hcok ltac:(lia)), bind_ret, length_replicate.
    set (n' := Z.min _ _). set (out := take n (drop (Z.to_nat (r_roff r)) (r_data r))).
    assert (Hout : out = take (Z.to_nat n') (drop (Z.to_nat (readOff c)) (stripe_data m s))).
    { unfold out. rewrite Hd, Hro. destruct (decide (Z.of_nat n <= DataLen s - readOff c)) as [Hle|Hgt].
      - f_equal. lia.
      - rewrite !take_ge by (rewrite length_drop; lia). done. }
    assert (Hn' : n' = Z.of_nat (length out)).
    { rewrite Hout, length_take, length_drop, Hd. lia. }
    eexists _, _, (<[i := mkRow (r_data r) (r_woff r) (r_roff r + n')]> t). split; [reflexivity|].
    rewrite take_app_le, take_take, Nat.min_id, <- Hout by (rewrite <- Hout; lia).
    split; [|rewrite Hn'; apply (sp_read fs t i n r); [done|lia]].
    destruct Hinv as [_ V2 V3 V4 V5 V6]. split; cbn [sv_sys sv_peers smem shub sconns] in *; try done.
    + exists gss. apply Hrepl; try done.
      destruct Hlv as [A1 A2 A3 (s1 & [B1 B2 B3 B4 B5] & A4)]. split; try done. exists s1. split; [by split|done].
    + apply (rows_update m m); [done|done|]. exists s. cbn. rewrite Hd, Hro. split_and!; try done; lia.
    + apply Forall_insert; [done|]. rewrite Forall_lookup in V3. exact (V3 _ _ Hi).
  - unfold conn_Read, conn_ReadAt, the_stripe. rewrite Hs, bind_ret. unfold ReadAt.
    rewrite decide_False, decide_True, !bind_ret by lia.
    rewrite list_insert_id by done. eexists _, _, t. split; [reflexivity|]. split; [done|].
    apply (sp_read_end fs t i n r); [done|lia].
Qed.

Lemma svc_next k st t i j ch :
  svc_inv fs gsc (S k) st t -> call_ok fs st (SNext i j ch) ->
  exists st' a t', perform st (SNext i j ch) = Ret (st', a) /\
    svc_inv fs gsc k st' t' /\ spec fs t (SNext i j ch) a t'.
Proof using Type.
  intros Hinv (c & s & f & Hi & Hs & Hf & Hfit). destruct st as [[m h cs] ps].
  cbn [sv_sys sconns smem] in *. pose proof (vi_ledger _ _ _ _ _ Hinv) as [gss Hl]. cbn [sv_sys] in Hl.
  pose proof (lg_hub _ _ _ Hl) as Hh. cbn in Hh.
  destruct (conn_books m h cs gss i c Hl Hi) as (gs & Hlv & Hap & _ & Hkeep & Hrepl).
  destruct (conn_row _ m h cs ps t gss i c Hinv Hl Hi gs Hlv)
    as (r & s0 & Hr & _ & Hs0 & Hcok & Hreg & Hd & _). assert (s0 = s) as -> by congruence.
  destruct (Forall2_lookup_r _ _ _ _ _ (vi_computes _ _ _ _ _ Hinv) Hf) as (p & Hp & Hcomp). cbn in Hp.
  destruct Hinv as [_ V2 V3 V4 V5 V6]. cbn [sv_sys sv_peers smem shub sconns] in *.
  pose proof (proj1 (Forall_lookup _ _) V3 _ _ Hi) as [Hdn Hst].
  pose proof (proj1 (Forall_lookup _ _) V5 _ _ Hp) as [Hcon Hpl].
  destruct (exchange_ready (st_handler p) f m h gsc (st_node p) c s gs (st_name p) ch k)
    as (m' & h' & c' & E & Hrd & Hd' & Hb & Hc & Hlm & Hsl & Hro & Hwo & Hconk & Hfld & Hfr); try done.
  { split; try done. apply Hlv. }
  cbn [perform]. rewrite (go_index_lookup _ _ c), bind_ret by (rewrite ?Nat2Z.id; done || lia).
  rewrite (go_index_lookup _ _ p), bind_ret by (rewrite ?Nat2Z.id; done || lia). rewrite E, bind_ret.
  eexists _, _, _. split; [reflexivity|]. split; [|by apply (sp_next fs t i j ch r f)].
  assert (Hps : <[j := mkStage (st_name p) (st_node p) (st_handler p)]> ps = ps)
    by (apply list_insert_id; rewrite Hp; by destruct p).
  rewrite Hps. pose proof Hrd as [R1 R2 R3 R4 R5 R6 R7 R8].
  assert (Hout : Z.of_nat (length (f (stripe_data m s))) = Z.of_nat (length (f (r_data r)))) by (by rewrite Hd).
  split; cbn [sv_sys sv_peers smem shub sconns]; try done.
  - exists gss. apply Hrepl; try done. split; [done|lia| |by eexists].
    destruct R7 as [-> | ->]; done.
  - apply (rows_update m); [intros; by eapply Hkeep|done|].
    eexists. split; [apply R2|]. rewrite Hd', Hd, Hro, Hwo. cbn. split_and!; try done; lia.
  - apply Forall_lookup. intros j' c1 Hj'.
    apply list_lookup_insert_Some in Hj' as [(<- & <- & _)|[Hne Hj']]; [by split|].
    pose proof (proj1 (Forall_lookup _ _) V3 _ _ Hj') as [Hdn1 Hst1]. split; [done|].
    rewrite Hc, Hfld; [done| |].
    + apply (ledger_poised m h cs gss c1 Hl). by eapply list_elem_of_lookup_2.
    + exists (slotID c1). split; [|done]. apply not_eq_sym. by eapply (slots_differ _ gss i j' c c1 Hl).
  - eapply Forall_impl; [exact V5|]. intros q [Hq1 Hq2]. split; [by apply Hconk|by rewrite Hb].
Qed.
Lemma svc_step k st t o :
  svc_inv fs gsc (S k) st t -> call_ok fs st o ->
  exists st' a, perform st o = Ret (st', a) /\ (a = RErr -> short st o) /\
    (kernel_ok st' -> exists t', svc_inv fs gsc k st' t' /\ spec fs t o a t').
Proof using ChunkSource0.
  intros Hinv Hok. destruct o as [bc ch|i data|i n|i j ch|i].
  - by apply svc_request.
  - by apply svc_write.
  - destruct (svc_read k st t i n Hinv Hok) as (st' & a & t' & E & H). exists st', a. split; [done|].
    split; [done|]. intros _. by exists t'.
  - destruct (svc_next k st t i j ch Hinv Hok) as (st' & a & t' & E & H). exists st', a. split; [done|].
    split; [done|]. intros _. by exists t'.
  - destruct (svc_close k st t i Hinv Hok) as (st' & a & E & H). by exists st', a.
Qed.

Lemma svc_runs st tr st' : runs fs st tr st' -> forall k t, svc_inv fs gsc (length tr + k) st t ->
  exists t', spec_runs fs t tr t' /\ svc_inv fs gsc k st' t'.
Proof using ChunkSource0.
  induction 1 as [st|st o a st1 tr st2 Hok E Hker _ IH]; intros k t Hinv.
  - exists t. split; [constructor|done].
  - destruct (svc_step _ st t o Hinv Hok) as (st1' & a' & E' & _ & Hs). rewrite E in E'. injection E' as <- <-.
    destruct (Hs Hker) as (t1 & Hinv1 & Hsp). destruct (IH k t1 Hinv1) as (t2 & Hr & Hinv2).
    exists t2. split; [by econstructor|done].
Qed.
End service.

(** A hub on which nothing has been requested, with its nodes, is an empty
    table. *)
Lemma svc_start fs m h ps k :
  untouched m h -> Forall (synced h) ps -> Forall2 (fun p f => computes (st_handler p) f) ps fs ->
  Z.of_nat k < 4294967296 -> svc_inv fs (seqZ 0 256) k (mkSvc (mkSys m h []) ps) [].
Proof.
  intros [Hh Hu Hq Hi Hl] Hs Hc Hk. split; cbn [sv_sys sv_peers smem shub sconns]; try done.
  - exists []. split; cbn; try done.
    + rewrite app_nil_r. apply NoDup_seqZ.
    + intros g Hg. rewrite app_nil_r, Hu by done. apply bool_decide_eq_true.
    + constructor.
    + intros i Hi' _. by apply Hi.
  - intros q Hqr. exists 0. split; [by apply Hq|lia].
Qed.

(** ** Theorems *)

(** C1: The service refines a table of byte strings.  Start from a new hub with
    connected nodes whose handlers compute functions of the data, and make any
    sequence of admissible calls: every one of them returns, and the answers
    are those of a table in which a request adds an empty row, a write splices
    bytes at the row's offset, a read returns the next bytes, [Next] applies
    the node's function and resets the offsets, and a close drops the row.
    Requests and writes may fail, and then change nothing; in any state that
    can be reached a call fails so only if the bus has fewer free blocks than
    it needs.
    At the end each connection holds exactly the bytes of its row.  Chunks
    appended on the way reach the nodes; the bound is that of the 32-bit
    counters of the queues. *)
Theorem service_refines mk mmap dup fs m h ps tr st :
  ChunkSource mk -> untouched m h -> Forall (synced h) ps ->
  Forall2 (fun p f => computes (st_handler p) f) ps fs ->
  runs mk mmap dup fs (mkSvc (mkSys m h []) ps) tr st -> Z.of_nat (length tr) + 1 < 4294967296 ->
  (exists t, spec_runs fs [] tr t /\ Forall2 (shows (smem (sv_sys st))) (sconns (sv_sys st)) t) /\
  forall o, call_ok fs st o ->
    exists st' a, perform mk mmap dup st o = Ret (st', a) /\ (a = RErr -> short st o).
Proof.
  intros Hmk Hu Hs Hc Hr Hb.
  destruct (svc_runs mk mmap dup fs (seqZ 0 256) _ tr st Hr 1 [])
    as (t & Hsp & Hinv); [by apply svc_start; [..|lia]|].
  split; [exists t; split; [done|apply Hinv]|]. intros o Hok.
  destruct (svc_step mk mmap dup fs (seqZ 0 256) 0 st t o Hinv Hok) as (st' & a & E & Hsh & _). by exists st', a.
Qed.

(** The example programs' hub and node, as a service. *)
Definition demo_ack : Node -> Handler := ack_handler (fun k => S (2 * k)) (fun m _ => (m, None)).

Definition demo_start : outcome svc :=
  r ← NewHub demo_mk ∅ (wd_chunk0 demo_world) true;
  match r with
  | (_, inl _) => Panic
  | (m, inr h) =>
      d ← Dial (wd_dial demo_world) 9 7 h "my_node";
      let '(h1, wire, _, _) := d in
      j ← join (wd_mmap demo_world) NewNode (transport (wd_dup demo_world) <$> wire);
      let n := default NewNode j in
      Ret (mkSvc (mkSys m h1 []) [mkStage "my_node" n (demo_ack n)])
  end.

Definition demo_perform := perform demo_mk (wd_mmap demo_world) (wd_dup demo_world).

(** What the run below depends on: the offsets and the chunks. *)
Definition demo_view (st : svc) : list Z * list Chunk :=
  (writeOff <$> sconns (sv_sys st), chunks (hbus (shub (sv_sys st)))).

Lemma demo_kernel st ws :
  demo_view st = (ws, [mkChunk (Slice 0 ChunkSize) 10]) ->
  kernel_ok (wd_mmap demo_world) (wd_dup demo_world) st.
Proof. intros [= _ E] c. rewrite E, list_elem_of_singleton. by intros ->. Qed.

Lemma service_refines_witness :
  exists st0 st1 st2 t, demo_start = Ret st0 /\ demo_perform st0 (SRequest 3 5) = Ret (st1, ROk) /\
    demo_perform st1 (SWrite 0 [4; 5; 6]) = Ret (st2, ROk) /\
    Forall2 (shows (smem (sv_sys st2))) (sconns (sv_sys st2)) t /\ r_data <$> t = [[4; 5; 6]].
Proof.
  destruct (connect_ok demo_world 7 (mkChunk (Slice 0 ChunkSize) 10) 20)
    as (m & h & h1 & wire & n & E1 & E2 & E3 & Hcon & Hln & Hut); try reflexivity.
  set (fs := [fun data => response ++ drop (length response) data]).
  set (ps := [mkStage "my_node" n (demo_ack n)]).
  assert (E0 : demo_start = Ret (mkSvc (mkSys m h1 []) ps)).
  { unfold demo_start. change demo_mk with (wd_mk demo_world). rewrite E1, bind_ret.
    change 9 with (wd_respFd demo_world). rewrite E2, bind_ret, E3, bind_ret. reflexivity. }
  assert (Hv : (st ← demo_start; r1 ← demo_perform st (SRequest 3 5);
      r2 ← demo_perform r1.1 (SWrite 0 [4; 5; 6]);
      Ret (demo_view r1.1, r1.2, demo_view r2.1, r2.2)) =
    Ret (([0], [mkChunk (Slice 0 ChunkSize) 10]), ROk, ([3], [mkChunk (Slice 0 ChunkSize) 10]), ROk))
    by (vm_compute; reflexivity).
  rewrite E0, bind_ret in Hv. apply bind_ret_inv in Hv as ([st1 a1] & F1 & Hv).
  apply bind_ret_inv in Hv as ([st2 a2] & F2 & Hv). cbn [fst snd] in F2, Hv. injection Hv as V1 V1' -> V2 V2' ->.
  exists (mkSvc (mkSys m h1 []) ps), st1, st2.
  destruct (service_refines demo_mk (wd_mmap demo_world) (wd_dup demo_world) fs m h1 ps
    [(SRequest 3 5, ROk); (SWrite 0 [4; 5; 6], ROk)] st2) as [(t & Hsp & Hrows) _].
  - exact demo_mk_source.
  - exact Hut.
  - constructor; [|constructor]. split; [exact Hcon|exact Hln].
  - constructor; [|constructor]. apply ack_handler_computes. intros k. lia.
  - apply rn_cons with st1; [cbn; unfold_layout; lia|exact F1| |].
    { apply (demo_kernel st1 [0]). unfold demo_view. by rewrite V1, V1'. }
    apply rn_cons with st2; [|exact F2| |constructor].
    { destruct (sconns (sv_sys st1)) as [|c [|? ?]] eqn:Ec; try discriminate V1.
      exists c. split; [by rewrite Ec|]. injection V1 as ->. cbn. unfold_layout. lia. }
    { apply (demo_kernel st2 [3]). unfold demo_view. by rewrite V2, V2'. }
  - cbn. lia.
  - exists t. split; [exact E0|]. split; [exact F1|]. split; [exact F2|]. split; [exact Hrows|].
    inversion Hsp as [|? ? ? ? ? ? S1 S2]; subst. inversion S1; subst.
    inversion S2 as [|? ? ? ? ? ? S3 S4]; subst. inversion S3 as [| |? ? ? r Hr| | | | |]; subst.
    injection Hr as <-. inversion S4; subst. reflexivity.
Defined.
